(** * ResearchDB view-intelligence core: catalog, schema graph, Steiner solver,
      cosine similarity.

    A shallow embedding of
      - [src/catalog/models.py], [src/catalog/view_catalog.py]
      - [src/graph/schema_graph.py], [src/graph/steiner_tree.py]
      - [src/catalog/semantic_search.py] ([cosine_similarity])
    followed by the properties of the specification that these functions
    decide.

    Conventions.
      - The SQLite table [view_catalog] is a list of rows in rowid order; a
        row carries the columns of the table already deserialised (JSON
        list columns as lists; the dict [steiner_subgraph] as its JSON text;
        the ISO texts of the timestamp columns as integers, for the naive
        datetimes that [datetime.now()] gives, whose texts order like their
        instants).
      - [datetime.now()] is an explicit argument of every function that
        reads the clock, one argument per read.
      - A Python exception is the [Err] case of [result]; a function that
        catches every exception returns its [bool] and the table it left.
      - Edge weights and costs are exact rationals ([Q]); the one floating
        point routine, [cosine_similarity], is written once over an
        arithmetic interface and instantiated at binary64. *)

From Stdlib Require Import String Ascii List Sorted Permutation ZArith QArith Qround.
From Stdlib Require Import Bool Arith Lia Floats.
Import ListNotations.

Local Open Scope string_scope.
Local Open Scope list_scope.

(** ** Exceptions *)

Inductive error : Type :=
| ViewAlreadyExists (name : string)          (* ValueError: View already exists *)
| ValidationError                            (* pydantic, raised by from_db_row *)
| OverflowError                              (* sqlite3: Python int too large for INTEGER *)
| BindingError                               (* sqlite3: parameter of unsupported type *)
| TablesNotInSchema (missing : list string)  (* ValueError: Tables not in schema *)
| TableNotInGraph (name : string)            (* ValueError: Table not in graph *)
| NodeNotFound (name : string)               (* networkx.NodeNotFound *)
| KeyError (name : string)                   (* missing node or attribute *)
| NetworkXPointlessConcept                   (* is_connected on the null graph *)
| NetworkXError                              (* metric closure of a disconnected graph *)
| ShapeError.                                (* numpy: shapes not aligned *)

Inductive result (A : Type) : Type :=
| Ok (a : A)
| Err (e : error).
Arguments Ok {A} a.
Arguments Err {A} e.

Definition bind {A B : Type} (m : result A) (k : A -> result B) : result B :=
  match m with
  | Ok a => k a
  | Err e => Err e
  end.

Notation "x <- m ;; k" := (bind m (fun x => k))
  (at level 61, m at next level, right associativity).

Fixpoint mapM {A B : Type} (f : A -> result B) (l : list A) : result (list B) :=
  match l with
  | [] => Ok []
  | a :: l' => b <- f a ;; bs <- mapM f l' ;; Ok (b :: bs)
  end.

Definition mem (s : string) (l : list string) : bool := existsb (String.eqb s) l.

(** ** View catalog ([src/catalog/models.py], [src/catalog/view_catalog.py]) *)

Definition timestamp : Type := Z.
Bind Scope Z_scope with timestamp.

(** The columns of the [view_catalog] table, one field per field of
    [ViewMetadata]. *)
Record ViewMetadata := mkView {
  view_id : option Z;
  view_name : string;
  layer : Z;
  domain : string;
  description : option string;
  base_tables : list string;
  depends_on_views : list string;
  used_by_views : list string;
  steiner_subgraph : option string;
  created_by_session : option string;
  created_by_role : string;
  created_by_query : option string;
  created_date : option timestamp;
  status : string;
  promoted_date : option timestamp;
  materialized_date : option timestamp;
  usage_count : Z;
  last_used : option timestamp;
  avg_query_time_ms : option Q;
  freshness_type : string;
  last_validated : option timestamp;
  is_valid : bool;
  embedding_id : option string;
  tags : list string;
  view_definition : string;
  approved_by : option string;
  approval_date : option timestamp;
  review_notes : option string
}.

(** Functional update, one definition per column. *)
Definition set_view_id (x : option Z) (v : ViewMetadata) : ViewMetadata :=
  mkView x (view_name v) (layer v) (domain v) (description v) (base_tables v)
    (depends_on_views v) (used_by_views v) (steiner_subgraph v) (created_by_session v)
    (created_by_role v) (created_by_query v) (created_date v) (status v) (promoted_date
    v) (materialized_date v) (usage_count v) (last_used v) (avg_query_time_ms v)
    (freshness_type v) (last_validated v) (is_valid v) (embedding_id v) (tags v)
    (view_definition v) (approved_by v) (approval_date v) (review_notes v).

Definition set_view_name (x : string) (v : ViewMetadata) : ViewMetadata :=
  mkView (view_id v) x (layer v) (domain v) (description v) (base_tables v)
    (depends_on_views v) (used_by_views v) (steiner_subgraph v) (created_by_session v)
    (created_by_role v) (created_by_query v) (created_date v) (status v) (promoted_date
    v) (materialized_date v) (usage_count v) (last_used v) (avg_query_time_ms v)
    (freshness_type v) (last_validated v) (is_valid v) (embedding_id v) (tags v)
    (view_definition v) (approved_by v) (approval_date v) (review_notes v).

Definition set_layer (x : Z) (v : ViewMetadata) : ViewMetadata :=
  mkView (view_id v) (view_name v) x (domain v) (description v) (base_tables v)
    (depends_on_views v) (used_by_views v) (steiner_subgraph v) (created_by_session v)
    (created_by_role v) (created_by_query v) (created_date v) (status v) (promoted_date
    v) (materialized_date v) (usage_count v) (last_used v) (avg_query_time_ms v)
    (freshness_type v) (last_validated v) (is_valid v) (embedding_id v) (tags v)
    (view_definition v) (approved_by v) (approval_date v) (review_notes v).

Definition set_domain (x : string) (v : ViewMetadata) : ViewMetadata :=
  mkView (view_id v) (view_name v) (layer v) x (description v) (base_tables v)
    (depends_on_views v) (used_by_views v) (steiner_subgraph v) (created_by_session v)
    (created_by_role v) (created_by_query v) (created_date v) (status v) (promoted_date
    v) (materialized_date v) (usage_count v) (last_used v) (avg_query_time_ms v)
    (freshness_type v) (last_validated v) (is_valid v) (embedding_id v) (tags v)
    (view_definition v) (approved_by v) (approval_date v) (review_notes v).

Definition set_description (x : option string) (v : ViewMetadata) : ViewMetadata :=
  mkView (view_id v) (view_name v) (layer v) (domain v) x (base_tables v)
    (depends_on_views v) (used_by_views v) (steiner_subgraph v) (created_by_session v)
    (created_by_role v) (created_by_query v) (created_date v) (status v) (promoted_date
    v) (materialized_date v) (usage_count v) (last_used v) (avg_query_time_ms v)
    (freshness_type v) (last_validated v) (is_valid v) (embedding_id v) (tags v)
    (view_definition v) (approved_by v) (approval_date v) (review_notes v).

Definition set_base_tables (x : list string) (v : ViewMetadata) : ViewMetadata :=
  mkView (view_id v) (view_name v) (layer v) (domain v) (description v) x
    (depends_on_views v) (used_by_views v) (steiner_subgraph v) (created_by_session v)
    (created_by_role v) (created_by_query v) (created_date v) (status v) (promoted_date
    v) (materialized_date v) (usage_count v) (last_used v) (avg_query_time_ms v)
    (freshness_type v) (last_validated v) (is_valid v) (embedding_id v) (tags v)
    (view_definition v) (approved_by v) (approval_date v) (review_notes v).

Definition set_depends_on_views (x : list string) (v : ViewMetadata) : ViewMetadata :=
  mkView (view_id v) (view_name v) (layer v) (domain v) (description v) (base_tables v)
    x (used_by_views v) (steiner_subgraph v) (created_by_session v) (created_by_role v)
    (created_by_query v) (created_date v) (status v) (promoted_date v)
    (materialized_date v) (usage_count v) (last_used v) (avg_query_time_ms v)
    (freshness_type v) (last_validated v) (is_valid v) (embedding_id v) (tags v)
    (view_definition v) (approved_by v) (approval_date v) (review_notes v).

Definition set_used_by_views (x : list string) (v : ViewMetadata) : ViewMetadata :=
  mkView (view_id v) (view_name v) (layer v) (domain v) (description v) (base_tables v)
    (depends_on_views v) x (steiner_subgraph v) (created_by_session v) (created_by_role
    v) (created_by_query v) (created_date v) (status v) (promoted_date v)
    (materialized_date v) (usage_count v) (last_used v) (avg_query_time_ms v)
    (freshness_type v) (last_validated v) (is_valid v) (embedding_id v) (tags v)
    (view_definition v) (approved_by v) (approval_date v) (review_notes v).

Definition set_steiner_subgraph (x : option string) (v : ViewMetadata) : ViewMetadata :=
  mkView (view_id v) (view_name v) (layer v) (domain v) (description v) (base_tables v)
    (depends_on_views v) (used_by_views v) x (created_by_session v) (created_by_role v)
    (created_by_query v) (created_date v) (status v) (promoted_date v)
    (materialized_date v) (usage_count v) (last_used v) (avg_query_time_ms v)
    (freshness_type v) (last_validated v) (is_valid v) (embedding_id v) (tags v)
    (view_definition v) (approved_by v) (approval_date v) (review_notes v).

Definition set_created_by_session (x : option string) (v : ViewMetadata) : ViewMetadata :=
  mkView (view_id v) (view_name v) (layer v) (domain v) (description v) (base_tables v)
    (depends_on_views v) (used_by_views v) (steiner_subgraph v) x (created_by_role v)
    (created_by_query v) (created_date v) (status v) (promoted_date v)
    (materialized_date v) (usage_count v) (last_used v) (avg_query_time_ms v)
    (freshness_type v) (last_validated v) (is_valid v) (embedding_id v) (tags v)
    (view_definition v) (approved_by v) (approval_date v) (review_notes v).

Definition set_created_by_role (x : string) (v : ViewMetadata) : ViewMetadata :=
  mkView (view_id v) (view_name v) (layer v) (domain v) (description v) (base_tables v)
    (depends_on_views v) (used_by_views v) (steiner_subgraph v) (created_by_session v) x
    (created_by_query v) (created_date v) (status v) (promoted_date v)
    (materialized_date v) (usage_count v) (last_used v) (avg_query_time_ms v)
    (freshness_type v) (last_validated v) (is_valid v) (embedding_id v) (tags v)
    (view_definition v) (approved_by v) (approval_date v) (review_notes v).

Definition set_created_by_query (x : option string) (v : ViewMetadata) : ViewMetadata :=
  mkView (view_id v) (view_name v) (layer v) (domain v) (description v) (base_tables v)
    (depends_on_views v) (used_by_views v) (steiner_subgraph v) (created_by_session v)
    (created_by_role v) x (created_date v) (status v) (promoted_date v)
    (materialized_date v) (usage_count v) (last_used v) (avg_query_time_ms v)
    (freshness_type v) (last_validated v) (is_valid v) (embedding_id v) (tags v)
    (view_definition v) (approved_by v) (approval_date v) (review_notes v).

Definition set_created_date (x : option timestamp) (v : ViewMetadata) : ViewMetadata :=
  mkView (view_id v) (view_name v) (layer v) (domain v) (description v) (base_tables v)
    (depends_on_views v) (used_by_views v) (steiner_subgraph v) (created_by_session v)
    (created_by_role v) (created_by_query v) x (status v) (promoted_date v)
    (materialized_date v) (usage_count v) (last_used v) (avg_query_time_ms v)
    (freshness_type v) (last_validated v) (is_valid v) (embedding_id v) (tags v)
    (view_definition v) (approved_by v) (approval_date v) (review_notes v).

Definition set_status (x : string) (v : ViewMetadata) : ViewMetadata :=
  mkView (view_id v) (view_name v) (layer v) (domain v) (description v) (base_tables v)
    (depends_on_views v) (used_by_views v) (steiner_subgraph v) (created_by_session v)
    (created_by_role v) (created_by_query v) (created_date v) x (promoted_date v)
    (materialized_date v) (usage_count v) (last_used v) (avg_query_time_ms v)
    (freshness_type v) (last_validated v) (is_valid v) (embedding_id v) (tags v)
    (view_definition v) (approved_by v) (approval_date v) (review_notes v).

Definition set_promoted_date (x : option timestamp) (v : ViewMetadata) : ViewMetadata :=
  mkView (view_id v) (view_name v) (layer v) (domain v) (description v) (base_tables v)
    (depends_on_views v) (used_by_views v) (steiner_subgraph v) (created_by_session v)
    (created_by_role v) (created_by_query v) (created_date v) (status v) x
    (materialized_date v) (usage_count v) (last_used v) (avg_query_time_ms v)
    (freshness_type v) (last_validated v) (is_valid v) (embedding_id v) (tags v)
    (view_definition v) (approved_by v) (approval_date v) (review_notes v).

Definition set_materialized_date (x : option timestamp) (v : ViewMetadata) : ViewMetadata :=
  mkView (view_id v) (view_name v) (layer v) (domain v) (description v) (base_tables v)
    (depends_on_views v) (used_by_views v) (steiner_subgraph v) (created_by_session v)
    (created_by_role v) (created_by_query v) (created_date v) (status v) (promoted_date
    v) x (usage_count v) (last_used v) (avg_query_time_ms v) (freshness_type v)
    (last_validated v) (is_valid v) (embedding_id v) (tags v) (view_definition v)
    (approved_by v) (approval_date v) (review_notes v).

Definition set_usage_count (x : Z) (v : ViewMetadata) : ViewMetadata :=
  mkView (view_id v) (view_name v) (layer v) (domain v) (description v) (base_tables v)
    (depends_on_views v) (used_by_views v) (steiner_subgraph v) (created_by_session v)
    (created_by_role v) (created_by_query v) (created_date v) (status v) (promoted_date
    v) (materialized_date v) x (last_used v) (avg_query_time_ms v) (freshness_type v)
    (last_validated v) (is_valid v) (embedding_id v) (tags v) (view_definition v)
    (approved_by v) (approval_date v) (review_notes v).

Definition set_last_used (x : option timestamp) (v : ViewMetadata) : ViewMetadata :=
  mkView (view_id v) (view_name v) (layer v) (domain v) (description v) (base_tables v)
    (depends_on_views v) (used_by_views v) (steiner_subgraph v) (created_by_session v)
    (created_by_role v) (created_by_query v) (created_date v) (status v) (promoted_date
    v) (materialized_date v) (usage_count v) x (avg_query_time_ms v) (freshness_type v)
    (last_validated v) (is_valid v) (embedding_id v) (tags v) (view_definition v)
    (approved_by v) (approval_date v) (review_notes v).

Definition set_avg_query_time_ms (x : option Q) (v : ViewMetadata) : ViewMetadata :=
  mkView (view_id v) (view_name v) (layer v) (domain v) (description v) (base_tables v)
    (depends_on_views v) (used_by_views v) (steiner_subgraph v) (created_by_session v)
    (created_by_role v) (created_by_query v) (created_date v) (status v) (promoted_date
    v) (materialized_date v) (usage_count v) (last_used v) x (freshness_type v)
    (last_validated v) (is_valid v) (embedding_id v) (tags v) (view_definition v)
    (approved_by v) (approval_date v) (review_notes v).

Definition set_freshness_type (x : string) (v : ViewMetadata) : ViewMetadata :=
  mkView (view_id v) (view_name v) (layer v) (domain v) (description v) (base_tables v)
    (depends_on_views v) (used_by_views v) (steiner_subgraph v) (created_by_session v)
    (created_by_role v) (created_by_query v) (created_date v) (status v) (promoted_date
    v) (materialized_date v) (usage_count v) (last_used v) (avg_query_time_ms v) x
    (last_validated v) (is_valid v) (embedding_id v) (tags v) (view_definition v)
    (approved_by v) (approval_date v) (review_notes v).

Definition set_last_validated (x : option timestamp) (v : ViewMetadata) : ViewMetadata :=
  mkView (view_id v) (view_name v) (layer v) (domain v) (description v) (base_tables v)
    (depends_on_views v) (used_by_views v) (steiner_subgraph v) (created_by_session v)
    (created_by_role v) (created_by_query v) (created_date v) (status v) (promoted_date
    v) (materialized_date v) (usage_count v) (last_used v) (avg_query_time_ms v)
    (freshness_type v) x (is_valid v) (embedding_id v) (tags v) (view_definition v)
    (approved_by v) (approval_date v) (review_notes v).

Definition set_is_valid (x : bool) (v : ViewMetadata) : ViewMetadata :=
  mkView (view_id v) (view_name v) (layer v) (domain v) (description v) (base_tables v)
    (depends_on_views v) (used_by_views v) (steiner_subgraph v) (created_by_session v)
    (created_by_role v) (created_by_query v) (created_date v) (status v) (promoted_date
    v) (materialized_date v) (usage_count v) (last_used v) (avg_query_time_ms v)
    (freshness_type v) (last_validated v) x (embedding_id v) (tags v) (view_definition
    v) (approved_by v) (approval_date v) (review_notes v).

Definition set_embedding_id (x : option string) (v : ViewMetadata) : ViewMetadata :=
  mkView (view_id v) (view_name v) (layer v) (domain v) (description v) (base_tables v)
    (depends_on_views v) (used_by_views v) (steiner_subgraph v) (created_by_session v)
    (created_by_role v) (created_by_query v) (created_date v) (status v) (promoted_date
    v) (materialized_date v) (usage_count v) (last_used v) (avg_query_time_ms v)
    (freshness_type v) (last_validated v) (is_valid v) x (tags v) (view_definition v)
    (approved_by v) (approval_date v) (review_notes v).

Definition set_tags (x : list string) (v : ViewMetadata) : ViewMetadata :=
  mkView (view_id v) (view_name v) (layer v) (domain v) (description v) (base_tables v)
    (depends_on_views v) (used_by_views v) (steiner_subgraph v) (created_by_session v)
    (created_by_role v) (created_by_query v) (created_date v) (status v) (promoted_date
    v) (materialized_date v) (usage_count v) (last_used v) (avg_query_time_ms v)
    (freshness_type v) (last_validated v) (is_valid v) (embedding_id v) x
    (view_definition v) (approved_by v) (approval_date v) (review_notes v).

Definition set_view_definition (x : string) (v : ViewMetadata) : ViewMetadata :=
  mkView (view_id v) (view_name v) (layer v) (domain v) (description v) (base_tables v)
    (depends_on_views v) (used_by_views v) (steiner_subgraph v) (created_by_session v)
    (created_by_role v) (created_by_query v) (created_date v) (status v) (promoted_date
    v) (materialized_date v) (usage_count v) (last_used v) (avg_query_time_ms v)
    (freshness_type v) (last_validated v) (is_valid v) (embedding_id v) (tags v) x
    (approved_by v) (approval_date v) (review_notes v).

Definition set_approved_by (x : option string) (v : ViewMetadata) : ViewMetadata :=
  mkView (view_id v) (view_name v) (layer v) (domain v) (description v) (base_tables v)
    (depends_on_views v) (used_by_views v) (steiner_subgraph v) (created_by_session v)
    (created_by_role v) (created_by_query v) (created_date v) (status v) (promoted_date
    v) (materialized_date v) (usage_count v) (last_used v) (avg_query_time_ms v)
    (freshness_type v) (last_validated v) (is_valid v) (embedding_id v) (tags v)
    (view_definition v) x (approval_date v) (review_notes v).

Definition set_approval_date (x : option timestamp) (v : ViewMetadata) : ViewMetadata :=
  mkView (view_id v) (view_name v) (layer v) (domain v) (description v) (base_tables v)
    (depends_on_views v) (used_by_views v) (steiner_subgraph v) (created_by_session v)
    (created_by_role v) (created_by_query v) (created_date v) (status v) (promoted_date
    v) (materialized_date v) (usage_count v) (last_used v) (avg_query_time_ms v)
    (freshness_type v) (last_validated v) (is_valid v) (embedding_id v) (tags v)
    (view_definition v) (approved_by v) x (review_notes v).

Definition set_review_notes (x : option string) (v : ViewMetadata) : ViewMetadata :=
  mkView (view_id v) (view_name v) (layer v) (domain v) (description v) (base_tables v)
    (depends_on_views v) (used_by_views v) (steiner_subgraph v) (created_by_session v)
    (created_by_role v) (created_by_query v) (created_date v) (status v) (promoted_date
    v) (materialized_date v) (usage_count v) (last_used v) (avg_query_time_ms v)
    (freshness_type v) (last_validated v) (is_valid v) (embedding_id v) (tags v)
    (view_definition v) (approved_by v) (approval_date v) x.

(** One entry of the [updates] dict of [update_view]: a column of the
    [view_catalog] table with the value it is set to. *)
Inductive assignment : Type :=
| SetViewId (x : option Z)
| SetViewName (x : string)
| SetLayer (x : Z)
| SetDomain (x : string)
| SetDescription (x : option string)
| SetBaseTables (x : list string)
| SetDependsOnViews (x : list string)
| SetUsedByViews (x : list string)
| SetSteinerSubgraph (x : option string)
| SetCreatedBySession (x : option string)
| SetCreatedByRole (x : string)
| SetCreatedByQuery (x : option string)
| SetCreatedDate (x : option timestamp)
| SetStatus (x : string)
| SetPromotedDate (x : option timestamp)
| SetMaterializedDate (x : option timestamp)
| SetUsageCount (x : Z)
| SetLastUsed (x : option timestamp)
| SetAvgQueryTimeMs (x : option Q)
| SetFreshnessType (x : string)
| SetLastValidated (x : option timestamp)
| SetIsValid (x : bool)
| SetEmbeddingId (x : option string)
| SetTags (x : list string)
| SetViewDefinition (x : string)
| SetApprovedBy (x : option string)
| SetApprovalDate (x : option timestamp)
| SetReviewNotes (x : option string).

Definition assign (a : assignment) (v : ViewMetadata) : ViewMetadata :=
  match a with
  | SetViewId x => set_view_id x v
  | SetViewName x => set_view_name x v
  | SetLayer x => set_layer x v
  | SetDomain x => set_domain x v
  | SetDescription x => set_description x v
  | SetBaseTables x => set_base_tables x v
  | SetDependsOnViews x => set_depends_on_views x v
  | SetUsedByViews x => set_used_by_views x v
  | SetSteinerSubgraph x => set_steiner_subgraph x v
  | SetCreatedBySession x => set_created_by_session x v
  | SetCreatedByRole x => set_created_by_role x v
  | SetCreatedByQuery x => set_created_by_query x v
  | SetCreatedDate x => set_created_date x v
  | SetStatus x => set_status x v
  | SetPromotedDate x => set_promoted_date x v
  | SetMaterializedDate x => set_materialized_date x v
  | SetUsageCount x => set_usage_count x v
  | SetLastUsed x => set_last_used x v
  | SetAvgQueryTimeMs x => set_avg_query_time_ms x v
  | SetFreshnessType x => set_freshness_type x v
  | SetLastValidated x => set_last_validated x v
  | SetIsValid x => set_is_valid x v
  | SetEmbeddingId x => set_embedding_id x v
  | SetTags x => set_tags x v
  | SetViewDefinition x => set_view_definition x v
  | SetApprovedBy x => set_approved_by x v
  | SetApprovalDate x => set_approval_date x v
  | SetReviewNotes x => set_review_notes x v
  end.

(** *** Field validators of [ViewMetadata] *)

Definition allowed_domains : list string :=
  ["fraud"; "compliance"; "customer"; "merchant"; "transaction"; "risk"].
Definition allowed_statuses : list string :=
  ["DRAFT"; "PROMOTED"; "MATERIALIZED"; "STALE"; "ARCHIVED"].
Definition allowed_types : list string := ["LIVE"; "STATIC"; "SCHEDULED"].

Definition validate_view_name (n : string) : bool := String.prefix "v_" n.
Definition validate_layer (l : Z) : bool :=
  ((1 <=? l) && (l <=? 3) && existsb (Z.eqb l) [1; 2; 3])%Z.
Definition validate_domain (d : string) : bool := mem d allowed_domains.
Definition validate_status (s : string) : bool := mem s allowed_statuses.
Definition validate_freshness_type (f : string) : bool := mem f allowed_types.

Definition validate (v : ViewMetadata) : bool :=
  validate_view_name (view_name v) && validate_layer (layer v)
  && validate_domain (domain v) && validate_status (status v)
  && validate_freshness_type (freshness_type v).

(** [ViewMetadata.from_db_row]: the constructor runs the validators. *)
Definition from_db_row (row : ViewMetadata) : result ViewMetadata :=
  if validate row then Ok row else Err ValidationError.

(** *** The table and its queries *)

Definition Table : Type := list ViewMetadata.

Definition name_is (n : string) (r : ViewMetadata) : bool := String.eqb (view_name r) n.

Definition id_is (i : Z) (r : ViewMetadata) : bool :=
  match view_id r with
  | Some j => Z.eqb j i
  | None => false
  end.

(** [execute_update]: rows matching [cond] are rewritten by [upd]; the
    number of rows affected is returned with the new table. *)
Definition execute_update (cond : ViewMetadata -> bool)
    (upd : ViewMetadata -> ViewMetadata) (c : Table) : Table * nat :=
  (map (fun r => if cond r then upd r else r) c, length (filter cond c)).

(** [ORDER BY]: a stable insertion sort; [before a b] says that [a] must
    come strictly before [b].  SQL leaves the order of rows with equal keys
    open; the model keeps them in scan (rowid) order. *)
Fixpoint insert_by {A : Type} (before : A -> A -> bool) (x : A) (l : list A) : list A :=
  match l with
  | [] => [x]
  | y :: l' => if before y x then y :: insert_by before x l' else x :: l
  end.

Definition order_by {A : Type} (before : A -> A -> bool) (l : list A) : list A :=
  fold_right (insert_by before) [] l.

(** SQLite orders NULL below every value. *)
Definition date_gt (a b : option timestamp) : bool :=
  match a, b with
  | Some x, Some y => (y <? x)%Z
  | Some _, None => true
  | None, _ => false
  end.

(** [ORDER BY usage_count DESC] *)
Definition by_usage_desc (a b : ViewMetadata) : bool :=
  (usage_count b <? usage_count a)%Z.

(** [ORDER BY usage_count DESC, created_date DESC] *)
Definition by_usage_then_created_desc (a b : ViewMetadata) : bool :=
  (usage_count b <? usage_count a)%Z
  || ((usage_count a =? usage_count b)%Z && date_gt (created_date a) (created_date b)).

Definition find_by_id (c : Table) (i : Z) : result (option ViewMetadata) :=
  match filter (id_is i) c with
  | row :: _ => v <- from_db_row row ;; Ok (Some v)
  | [] => Ok None
  end.

Definition find_by_name (c : Table) (n : string) : result (option ViewMetadata) :=
  match filter (name_is n) c with
  | row :: _ => v <- from_db_row row ;; Ok (Some v)
  | [] => Ok None
  end.

(** Python truthiness of an optional int / str argument. *)
Definition truthy_int (o : option Z) : option Z :=
  match o with
  | Some z => if (z =? 0)%Z then None else Some z
  | None => None
  end.
Definition truthy_str (o : option string) : option string :=
  match o with
  | Some s => if String.eqb s "" then None else Some s
  | None => None
  end.

Definition layer_filter (l : option Z) (r : ViewMetadata) : bool :=
  match truthy_int l with
  | Some z => (layer r =? z)%Z
  | None => true
  end.
Definition status_filter (s : option string) (r : ViewMetadata) : bool :=
  match truthy_str s with
  | Some x => String.eqb (status r) x
  | None => true
  end.

Definition find_by_domain (c : Table) (d : string) (l : option Z)
  : result (list ViewMetadata) :=
  mapM from_db_row
    (order_by by_usage_desc
       (filter (fun r => String.eqb (domain r) d && layer_filter l r) c)).

Definition get_all_views (c : Table) (l : option Z) (s : option string)
  : result (list ViewMetadata) :=
  mapM from_db_row
    (order_by by_usage_then_created_desc
       (filter (fun r => layer_filter l r && status_filter s r) c)).

(** *** Mutations *)

(** [cursor.lastrowid] of an insert into a table that never loses a row and
    whose largest id is below 2^63 - 1: one more than the largest id.  (At
    2^63 - 1 what SQLite does depends on the declaration of the table.) *)
Definition next_id (c : Table) : Z :=
  (1 + fold_right (fun r m => match view_id r with
                              | Some i => Z.max i m
                              | None => m
                              end) 0 c)%Z.

Definition stamp (now : timestamp) (o : option timestamp) : option timestamp :=
  match o with
  | Some t => Some t
  | None => Some now
  end.

(** SQLite stores an INTEGER in 64 bits. *)
Definition min_int64 : Z := (- 2 ^ 63)%Z.
Definition max_int64 : Z := (2 ^ 63 - 1)%Z.
Definition fits_int64 (z : Z) : bool := ((min_int64 <=? z) && (z <=? max_int64))%Z.

(** [to_db_dict] followed by the binding of the INSERT's parameters, in
    column order.  The lists are dumped to JSON, the dates to ISO text, the
    flag to 0 or 1; [view_id] is left out.  An [int] outside 64 bits is
    refused.  [steiner_subgraph] is dumped only [if data['steiner_subgraph']]:
    the empty dict, whose JSON text is [{}], is falsy, stays a dict, is not
    [None], and is refused as a parameter. *)
Definition bind_parameters (view : ViewMetadata) : result unit :=
  if negb (fits_int64 (layer view)) then Err OverflowError
  else if match steiner_subgraph view with
          | Some text => String.eqb text "{}"
          | None => false
          end then Err BindingError
  else if negb (fits_int64 (usage_count view)) then Err OverflowError
  else Ok tt.

(** [register_view].  [t_created] and [t_validated] are the two clock reads.
    Columns whose value is [None] are left out of the INSERT and stay NULL;
    [view_id] is assigned by the table.  An INSERT whose parameters cannot be
    bound raises and leaves the table as it was. *)
Definition register_view (c : Table) (view : ViewMetadata)
    (t_created t_validated : timestamp) : Table * result (option ViewMetadata) :=
  match find_by_name c (view_name view) with
  | Err e => (c, Err e)
  | Ok (Some _) => (c, Err (ViewAlreadyExists (view_name view)))
  | Ok None =>
      let view := set_created_date (stamp t_created (created_date view)) view in
      let view := set_last_validated (stamp t_validated (last_validated view)) view in
      match bind_parameters view with
      | Err e => (c, Err e)
      | Ok _ =>
          let i := next_id c in
          let c' := c ++ [set_view_id (Some i) view] in
          (c', find_by_id c' i)
      end
  end.

(** [promote_view]: UPDATE ... WHERE view_name = ? AND status = 'DRAFT'. *)
Definition promote_view (c : Table) (n : string) (now : timestamp) : Table * bool :=
  let '(c', rows_affected) :=
    execute_update (fun r => name_is n r && String.eqb (status r) "DRAFT")
      (fun r => set_promoted_date (Some now) (set_status "PROMOTED" r)) c in
  (c', (0 <? rows_affected)%nat).

(** [increment_usage].  [t_used] is the clock read of the UPDATE, [t_promoted]
    the one of the promotion.  An exception of the lookup is caught: the
    increment stays, [False] is returned. *)
Definition increment_usage (c : Table) (n : string) (t_used t_promoted : timestamp)
  : Table * bool :=
  let '(c1, rows_affected) :=
    execute_update (name_is n)
      (fun r => set_last_used (Some t_used) (set_usage_count (usage_count r + 1)%Z r)) c in
  if (0 <? rows_affected)%nat then
    match find_by_name c1 n with
    | Err _ => (c1, false)
    | Ok (Some view) =>
        if (3 <=? usage_count view)%Z && String.eqb (status view) "DRAFT"
        then (fst (promote_view c1 n t_promoted), true)
        else (c1, true)
    | Ok None => (c1, true)
    end
  else (c1, false).

(** [update_view]: every entry of [updates] becomes a SET clause. *)
Definition update_view (c : Table) (n : string) (updates : list assignment)
  : Table * bool :=
  match updates with
  | [] => (c, false)
  | _ =>
      let '(c', rows_affected) :=
        execute_update (name_is n) (fun r => fold_left (fun r a => assign a r) updates r) c in
      (c', (0 <? rows_affected)%nat)
  end.

(** [delete_view]: the soft delete. *)
Definition delete_view (c : Table) (n : string) : Table * bool :=
  update_view c n [SetStatus "ARCHIVED"].

(** The catalog operations as commands, for sequences of calls. *)
Inductive command : Type :=
| Register (view : ViewMetadata) (t_created t_validated : timestamp)
| IncrementUsage (n : string) (t_used t_promoted : timestamp)
| Promote (n : string) (now : timestamp)
| Update (n : string) (updates : list assignment)
| Archive (n : string).

Definition run (c : Table) (k : command) : Table :=
  match k with
  | Register v t1 t2 => fst (register_view c v t1 t2)
  | IncrementUsage n t1 t2 => fst (increment_usage c n t1 t2)
  | Promote n t => fst (promote_view c n t)
  | Update n ups => fst (update_view c n ups)
  | Archive n => fst (delete_view c n)
  end.

Definition run_all (c : Table) (ks : list command) : Table := fold_left run ks c.

(** ** networkx graphs, as far as the schema graph and the solver use them *)

(** Node attributes are a dict; [add_node] on a node that exists updates the
    keys it is given and keeps the others. *)
Record NodeAttrs := mkNode {
  n_type : option string;
  n_row_count : option Z;
  n_columns : option (list string);
  n_column_count : option Z;
  n_layer : option Z;
  n_domain : option string;
  n_usage_count : option Z;
  n_base_tables : option (list string)
}.

Record EdgeAttrs := mkEdge {
  e_type : option string;
  e_from_column : option string;
  e_to_column : option string;
  e_weight : option Q
}.

Definition no_node_attrs : NodeAttrs := mkNode None None None None None None None None.

Definition upd {A : Type} (old new : option A) : option A :=
  match new with
  | Some x => Some x
  | None => old
  end.

Definition update_node (old new : NodeAttrs) : NodeAttrs :=
  mkNode (upd (n_type old) (n_type new)) (upd (n_row_count old) (n_row_count new))
    (upd (n_columns old) (n_columns new)) (upd (n_column_count old) (n_column_count new))
    (upd (n_layer old) (n_layer new)) (upd (n_domain old) (n_domain new))
    (upd (n_usage_count old) (n_usage_count new))
    (upd (n_base_tables old) (n_base_tables new)).

Definition update_edge (old new : EdgeAttrs) : EdgeAttrs :=
  mkEdge (upd (e_type old) (e_type new)) (upd (e_from_column old) (e_from_column new))
    (upd (e_to_column old) (e_to_column new)) (upd (e_weight old) (e_weight new)).

(** [data.get('weight', 1.0)] *)
Definition weight_of (e : EdgeAttrs) : Q :=
  match e_weight e with
  | Some w => w
  | None => 1
  end.

Definition NodeList : Type := list (string * NodeAttrs).
Definition EdgeList : Type := list (string * string * EdgeAttrs).

(** Nodes in insertion order, edges in insertion order. *)
Record DiGraph := mkDiGraph { d_nodes : NodeList; d_edges : EdgeList }.
Record Graph := mkGraph { nodes : NodeList; edges : EdgeList }.

Definition node_names (ns : NodeList) : list string := map fst ns.

Definition has_node_in (ns : NodeList) (n : string) : bool := mem n (node_names ns).

Fixpoint add_node_in (ns : NodeList) (n : string) (a : NodeAttrs) : NodeList :=
  match ns with
  | [] => [(n, a)]
  | (m, b) :: ns' =>
      if String.eqb m n then (m, update_node b a) :: ns' else (m, b) :: add_node_in ns' n a
  end.

Definition node_attrs (ns : NodeList) (n : string) : option NodeAttrs :=
  option_map snd (find (fun p => String.eqb (fst p) n) ns).

(** The endpoints of a directed edge match in order, those of an undirected
    edge in either order. *)
Definition same_arc (u v a b : string) : bool := String.eqb u a && String.eqb v b.
Definition same_edge (u v a b : string) : bool := same_arc u v a b || same_arc u v b a.

Fixpoint add_edge_in (same : string -> string -> string -> string -> bool)
    (es : EdgeList) (u v : string) (a : EdgeAttrs) : EdgeList :=
  match es with
  | [] => [(u, v, a)]
  | (x, y, b) :: es' =>
      if same x y u v then (x, y, update_edge b a) :: es'
      else (x, y, b) :: add_edge_in same es' u v a
  end.

Definition edge_attrs_in (same : string -> string -> string -> string -> bool)
    (es : EdgeList) (u v : string) : option EdgeAttrs :=
  option_map snd (find (fun e => same (fst (fst e)) (snd (fst e)) u v) es).

(** *** [nx.DiGraph] *)

Definition d_has_node (g : DiGraph) (n : string) : bool := has_node_in (d_nodes g) n.
Definition d_add_node (g : DiGraph) (n : string) (a : NodeAttrs) : DiGraph :=
  mkDiGraph (add_node_in (d_nodes g) n a) (d_edges g).
Definition d_add_edge (g : DiGraph) (u v : string) (a : EdgeAttrs) : DiGraph :=
  mkDiGraph (add_node_in (add_node_in (d_nodes g) u no_node_attrs) v no_node_attrs)
    (add_edge_in same_arc (d_edges g) u v a).
Definition d_edge (g : DiGraph) (u v : string) : option EdgeAttrs :=
  edge_attrs_in same_arc (d_edges g) u v.
Definition d_has_edge (g : DiGraph) (u v : string) : bool :=
  match d_edge g u v with
  | Some _ => true
  | None => false
  end.

(** *** [nx.Graph] *)

Definition empty_graph : Graph := mkGraph [] [].
Definition has_node (g : Graph) (n : string) : bool := has_node_in (nodes g) n.
Definition add_node (g : Graph) (n : string) (a : NodeAttrs) : Graph :=
  mkGraph (add_node_in (nodes g) n a) (edges g).
Definition add_edge (g : Graph) (u v : string) (a : EdgeAttrs) : Graph :=
  mkGraph (add_node_in (add_node_in (nodes g) u no_node_attrs) v no_node_attrs)
    (add_edge_in same_edge (edges g) u v a).
Definition edge (g : Graph) (u v : string) : option EdgeAttrs :=
  edge_attrs_in same_edge (edges g) u v.

(** [G.neighbors(n)], in the order the edges at [n] were added. *)
Definition neighbors (g : Graph) (n : string) : list string :=
  flat_map (fun e =>
              let '(u, v, _) := e in
              if String.eqb u n then [v] else if String.eqb v n then [u] else [])
           (edges g).

(** [DiGraph.to_undirected()]: the nodes with their data, then every arc, by
    source node in node order, added as an undirected edge. *)
Definition to_undirected (g : DiGraph) : Graph :=
  fold_left
    (fun G e => let '(u, v, a) := e in add_edge G u v a)
    (flat_map (fun n => filter (fun e => String.eqb (fst (fst e)) n) (d_edges g))
              (node_names (d_nodes g)))
    (mkGraph (d_nodes g) []).

(** [G.subgraph(ns).copy()]: the subgraph induced by [ns]. *)
Definition subgraph (g : Graph) (ns : list string) : Graph :=
  mkGraph (filter (fun p => mem (fst p) ns) (nodes g))
          (filter (fun e => mem (fst (fst e)) ns && mem (snd (fst e)) ns) (edges g)).

(** [G.edge_subgraph(pairs)]: the given edges and their endpoints. *)
Definition edge_subgraph (g : Graph) (pairs : list (string * string)) : Graph :=
  let chosen (u v : string) := existsb (fun p => same_edge u v (fst p) (snd p)) pairs in
  let es := filter (fun e => chosen (fst (fst e)) (snd (fst e))) (edges g) in
  mkGraph (filter (fun p => existsb (fun e => String.eqb (fst (fst e)) (fst p)
                                              || String.eqb (snd (fst e)) (fst p)) es)
                  (nodes g))
          es.

(** Breadth-first search.  The queue holds, for every discovered node, the
    path that reached it, newest node first.  A neighbour that was not seen
    before is marked as seen and queued, one neighbour at a time. *)
Definition discover (path : list string) (state : list (list string) * list string)
    (n : string) : list (list string) * list string :=
  if mem n (snd state) then state else (fst state ++ [n :: path], snd state ++ [n]).

Fixpoint bfs (fuel : nat) (g : Graph) (queue : list (list string)) (seen : list string)
  : list (list string) :=
  match fuel with
  | O => []
  | S fuel' =>
      match queue with
      | [] => []
      | [] :: rest => bfs fuel' g rest seen
      | (u :: p) :: rest =>
          let state := fold_left (discover (u :: p)) (neighbors g u) (rest, seen) in
          (u :: p) :: bfs fuel' g (fst state) (snd state)
      end
  end.

(** Every name a graph mentions.  A node enters the queue once, so one round
    per name, and one for the source, empties the queue. *)
Definition all_names (g : Graph) : list string :=
  node_names (nodes g) ++ flat_map (fun e => [fst (fst e); snd (fst e)]) (edges g).

Definition bfs_from (g : Graph) (s : string) : list (list string) :=
  bfs (2 + length (all_names g)) g [[s]] [s].

(** The nodes reachable from [s] ([_plain_bfs]). *)
Definition plain_bfs (g : Graph) (s : string) : list string :=
  flat_map (fun p => firstn 1 p) (bfs_from g s).

(** [nx.shortest_path(G, source, target)], no weight: fewest hops.  [None] is
    the exception [NetworkXNoPath]. *)
Definition shortest_path (g : Graph) (s t : string) : result (option (list string)) :=
  if negb (has_node g s) then Err (NodeNotFound s)
  else if negb (has_node g t) then Err (NodeNotFound t)
  else Ok (option_map (@rev string)
             (find (fun p => match p with
                             | n :: _ => String.eqb n t
                             | [] => false
                             end) (bfs_from g s))).

(** [nx.is_connected] *)
Definition is_connected (g : Graph) : result bool :=
  match nodes g with
  | [] => Err NetworkXPointlessConcept
  | (n, _) :: _ => Ok (length (plain_bfs g n) =? length (nodes g))%nat
  end.

(** [nx.connected_components]: one component per node not yet seen, in node
    order. *)
Fixpoint components_from (g : Graph) (ns seen : list string) : list (list string) :=
  match ns with
  | [] => []
  | n :: ns' =>
      if mem n seen then components_from g ns' seen
      else let c := plain_bfs g n in c :: components_from g ns' (seen ++ c)
  end.

Definition connected_components (g : Graph) : list (list string) :=
  components_from g (node_names (nodes g)) [].

(** [max(components, key=len)]: the first component of greatest size. *)
Fixpoint max_by_len (best : list string) (cs : list (list string)) : list string :=
  match cs with
  | [] => best
  | c :: cs' => if (length best <? length c)%nat then max_by_len c cs' else max_by_len best cs'
  end.

Definition largest_of (cs : list (list string)) : list string :=
  match cs with
  | [] => []
  | c :: cs' => max_by_len c cs'
  end.

(** ** Schema graph ([src/graph/schema_graph.py]) *)

Record ForeignKey := mkFK { fk_table : string; fk_from : string; fk_to : string }.

(** What the storage layer reports for one table. *)
Record TableMeta := mkTable {
  t_name : string;
  t_row_count : Z;
  t_columns : list string;
  t_foreign_keys : list ForeignKey
}.

Definition Database : Type := list TableMeta.

Definition row_count_of (g : DiGraph) (n : string) : result Z :=
  match node_attrs (d_nodes g) n with
  | Some a => match n_row_count a with
              | Some r => Ok r
              | None => Err (KeyError "row_count")
              end
  | None => Err (KeyError n)
  end.

Definition max_rows (g : DiGraph) : result Z :=
  rs <- mapM (row_count_of g) (node_names (d_nodes g)) ;;
  Ok (match rs with
      | [] => 0%Z
      | r :: rs' => fold_left Z.max rs' r
      end).

(** The weight of a foreign-key edge. *)
Definition fk_weight (from_rows to_rows most : Z) : Q :=
  if (0 <? most)%Z then inject_Z (from_rows + to_rows) / inject_Z (2 * most) else 1.

Definition add_foreign_key (g : DiGraph) (from_table : string) (fk : ForeignKey)
  : result DiGraph :=
  from_rows <- row_count_of g from_table ;;
  to_rows <- row_count_of g (fk_table fk) ;;
  most <- max_rows g ;;
  Ok (d_add_edge g from_table (fk_table fk)
        (mkEdge (Some "fk") (Some (fk_from fk)) (Some (fk_to fk))
                (Some (fk_weight from_rows to_rows most)))).

Fixpoint foldM {A B : Type} (f : B -> A -> result B) (l : list A) (b : B) : result B :=
  match l with
  | [] => Ok b
  | a :: l' => b' <- f b a ;; foldM f l' b'
  end.

(** [build_from_database] *)
Definition build_from_database (db : Database) : result DiGraph :=
  let with_nodes :=
    fold_left (fun g t =>
                 d_add_node g (t_name t)
                   (mkNode (Some "table") (Some (t_row_count t)) (Some (t_columns t))
                           (Some (Z.of_nat (length (t_columns t)))) None None None None))
              db (mkDiGraph [] []) in
  foldM (fun g t => foldM (fun g fk => add_foreign_key g (t_name t) fk) (t_foreign_keys t) g)
        db with_nodes.

(** [get_table_info], reduced to the node data it reads. *)
Definition get_table_info (g : DiGraph) (t : string) : result NodeAttrs :=
  if negb (d_has_node g t) then Err (TableNotInGraph t)
  else Ok (match node_attrs (d_nodes g) t with
           | Some a => a
           | None => no_node_attrs
           end).

(** [get_shortest_path]: only [NetworkXNoPath] is caught. *)
Definition get_shortest_path (g : DiGraph) (source target : string)
  : result (option (list string)) :=
  shortest_path (to_undirected g) source target.

(** The loop of [get_connected_tables].  [visited] and [connected] receive
    the same nodes, so one list stands for both.  Every round pops one queue
    entry and a node pushes its neighbours once, when it is visited: one round
    per pushed entry ends the loop. *)
Fixpoint connected_loop (fuel : nat) (g : Graph) (max_depth : Z)
    (queue : list (string * Z)) (visited : list string) : list string :=
  match fuel with
  | O => visited
  | S fuel' =>
      match queue with
      | [] => visited
      | (current, depth) :: rest =>
          if mem current visited || (max_depth <? depth)%Z
          then connected_loop fuel' g max_depth rest visited
          else
            let visited' := visited ++ [current] in
            connected_loop fuel' g max_depth
              (rest ++ map (fun n => (n, (depth + 1)%Z))
                           (filter (fun n => negb (mem n visited')) (neighbors g current)))
              visited'
      end
  end.

Definition get_connected_tables (g : DiGraph) (t : string) (max_depth : Z) : list string :=
  if negb (d_has_node g t) then []
  else
    let undirected := to_undirected g in
    let connected :=
      connected_loop (2 + 2 * length (edges undirected)) undirected max_depth [(t, 0%Z)] [] in
    filter (fun n => negb (String.eqb n t)) connected.

(** A join cost: a float that may be [float('inf')]. *)
Inductive cost : Type :=
| Finite (q : Q)
| Infinity.

Fixpoint path_cost (g : DiGraph) (path : list string) : Q :=
  match path with
  | from_node :: ((to_node :: _) as rest) =>
      (match d_edge g from_node to_node with
       | Some e => weight_of e
       | None => match d_edge g to_node from_node with
                 | Some e => weight_of e
                 | None => 1
                 end
       end) + path_cost g rest
  | _ => 0
  end.

(** [calculate_join_cost] *)
Definition calculate_join_cost (g : DiGraph) (table1 table2 : string) : result cost :=
  if negb (d_has_node g table1) || negb (d_has_node g table2) then Ok Infinity
  else
    match d_edge g table1 table2 with
    | Some e => Ok (Finite (weight_of e))
    | None =>
        match d_edge g table2 table1 with
        | Some e => Ok (Finite (weight_of e))
        | None =>
            match shortest_path (to_undirected g) table1 table2 with
            | Ok (Some path) => Ok (Finite (path_cost g path))
            | Ok None => Ok Infinity
            | Err e => Err e
            end
        end
    end.

(** ** The Steiner tree approximation

    Modelled from the spec: the routine the solver calls,
    [nx.algorithms.approximation.steiner_tree], is library code outside the
    repository.  Section 4.4 of the specification describes it: build the
    complete shortest-path metric closure on the terminal set, take its
    minimum spanning tree, expand each chosen terminal-pair edge into its
    shortest path in the original graph and take the union of the edges,
    without repeats. *)
Module Approximation.

(** A node with its distance from the source and the path that reaches
    it, newest node first. *)
Definition entry : Type := (string * (Q * list string))%type.

Definition dist (e : entry) : Q := fst (snd e).

(** The first entry of least distance, and the others. *)
Fixpoint extract_min (l : list entry) : option (entry * list entry) :=
  match l with
  | [] => None
  | e :: l' =>
      match extract_min l' with
      | None => Some (e, [])
      | Some (m, rest) =>
          if Qle_bool (dist e) (dist m) then Some (e, l') else Some (m, e :: rest)
      end
  end.

Definition lookup (l : list entry) (n : string) : option entry :=
  find (fun e => String.eqb (fst e) n) l.

Definition relax (g : Graph) (settled : list entry) (u : entry) (fringe : list entry)
    (n : string) : list entry :=
  match lookup settled n with
  | Some _ => fringe
  | None =>
      let w := match edge g (fst u) n with
               | Some a => weight_of a
               | None => 1
               end in
      let candidate : entry := (n, (Qred (dist u + w), n :: snd (snd u))) in
      match lookup fringe n with
      | None => fringe ++ [candidate]
      | Some old =>
          if Qle_bool (dist old) (dist candidate) then fringe
          else map (fun e => if String.eqb (fst e) n then candidate else e) fringe
      end
  end.

(** Dijkstra's algorithm; a round settles one node. *)
Fixpoint dijkstra (fuel : nat) (g : Graph) (fringe settled : list entry) : list entry :=
  match fuel with
  | O => settled
  | S fuel' =>
      match extract_min fringe with
      | None => settled
      | Some (u, rest) =>
          let settled' := settled ++ [u] in
          dijkstra fuel' g (fold_left (relax g settled' u) (neighbors g (fst u)) rest) settled'
      end
  end.

Definition shortest_paths (g : Graph) (s : string) : list entry :=
  dijkstra (S (length (nodes g))) g [(s, (0, [s]))] [].

(** An edge of the metric closure: two terminals, their distance and a
    shortest path between them. *)
Record closure_edge := mkClosure {
  c_from : string;
  c_to : string;
  c_distance : Q;
  c_path : list string
}.

Fixpoint pairs_from (g : Graph) (ts : list string) : result (list closure_edge) :=
  match ts with
  | [] => Ok []
  | s :: ts' =>
      let table := shortest_paths g s in
      here <- mapM (fun t => match lookup table t with
                             | Some e => Ok (mkClosure s t (dist e) (rev (snd (snd e))))
                             | None => Err NetworkXError
                             end) ts' ;;
      others <- pairs_from g ts' ;;
      Ok (here ++ others)
  end.

Definition metric_closure (g : Graph) (terminals : list string)
  : result (list closure_edge) :=
  pairs_from g (nodup string_dec terminals).

(** Kruskal's algorithm over the closure, with the component of each
    terminal kept as a label. *)
Definition label_of (labels : list (string * string)) (n : string) : string :=
  match find (fun p => String.eqb (fst p) n) labels with
  | Some p => snd p
  | None => n
  end.

Fixpoint kruskal (es : list closure_edge) (labels : list (string * string))
  : list closure_edge :=
  match es with
  | [] => []
  | e :: es' =>
      let a := label_of labels (c_from e) in
      let b := label_of labels (c_to e) in
      if String.eqb a b then kruskal es' labels
      else e :: kruskal es'
                  (map (fun p => if String.eqb (snd p) a then (fst p, b) else p) labels)
  end.

Definition minimum_spanning_tree (terminals : list string) (es : list closure_edge)
  : list closure_edge :=
  kruskal (order_by (fun a b => negb (Qle_bool (c_distance b) (c_distance a))) es)
          (map (fun t => (t, t)) terminals).

Fixpoint pairwise (p : list string) : list (string * string) :=
  match p with
  | u :: ((v :: _) as rest) => (u, v) :: pairwise rest
  | _ => []
  end.

Definition steiner_tree (g : Graph) (terminals : list string) : result Graph :=
  closure <- metric_closure g terminals ;;
  Ok (edge_subgraph g
        (flat_map (fun e => pairwise (c_path e))
                  (minimum_spanning_tree terminals closure))).

End Approximation.

(** ** Steiner tree solver ([src/graph/steiner_tree.py]) *)

Record Solution := mkSolution {
  sol_subgraph : Graph;
  terminal_tables : list string;
  tables_used : list string;
  views_used : list string;
  total_nodes : nat;
  total_edges : nat;
  total_cost : Q;
  path_description : string;
  used_views : bool
}.

(** [round(x, ndigits)]: to the nearest multiple of 10^-ndigits, ties to the
    even one. *)
Definition round_half_even (q : Q) : Z :=
  let f := Qfloor q in
  match Qcompare (q - inject_Z f) (1 # 2) with
  | Lt => f
  | Gt => (f + 1)%Z
  | Eq => if Z.even f then f else (f + 1)%Z
  end.

Definition round (q : Q) (ndigits : nat) : Q :=
  Qred (inject_Z (round_half_even (q * inject_Z (10 ^ Z.of_nat ndigits)))
        / inject_Z (10 ^ Z.of_nat ndigits)).

Definition newline : string := String (ascii_of_nat 10) "".

Definition build_path_description (tree : Graph) (terminals tables views : list string)
  : string :=
  let required := [("Required tables: " ++ String.concat ", " terminals)%string] in
  let shortcuts :=
    match views with
    | [] => []
    | _ =>
        ("Views used as shortcuts: " ++ String.concat ", " views)%string
        :: flat_map
             (fun name =>
                let base := match node_attrs (nodes tree) name with
                            | Some a => match n_base_tables a with
                                        | Some b => b
                                        | None => []
                                        end
                            | None => []
                            end in
                match filter (fun t => mem t terminals) base with
                | [] => []
                | covered =>
                    [("  - " ++ name ++ " covers: " ++ String.concat ", " covered)%string]
                end)
             views
    end in
  let additional :=
    match filter (fun t => negb (mem t terminals)) tables with
    | [] => []
    | steiner_nodes =>
        [("Additional tables for joins: " ++ String.concat ", " steiner_nodes)%string]
    end in
  String.concat newline (required ++ shortcuts ++ additional).

Definition is_view_node (p : string * NodeAttrs) : bool :=
  match n_type (snd p) with
  | Some t => String.eqb t "view"
  | None => false
  end.

Definition tree_cost (tree : Graph) : Q :=
  fold_left (fun acc e => acc + weight_of (snd e)) (edges tree) 0.

Definition analyze_solution (tree : Graph) (terminals : list string) (with_views : bool)
  : Solution :=
  let views_in_solution := node_names (filter is_view_node (nodes tree)) in
  let tables_in_solution :=
    node_names (filter (fun p => negb (is_view_node p)) (nodes tree)) in
  mkSolution tree terminals tables_in_solution views_in_solution
    (length (nodes tree)) (length (edges tree))
    (round (tree_cost tree) 4)
    (build_path_description tree terminals tables_in_solution views_in_solution)
    with_views.

Definition empty_result : Solution :=
  mkSolution empty_graph [] [] [] 0 0 0 "No tables specified" false.

Definition single_table_result (table : string) : Solution :=
  mkSolution (add_node empty_graph table no_node_attrs) [table] [table] [] 1 0 0
    ("Single table: " ++ table)%string false.

(** What [_build_unified_graph] does for one view. *)
Definition add_view (graph : Graph) (view : ViewMetadata) : Graph :=
  let graph :=
    add_node graph (view_name view)
      (mkNode (Some "view") None None None (Some (layer view)) (Some (domain view))
              (Some (usage_count view)) (Some (base_tables view))) in
  fold_left
    (fun graph table =>
       if has_node graph table
       then add_edge graph (view_name view) table
              (mkEdge (Some "view_dependency") None None (Some 0))
       else graph)
    (base_tables view) graph.

Definition build_unified_graph (schema : DiGraph) (catalog : Table) : result Graph :=
  promoted <- get_all_views catalog None (Some "PROMOTED") ;;
  materialized <- get_all_views catalog None (Some "MATERIALIZED") ;;
  Ok (fold_left add_view (promoted ++ materialized) (to_undirected schema)).

(** The graph [solve] works on: the unified one when views are asked for and
    there is a catalog. *)
Definition working_graph (schema : DiGraph) (catalog : option Table) (use_views : bool)
  : result Graph :=
  match catalog with
  | Some c => if use_views then build_unified_graph schema c else Ok (to_undirected schema)
  | None => Ok (to_undirected schema)
  end.

Definition largest_component (graph : Graph) : list string :=
  largest_of (connected_components graph).

Definition solve (schema : DiGraph) (catalog : option Table)
    (terminals : list string) (use_views : bool) : result Solution :=
  match filter (fun t => negb (d_has_node schema t)) terminals with
  | (_ :: _) as missing => Err (TablesNotInSchema missing)
  | [] =>
      match terminals with
      | [] => Ok empty_result
      | [t] => Ok (single_table_result t)
      | _ =>
          graph <- working_graph schema catalog use_views ;;
          connected <- is_connected graph ;;
          if connected then
            tree <- Approximation.steiner_tree graph terminals ;;
            Ok (analyze_solution tree terminals use_views)
          else
            let graph := subgraph graph (largest_component graph) in
            let valid_terminals := filter (has_node graph) terminals in
            match valid_terminals with
            | [] => Ok empty_result
            | [t] => Ok (single_table_result t)
            | _ =>
                tree <- Approximation.steiner_tree graph valid_terminals ;;
                Ok (analyze_solution tree valid_terminals use_views)
            end
      end
  end.

Record Comparison := mkComparison {
  without_tables : list string;
  without_cost : Q;
  without_edges : nat;
  with_tables : list string;
  with_views : list string;
  with_cost : Q;
  with_edges : nat;
  cost_reduction : Q;
  cost_reduction_pct : Q;
  tables_avoided : Z
}.

Definition compare_solutions (schema : DiGraph) (catalog : option Table)
    (terminals : list string) : result Comparison :=
  solution_without <- solve schema catalog terminals false ;;
  solution_with <- match catalog with
                   | Some _ => solve schema catalog terminals true
                   | None => Ok solution_without
                   end ;;
  let cost_savings := total_cost solution_without - total_cost solution_with in
  Ok (mkComparison
        (tables_used solution_without) (total_cost solution_without)
        (total_edges solution_without)
        (tables_used solution_with) (views_used solution_with) (total_cost solution_with)
        (total_edges solution_with)
        (round cost_savings 4)
        (if Qle_bool (total_cost solution_without) 0 then 0
         else round (cost_savings / total_cost solution_without * 100) 2)
        (Z.of_nat (length (tables_used solution_without))
         - Z.of_nat (length (tables_used solution_with)))%Z).

(** ** Cosine similarity ([src/catalog/semantic_search.py])

    The arithmetic the routine uses, as an interface: numpy computes in the
    floating-point format of the arrays it is given.  The interface is
    instantiated at binary64. *)
Class Arithmetic (A : Type) := {
  a_zero : A;
  a_add : A -> A -> A;
  a_mul : A -> A -> A;
  a_div : A -> A -> A;
  a_sqrt : A -> A;
  a_is_zero : A -> bool          (* [x == 0] *)
}.

#[export] Instance Binary64 : Arithmetic float := {
  a_zero := 0%float;
  a_add := PrimFloat.add;
  a_mul := PrimFloat.mul;
  a_div := PrimFloat.div;
  a_sqrt := PrimFloat.sqrt;
  a_is_zero := fun x => PrimFloat.eqb x 0%float
}.

Section Cosine.
Context {A : Type} `{Arithmetic A}.

(** [np.dot] of two vectors, as a running sum of products; vectors of
    different lengths are refused. *)
Fixpoint dot_from (acc : A) (a b : list A) : result A :=
  match a, b with
  | [], [] => Ok acc
  | x :: a', y :: b' => dot_from (a_add acc (a_mul x y)) a' b'
  | _, _ => Err ShapeError
  end.

Definition dot (a b : list A) : result A := dot_from a_zero a b.

(** [np.linalg.norm] of a vector: the root of its dot product with itself. *)
Definition norm (a : list A) : result A := s <- dot a a ;; Ok (a_sqrt s).

Definition cosine_similarity (a b : list A) : result A :=
  dot_product <- dot a b ;;
  norm_a <- norm a ;;
  norm_b <- norm b ;;
  if a_is_zero norm_a || a_is_zero norm_b then Ok a_zero
  else Ok (a_div dot_product (a_mul norm_a norm_b)).
End Cosine.

(** ** Vocabulary of the properties *)

(** The stored row of a name, as the table holds it. *)
Definition stored (c : Table) (n : string) : option ViewMetadata := find (name_is n) c.

(** A catalog state of the data model: unique names, fields within their
    enumerations. *)
Definition well_formed (c : Table) : Prop :=
  NoDup (map view_name c) /\ Forall (fun r => validate r = true) c.

(** What [increment_usage] does to the row it finds. *)
Definition after_increment (t_used t_promoted : timestamp) (r : ViewMetadata)
  : ViewMetadata :=
  let r1 := set_last_used (Some t_used) (set_usage_count (usage_count r + 1)%Z r) in
  if validate r1 && (3 <=? usage_count r1)%Z && String.eqb (status r1) "DRAFT"
  then set_promoted_date (Some t_promoted) (set_status "PROMOTED" r1)
  else r1.

(** Repeated [increment_usage] calls on one name, one pair of clock reads
    per call. *)
Definition increments (c : Table) (n : string) (clock : list (timestamp * timestamp))
  : Table :=
  fold_left (fun c t => fst (increment_usage c n (fst t) (snd t))) clock c.

(** The status changes of the lifecycle: none, DRAFT to PROMOTED, anything to
    ARCHIVED. *)
Definition lifecycle_step (before after : string) : Prop :=
  after = before \/ (before = "DRAFT" /\ after = "PROMOTED") \/ after = "ARCHIVED".

Definition assigns_status (a : assignment) : bool :=
  match a with
  | SetStatus _ => true
  | _ => false
  end.

(** Commands other than an update that writes the status column. *)
Definition keeps_lifecycle (k : command) : bool :=
  match k with
  | Update _ updates => negb (existsb assigns_status updates)
  | _ => true
  end.

(** Most used first. *)
Definition usage_desc (a b : ViewMetadata) : Prop := (usage_count b <= usage_count a)%Z.

(** Sample rows. *)
Definition sample_view (i : Z) (n d s : string) (usage : Z) (created : timestamp)
    (tables : list string) : ViewMetadata :=
  mkView (Some i) n 1 d (Some "Monthly aggregation") tables [] [] None None
    "fraud_analyst" None (Some created) s None None usage None None "LIVE"
    (Some created) true None ["monthly"] "CREATE VIEW v AS SELECT 1" None None None.

(** Every arc of a [DiGraph] joins two of its nodes. *)
Definition wf_digraph (g : DiGraph) : bool :=
  forallb (fun e => d_has_node g (fst (fst e)) && d_has_node g (snd (fst e))) (d_edges g).

(** Three fraud views; the first two were never used, the second is the newer. *)
Definition fraud_views : Table :=
  [sample_view 1 "v_fraud_old" "fraud" "DRAFT" 0 10 ["transactions"];
   sample_view 2 "v_fraud_new" "fraud" "DRAFT" 0 20 ["transactions"; "channels"];
   sample_view 3 "v_fraud_hot" "fraud" "PROMOTED" 5 15 ["merchants"]].

(** The schema of the specification's scenario: four tables of equal size,
    transactions -> merchants, transactions -> channels, merchants -> mcc_codes. *)
Definition merchant_db : Database :=
  [mkTable "channels" 100 ["channel_id"; "name"] [];
   mkTable "mcc_codes" 100 ["mcc_code"; "category"] [];
   mkTable "merchants" 100 ["merchant_id"; "name"; "mcc_code"]
     [mkFK "mcc_codes" "mcc_code" "mcc_code"];
   mkTable "transactions" 100 ["txn_id"; "merchant_id"; "channel_id"]
     [mkFK "merchants" "merchant_id" "merchant_id";
      mkFK "channels" "channel_id" "channel_id"]].

Definition schema_of (db : Database) : DiGraph :=
  match build_from_database db with
  | Ok g => g
  | Err _ => mkDiGraph [] []
  end.

Definition merchant_risk_profile : ViewMetadata :=
  sample_view 1 "v_merchant_risk_profile" "fraud" "PROMOTED" 0 10
    ["transactions"; "merchants"; "mcc_codes"].

(** The edge [_build_unified_graph] adds between a view and a base table. *)
Definition view_edge : EdgeAttrs := mkEdge (Some "view_dependency") None None (Some 0).

Definition shortcut_status (s : string) : Prop := s = "PROMOTED" \/ s = "MATERIALIZED".

(** The total weight a graph gives to a list of node pairs. *)
Definition pairs_cost (g : Graph) (pairs : list (string * string)) : Q :=
  fold_right (fun p acc => match edge g (fst p) (snd p) with
                           | Some a => weight_of a
                           | None => 1
                           end + acc) 0 pairs.

Definition has_edges (g : Graph) (pairs : list (string * string)) : Prop :=
  forall p, In p pairs -> exists a, edge g (fst p) (snd p) = Some a.

(** [t] is reached from [s] by a walk along the listed pairs, each taken in
    either direction. *)
Inductive joins (pairs : list (string * string)) (s : string) : string -> Prop :=
| joins_here : joins pairs s s
| joins_step (u w : string) :
    joins pairs s u -> In (u, w) pairs \/ In (w, u) pairs -> joins pairs s w.

(** A connection of a terminal set in a graph: edges of the graph that join
    every terminal to every other, the terminals being nodes of the graph. *)
Definition connects (g : Graph) (pairs : list (string * string))
    (terminals : list string) : Prop :=
  has_edges g pairs
  /\ (forall t, In t terminals -> has_node g t = true)
  /\ (forall s t, In s terminals -> In t terminals -> joins pairs s t).

(** A connection that no other connection of the terminal set undercuts. *)
Definition cheapest (g : Graph) (pairs : list (string * string))
    (terminals : list string) : Prop :=
  connects g pairs terminals
  /\ (forall others, connects g others terminals ->
                     pairs_cost g pairs <= pairs_cost g others).

(** An edge of weight zero between two nodes. *)
Definition zero_edge (g : Graph) (u w : string) : Prop :=
  exists a, edge g u w = Some a /\ e_weight a = Some 0.

(** A promoted view over a table the schema does not have. *)
Definition orphan_view : ViewMetadata :=
  sample_view 2 "v_refund_summary" "transaction" "PROMOTED" 4 12 ["refunds"].

Definition merchant_catalog : Table :=
  [merchant_risk_profile; orphan_view;
   sample_view 3 "v_channel_mix" "transaction" "DRAFT" 1 14 ["transactions"; "channels"]].

Definition graph_of (r : result Graph) : Graph :=
  match r with
  | Ok g => g
  | Err _ => empty_graph
  end.

Definition merchant_unified : Graph :=
  graph_of (build_unified_graph (schema_of merchant_db) merchant_catalog).

(** Two connections of transactions and mcc_codes: the join path through
    merchants, and the promoted view. *)
Definition merchant_path : list (string * string) :=
  [("transactions", "merchants"); ("merchants", "mcc_codes")].
Definition merchant_via_view : list (string * string) :=
  [("v_merchant_risk_profile", "transactions"); ("v_merchant_risk_profile", "mcc_codes")].

(** A hub schema: accounts, branches and devices reference customers, and
    xfers references branches.  Row counts 1, 2, 2, 8, 4 give the weights
    3/16, 4/16, 10/16 and 6/16, all exact in binary floating point. *)
Definition hub_db : Database :=
  [mkTable "accounts" 1 ["id"; "customer_id"] [mkFK "customers" "customer_id" "id"];
   mkTable "branches" 2 ["id"; "customer_id"] [mkFK "customers" "customer_id" "id"];
   mkTable "customers" 2 ["id"] [];
   mkTable "devices" 8 ["id"; "customer_id"] [mkFK "customers" "customer_id" "id"];
   mkTable "xfers" 4 ["id"; "branch_id"] [mkFK "branches" "branch_id" "id"]].

Definition hub_catalog : Table :=
  [sample_view 1 "v_account_xfers" "transaction" "PROMOTED" 3 10 ["accounts"; "xfers"]].

Definition hub_unified : Graph :=
  graph_of (build_unified_graph (schema_of hub_db) hub_catalog).

(** The three foreign keys into customers. *)
Definition hub_star : list (string * string) :=
  [("accounts", "customers"); ("branches", "customers"); ("devices", "customers")].

(** Two islands: orders between customers and products, employees in
    departments. *)
Definition split_db : Database :=
  [mkTable "customers" 10 ["id"] [];
   mkTable "departments" 10 ["id"] [];
   mkTable "employees" 10 ["id"; "department_id"] [mkFK "departments" "department_id" "id"];
   mkTable "orders" 10 ["id"; "customer_id"; "product_id"]
     [mkFK "customers" "customer_id" "id"; mkFK "products" "product_id" "id"];
   mkTable "products" 10 ["id"] []].

(** How many of the terminals a component holds. *)
Definition terminals_in (component terminals : list string) : nat :=
  length (filter (fun t => mem t component) terminals).

(** The node at the head of each queued path. *)
Definition heads (queue : list (list string)) : list string :=
  flat_map (fun p => firstn 1 p) queue.

(** [t] can be reached from [s] along edges. *)
Inductive reachable (g : Graph) (s : string) : string -> Prop :=
| reach_here : reachable g s s
| reach_step (u w : string) :
    reachable g s u -> In w (neighbors g u) -> reachable g s w.

(** Every arc joins two nodes, as a proposition. *)
Definition arcs_joined (g : DiGraph) : Prop :=
  forall x y b, In (x, y, b) (d_edges g) ->
                In x (node_names (d_nodes g)) /\ In y (node_names (d_nodes g)).

(** ** Further catalog operations ([src/catalog/view_catalog.py]) *)

(** [d[k] = d.get(k, 0) + 1] on a dict kept as a list of entries in
    insertion order. *)
Fixpoint count_key {K : Type} (eqb : K -> K -> bool) (k : K) (d : list (K * nat))
  : list (K * nat) :=
  match d with
  | [] => [(k, 1%nat)]
  | (k', n) :: d' =>
      if eqb k' k then (k', S n) :: d' else (k', n) :: count_key eqb k d'
  end.

(** [d.get(k, 0)] *)
Definition count_of {K : Type} (eqb : K -> K -> bool) (k : K) (d : list (K * nat)) : nat :=
  match find (fun e => eqb (fst e) k) d with
  | Some e => snd e
  | None => 0%nat
  end.

Record ViewStatistics := mkStatistics {
  total_views : nat;
  by_layer : list (Z * nat);
  by_domain : list (string * nat);
  by_status : list (string * nat);
  total_usage : Z;
  most_used : option ViewMetadata
}.

(** [max(views, key=lambda v: v.usage_count)]: the first view of greatest
    usage count. *)
Definition max_by_usage (first : ViewMetadata) (others : list ViewMetadata)
  : ViewMetadata :=
  fold_left (fun best v => if (usage_count best <? usage_count v)%Z then v else best)
            others first.

(** [get_statistics] *)
Definition get_statistics (c : Table) : result ViewStatistics :=
  all_views <- get_all_views c None None ;;
  Ok (mkStatistics
        (length all_views)
        (fold_left (fun d v => count_key Z.eqb (layer v) d) all_views [])
        (fold_left (fun d v => count_key String.eqb (domain v) d) all_views [])
        (fold_left (fun d v => count_key String.eqb (status v) d) all_views [])
        (fold_left (fun total v => (total + usage_count v)%Z) all_views 0%Z)
        (match all_views with
         | [] => None
         | v :: others => Some (max_by_usage v others)
         end)).

(** [any(table in view.base_tables for table in table_names)] *)
Definition uses_any (table_names : list string) (view : ViewMetadata) : bool :=
  existsb (fun table => mem table (base_tables view)) table_names.

(** [find_by_base_tables] *)
Definition find_by_base_tables (c : Table) (table_names : list string)
  : result (list ViewMetadata) :=
  all_views <- get_all_views c None None ;;
  Ok (filter (uses_any table_names) all_views).

(** The lookups of [get_view_lineage]: the names that resolve, in order. *)
Fixpoint resolve (c : Table) (names : list string) : result (list ViewMetadata) :=
  match names with
  | [] => Ok []
  | n :: names' =>
      found <- find_by_name c n ;;
      rest <- resolve c names' ;;
      Ok (match found with
          | Some v => v :: rest
          | None => rest
          end)
  end.

(** [_calculate_depth].  [visited] is the set of names on the current path:
    each dependency is explored with its own copy.  [None] stands for a
    recursion that would need more rounds than [fuel]. *)
Fixpoint calculate_depth (fuel : nat) (c : Table) (view : ViewMetadata)
    (visited : list string) : option (result Z) :=
  match fuel with
  | O => None
  | S fuel' =>
      if mem (view_name view) visited then Some (Ok 0%Z)
      else
        let visited := view_name view :: visited in
        fold_left
          (fun acc dep_view_name =>
             match acc with
             | Some (Ok max_depth) =>
                 match find_by_name c dep_view_name with
                 | Err e => Some (Err e)
                 | Ok None => Some (Ok max_depth)
                 | Ok (Some dep_view) =>
                     match calculate_depth fuel' c dep_view visited with
                     | Some (Ok depth) => Some (Ok (Z.max max_depth (depth + 1)))
                     | other => other
                     end
                 end
             | other => other
             end)
          (depends_on_views view) (Some (Ok 0%Z))
  end.

Record Lineage := mkLineage {
  lineage_view : ViewMetadata;
  lineage_base_tables : list string;
  upstream_views : list ViewMetadata;
  downstream_views : list ViewMetadata;
  total_depth : Z
}.

(** [get_view_lineage]; the empty dict of an unknown view is [Ok None]. *)
Definition get_view_lineage (c : Table) (n : string) : option (result (option Lineage)) :=
  match find_by_name c n with
  | Err e => Some (Err e)
  | Ok None => Some (Ok None)
  | Ok (Some view) =>
      match resolve c (depends_on_views view) with
      | Err e => Some (Err e)
      | Ok upstream =>
          match resolve c (used_by_views view) with
          | Err e => Some (Err e)
          | Ok downstream =>
              match calculate_depth (S (length c)) c view [] with
              | None => None
              | Some (Err e) => Some (Err e)
              | Some (Ok depth) =>
                  Some (Ok (Some (mkLineage view (base_tables view) upstream
                                            downstream depth)))
              end
          end
      end
  end.

(** Python's [l[:k]]: a negative [k] counts from the end. *)
Definition take {A : Type} (k : Z) (l : list A) : list A :=
  if (0 <=? k)%Z then firstn (Z.to_nat k) l
  else firstn (length l - Z.to_nat (- k)) l.

(** [search_by_tables] of [src/catalog/semantic_search.py]: the views over
    any of the tables, sorted again by usage count, cut at [top_k]. *)
Definition search_by_tables (c : Table) (table_names : list string) (top_k : Z)
  : result (list ViewMetadata) :=
  views <- find_by_base_tables c table_names ;;
  Ok (take top_k (order_by by_usage_desc views)).

(** The order of [get_all_views]: [a] may stand before [b]. *)
Definition catalog_order (a b : ViewMetadata) : Prop :=
  by_usage_then_created_desc b a = false.



(** ** Vocabulary of the schema graph's properties *)

(** [n] is the name of a table of the database. *)
Definition is_table (db : Database) (n : string) : Prop :=
  exists t, In t db /\ t_name t = n.

(** Table [u] declares a foreign key into table [v]. *)
Definition references (db : Database) (u v : string) : Prop :=
  exists t fk, In t db /\ t_name t = u /\ In fk (t_foreign_keys t) /\ fk_table fk = v.

(** The node data [build_from_database] records for a table. *)
Definition describes (t : TableMeta) (a : NodeAttrs) : Prop :=
  n_type a = Some "table"
  /\ n_row_count a = Some (t_row_count t)
  /\ n_columns a = Some (t_columns t)
  /\ n_column_count a = Some (Z.of_nat (length (t_columns t))).

(** Every node carries the data of a table of its name. *)
Definition counted (db : Database) (ns : NodeList) : Prop :=
  forall n a, In (n, a) ns -> exists t, In t db /\ t_name t = n /\ describes t a.

(** No table reports a negative number of rows. *)
Definition counts_rows (db : Database) : Prop :=
  forall t, In t db -> (0 <= t_row_count t)%Z.


(** A walk from [s]: the nodes passed, in order, each adjacent to the one
    before. *)
Inductive walk (adj : string -> string -> Prop) (s : string)
  : string -> list string -> Prop :=
| walk_here : walk adj s s [s]
| walk_step (u w : string) (p : list string) :
    walk adj s u p -> adj u w -> walk adj s w (p ++ [w]).

(** Adjacent in an undirected graph. *)
Definition adjacent (g : Graph) (u w : string) : Prop := In w (neighbors g u).

(** Two tables with a foreign key from one to the other, in either
    direction. *)
Definition joined (g : DiGraph) (u w : string) : Prop :=
  d_has_edge g u w = true \/ d_has_edge g w u = true.

(** A queued search path, newest node first, is a walk read backwards. *)
Definition search_path (g : Graph) (s : string) (p : list string) : Prop :=
  exists h, hd_error p = Some h /\ walk (adjacent g) s h (rev p).

Definition shorter (p q : list string) : Prop := (length p <= length q)%nat.

(** Some edge of the list joins [u] and [w]. *)
Definition linked (es : EdgeList) (u w : string) : Prop :=
  exists x y a, In (x, y, a) es /\ ((x = u /\ y = w) \/ (y = u /\ x = w)).

(** The number of steps of a walk. *)
Definition hops (q : list string) : Z := (Z.of_nat (length q) - 1)%Z.

(** The number of edge ends at a node. *)
Definition degree (g : Graph) (v : string) : nat := length (neighbors g v).

(** The edge ends at the nodes of [names] that were not visited: a bound on
    the queue entries still to come. *)
Definition pending (g : Graph) (names visited : list string) : nat :=
  list_sum (map (degree g) (filter (fun v => negb (mem v visited)) names)).

Definition by_depth (a b : string * Z) : Prop := (snd a <= snd b)%Z.

(** ** Vocabulary of the solver's properties *)

(** Every node is a table of the database, or carries the type of a view
    and the name of one of [views]. *)
Definition typed (db : Database) (views : list ViewMetadata) (ns : NodeList) : Prop :=
  forall n a, In (n, a) ns ->
              (n_type a = Some "table" /\ is_table db n)
              \/ (n_type a = Some "view" /\ exists v, In v views /\ view_name v = n).

From Stdlib Require DecimalString DecimalNat Lqa Qabs.

(** ** Recommendations ([recommend_views] of [src/graph/steiner_tree.py]) *)

(** [len(set(view.base_tables) & set(terminal_tables))] *)
Definition coverage (view : ViewMetadata) (terminal_tables : list string) : Z :=
  Z.of_nat (length (nodup string_dec
                      (filter (fun t => mem t terminal_tables) (base_tables view)))).

Definition score (terminal_tables : list string) (view : ViewMetadata) : Z :=
  (coverage view terminal_tables * 10 + usage_count view)%Z.

(** [sort(key=lambda x: x[0], reverse=True)] *)
Definition by_score_desc (a b : Z * ViewMetadata) : bool := (fst b <? fst a)%Z.

Definition recommend_views (catalog : option Table) (terminal_tables : list string)
    (top_k : Z) : result (list ViewMetadata) :=
  match catalog with
  | None => Ok []
  | Some c =>
      relevant_views <- find_by_base_tables c terminal_tables ;;
      let scored_views :=
        map (fun view => (score terminal_tables view, view)) relevant_views in
      Ok (map snd (take top_k (order_by by_score_desc scored_views)))
  end.

(** ** View integration ([src/graph/view_integration.py]) *)

(** [str(counter)] *)
Definition decimal (n : nat) : string :=
  DecimalString.NilEmpty.string_of_uint (Nat.to_uint n).

(** [f"{original_name}_{counter}"] *)
Definition numbered (original_name : string) (counter : nat) : string :=
  (original_name ++ "_" ++ decimal counter)%string.



Record Beneficiary := mkBeneficiary {
  beneficiary : string;
  tables_overlap : list string;
  potential_savings : nat
}.

Record Impact := mkImpact {
  impact_view : ViewMetadata;
  impact_usage_count : Z;
  impact_base_tables : list string;
  impact_downstream_views : nat;
  potential_beneficiaries : nat;
  impact_score : Z;
  recommendations : list Beneficiary
}.

(** [get_view_impact_analysis]; the error dict of an unknown view is
    [Ok None]. *)
Definition get_view_impact_analysis (c : Table) (n : string)
  : option (result (option Impact)) :=
  match find_by_name c n with
  | Err e => Some (Err e)
  | Ok None => Some (Ok None)
  | Ok (Some view) =>
      match get_view_lineage c n with
      | None => None
      | Some (Err e) => Some (Err e)
      | Some (Ok lineage) =>
          match get_all_views c None None with
          | Err e => Some (Err e)
          | Ok all_views =>
              let potential_queries :=
                flat_map (fun candidate =>
                            if String.eqb (view_name candidate) n then []
                            else
                              match nodup string_dec
                                      (filter (fun t => mem t (base_tables view))
                                              (base_tables candidate)) with
                              | [] => []
                              | overlap =>
                                  [mkBeneficiary (view_name candidate) overlap
                                                 (length overlap)]
                              end)
                         all_views in
              match lineage with
              | None => Some (Err (KeyError "downstream_views"))
              | Some l =>
                  Some (Ok (Some (mkImpact view (usage_count view) (base_tables view)
                                    (length (downstream_views l))
                                    (length potential_queries)
                                    (usage_count view
                                     + Z.of_nat (length potential_queries) * 2)%Z
                                    (take 5 potential_queries))))
              end
          end
      end
  end.

(** The names [suggest_view_name] tries, in order. *)
Definition candidate (original_name : string) (k : nat) : string :=
  match k with
  | O => original_name
  | S _ => numbered original_name k
  end.

(** ** Vocabulary of the lifecycle's effect on the solver *)

(** The view [n] over the tables of [r] is a shortcut of the graph [U]: a
    node, joined at weight zero to every base table the schema has. *)
Definition shortcut (schema : DiGraph) (U : Graph) (n : string) (r : ViewMetadata) : Prop :=
  has_node U n = true
  /\ forall t, In t (base_tables r) -> has_node (to_undirected schema) t = true ->
               zero_edge U n t.

(** ** Semantic search ([src/catalog/semantic_search.py])

    The embedding model is a function from texts to vectors; the scores are
    compared in the arithmetic of the vectors. *)
Class Scores (A : Type) := {
  s_geb : A -> A -> bool;        (* [x >= y] *)
  s_ltb : A -> A -> bool;        (* [x < y] *)
  s_one : A;                     (* [1.0] *)
  s_default_min : A              (* [0.2], the threshold of the fallback search *)
}.

#[export] Instance Binary64Scores : Scores float := {
  s_geb := fun x y => PrimFloat.leb y x;
  s_ltb := PrimFloat.ltb;
  s_one := 1%float;
  s_default_min := 0x1.999999999999ap-3%float
}.

Section Search.
Context {A : Type} `{Arithmetic A} `{Scores A}.
Variable embed_text : string -> list A.

(** [ViewSearchResult], whose score field is declared with [ge=0.0, le=1.0]. *)
Record ViewSearchResult := mkSearchResult {
  result_view : ViewMetadata;
  similarity_score : A
}.

Definition search_result (view : ViewMetadata) (similarity : A) : result ViewSearchResult :=
  if s_geb similarity a_zero && s_geb s_one similarity
  then Ok (mkSearchResult view similarity)
  else Err ValidationError.

(** [embeddings_cache]: a dict from view names to vectors. *)
Definition Cache : Type := list (string * list A).

Definition cached (cache : Cache) (n : string) : option (list A) :=
  option_map snd (find (fun e => String.eqb (fst e) n) cache).

Definition layer_name (l : Z) : string :=
  if (l =? 1)%Z then "discovery"
  else if (l =? 2)%Z then "research"
  else if (l =? 3)%Z then "compound"
  else "unknown".

Definition composite_text (view : ViewMetadata) : string :=
  String.concat " | "
    (match truthy_str (description view) with
     | Some d => [d]
     | None => []
     end
     ++ [("domain: " ++ domain view)%string]
     ++ [("layer: " ++ layer_name (layer view))%string]
     ++ match tags view with
        | [] => []
        | ts => [("tags: " ++ String.concat ", " ts)%string]
        end
     ++ match base_tables view with
        | [] => []
        | bs => [("tables: " ++ String.concat ", " bs)%string]
        end).

(** [embed_view]: the vector and the cache it leaves. *)
Definition embed_view (cache : Cache) (view : ViewMetadata) : list A * Cache :=
  match cached cache (view_name view) with
  | Some embedding => (embedding, cache)
  | None =>
      let embedding := embed_text (composite_text view) in
      (embedding, cache ++ [(view_name view, embedding)])
  end.

(** [index_all_views] *)
Definition index_all_views (c : Table) (cache : Cache) : result (nat * Cache) :=
  views <- get_all_views c None None ;;
  Ok (fold_left (fun state view => (S (fst state), snd (embed_view (snd state) view)))
                views (0%nat, cache)).

(** The scoring loop of [search] and [find_similar_views]; with no
    [min_score] every view is kept, as in [suggest_views_for_query]. *)
Fixpoint rank (query_embedding : list A) (min_score : option A)
    (views : list ViewMetadata) (cache : Cache)
  : result (list ViewSearchResult * Cache) :=
  match views with
  | [] => Ok ([], cache)
  | view :: rest =>
      let '(view_embedding, cache) := embed_view cache view in
      similarity <- cosine_similarity query_embedding view_embedding ;;
      if match min_score with
         | Some m => s_geb similarity m
         | None => true
         end
      then
        r <- search_result view similarity ;;
        ranked <- rank query_embedding min_score rest cache ;;
        Ok (r :: fst ranked, snd ranked)
      else rank query_embedding min_score rest cache
  end.

(** [sort(key=lambda x: x.similarity_score, reverse=True)] *)
Definition by_similarity_desc (a b : ViewSearchResult) : bool :=
  s_ltb (similarity_score b) (similarity_score a).

(** The candidate views of [search]. *)
Definition candidates (c : Table) (domain : option string) (layer : option Z)
  : result (list ViewMetadata) :=
  match truthy_str domain, truthy_int layer with
  | Some d, Some l => find_by_domain c d (Some l)
  | Some d, None => find_by_domain c d None
  | None, Some l => get_all_views c (Some l) None
  | None, None => get_all_views c None None
  end.

(** [search] *)
Definition search (c : Table) (cache : Cache) (query : string) (top_k : Z)
    (min_score : A) (domain : option string) (layer : option Z)
  : result (list ViewSearchResult * Cache) :=
  let query_embedding := embed_text query in
  views <- candidates c domain layer ;;
  match views with
  | [] => Ok ([], cache)
  | _ =>
      ranked <- rank query_embedding (Some min_score) views cache ;;
      Ok (take top_k (order_by by_similarity_desc (fst ranked)), snd ranked)
  end.

(** [find_similar_views] *)
Definition find_similar_views (c : Table) (cache : Cache) (n : string) (top_k : Z)
    (min_score : A) : result (list ViewSearchResult * Cache) :=
  ref_view <- find_by_name c n ;;
  match ref_view with
  | None => Ok ([], cache)
  | Some ref_view =>
      let '(ref_embedding, cache) := embed_view cache ref_view in
      all_views <- get_all_views c None None ;;
      ranked <- rank ref_embedding (Some min_score)
                  (filter (fun view => negb (String.eqb (view_name view) n)) all_views)
                  cache ;;
      Ok (take top_k (order_by by_similarity_desc (fst ranked)), snd ranked)
  end.

(** [suggest_views_for_query] *)
Definition suggest_views_for_query (c : Table) (cache : Cache) (query : string)
    (tables : option (list string)) (top_k : Z)
  : result (list ViewSearchResult * Cache) :=
  let fallback := search c cache query top_k s_default_min None None in
  match tables with
  | Some ((_ :: _) as tables) =>
      table_views <- search_by_tables c tables 10 ;;
      match table_views with
      | [] => fallback
      | _ =>
          ranked <- rank (embed_text query) None table_views cache ;;
          Ok (take top_k (order_by by_similarity_desc (fst ranked)), snd ranked)
      end
  | _ => fallback
  end.

End Search.

Arguments mkSearchResult {A} result_view similarity_score.
Arguments result_view {A} v.
Arguments similarity_score {A} v.

(** The catalog rows that pass the filters of [search] that are in force. *)
Definition searched (want_domain : option string) (want_layer : option Z) (v : ViewMetadata)
  : Prop :=
  (forall d, truthy_str want_domain = Some d -> domain v = d)
  /\ (forall l, truthy_int want_layer = Some l -> layer v = l).

(** A score that [ViewSearchResult] accepts. *)
Definition valid_score {A : Type} `{Arithmetic A} `{Scores A} (s : A) : Prop :=
  s_geb s a_zero = true /\ s_geb s_one s = true.

(** An embedding model for examples: every text gets the same vector. *)
Definition constant_model (text : string) : list float := [1%float; 0%float].

(** ** Foreign keys of a table ([get_foreign_keys] of [src/graph/schema_graph.py]) *)

Record ForeignKeyInfo := mkForeignKeyInfo {
  from_table : string;
  to_table : string;
  from_column : option string;
  to_column : option string;
  direction : string
}.

(** [edge_data.get('type') == 'fk'] *)
Definition is_fk (a : EdgeAttrs) : bool :=
  match e_type a with
  | Some t => String.eqb t "fk"
  | None => false
  end.

(** [get_foreign_keys]: the arcs out of the table, in the order they were
    added, then the arcs into it. *)
Definition get_foreign_keys (g : DiGraph) (table_name : string) : list ForeignKeyInfo :=
  if negb (d_has_node g table_name) then []
  else
    map (fun e => mkForeignKeyInfo table_name (snd (fst e)) (e_from_column (snd e))
                    (e_to_column (snd e)) "outgoing")
        (filter (fun e => String.eqb (fst (fst e)) table_name && is_fk (snd e)) (d_edges g))
    ++ map (fun e => mkForeignKeyInfo (fst (fst e)) table_name (e_from_column (snd e))
                       (e_to_column (snd e)) "incoming")
           (filter (fun e => String.eqb (snd (fst e)) table_name && is_fk (snd e))
                   (d_edges g)).

(** The foreign keys a database declares, in the order
    [build_from_database] adds them. *)
Definition declared (db : Database) : list (string * ForeignKey) :=
  flat_map (fun t => map (fun fk => (t_name t, fk)) (t_foreign_keys t)) db.

(** The foreign key from [u] into [v] that was added last. *)
Definition last_declared (pairs : list (string * ForeignKey)) (u v : string)
  : option ForeignKey :=
  option_map snd
    (find (fun p => String.eqb (fst p) u && String.eqb (fk_table (snd p)) v) (rev pairs)).

(** The columns an arc carries are those of the foreign key [fk]. *)
Definition carries (a : EdgeAttrs) (fk : ForeignKey) : Prop :=
  e_type a = Some "fk"
  /\ e_from_column a = Some (fk_from fk) /\ e_to_column a = Some (fk_to fk).

(** ** Graph statistics ([get_statistics] of [src/graph/schema_graph.py]) *)

Record GraphStatistics := mkGraphStatistics {
  num_tables : nat;
  num_foreign_keys : nat;
  stat_is_connected : bool;
  num_components : nat;
  avg_degree : Q;
  total_rows : Z
}.

(** [G.degree(n)] of a directed graph: arcs out of the node plus arcs into
    it. *)
Definition d_degree (g : DiGraph) (n : string) : nat :=
  (length (filter (fun e => String.eqb (fst (fst e)) n) (d_edges g))
   + length (filter (fun e => String.eqb (snd (fst e)) n) (d_edges g)))%nat.

(** [get_statistics]; [built] is the flag [_built], and the answer
    [{'error': ...}] of a graph that was not built is [Ok None].  The entries
    are computed in the order of the dict, so the connectivity test of
    networkx, which refuses a graph without nodes, comes before the guarded
    average. *)
Definition get_graph_statistics (built : bool) (g : DiGraph)
  : result (option GraphStatistics) :=
  if negb built then Ok None
  else
    let number_of_nodes := length (d_nodes g) in
    let number_of_edges := length (d_edges g) in
    connected <- is_connected (to_undirected g) ;;
    let components := length (connected_components (to_undirected g)) in
    let degrees := list_sum (map (d_degree g) (node_names (d_nodes g))) in
    Ok (Some (mkGraphStatistics number_of_nodes number_of_edges connected components
                (if (0 <? number_of_nodes)%nat
                 then inject_Z (Z.of_nat degrees) / inject_Z (Z.of_nat number_of_nodes)
                 else 0)
                (fold_left (fun total p => (total + match n_row_count (snd p) with
                                                     | Some r => r
                                                     | None => 0
                                                     end)%Z)
                           (d_nodes g) 0%Z))).
(** * Properties *)

(** ** View catalog *)

Lemma name_is_true (n : string) (r : ViewMetadata) :
  name_is n r = true <-> view_name r = n.
Proof. unfold name_is. apply String.eqb_eq. Qed.

Lemma name_is_false (n : string) (r : ViewMetadata) :
  name_is n r = false <-> view_name r <> n.
Proof. unfold name_is. apply String.eqb_neq. Qed.

Lemma filter_none {A : Type} (f : A -> bool) (l : list A) :
  (forall x, In x l -> f x = false) -> filter f l = [].
Proof.
  induction l as [|a l IH]; simpl; intros H; [reflexivity|].
  rewrite (H a (or_introl eq_refl)). apply IH. intros x Hx. apply H. now right.
Qed.

(** With unique names, the rows selected by a name are the one row that
    carries it. *)
Lemma filter_unique_name (c : Table) (r : ViewMetadata) :
  NoDup (map view_name c) -> In r c -> filter (name_is (view_name r)) c = [r].
Proof.
  induction c as [|x c IH]; simpl; intros Hnd Hin; [contradiction|].
  inversion Hnd as [|? ? Hnotin Hnd']; subst.
  destruct Hin as [->|Hin].
  - rewrite (proj2 (name_is_true _ _) eq_refl). f_equal.
    apply filter_none. intros y Hy.
    apply name_is_false. intros Heq. apply Hnotin. rewrite <- Heq. now apply in_map.
  - destruct (name_is (view_name r) x) eqn:Hx.
    + apply name_is_true in Hx. exfalso. apply Hnotin. rewrite Hx. now apply in_map.
    + now apply IH.
Qed.

Lemma filter_head_in {A : Type} (f : A -> bool) (l : list A) (x : A) (rest : list A) :
  filter f l = x :: rest -> In x l /\ f x = true.
Proof.
  intros H. apply filter_In. rewrite H. now left.
Qed.

(** C5: registering a view whose name is already in the catalog raises
    the duplicate-view error and leaves the table exactly as it was. *)
Theorem register_view_duplicate (c : Table) (view : ViewMetadata)
    (t_created t_validated : timestamp) :
  Forall (fun r => validate r = true) c ->
  (exists r, In r c /\ view_name r = view_name view) ->
  register_view c view t_created t_validated
  = (c, Err (ViewAlreadyExists (view_name view))).
Proof.
  intros Hvalid [r [Hin Hname]].
  unfold register_view, find_by_name.
  destruct (filter (name_is (view_name view)) c) as [|row rest] eqn:Hf.
  - exfalso.
    assert (Hr : In r (filter (name_is (view_name view)) c))
      by (apply filter_In; split; [assumption | now apply name_is_true]).
    rewrite Hf in Hr. contradiction.
  - destruct (filter_head_in _ _ _ _ Hf) as [Hrow _].
    unfold from_db_row.
    rewrite Forall_forall in Hvalid. rewrite (Hvalid row Hrow). reflexivity.
Qed.

(** Registering a second "v_fraud_monthly_trend" is refused. *)
Lemma register_view_duplicate_witness :
  register_view [sample_view 1 "v_fraud_monthly_trend" "fraud" "DRAFT" 0 10 ["transactions"]]
    (sample_view 7 "v_fraud_monthly_trend" "risk" "PROMOTED" 0 20 ["channels"]) 30 31
  = ([sample_view 1 "v_fraud_monthly_trend" "fraud" "DRAFT" 0 10 ["transactions"]],
     Err (ViewAlreadyExists "v_fraud_monthly_trend")).
Proof.
  apply (register_view_duplicate
           [sample_view 1 "v_fraud_monthly_trend" "fraud" "DRAFT" 0 10 ["transactions"]]
           (sample_view 7 "v_fraud_monthly_trend" "risk" "PROMOTED" 0 20 ["channels"])).
  - repeat constructor.
  - eexists. split; [left; reflexivity | reflexivity].
Defined.

(** *** Archival *)

Lemma exists_filter_pos {A : Type} (f : A -> bool) (l : list A) (x : A) :
  In x l -> f x = true -> (0 <? length (filter f l))%nat = true.
Proof.
  intros Hin Hf.
  assert (H : In x (filter f l)) by (apply filter_In; now split).
  destruct (filter f l); [contradiction | reflexivity].
Qed.

(** C10: archiving a name that is in the catalog succeeds; the rows of that
    name get status ARCHIVED with every other column as before, and every
    other row is untouched. *)
Theorem delete_view_frame (c : Table) (n : string) :
  (exists r, In r c /\ view_name r = n) ->
  snd (delete_view c n) = true
  /\ length (fst (delete_view c n)) = length c
  /\ forall (i : nat) (r : ViewMetadata),
       nth_error c i = Some r ->
       nth_error (fst (delete_view c n)) i
       = Some (if String.eqb (view_name r) n
               then mkView (view_id r) (view_name r) (layer r) (domain r) (description r)
                      (base_tables r) (depends_on_views r) (used_by_views r)
                      (steiner_subgraph r) (created_by_session r) (created_by_role r)
                      (created_by_query r) (created_date r) "ARCHIVED" (promoted_date r)
                      (materialized_date r) (usage_count r) (last_used r)
                      (avg_query_time_ms r) (freshness_type r) (last_validated r)
                      (is_valid r) (embedding_id r) (tags r) (view_definition r)
                      (approved_by r) (approval_date r) (review_notes r)
               else r).
Proof.
  intros [r0 [Hin Hname]].
  unfold delete_view, update_view, execute_update. cbn [fst snd].
  repeat split.
  - apply (exists_filter_pos _ _ r0 Hin). now apply name_is_true.
  - apply length_map.
  - intros i r Hi. rewrite nth_error_map, Hi. cbn [option_map].
    unfold name_is. destruct (String.eqb (view_name r) n); reflexivity.
Qed.

(** Archiving "v_a" next to "v_b". *)
Lemma delete_view_frame_witness :
  nth_error (fst (delete_view [sample_view 1 "v_a" "fraud" "PROMOTED" 4 10 ["transactions"];
                               sample_view 2 "v_b" "risk" "DRAFT" 1 11 ["merchants"]] "v_a")) 0
  = Some (sample_view 1 "v_a" "fraud" "ARCHIVED" 4 10 ["transactions"])
  /\ nth_error (fst (delete_view [sample_view 1 "v_a" "fraud" "PROMOTED" 4 10 ["transactions"];
                                  sample_view 2 "v_b" "risk" "DRAFT" 1 11 ["merchants"]] "v_a")) 1
     = Some (sample_view 2 "v_b" "risk" "DRAFT" 1 11 ["merchants"]).
Proof.
  destruct (delete_view_frame
              [sample_view 1 "v_a" "fraud" "PROMOTED" 4 10 ["transactions"];
               sample_view 2 "v_b" "risk" "DRAFT" 1 11 ["merchants"]] "v_a"
              (ex_intro _ (sample_view 1 "v_a" "fraud" "PROMOTED" 4 10 ["transactions"])
                 (conj (or_introl eq_refl) eq_refl))) as [_ [_ H]].
  split.
  - exact (H 0%nat _ eq_refl).
  - exact (H 1%nat _ eq_refl).
Defined.

(** *** Usage counting and promotion *)

Lemma unique_row (c : Table) (x r : ViewMetadata) :
  NoDup (map view_name c) -> In x c -> In r c -> view_name x = view_name r -> x = r.
Proof.
  intros Hnd Hx Hr Hname.
  pose proof (filter_unique_name c r Hnd Hr) as Hf.
  assert (Hin : In x (filter (name_is (view_name r)) c))
    by (apply filter_In; split; [assumption | now apply name_is_true]).
  rewrite Hf in Hin. destruct Hin as [H|[]]. now symmetry.
Qed.

Lemma filter_map_keeps {A : Type} (f : A -> bool) (g : A -> A) (l : list A) :
  (forall x, f (g x) = f x) -> filter f (map g l) = map g (filter f l).
Proof.
  intros H. induction l as [|a l IH]; simpl; [reflexivity|].
  rewrite H. destruct (f a); simpl; now rewrite IH.
Qed.

Lemma find_map_keeps {A : Type} (f : A -> bool) (g : A -> A) (l : list A) :
  (forall x, f (g x) = f x) -> find f (map g l) = option_map g (find f l).
Proof.
  intros H. induction l as [|a l IH]; simpl; [reflexivity|].
  rewrite H. destruct (f a); simpl; [reflexivity | exact IH].
Qed.

Lemma stored_in (c : Table) (n : string) (r : ViewMetadata) :
  stored c n = Some r -> In r c /\ view_name r = n.
Proof.
  unfold stored. intros H. apply find_some in H. destruct H as [Hin Hn].
  split; [assumption | now apply name_is_true].
Qed.

(** The table after [increment_usage], row by row. *)
Lemma increment_usage_rows (c : Table) (n : string) (t_used t_promoted : timestamp)
    (r : ViewMetadata) :
  NoDup (map view_name c) -> stored c n = Some r ->
  fst (increment_usage c n t_used t_promoted)
  = map (fun x => if name_is n x then after_increment t_used t_promoted x else x) c.
Proof.
  intros Hnd Hst. destruct (stored_in _ _ _ Hst) as [Hin Hname]. subst n.
  pose proof (filter_unique_name c r Hnd Hin) as Hf.
  unfold increment_usage, execute_update. cbv zeta iota beta. rewrite Hf.
  cbn [length Nat.ltb Nat.leb].
  pose (bump := fun x : ViewMetadata =>
                  set_last_used (Some t_used) (set_usage_count (usage_count x + 1)%Z x)).
  set (c1 := map _ c).
  assert (Hf1 : filter (name_is (view_name r)) c1 = [bump r]).
  { unfold c1. rewrite filter_map_keeps.
    - rewrite Hf. simpl. now rewrite (proj2 (name_is_true _ _) eq_refl).
    - intros x. destruct (name_is (view_name r) x) eqn:Hx; [|exact Hx].
      unfold name_is in *. exact Hx. }
  unfold find_by_name. rewrite Hf1. unfold from_db_row.
  assert (Hrow : forall x, In x c -> name_is (view_name r) x = true -> x = r).
  { intros x Hx Hnx. apply name_is_true in Hnx. now apply (unique_row c). }
  destruct (validate (bump r)) eqn:Hv; cbn [bind].
  - destruct ((3 <=? usage_count (bump r))%Z && (status (bump r) =? "DRAFT")) eqn:Hp.
    + unfold promote_view, execute_update. cbn [fst]. unfold c1. rewrite map_map.
      apply map_ext_in. intros x Hx.
      destruct (name_is (view_name r) x) eqn:Hnx.
      * rewrite (Hrow x Hx Hnx). unfold after_increment. fold (bump r).
        rewrite Hv. cbn [andb]. rewrite Hp.
        apply andb_prop in Hp. destruct Hp as [_ Hd].
        replace (name_is (view_name r) (bump r)) with true
          by (symmetry; now apply name_is_true).
        rewrite Hd. reflexivity.
      * rewrite Hnx. reflexivity.
    + cbn [fst]. unfold c1. apply map_ext_in. intros x Hx.
      destruct (name_is (view_name r) x) eqn:Hnx; [|reflexivity].
      rewrite (Hrow x Hx Hnx). unfold after_increment. fold (bump r).
      rewrite Hv. cbn [andb]. now rewrite Hp.
  - cbn [fst]. unfold c1. apply map_ext_in. intros x Hx.
    destruct (name_is (view_name r) x) eqn:Hnx; [|reflexivity].
    rewrite (Hrow x Hx Hnx). unfold after_increment. fold (bump r).
    now rewrite Hv.
Qed.

Lemma after_increment_name (t1 t2 : timestamp) (x : ViewMetadata) :
  view_name (after_increment t1 t2 x) = view_name x.
Proof.
  unfold after_increment.
  destruct (validate _ && _ && _); reflexivity.
Qed.

Lemma increment_usage_stored (c : Table) (n : string) (t1 t2 : timestamp)
    (r : ViewMetadata) :
  NoDup (map view_name c) -> stored c n = Some r ->
  stored (fst (increment_usage c n t1 t2)) n = Some (after_increment t1 t2 r)
  /\ map view_name (fst (increment_usage c n t1 t2)) = map view_name c.
Proof.
  intros Hnd Hst. rewrite (increment_usage_rows c n t1 t2 r Hnd Hst). split.
  - unfold stored. rewrite find_map_keeps.
    + unfold stored in Hst. rewrite Hst. cbn [option_map].
      apply find_some in Hst. destruct Hst as [_ Hn]. now rewrite Hn.
    + intros x. destruct (name_is n x) eqn:Hx; [|exact Hx].
      unfold name_is in *. now rewrite after_increment_name.
  - rewrite map_map. apply map_ext. intros x.
    destruct (name_is n x); [apply after_increment_name | reflexivity].
Qed.

Lemma validate_after_bump (t : timestamp) (r : ViewMetadata) :
  validate (set_last_used (Some t) (set_usage_count (usage_count r + 1)%Z r)) = validate r.
Proof. reflexivity. Qed.

Lemma increments_draft (clock : list (timestamp * timestamp)) :
  forall (c : Table) (n : string) (r : ViewMetadata),
    NoDup (map view_name c) -> stored c n = Some r ->
    status r = "DRAFT" -> (usage_count r + Z.of_nat (length clock) < 3)%Z ->
    exists r', stored (increments c n clock) n = Some r'
               /\ status r' = "DRAFT"
               /\ usage_count r' = (usage_count r + Z.of_nat (length clock))%Z.
Proof.
  induction clock as [|[t1 t2] clock IH]; intros c n r Hnd Hst Hs Hlt.
  - exists r. cbn. repeat split; [assumption | assumption | lia].
  - cbn [increments fold_left fst snd].
    destruct (increment_usage_stored c n t1 t2 r Hnd Hst) as [Hst' Hnames].
    cbn [length] in Hlt.
    assert (Hafter : after_increment t1 t2 r
                     = set_last_used (Some t1) (set_usage_count (usage_count r + 1)%Z r)).
    { unfold after_increment.
      replace (3 <=? usage_count (set_last_used (Some t1)
                 (set_usage_count (usage_count r + 1)%Z r)))%Z with false
        by (symmetry; apply Z.leb_gt; cbn; lia).
      now rewrite andb_false_r. }
    rewrite Hafter in Hst'.
    destruct (IH (fst (increment_usage c n t1 t2)) n _
                 ltac:(now rewrite Hnames) Hst' Hs ltac:(cbn; lia))
      as [r' [H1 [H2 H3]]].
    exists r'. repeat split; [exact H1 | exact H2 |]. rewrite H3. cbn. lia.
Qed.

(** C2: in a well-formed catalog, (1) incrementing a DRAFT record used
    twice leaves it used three times and PROMOTED; (2) fewer than three
    increments of a fresh DRAFT record leave it DRAFT; (3) incrementing a
    PROMOTED record leaves it PROMOTED. *)
Theorem increment_usage_promotion :
  (forall (c : Table) (n : string) (r : ViewMetadata) (t_used t_promoted : timestamp),
      well_formed c -> stored c n = Some r ->
      status r = "DRAFT" -> usage_count r = 2%Z ->
      exists r', stored (fst (increment_usage c n t_used t_promoted)) n = Some r'
                 /\ usage_count r' = 3%Z /\ status r' = "PROMOTED")
  /\ (forall (c : Table) (n : string) (r : ViewMetadata)
             (clock : list (timestamp * timestamp)),
         well_formed c -> stored c n = Some r ->
         status r = "DRAFT" -> usage_count r = 0%Z -> (length clock < 3)%nat ->
         exists r', stored (increments c n clock) n = Some r'
                    /\ status r' = "DRAFT"
                    /\ usage_count r' = Z.of_nat (length clock))
  /\ (forall (c : Table) (n : string) (r : ViewMetadata) (t_used t_promoted : timestamp),
         well_formed c -> stored c n = Some r ->
         status r = "PROMOTED" ->
         exists r', stored (fst (increment_usage c n t_used t_promoted)) n = Some r'
                    /\ usage_count r' = (usage_count r + 1)%Z /\ status r' = "PROMOTED").
Proof.
  split; [|split].
  - intros c n r t1 t2 [Hnd Hvalid] Hst Hs Hu.
    destruct (increment_usage_stored c n t1 t2 r Hnd Hst) as [Hst' _].
    exists (after_increment t1 t2 r). split; [exact Hst'|].
    destruct (stored_in _ _ _ Hst) as [Hin _].
    rewrite Forall_forall in Hvalid. pose proof (Hvalid r Hin) as Hv.
    unfold after_increment. rewrite validate_after_bump, Hv.
    cbn [set_last_used set_usage_count usage_count status].
    rewrite Hu, Hs. cbn. split; reflexivity.
  - intros c n r clock [Hnd _] Hst Hs Hu Hlen.
    destruct (increments_draft clock c n r Hnd Hst Hs ltac:(lia)) as [r' [H1 [H2 H3]]].
    exists r'. repeat split; [exact H1 | exact H2 | lia].
  - intros c n r t1 t2 [Hnd _] Hst Hs.
    destruct (increment_usage_stored c n t1 t2 r Hnd Hst) as [Hst' _].
    exists (after_increment t1 t2 r). split; [exact Hst'|].
    unfold after_increment.
    replace (status (set_last_used (Some t1) (set_usage_count (usage_count r + 1)%Z r)))
      with "PROMOTED" by (symmetry; exact Hs).
    replace (String.eqb "PROMOTED" "DRAFT") with false by reflexivity.
    rewrite andb_false_r. split; [reflexivity | exact Hs].
Qed.

(** The three cases on "v_fraud_monthly_trend". *)
Lemma increment_usage_promotion_witness :
  (exists r', stored (fst (increment_usage
                             [sample_view 1 "v_fraud_monthly_trend" "fraud" "DRAFT" 2 10
                                ["transactions"; "channels"]]
                             "v_fraud_monthly_trend" 20 21)) "v_fraud_monthly_trend"
              = Some r'
              /\ usage_count r' = 3%Z /\ status r' = "PROMOTED")
  /\ (exists r', stored (increments
                           [sample_view 1 "v_fraud_monthly_trend" "fraud" "DRAFT" 0 10
                              ["transactions"; "channels"]]
                           "v_fraud_monthly_trend" [(20, 21); (22, 23)]%Z)
                        "v_fraud_monthly_trend"
                 = Some r'
                 /\ status r' = "DRAFT" /\ usage_count r' = 2%Z)
  /\ (exists r', stored (fst (increment_usage
                                [sample_view 1 "v_fraud_monthly_trend" "fraud" "PROMOTED" 3 10
                                   ["transactions"; "channels"]]
                                "v_fraud_monthly_trend" 20 21)) "v_fraud_monthly_trend"
                 = Some r'
                 /\ usage_count r' = 4%Z /\ status r' = "PROMOTED").
Proof.
  destruct increment_usage_promotion as [H1 [H2 H3]].
  split; [|split].
  - apply (H1 _ _ (sample_view 1 "v_fraud_monthly_trend" "fraud" "DRAFT" 2 10
                     ["transactions"; "channels"])).
    + split; [constructor; [intros [] | constructor] | repeat constructor].
    + reflexivity.
    + reflexivity.
    + reflexivity.
  - apply (H2 _ _ (sample_view 1 "v_fraud_monthly_trend" "fraud" "DRAFT" 0 10
                     ["transactions"; "channels"]) [(20, 21); (22, 23)]%Z).
    + split; [constructor; [intros [] | constructor] | repeat constructor].
    + reflexivity.
    + reflexivity.
    + reflexivity.
    + cbn. lia.
  - apply (H3 _ _ (sample_view 1 "v_fraud_monthly_trend" "fraud" "PROMOTED" 3 10
                     ["transactions"; "channels"])).
    + split; [constructor; [intros [] | constructor] | repeat constructor].
    + reflexivity.
    + reflexivity.
Defined.

(** The usage-tracking test of [scripts/test_foundation.py]: four calls on a
    fresh view leave it used four times and promoted. *)
Example four_increments_promote :
  option_map (fun r => (usage_count r, status r))
    (stored (increments
               [sample_view 1 "v_fraud_monthly_trend" "fraud" "DRAFT" 0 10
                  ["transactions"; "channels"]]
               "v_fraud_monthly_trend" [(20, 21); (22, 23); (24, 25); (26, 27)]%Z)
            "v_fraud_monthly_trend")
  = Some (4%Z, "PROMOTED").
Proof. reflexivity. Qed.

(** *** Lifecycle *)

Lemma lifecycle_step_refl (s : string) : lifecycle_step s s.
Proof. now left. Qed.

Lemma lifecycle_step_trans (a b c : string) :
  lifecycle_step a b -> lifecycle_step b c -> lifecycle_step a c.
Proof.
  unfold lifecycle_step.
  intros [Hab|[[Ha Hb]|Hb]] [Hbc|[[Hb' Hc]|Hc]]; subst; auto; try discriminate.
Qed.

Lemma assign_keeps_status (updates : list assignment) :
  existsb assigns_status updates = false ->
  forall r, status (fold_left (fun r a => assign a r) updates r) = status r.
Proof.
  induction updates as [|a updates IH]; intros Hno r; [reflexivity|].
  cbn [existsb] in Hno. apply orb_false_elim in Hno. destruct Hno as [Ha Hrest].
  cbn [fold_left]. rewrite (IH Hrest).
  destruct a; try reflexivity; discriminate Ha.
Qed.

(** A command rewrites the rows in place and may append one. *)
Lemma run_rows (c : Table) (k : command) :
  exists (f : ViewMetadata -> ViewMetadata) (extra : Table),
    run c k = map f c ++ extra
    /\ (keeps_lifecycle k = true -> forall r, lifecycle_step (status r) (status (f r))).
Proof.
  destruct k as [v t1 t2 | n t1 t2 | n t | n updates | n]; cbn [run keeps_lifecycle].
  - unfold register_view.
    destruct (find_by_name c (view_name v)) as [[?|]|?]; [cbn [fst] | | cbn [fst]].
    + exists (fun r => r), []. rewrite map_id, app_nil_r. split; [reflexivity|].
      intros _ r. apply lifecycle_step_refl.
    + cbv zeta. destruct (bind_parameters _); cbn [fst].
      * eexists (fun r => r), _. rewrite map_id. split; [reflexivity|].
        intros _ r. apply lifecycle_step_refl.
      * exists (fun r => r), []. rewrite map_id, app_nil_r. split; [reflexivity|].
        intros _ r. apply lifecycle_step_refl.
    + exists (fun r => r), []. rewrite map_id, app_nil_r. split; [reflexivity|].
      intros _ r. apply lifecycle_step_refl.
  - unfold increment_usage, execute_update. cbv zeta iota beta.
    set (c1 := map _ c).
    assert (Hplain : exists f extra,
               c1 = map f c ++ extra
               /\ (true = true -> forall r, lifecycle_step (status r) (status (f r)))).
    { eexists _, []. rewrite app_nil_r. split; [reflexivity|].
      intros _ r. cbv beta. destruct (name_is n r); apply lifecycle_step_refl. }
    destruct (0 <? length (filter (name_is n) c))%nat; [|exact Hplain].
    destruct (find_by_name c1 n) as [[view|]|?]; cbn [fst]; try exact Hplain.
    destruct ((3 <=? usage_count view)%Z && (status view =? "DRAFT")); [|exact Hplain].
    unfold promote_view, execute_update. cbn [fst]. unfold c1. rewrite map_map.
    eexists _, []. rewrite app_nil_r. split; [reflexivity|].
    intros _ r. cbv beta.
    set (y := if name_is n r then _ else r).
    assert (Hy : status y = status r) by (unfold y; destruct (name_is n r); reflexivity).
    destruct (name_is n y && (status y =? "DRAFT")) eqn:Hb.
    + apply andb_prop in Hb. destruct Hb as [_ Hd]. apply String.eqb_eq in Hd.
      right. left. split; [now rewrite <- Hy | reflexivity].
    + left. exact Hy.
  - unfold promote_view, execute_update. cbn [fst].
    eexists _, []. rewrite app_nil_r. split; [reflexivity|].
    intros _ r. cbv beta.
    destruct (name_is n r && (status r =? "DRAFT")) eqn:Hb.
    + apply andb_prop in Hb. destruct Hb as [_ Hd]. apply String.eqb_eq in Hd.
      right. left. split; [exact Hd | reflexivity].
    + apply lifecycle_step_refl.
  - unfold update_view, execute_update.
    destruct updates as [|a updates]; cbn [fst].
    + exists (fun r => r), []. rewrite map_id, app_nil_r. split; [reflexivity|].
      intros _ r. apply lifecycle_step_refl.
    + eexists _, []. rewrite app_nil_r. split; [reflexivity|].
      intros Hk r. cbv beta. destruct (name_is n r); [|apply lifecycle_step_refl].
      left. apply assign_keeps_status. now apply negb_true_iff.
  - unfold delete_view, update_view, execute_update. cbn [fst].
    eexists _, []. rewrite app_nil_r. split; [reflexivity|].
    intros _ r. cbv beta. destruct (name_is n r); [|apply lifecycle_step_refl].
    right. right. reflexivity.
Qed.

Lemma run_keeps_row (c : Table) (k : command) (i : nat) (r : ViewMetadata) :
  nth_error c i = Some r ->
  exists r', nth_error (run c k) i = Some r'
             /\ (keeps_lifecycle k = true -> lifecycle_step (status r) (status r')).
Proof.
  intros Hi. destruct (run_rows c k) as [f [extra [Hrun Hf]]].
  exists (f r). split.
  - rewrite Hrun. rewrite nth_error_app1.
    + now rewrite nth_error_map, Hi.
    + rewrite length_map. apply nth_error_Some. now rewrite Hi.
  - intros Hk. now apply Hf.
Qed.

(** C7 (corrected): no sequence of catalog commands removes a record, and
    as long as no update in it assigns the status column, the status of a
    record changes only from DRAFT to PROMOTED or to ARCHIVED. *)
Theorem catalog_lifecycle (c : Table) (ks : list command) (i : nat) (r : ViewMetadata) :
  nth_error c i = Some r ->
  (exists r', nth_error (run_all c ks) i = Some r')
  /\ (forallb keeps_lifecycle ks = true ->
      exists r', nth_error (run_all c ks) i = Some r'
                 /\ lifecycle_step (status r) (status r')).
Proof.
  revert c r. induction ks as [|k ks IH]; intros c r Hi.
  - split; [now exists r|]. intros _. exists r. split; [exact Hi | apply lifecycle_step_refl].
  - cbn [run_all fold_left forallb].
    destruct (run_keeps_row c k i r Hi) as [r1 [Hi1 Hstep]].
    destruct (IH (run c k) r1 Hi1) as [Hkept Hlife]. split; [exact Hkept|].
    intros Hall. apply andb_prop in Hall. destruct Hall as [Hk Hks].
    destruct (Hlife Hks) as [r' [Hi' Hstep']].
    exists r'. split; [exact Hi'|].
    apply (lifecycle_step_trans _ (status r1)); [now apply Hstep | exact Hstep'].
Qed.

(** A DRAFT view that is used, edited, joined by another and archived. *)
Lemma catalog_lifecycle_witness :
  exists r', nth_error
               (run_all [sample_view 1 "v_a" "fraud" "DRAFT" 2 10 ["transactions"]]
                  [IncrementUsage "v_a" 20 21;
                   Update "v_a" [SetDescription (Some "Fraud by month")];
                   Register (sample_view 9 "v_b" "risk" "DRAFT" 0 30 ["merchants"]) 30 31;
                   Archive "v_a"]) 0
             = Some r'
             /\ lifecycle_step "DRAFT" (status r').
Proof.
  apply (catalog_lifecycle [sample_view 1 "v_a" "fraud" "DRAFT" 2 10 ["transactions"]]
           [IncrementUsage "v_a" 20 21;
            Update "v_a" [SetDescription (Some "Fraud by month")];
            Register (sample_view 9 "v_b" "risk" "DRAFT" 0 30 ["merchants"]) 30 31;
            Archive "v_a"] 0
           (sample_view 1 "v_a" "fraud" "DRAFT" 2 10 ["transactions"]) eq_refl).
  reflexivity.
Defined.

(** C7 as stated does not hold: [update_view] writes the status it is given,
    here DRAFT over PROMOTED. *)
Lemma update_view_rewrites_status :
  ~ (forall (c : Table) (k : command) (i : nat) (r r' : ViewMetadata),
        nth_error c i = Some r -> nth_error (run c k) i = Some r' ->
        lifecycle_step (status r) (status r')).
Proof.
  intros H.
  specialize (H [sample_view 1 "v_a" "fraud" "PROMOTED" 5 10 ["transactions"]]
                (Update "v_a" [SetStatus "DRAFT"]) 0%nat _ _ eq_refl eq_refl).
  destruct H as [H|[[H _]|H]]; discriminate H.
Qed.

(** *** Scans *)

Lemma mapM_from_db_row (l l' : list ViewMetadata) :
  mapM from_db_row l = Ok l' -> l' = l.
Proof.
  revert l'. induction l as [|r l IH]; cbn [mapM]; intros l' H.
  - now inversion H.
  - unfold from_db_row in H at 1. destruct (validate r); [|discriminate H].
    cbn [bind] in H. destruct (mapM from_db_row l) as [rs|]; [|discriminate H].
    cbn [bind] in H. inversion H. now rewrite (IH rs eq_refl).
Qed.

Lemma insert_by_in {A : Type} (before : A -> A -> bool) (x y : A) (l : list A) :
  In y (insert_by before x l) <-> y = x \/ In y l.
Proof.
  induction l as [|z l IH]; cbn [insert_by].
  - cbn. intuition.
  - destruct (before z x); cbn [In]; [rewrite IH|]; intuition.
Qed.

Lemma order_by_in {A : Type} (before : A -> A -> bool) (y : A) (l : list A) :
  In y (order_by before l) <-> In y l.
Proof.
  induction l as [|z l IH]; cbn [order_by fold_right]; [reflexivity|].
  fold (order_by before l). rewrite insert_by_in, IH. cbn. intuition.
Qed.

Lemma insert_by_usage_sorted (x : ViewMetadata) (l : list ViewMetadata) :
  StronglySorted usage_desc l ->
  StronglySorted usage_desc (insert_by by_usage_desc x l).
Proof.
  induction 1 as [|z l Hs IH Hall]; cbn [insert_by].
  - repeat constructor.
  - unfold by_usage_desc at 1. destruct (usage_count x <? usage_count z)%Z eqn:Hlt.
    + constructor; [exact IH|].
      apply Forall_forall. intros y Hy. apply insert_by_in in Hy.
      destruct Hy as [->|Hy].
      * apply Z.ltb_lt in Hlt. unfold usage_desc. lia.
      * rewrite Forall_forall in Hall. now apply Hall.
    + apply Z.ltb_ge in Hlt. constructor; [now constructor|].
      constructor; [exact Hlt|].
      apply Forall_forall. intros y Hy. rewrite Forall_forall in Hall.
      specialize (Hall y Hy). unfold usage_desc in *. lia.
Qed.

(** What [find_by_domain] does guarantee: the rows of the domain, most used
    first. *)
Lemma find_by_domain_rows (c : Table) (d : string) (l : list ViewMetadata) :
  find_by_domain c d None = Ok l ->
  (forall r, In r l <-> In r c /\ domain r = d)
  /\ StronglySorted usage_desc l.
Proof.
  unfold find_by_domain. intros H. apply mapM_from_db_row in H. subst l. split.
  - intros r. rewrite order_by_in, filter_In. cbn [layer_filter truthy_int].
    rewrite andb_true_r. now rewrite String.eqb_eq.
  - generalize (filter (fun r => (domain r =? d) && layer_filter None r) c).
    intros l. induction l as [|x l IH]; cbn [order_by fold_right].
    + constructor.
    + now apply insert_by_usage_sorted.
Qed.

(** C8: on [fraud_views], [find_by_domain] returns the two views that
    were never used oldest first, where [get_all_views] returns them newest
    first: only the latter breaks ties by creation date. *)
Theorem find_by_domain_ties_oldest_first :
  option_map (map view_name)
    (match find_by_domain fraud_views "fraud" None with
     | Ok l => Some l
     | Err _ => None
     end)
  = Some ["v_fraud_hot"; "v_fraud_old"; "v_fraud_new"]
  /\ option_map (map view_name)
       (match get_all_views fraud_views None None with
        | Ok l => Some l
        | Err _ => None
        end)
     = Some ["v_fraud_hot"; "v_fraud_new"; "v_fraud_old"].
Proof. split; reflexivity. Qed.

(** ** Graphs *)

Lemma mem_In (s : string) (l : list string) : mem s l = true <-> In s l.
Proof.
  unfold mem. rewrite existsb_exists. split.
  - intros [x [Hin Heq]]. apply String.eqb_eq in Heq. now subst.
  - intros Hin. exists s. split; [assumption | apply String.eqb_refl].
Qed.

Lemma mem_false (s : string) (l : list string) : mem s l = false <-> ~ In s l.
Proof.
  rewrite <- mem_In. destruct (mem s l); split; intros H.
  - discriminate H.
  - exfalso. now apply H.
  - intros H'. discriminate H'.
  - reflexivity.
Qed.

Lemma bool_ext (a b : bool) : (a = true <-> b = true) -> a = b.
Proof.
  destruct a, b; intros [H1 H2]; try reflexivity.
  - symmetry. now apply H1.
  - now apply H2.
Qed.

Lemma add_node_in_names (ns : NodeList) (n m : string) (a : NodeAttrs) :
  In m (node_names (add_node_in ns n a)) <-> In m (node_names ns) \/ m = n.
Proof.
  induction ns as [|[x b] ns IH]; cbn [add_node_in node_names map In].
  - intuition.
  - destruct (String.eqb_spec x n) as [->|Hne]; cbn [map In fst].
    + intuition.
    + unfold node_names in IH. rewrite IH. intuition.
Qed.

Lemma add_node_in_present (ns : NodeList) (n : string) (a : NodeAttrs) :
  In n (node_names ns) -> node_names (add_node_in ns n a) = node_names ns.
Proof.
  induction ns as [|[x b] ns IH]; cbn [add_node_in node_names map In]; [contradiction|].
  intros Hin. destruct (String.eqb_spec x n) as [->|Hne]; [reflexivity|].
  cbn [map fst]. f_equal. apply IH. destruct Hin as [H|H]; [contradiction | exact H].
Qed.

Lemma has_node_In (g : Graph) (n : string) :
  has_node g n = true <-> In n (node_names (nodes g)).
Proof. apply mem_In. Qed.

Lemma d_has_node_In (g : DiGraph) (n : string) :
  d_has_node g n = true <-> In n (node_names (d_nodes g)).
Proof. apply mem_In. Qed.

Lemma add_node_names (g : Graph) (n m : string) (a : NodeAttrs) :
  In m (node_names (nodes (add_node g n a))) <-> In m (node_names (nodes g)) \/ m = n.
Proof. apply add_node_in_names. Qed.

Lemma add_edge_names (g : Graph) (u v m : string) (a : EdgeAttrs) :
  In m (node_names (nodes (add_edge g u v a)))
  <-> In m (node_names (nodes g)) \/ m = u \/ m = v.
Proof.
  unfold add_edge. cbn [nodes]. rewrite !add_node_in_names. intuition.
Qed.

Lemma add_edge_names_present (g : Graph) (u v : string) (a : EdgeAttrs) :
  In u (node_names (nodes g)) -> In v (node_names (nodes g)) ->
  node_names (nodes (add_edge g u v a)) = node_names (nodes g).
Proof.
  intros Hu Hv. unfold add_edge. cbn [nodes].
  rewrite add_node_in_present.
  - now apply add_node_in_present.
  - rewrite add_node_in_present; assumption.
Qed.

(** The nodes of the undirected projection. *)
Lemma fold_add_edge_names (es : EdgeList) (G : Graph) (m : string) :
  In m (node_names (nodes (fold_left (fun G e => let '(u, v, a) := e in add_edge G u v a)
                                     es G)))
  <-> In m (node_names (nodes G))
      \/ exists e, In e es /\ (m = fst (fst e) \/ m = snd (fst e)).
Proof.
  revert G. induction es as [|[[u v] a] es IH]; intros G; cbn [fold_left].
  - split; [now left | intros [H|[e [[] _]]]; exact H].
  - rewrite IH, add_edge_names. split.
    + intros [[H|H]|[e [He H]]].
      * now left.
      * right. exists (u, v, a). split; [now left | exact H].
      * right. exists e. split; [now right | exact H].
    + intros [H|[e [[<-|He] H]]].
      * left. now left.
      * left. right. exact H.
      * right. now exists e.
Qed.

Lemma to_undirected_keeps_nodes (g : DiGraph) (n : string) :
  d_has_node g n = true -> has_node (to_undirected g) n = true.
Proof.
  rewrite d_has_node_In, has_node_In. intros H.
  unfold to_undirected. apply fold_add_edge_names. now left.
Qed.

Lemma to_undirected_nodes (g : DiGraph) (n : string) :
  wf_digraph g = true -> has_node (to_undirected g) n = d_has_node g n.
Proof.
  intros Hwf. apply bool_ext. rewrite d_has_node_In, has_node_In.
  unfold to_undirected. rewrite fold_add_edge_names. cbn [nodes]. split.
  - intros [H|[e [He H]]]; [exact H|].
    apply in_flat_map in He. destruct He as [x [_ He]].
    apply filter_In in He. destruct He as [He _].
    unfold wf_digraph in Hwf. rewrite forallb_forall in Hwf.
    specialize (Hwf e He). apply andb_prop in Hwf. destruct Hwf as [H1 H2].
    apply d_has_node_In in H1, H2. destruct H as [->| ->]; assumption.
  - intros H. now left.
Qed.

(** ** Schema graph *)

(** C3 (corrected): for a table that is not a node of the schema graph,
    [get_table_info] and [get_shortest_path] fail, while
    [calculate_join_cost] returns infinity and [get_connected_tables] the
    empty list. *)
Theorem unknown_table (g : DiGraph) (t other : string) (max_depth : Z) :
  wf_digraph g = true -> d_has_node g t = false ->
  get_table_info g t = Err (TableNotInGraph t)
  /\ get_shortest_path g t other = Err (NodeNotFound t)
  /\ (exists e, get_shortest_path g other t = Err e)
  /\ calculate_join_cost g t other = Ok Infinity
  /\ calculate_join_cost g other t = Ok Infinity
  /\ get_connected_tables g t max_depth = [].
Proof.
  intros Hwf Ht.
  assert (Hu : has_node (to_undirected g) t = false)
    by now rewrite to_undirected_nodes.
  repeat split.
  - unfold get_table_info. now rewrite Ht.
  - unfold get_shortest_path, shortest_path. now rewrite Hu.
  - unfold get_shortest_path, shortest_path. rewrite Hu.
    destruct (has_node (to_undirected g) other); cbn [negb]; eexists; reflexivity.
  - unfold calculate_join_cost. now rewrite Ht.
  - unfold calculate_join_cost. rewrite Ht. cbn [negb]. now rewrite orb_true_r.
  - unfold get_connected_tables. now rewrite Ht.
Qed.

(** *** Graphs built from the database *)

Lemma foldM_invariant {A B : Type} (P : B -> Prop) (f : B -> A -> result B) (l : list A) :
  (forall b a b', P b -> f b a = Ok b' -> P b') ->
  forall b b', P b -> foldM f l b = Ok b' -> P b'.
Proof.
  intros Hstep. induction l as [|a l IH]; intros b b' Hb H; cbn [foldM] in H.
  - inversion H. now subst.
  - destruct (f b a) as [b1|] eqn:Hf; [|discriminate H]. cbn [bind] in H.
    apply (IH b1 b'); [now apply (Hstep b a) | exact H].
Qed.

Lemma add_edge_in_endpoints (same : string -> string -> string -> string -> bool)
    (es : EdgeList) (u v x y : string) (a b : EdgeAttrs) :
  In (x, y, b) (add_edge_in same es u v a) ->
  (exists b', In (x, y, b') es) \/ (x = u /\ y = v).
Proof.
  induction es as [|[[p q] c] es IH]; cbn [add_edge_in].
  - intros [H|[]]. inversion H. now right.
  - destruct (same p q u v); intros [H|H].
    + inversion H; subst. left. exists c. now left.
    + left. exists b. now right.
    + inversion H; subst. left. exists b. now left.
    + destruct (IH H) as [[b' Hb']|Huv]; [left; exists b'; now right | now right].
Qed.

Lemma arcs_joined_wf (g : DiGraph) : arcs_joined g -> wf_digraph g = true.
Proof.
  intros H. unfold wf_digraph. apply forallb_forall. intros [[x y] b] Hin.
  destruct (H x y b Hin) as [Hx Hy]. cbn [fst snd].
  apply andb_true_intro. split; now apply d_has_node_In.
Qed.

Lemma d_add_node_joined (g : DiGraph) (n : string) (a : NodeAttrs) :
  arcs_joined g -> arcs_joined (d_add_node g n a).
Proof.
  intros H x y b Hin. destruct (H x y b Hin) as [Hx Hy].
  unfold d_add_node. cbn [d_nodes]. rewrite !add_node_in_names. split; now left.
Qed.

Lemma d_add_edge_joined (g : DiGraph) (u v : string) (a : EdgeAttrs) :
  arcs_joined g -> arcs_joined (d_add_edge g u v a).
Proof.
  intros H x y b Hin. unfold d_add_edge in *. cbn [d_nodes d_edges] in *.
  rewrite !add_node_in_names.
  destruct (add_edge_in_endpoints _ _ _ _ _ _ _ _ Hin) as [[b' Hb']|[-> ->]].
  - destruct (H x y b' Hb') as [Hx Hy]. split; left; now left.
  - split; [left; now right | now right].
Qed.

Lemma add_tables_joined (f : TableMeta -> NodeAttrs) (db : Database) :
  forall g : DiGraph,
    arcs_joined g ->
    arcs_joined (fold_left (fun g t => d_add_node g (t_name t) (f t)) db g).
Proof.
  induction db as [|t db IH]; intros g Hg; cbn [fold_left]; [exact Hg|].
  apply IH. now apply d_add_node_joined.
Qed.

(** The schema graph that [build_from_database] returns is a proper graph. *)
Lemma build_from_database_wf (db : Database) (g : DiGraph) :
  build_from_database db = Ok g -> wf_digraph g = true.
Proof.
  intros H. apply arcs_joined_wf. unfold build_from_database in H.
  revert H. apply foldM_invariant.
  - intros g1 t g2 Hg1. apply foldM_invariant; [|exact Hg1].
    intros g3 fk g4 Hg3 Hfk. unfold add_foreign_key in Hfk.
    destruct (row_count_of g3 (t_name t)); [|discriminate Hfk].
    destruct (row_count_of g3 (fk_table fk)); [|discriminate Hfk].
    destruct (max_rows g3); [|discriminate Hfk].
    cbn [bind] in Hfk. inversion Hfk. now apply d_add_edge_joined.
  - apply (add_tables_joined
             (fun t => mkNode (Some "table") (Some (t_row_count t)) (Some (t_columns t))
                         (Some (Z.of_nat (length (t_columns t)))) None None None None)).
    intros x y b [].
Qed.

(** ** Breadth-first search *)

Lemma neighbors_in_all_names (g : Graph) (u w : string) :
  In w (neighbors g u) -> In w (all_names g).
Proof.
  unfold neighbors, all_names. intros H. apply in_or_app. right.
  apply in_flat_map in H. destruct H as [[[x y] a] [He Hw]].
  apply in_flat_map. exists (x, y, a). split; [exact He|]. cbn [fst snd].
  destruct (String.eqb x u).
  - destruct Hw as [<-|[]]. right. now left.
  - destruct (String.eqb y u); [|contradiction].
    destruct Hw as [<-|[]]. now left.
Qed.

Lemma heads_app (q1 q2 : list (list string)) : heads (q1 ++ q2) = heads q1 ++ heads q2.
Proof. unfold heads. apply flat_map_app. Qed.

Lemma heads_cons_map (path ns : list string) :
  heads (map (fun n => n :: path) ns) = ns.
Proof.
  induction ns as [|n ns IH]; [reflexivity|]. cbn. f_equal. exact IH.
Qed.

(** One round of discovery: the neighbours not seen before are queued and
    marked, once each. *)
Lemma discover_all (path ns : list string) :
  forall (queue : list (list string)) (seen : list string),
  exists fresh,
    fold_left (discover path) ns (queue, seen)
    = (queue ++ map (fun n => n :: path) fresh, seen ++ fresh)
    /\ NoDup fresh
    /\ (forall n, In n fresh -> In n ns /\ ~ In n seen)
    /\ (forall n, In n ns -> In n (seen ++ fresh)).
Proof.
  induction ns as [|n ns IH]; intros queue seen; cbn [fold_left].
  - exists []. cbn [map]. rewrite !app_nil_r.
    split; [reflexivity|]. split; [constructor|]. split; intros n [].
  - unfold discover at 2. cbn [fst snd]. destruct (mem n seen) eqn:Hn.
    + destruct (IH queue seen) as [fresh [H1 [H2 [H3 H4]]]]. exists fresh.
      split; [exact H1|]. split; [exact H2|]. split.
      * intros m Hm. destruct (H3 m Hm). split; [now right | assumption].
      * intros m [<-|Hm]; [|now apply H4]. apply in_or_app. left. now apply mem_In.
    + destruct (IH (queue ++ [n :: path]) (seen ++ [n])) as [fresh [H1 [H2 [H3 H4]]]].
      apply mem_false in Hn.
      exists (n :: fresh). split; [|split; [|split]].
      * rewrite H1. cbn [map]. now rewrite <- !app_assoc.
      * constructor; [|exact H2]. intros Hin. destruct (H3 n Hin) as [_ Hf].
        apply Hf. apply in_or_app. right. now left.
      * intros m [<-|Hm]; [split; [now left | exact Hn]|].
        destruct (H3 m Hm) as [Ha Hb]. split; [now right|].
        intros Hs. apply Hb. apply in_or_app. now left.
      * intros m Hm. destruct Hm as [<-|Hm].
        -- apply in_or_app. right. now left.
        -- specialize (H4 m Hm). rewrite <- app_assoc in H4. exact H4.
Qed.

(** With a round left for every name not yet handled, the search ends with a
    set that holds everything seen and is closed under edges. *)
Lemma bfs_closed (g : Graph) (M : list string) :
  (forall u w, In w (neighbors g u) -> In w M) ->
  forall (fuel : nat) (queue : list (list string)) (seen handled : list string),
    seen = handled ++ heads queue ->
    Forall (fun p => p <> []) queue ->
    NoDup seen -> incl seen M ->
    (forall u w, In u handled -> In w (neighbors g u) -> In w seen) ->
    (length M - length handled < fuel)%nat ->
    incl seen (handled ++ heads (bfs fuel g queue seen))
    /\ (forall u w, In u (handled ++ heads (bfs fuel g queue seen)) ->
                    In w (neighbors g u) ->
                    In w (handled ++ heads (bfs fuel g queue seen))).
Proof.
  intros HM. induction fuel as [|fuel IH];
    intros queue seen handled Hseen Hne Hnd Hincl Hcl Hfuel; [lia|].
  destruct queue as [|[|u p] rest]; cbn [bfs].
  - cbn [heads flat_map] in *. rewrite app_nil_r in *. subst seen. split.
    + apply incl_refl.
    + exact Hcl.
  - inversion Hne as [|? ? Hp _]. now contradiction Hp.
  - destruct (discover_all (u :: p) (neighbors g u) rest seen)
      as [fresh [Hfold [Hfnd [Hfresh Hall]]]].
    rewrite Hfold. cbn [fst snd].
    assert (Hlen : (length handled + 1 <= length M)%nat).
    { pose proof (NoDup_incl_length Hnd Hincl) as Hl. rewrite Hseen in Hl.
      rewrite length_app in Hl. cbn in Hl. lia. }
    destruct (IH (rest ++ map (fun n => n :: u :: p) fresh) (seen ++ fresh) (handled ++ [u]))
      as [Hin' Hcl'].
    + rewrite heads_app, heads_cons_map, Hseen. cbn [heads flat_map firstn app].
      rewrite <- !app_assoc. reflexivity.
    + apply Forall_app. split.
      * now inversion Hne.
      * apply Forall_forall. intros q Hq. apply in_map_iff in Hq.
        destruct Hq as [n [<- _]]. discriminate.
    + apply NoDup_app; [exact Hnd | exact Hfnd |].
      intros a Ha Hf. now destruct (Hfresh a Hf).
    + intros a Ha. apply in_app_or in Ha. destruct Ha as [Ha|Ha]; [now apply Hincl|].
      destruct (Hfresh a Ha) as [Hn _]. now apply (HM u).
    + intros u' w Hu' Hw. apply in_app_or in Hu'. destruct Hu' as [Hu'|[<-|[]]].
      * apply in_or_app. left. now apply (Hcl u').
      * now apply Hall.
    + rewrite length_app. cbn [length]. lia.
    + cbn [heads flat_map firstn app].
      fold (heads (bfs fuel g (rest ++ map (fun n => n :: u :: p) fresh) (seen ++ fresh))).
      rewrite <- app_assoc in Hin', Hcl'. cbn [app] in Hin', Hcl'. split.
      * intros a Ha. apply Hin'. apply in_or_app. now left.
      * exact Hcl'.
Qed.

(** Every node the search returns was reached along edges. *)
Lemma bfs_sound (g : Graph) (s : string) :
  forall (fuel : nat) (queue : list (list string)) (seen : list string),
    (forall x, In x seen -> reachable g s x) ->
    incl (heads queue) seen ->
    forall x, In x (heads (bfs fuel g queue seen)) -> reachable g s x.
Proof.
  induction fuel as [|fuel IH]; intros queue seen Hseen Hq x Hx; [contradiction|].
  destruct queue as [|[|u p] rest]; cbn [bfs] in Hx.
  - contradiction.
  - apply (IH rest seen Hseen); [|exact Hx].
    intros a Ha. apply Hq. exact Ha.
  - destruct (discover_all (u :: p) (neighbors g u) rest seen)
      as [fresh [Hfold [_ [Hfresh _]]]].
    rewrite Hfold in Hx. cbn [fst snd heads flat_map firstn app] in Hx.
    assert (Hu : reachable g s u) by (apply Hseen, Hq; now left).
    destruct Hx as [<-|Hx]; [exact Hu|].
    apply (IH (rest ++ map (fun n => n :: u :: p) fresh) (seen ++ fresh)); [| |exact Hx].
    + intros a Ha. apply in_app_or in Ha. destruct Ha as [Ha|Ha]; [now apply Hseen|].
      destruct (Hfresh a Ha) as [Hn _]. now apply (reach_step g s u).
    + rewrite heads_app, heads_cons_map. intros a Ha. apply in_app_or in Ha.
      apply in_or_app. destruct Ha as [Ha|Ha]; [left | now right].
      apply Hq. now right.
Qed.

(** [_plain_bfs] returns the nodes reachable from its source. *)
Lemma plain_bfs_reachable (g : Graph) (s t : string) :
  In t (plain_bfs g s) <-> reachable g s t.
Proof.
  unfold plain_bfs, bfs_from. fold (heads (bfs (2 + length (all_names g)) g [[s]] [s])).
  split.
  - apply bfs_sound.
    + intros x [<-|[]]. constructor.
    + apply incl_refl.
  - destruct (bfs_closed g (s :: all_names g)
                (fun u w H => or_intror (neighbors_in_all_names g u w H))
                (2 + length (all_names g)) [[s]] [s] []) as [Hin Hcl].
    + reflexivity.
    + constructor; [discriminate | constructor].
    + constructor; [intros [] | constructor].
    + intros a [<-|[]]. now left.
    + intros u w [].
    + cbn [length]. lia.
    + cbn [app] in Hin, Hcl. induction 1 as [|u w _ IH Hw].
      * apply Hin. now left.
      * exact (Hcl u w IH Hw).
Qed.

(** Each component is what the search reaches from one of the nodes, and
    every node lies in a component. *)
Lemma components_from_spec (g : Graph) (ns : list string) :
  forall seen : list string,
    (forall c, In c (components_from g ns seen) ->
               exists n, In n ns /\ c = plain_bfs g n)
    /\ (forall n, In n ns ->
                  In n seen \/ exists c, In c (components_from g ns seen) /\ In n c).
Proof.
  induction ns as [|n ns IH]; intros seen; cbn [components_from].
  - split; [intros c [] | intros n []].
  - destruct (mem n seen) eqn:Hn.
    + destruct (IH seen) as [H1 H2]. split.
      * intros c Hc. destruct (H1 c Hc) as [m [Hm ->]]. exists m. split; [now right | reflexivity].
      * intros m [<-|Hm]; [left; now apply mem_In | now apply H2].
    + destruct (IH (seen ++ plain_bfs g n)) as [H1 H2]. split.
      * intros c [<-|Hc]; [exists n; split; [now left | reflexivity]|].
        destruct (H1 c Hc) as [m [Hm ->]]. exists m. split; [now right | reflexivity].
      * intros m [<-|Hm].
        -- right. exists (plain_bfs g n). split; [now left|].
           apply plain_bfs_reachable. constructor.
        -- destruct (H2 m Hm) as [Hs|[c [Hc Hmc]]].
           ++ apply in_app_or in Hs. destruct Hs as [Hs|Hs]; [now left|].
              right. exists (plain_bfs g n). split; [now left | exact Hs].
           ++ right. exists c. split; [now right | exact Hmc].
Qed.

Lemma connected_components_spec (g : Graph) :
  (forall c, In c (connected_components g) ->
             exists n, has_node g n = true /\ forall t, In t c <-> reachable g n t)
  /\ (forall n, has_node g n = true -> exists c, In c (connected_components g) /\ In n c).
Proof.
  unfold connected_components.
  destruct (components_from_spec g (node_names (nodes g)) []) as [H1 H2]. split.
  - intros c Hc. destruct (H1 c Hc) as [n [Hn ->]]. exists n.
    split; [now apply has_node_In|]. intros t. apply plain_bfs_reachable.
  - intros n Hn. apply has_node_In in Hn. destruct (H2 n Hn) as [[]|H]. exact H.
Qed.

(** The table "refunds", unknown to the merchant schema. *)
Lemma unknown_table_witness :
  get_table_info (schema_of merchant_db) "refunds" = Err (TableNotInGraph "refunds")
  /\ get_shortest_path (schema_of merchant_db) "refunds" "merchants"
     = Err (NodeNotFound "refunds")
  /\ (exists e, get_shortest_path (schema_of merchant_db) "merchants" "refunds" = Err e)
  /\ calculate_join_cost (schema_of merchant_db) "refunds" "merchants" = Ok Infinity
  /\ calculate_join_cost (schema_of merchant_db) "merchants" "refunds" = Ok Infinity
  /\ get_connected_tables (schema_of merchant_db) "refunds" 2 = [].
Proof.
  apply (unknown_table (schema_of merchant_db) "refunds" "merchants" 2); reflexivity.
Defined.

(** C3 as stated does not hold: on an unknown table [calculate_join_cost]
    and [get_connected_tables] return a value and raise nothing. *)
Lemma unknown_table_not_raised :
  d_has_node (schema_of merchant_db) "refunds" = false
  /\ calculate_join_cost (schema_of merchant_db) "refunds" "merchants" = Ok Infinity
  /\ get_connected_tables (schema_of merchant_db) "refunds" 2 = []
  /\ ~ (forall (g : DiGraph) (t other : string),
           d_has_node g t = false -> exists e, calculate_join_cost g t other = Err e).
Proof.
  repeat split.
  intros H.
  destruct (H (schema_of merchant_db) "refunds" "merchants" eq_refl) as [e He].
  discriminate He.
Qed.

(** *** Edge lookup *)

Lemma same_edge_iff (x y u v : string) :
  same_edge x y u v = true <-> (x = u /\ y = v) \/ (x = v /\ y = u).
Proof.
  unfold same_edge, same_arc.
  rewrite orb_true_iff, !andb_true_iff, !String.eqb_eq. reflexivity.
Qed.

Lemma same_edge_trans (x y u v u' v' : string) :
  same_edge x y u v = true -> same_edge x y u' v' = same_edge u v u' v'.
Proof.
  intros H. apply same_edge_iff in H. apply bool_ext. rewrite !same_edge_iff.
  destruct H as [[-> ->]|[-> ->]]; intuition.
Qed.

Lemma same_edge_sym (x y u v : string) : same_edge x y u v = same_edge u v x y.
Proof. apply bool_ext. rewrite !same_edge_iff. intuition. Qed.

Lemma edge_in (g : Graph) (u v : string) (a : EdgeAttrs) :
  edge g u v = Some a -> exists x y, In (x, y, a) (edges g) /\ same_edge x y u v = true.
Proof.
  unfold edge, edge_attrs_in.
  destruct (find _ (edges g)) as [[[x y] b]|] eqn:Hf; [|discriminate].
  cbn. intros H. inversion H; subst. apply find_some in Hf. now exists x, y.
Qed.

(** Adding an edge: the pair it joins. *)
Lemma edge_add_same (es : EdgeList) (u v u' v' : string) (a : EdgeAttrs) :
  same_edge u v u' v' = true ->
  exists a', edge_attrs_in same_edge (add_edge_in same_edge es u v a) u' v' = Some a'
             /\ (a' = a
                 \/ exists b, edge_attrs_in same_edge es u' v' = Some b
                              /\ a' = update_edge b a).
Proof.
  intros Hs. induction es as [|[[x y] b] es IH]; cbn [add_edge_in].
  - exists a. unfold edge_attrs_in. cbn. rewrite Hs. cbn. split; [reflexivity | now left].
  - destruct (same_edge x y u v) eqn:Hxy.
    + exists (update_edge b a). unfold edge_attrs_in. cbn.
      rewrite (same_edge_trans _ _ _ _ u' v' Hxy), Hs. cbn.
      split; [reflexivity|]. right. now exists b.
    + destruct IH as [a' [H1 H2]]. exists a'.
      assert (Hx : same_edge x y u' v' = false).
      { destruct (same_edge x y u' v') eqn:Hx'; [|reflexivity].
        exfalso. apply same_edge_iff in Hs, Hx'.
        assert (Hc : same_edge x y u v = true).
        { apply same_edge_iff.
          destruct Hs as [[? ?]|[? ?]], Hx' as [[? ?]|[? ?]]; subst; intuition. }
        congruence. }
      unfold edge_attrs_in in *. cbn. rewrite Hx. split; [exact H1 | exact H2].
Qed.

(** Adding an edge: every other pair. *)
Lemma edge_add_other (es : EdgeList) (u v u' v' : string) (a : EdgeAttrs) :
  same_edge u v u' v' = false ->
  edge_attrs_in same_edge (add_edge_in same_edge es u v a) u' v'
  = edge_attrs_in same_edge es u' v'.
Proof.
  intros Hs. induction es as [|[[x y] b] es IH]; cbn [add_edge_in].
  - unfold edge_attrs_in. cbn. now rewrite Hs.
  - destruct (same_edge x y u v) eqn:Hxy.
    + unfold edge_attrs_in. cbn.
      now rewrite (same_edge_trans _ _ _ _ u' v' Hxy), Hs.
    + unfold edge_attrs_in in *. cbn.
      destruct (same_edge x y u' v'); [reflexivity | exact IH].
Qed.

Lemma edge_add_node (g : Graph) (n u v : string) (a : NodeAttrs) :
  edge (add_node g n a) u v = edge g u v.
Proof. reflexivity. Qed.

(** What one more zero-weight view edge does to the edge between [u'] and [v']. *)
Lemma edge_add_view_edge (g : Graph) (u v u' v' : string) :
  (same_edge u v u' v' = true
   /\ exists a', edge (add_edge g u v view_edge) u' v' = Some a' /\ e_weight a' = Some 0)
  \/ (same_edge u v u' v' = false
      /\ edge (add_edge g u v view_edge) u' v' = edge g u' v').
Proof.
  destruct (same_edge u v u' v') eqn:Hs.
  - left. split; [reflexivity|].
    destruct (edge_add_same (edges g) u v u' v' view_edge Hs) as [a' [H1 H2]].
    exists a'. split; [exact H1|].
    destruct H2 as [->|[b [_ ->]]]; reflexivity.
  - right. split; [reflexivity|]. now apply edge_add_other.
Qed.

(** ** Unified graph *)

(** The inner loop of [_build_unified_graph], for one view. *)
Lemma view_edges_invariant (P : Graph -> Prop) (n : string) (tables : list string) :
  forall g : Graph,
    P g ->
    (forall g t, P g -> In t tables -> has_node g t = true ->
                 P (add_edge g n t view_edge)) ->
    P (fold_left (fun graph table =>
                    if has_node graph table then add_edge graph n table view_edge
                    else graph) tables g).
Proof.
  induction tables as [|t tables IH]; intros g Hg Hstep; cbn [fold_left]; [exact Hg|].
  apply IH.
  - destruct (has_node g t) eqn:Ht; [|exact Hg]. apply Hstep; [exact Hg | now left | exact Ht].
  - intros g' t' Hg' Hin Ht'. apply Hstep; [exact Hg' | now right | exact Ht'].
Qed.

Lemma add_view_invariant (P : Graph -> Prop) (v : ViewMetadata) (g : Graph) :
  P g ->
  (forall g a, P g -> P (add_node g (view_name v) a)) ->
  (forall g t, P g -> In t (base_tables v) -> has_node g t = true ->
               P (add_edge g (view_name v) t view_edge)) ->
  P (add_view g v).
Proof.
  intros Hg Hnode Hedge. unfold add_view.
  apply (view_edges_invariant P).
  - now apply Hnode.
  - exact Hedge.
Qed.

Lemma unified_invariant (P : Graph -> Prop) (views : list ViewMetadata) :
  forall g : Graph,
    P g ->
    (forall v g a, In v views -> P g -> P (add_node g (view_name v) a)) ->
    (forall v g t, In v views -> P g -> In t (base_tables v) -> has_node g t = true ->
                   P (add_edge g (view_name v) t view_edge)) ->
    P (fold_left add_view views g).
Proof.
  induction views as [|v views IH]; intros g Hg Hnode Hedge; cbn [fold_left]; [exact Hg|].
  apply IH.
  - apply add_view_invariant.
    + exact Hg.
    + intros g' a Hg'. apply (Hnode v); [now left | exact Hg'].
    + intros g' t Hg' Ht Hn. apply (Hedge v); [now left | exact Hg' | exact Ht | exact Hn].
  - intros v' g' a Hin. apply Hnode. now right.
  - intros v' g' t Hin. apply Hedge. now right.
Qed.

Lemma has_node_add_node (g : Graph) (n m : string) (a : NodeAttrs) :
  has_node g m = true -> has_node (add_node g n a) m = true.
Proof. rewrite !has_node_In, add_node_names. now left. Qed.

Lemma has_node_add_edge (g : Graph) (u v m : string) (a : EdgeAttrs) :
  has_node g m = true -> has_node (add_edge g u v a) m = true.
Proof. rewrite !has_node_In, add_edge_names. now left. Qed.

Lemma unified_keeps_nodes (views : list ViewMetadata) (g : Graph) (m : string) :
  has_node g m = true -> has_node (fold_left add_view views g) m = true.
Proof.
  intros H. apply (unified_invariant (fun g => has_node g m = true)); [exact H | |].
  - intros v g' a _. apply has_node_add_node.
  - intros v g' t _ Hm _ _. now apply has_node_add_edge.
Qed.

(** The nodes one view adds. *)
Lemma add_view_names (g : Graph) (v : ViewMetadata) (m : string) :
  In m (node_names (nodes (add_view g v)))
  <-> In m (node_names (nodes g)) \/ m = view_name v.
Proof.
  unfold add_view.
  set (g0 := add_node g (view_name v) _).
  assert (H0 : forall m, In m (node_names (nodes g0))
                         <-> In m (node_names (nodes g)) \/ m = view_name v)
    by (intros m'; apply add_node_names).
  rewrite <- H0.
  apply (view_edges_invariant
           (fun G => forall m, In m (node_names (nodes G))
                               <-> In m (node_names (nodes g0)))).
  - reflexivity.
  - intros G t HG _ Ht m'. rewrite add_edge_names, HG. split; [|now left].
    intros [H|[->| ->]]; [exact H | |].
    + apply H0. now right.
    + apply HG. now apply has_node_In.
Qed.

Lemma unified_names (views : list ViewMetadata) :
  forall (g : Graph) (m : string),
    In m (node_names (nodes (fold_left add_view views g)))
    <-> In m (node_names (nodes g)) \/ exists v, In v views /\ view_name v = m.
Proof.
  induction views as [|v views IH]; intros g m; cbn [fold_left].
  - split; [now left | intros [H|[v [[] _]]]; exact H].
  - rewrite IH, add_view_names. split.
    + intros [[H|H]|[v' [Hin Hn]]].
      * now left.
      * right. exists v. split; [now left | now symmetry].
      * right. exists v'. split; [now right | exact Hn].
    + intros [H|[v' [[<-|Hin] Hn]]].
      * left. now left.
      * left. right. now symmetry.
      * right. now exists v'.
Qed.

(** A zero-weight edge stays one. *)
Lemma zero_edge_add_view_edge (g : Graph) (n t u w : string) :
  zero_edge g u w -> zero_edge (add_edge g n t view_edge) u w.
Proof.
  intros Hz. destruct (edge_add_view_edge g n t u w) as [[_ H]|[_ H]].
  - exact H.
  - unfold zero_edge. now rewrite H.
Qed.

Lemma zero_edge_unified (views : list ViewMetadata) (g : Graph) (u w : string) :
  zero_edge g u w -> zero_edge (fold_left add_view views g) u w.
Proof.
  intros H. apply (unified_invariant (fun g => zero_edge g u w)); [exact H | |].
  - intros v g' a _ Hz. exact Hz.
  - intros v g' t _ Hz _ _. now apply zero_edge_add_view_edge.
Qed.

Lemma same_edge_refl (u v : string) : same_edge u v u v = true.
Proof. apply same_edge_iff. now left. Qed.

(** A view gets its edge to a base table that is a node. *)
Lemma add_view_edge (g : Graph) (v : ViewMetadata) (t : string) :
  In t (base_tables v) -> has_node g t = true -> zero_edge (add_view g v) (view_name v) t.
Proof.
  intros Hin Ht. unfold add_view.
  set (g0 := add_node g (view_name v) _).
  assert (Ht0 : has_node g0 t = true) by now apply has_node_add_node.
  clearbody g0. revert g0 Ht0.
  induction (base_tables v) as [|s tables IH]; [contradiction|].
  intros g0 Ht0. cbn [fold_left]. destruct Hin as [->|Hin].
  - rewrite Ht0.
    apply (view_edges_invariant (fun G => zero_edge G (view_name v) t)).
    + destruct (edge_add_view_edge g0 (view_name v) t (view_name v) t) as [[_ H]|[H _]].
      * exact H.
      * rewrite same_edge_refl in H. discriminate H.
    + intros G t' HG _ _. now apply zero_edge_add_view_edge.
  - apply (IH Hin).
    destruct (has_node g0 s); [now apply has_node_add_edge | exact Ht0].
Qed.

Lemma unified_view_edge (views : list ViewMetadata) (g : Graph) (v : ViewMetadata)
    (t : string) :
  In v views -> In t (base_tables v) -> has_node g t = true ->
  zero_edge (fold_left add_view views g) (view_name v) t.
Proof.
  intros Hv Ht Hn. apply in_split in Hv. destruct Hv as [l1 [l2 ->]].
  rewrite fold_left_app. cbn [fold_left].
  apply zero_edge_unified. apply add_view_edge; [exact Ht|].
  now apply unified_keeps_nodes.
Qed.

(** A schema edge is kept, with its data or with weight zero. *)
Lemma unified_keeps_edge (views : list ViewMetadata) (g : Graph) (u w : string)
    (a : EdgeAttrs) :
  edge g u w = Some a ->
  exists a', edge (fold_left add_view views g) u w = Some a'
             /\ (a' = a \/ e_weight a' = Some 0).
Proof.
  intros H.
  apply (unified_invariant
           (fun G => exists a', edge G u w = Some a' /\ (a' = a \/ e_weight a' = Some 0))).
  - exists a. split; [exact H | now left].
  - intros v G b _ HG. exact HG.
  - intros v G t _ [a' [HG Ha']] _ _.
    destruct (edge_add_view_edge G (view_name v) t u w) as [[_ [b [H1 H2]]]|[_ H1]].
    + exists b. split; [exact H1 | now right].
    + exists a'. rewrite H1. split; [exact HG | exact Ha'].
Qed.

(** Every edge of the unified graph is a schema edge or a view's edge. *)
Lemma unified_edge_origin (views : list ViewMetadata) (g : Graph) (u w : string)
    (a : EdgeAttrs) :
  edge (fold_left add_view views g) u w = Some a ->
  edge g u w = Some a
  \/ (e_weight a = Some 0
      /\ exists v t, In v views /\ In t (base_tables v)
                     /\ same_edge (view_name v) t u w = true).
Proof.
  revert a.
  apply (unified_invariant
           (fun G => forall a, edge G u w = Some a ->
                      edge g u w = Some a
                      \/ (e_weight a = Some 0
                          /\ exists v t, In v views /\ In t (base_tables v)
                                         /\ same_edge (view_name v) t u w = true))).
  - intros a H. now left.
  - intros v G b _ HG. exact HG.
  - intros v G t Hv HG Ht _ a Ha.
    destruct (edge_add_view_edge G (view_name v) t u w) as [[Hs [b [H1 H2]]]|[_ H1]].
    + right. rewrite H1 in Ha. inversion Ha; subst. split; [exact H2|].
      now exists v, t.
    + rewrite H1 in Ha. now apply HG.
Qed.

Lemma get_all_views_by_status (c : Table) (s : string) (l : list ViewMetadata) :
  s <> "" -> get_all_views c None (Some s) = Ok l ->
  forall v, In v l <-> In v c /\ status v = s.
Proof.
  intros Hs H v. unfold get_all_views in H. apply mapM_from_db_row in H. subst l.
  rewrite order_by_in, filter_In. cbn [layer_filter truthy_int andb].
  unfold status_filter, truthy_str.
  apply String.eqb_neq in Hs. rewrite Hs. now rewrite String.eqb_eq.
Qed.

Lemma build_unified_graph_views (schema : DiGraph) (catalog : Table) (U : Graph) :
  build_unified_graph schema catalog = Ok U ->
  exists views,
    U = fold_left add_view views (to_undirected schema)
    /\ forall v, In v views <-> In v catalog /\ shortcut_status (status v).
Proof.
  unfold build_unified_graph. intros H.
  destruct (get_all_views catalog None (Some "PROMOTED")) as [promoted|] eqn:Hp;
    [|discriminate H].
  destruct (get_all_views catalog None (Some "MATERIALIZED")) as [materialized|] eqn:Hm;
    [|discriminate H].
  cbn [bind] in H. inversion H; subst. exists (promoted ++ materialized).
  split; [reflexivity|]. intros v. rewrite in_app_iff.
  assert (Hp' : "PROMOTED" <> "") by discriminate.
  assert (Hm' : "MATERIALIZED" <> "") by discriminate.
  rewrite (get_all_views_by_status _ _ _ Hp' Hp).
  rewrite (get_all_views_by_status _ _ _ Hm' Hm).
  unfold shortcut_status. intuition.
Qed.

(** C6 (corrected): the unified graph is the one [solve] works on when
    views are asked for; its nodes are those of the undirected schema graph
    and the PROMOTED and MATERIALIZED views; each such view has a zero-weight
    edge to every base table that is a node of the schema graph; every edge
    is a schema edge or such a zero-weight view edge; and every schema edge
    is kept. *)
Theorem unified_graph_shape (schema : DiGraph) (catalog : Table) (U : Graph) :
  build_unified_graph schema catalog = Ok U ->
  working_graph schema (Some catalog) true = Ok U
  /\ (forall n, has_node U n = true
                <-> has_node (to_undirected schema) n = true
                    \/ exists v, In v catalog /\ shortcut_status (status v)
                                 /\ view_name v = n)
  /\ (forall v t, In v catalog -> shortcut_status (status v) ->
                  In t (base_tables v) -> has_node (to_undirected schema) t = true ->
                  zero_edge U (view_name v) t)
  /\ (forall u w a, edge U u w = Some a ->
                    edge (to_undirected schema) u w = Some a
                    \/ (e_weight a = Some 0
                        /\ exists v t, In v catalog /\ shortcut_status (status v)
                                       /\ In t (base_tables v)
                                       /\ same_edge (view_name v) t u w = true))
  /\ (forall u w a, edge (to_undirected schema) u w = Some a ->
                    exists a', edge U u w = Some a' /\ (a' = a \/ e_weight a' = Some 0)).
Proof.
  intros H. split; [exact H|].
  destruct (build_unified_graph_views _ _ _ H) as [views [-> Hviews]].
  repeat split.
  - rewrite !has_node_In, unified_names. intros [Hn|[v [Hv Hn]]]; [now left|].
    right. exists v. apply Hviews in Hv. intuition.
  - rewrite !has_node_In, unified_names. intros [Hn|[v [Hv [Hs Hn]]]]; [now left|].
    right. exists v. split; [|exact Hn]. apply Hviews. now split.
  - intros v t Hv Hs Ht Hn. apply unified_view_edge; [|exact Ht | exact Hn].
    apply Hviews. now split.
  - intros u w a Ha. destruct (unified_edge_origin _ _ _ _ _ Ha) as [Hb|[Hz [v [t Hvt]]]].
    + now left.
    + right. split; [exact Hz|]. exists v, t.
      destruct Hvt as [Hv [Ht Hsame]]. apply Hviews in Hv. intuition.
  - intros u w a Ha. now apply unified_keeps_edge.
Qed.

(** The merchant schema with its catalog. *)
Lemma unified_graph_shape_witness :
  working_graph (schema_of merchant_db) (Some merchant_catalog) true = Ok merchant_unified
  /\ has_node merchant_unified "v_merchant_risk_profile" = true
  /\ zero_edge merchant_unified "v_merchant_risk_profile" "mcc_codes"
  /\ (exists a', edge merchant_unified "transactions" "merchants" = Some a'
                 /\ (Some a' = edge (to_undirected (schema_of merchant_db))
                                 "transactions" "merchants"
                     \/ e_weight a' = Some 0)).
Proof.
  assert (Hbuild : build_unified_graph (schema_of merchant_db) merchant_catalog
                   = Ok merchant_unified) by (vm_compute; reflexivity).
  destruct (unified_graph_shape _ _ _ Hbuild) as [Hw [Hn [Hz [_ Hk]]]].
  split; [exact Hw|]. split; [|split].
  - apply Hn. right. exists merchant_risk_profile.
    split; [now left|]. split; [now left | reflexivity].
  - apply (Hz merchant_risk_profile "mcc_codes").
    + now left.
    + now left.
    + cbn. tauto.
    + vm_compute. reflexivity.
  - destruct (edge (to_undirected (schema_of merchant_db)) "transactions" "merchants")
      as [a|] eqn:Ha; [|vm_compute in Ha; discriminate Ha].
    destruct (Hk _ _ _ Ha) as [a' [H1 H2]]. exists a'. split; [exact H1|].
    destruct H2 as [->|H2]; [now left | now right].
Defined.

(** C6 as stated does not hold: a promoted view gets no edge to a base
    table that the graph does not have. *)
Lemma unified_graph_skips_unknown_table :
  ~ (forall (schema : DiGraph) (catalog : Table) (U : Graph) (v : ViewMetadata) (t : string),
        build_unified_graph schema catalog = Ok U ->
        In v catalog -> shortcut_status (status v) -> In t (base_tables v) ->
        zero_edge U (view_name v) t).
Proof.
  intros H.
  assert (Hbuild : build_unified_graph (schema_of merchant_db) merchant_catalog
                   = Ok merchant_unified) by (vm_compute; reflexivity).
  destruct (H _ _ _ orphan_view "refunds" Hbuild) as [a [Ha _]].
  - right. now left.
  - now left.
  - now left.
  - vm_compute in Ha. discriminate Ha.
Qed.

(** ** Costs with and without views *)

Lemma edge_weight_nonneg (g : Graph) (u w : string) (a : EdgeAttrs) :
  Forall (fun e => 0 <= weight_of (snd e)) (edges g) ->
  edge g u w = Some a -> 0 <= weight_of a.
Proof.
  intros Hall Ha. destruct (edge_in _ _ _ _ Ha) as [x [y [Hin _]]].
  rewrite Forall_forall in Hall. exact (Hall _ Hin).
Qed.

Lemma unified_has_edges (views : list ViewMetadata) (g : Graph)
    (pairs : list (string * string)) :
  has_edges g pairs -> has_edges (fold_left add_view views g) pairs.
Proof.
  intros Hhas p Hp. destruct (Hhas p Hp) as [a Ha].
  destruct (unified_keeps_edge views g _ _ _ Ha) as [a' [Ha' _]]. now exists a'.
Qed.

Lemma unified_pairs_cost (views : list ViewMetadata) (g : Graph)
    (pairs : list (string * string)) :
  Forall (fun e => 0 <= weight_of (snd e)) (edges g) ->
  has_edges g pairs ->
  pairs_cost (fold_left add_view views g) pairs <= pairs_cost g pairs.
Proof.
  intros Hpos Hhas.
  induction pairs as [|p pairs IH]; cbn [pairs_cost fold_right]; [apply Qle_refl|].
  fold (pairs_cost (fold_left add_view views g) pairs). fold (pairs_cost g pairs).
  apply Qplus_le_compat.
  - destruct (Hhas p (or_introl eq_refl)) as [a Ha].
    destruct (unified_keeps_edge views g _ _ _ Ha) as [a' [Ha' Hrel]].
    rewrite Ha, Ha'. destruct Hrel as [->|Hz]; [apply Qle_refl|].
    unfold weight_of at 1. rewrite Hz. exact (edge_weight_nonneg _ _ _ _ Hpos Ha).
  - apply IH. intros q Hq. apply Hhas. now right.
Qed.

(** C1 (corrected): views add zero-weight edges and remove none.  Every
    set of edges of the undirected schema graph is a set of edges of the
    unified graph, of no greater total weight; a set of edges that connects
    the terminals in the schema graph connects them in the unified graph;
    hence a cheapest connection of the terminals with views costs no more
    than a cheapest one without. *)
Theorem views_only_add_shortcuts (schema : DiGraph) (catalog : Table) (U : Graph)
    (terminals : list string) :
  build_unified_graph schema catalog = Ok U ->
  Forall (fun e => 0 <= weight_of (snd e)) (edges (to_undirected schema)) ->
  (forall pairs, has_edges (to_undirected schema) pairs ->
                 has_edges U pairs
                 /\ pairs_cost U pairs <= pairs_cost (to_undirected schema) pairs)
  /\ (forall pairs, connects (to_undirected schema) pairs terminals ->
                    connects U pairs terminals
                    /\ pairs_cost U pairs <= pairs_cost (to_undirected schema) pairs)
  /\ (forall without with_views,
         cheapest (to_undirected schema) without terminals ->
         cheapest U with_views terminals ->
         pairs_cost U with_views <= pairs_cost (to_undirected schema) without).
Proof.
  intros Hbuild Hpos.
  destruct (build_unified_graph_views _ _ _ Hbuild) as [views [-> _]].
  set (base := to_undirected schema) in *.
  assert (Hconn : forall pairs, connects base pairs terminals ->
                                connects (fold_left add_view views base) pairs terminals).
  { intros pairs [Hhas [Hnodes Hjoin]]. split; [|split].
    - now apply unified_has_edges.
    - intros t Ht. apply unified_keeps_nodes. now apply Hnodes.
    - exact Hjoin. }
  split; [|split].
  - intros pairs Hhas. split; [now apply unified_has_edges | now apply unified_pairs_cost].
  - intros pairs Hc. split; [now apply Hconn|].
    apply unified_pairs_cost; [exact Hpos | exact (proj1 Hc)].
  - intros without with_views [Hwithout _] [_ Hleast].
    apply (Qle_trans _ (pairs_cost (fold_left add_view views base) without)).
    + apply Hleast. now apply Hconn.
    + apply unified_pairs_cost; [exact Hpos | exact (proj1 Hwithout)].
Qed.

Lemma joins_nil (s t : string) : joins [] s t -> t = s.
Proof.
  induction 1 as [|u w _ _ [[]|[]]]. reflexivity.
Qed.

Lemma joins_single (u w s t : string) :
  joins [(u, w)] s t -> t = s \/ (s = u /\ t = w) \/ (s = w /\ t = u).
Proof.
  induction 1 as [|x y _ IH Hxy]; [now left|].
  assert (Hends : (x = u /\ y = w) \/ (x = w /\ y = u)).
  { destruct Hxy as [[Hp|[]]|[Hp|[]]]; inversion Hp; auto. }
  destruct IH as [->|[[-> ->]|[-> ->]]], Hends as [[Hx Hy]|[Hx Hy]]; subst; auto.
Qed.

Lemma pairs_cost_nonneg (g : Graph) (pairs : list (string * string)) :
  Forall (fun e => 0 <= weight_of (snd e)) (edges g) ->
  has_edges g pairs -> 0 <= pairs_cost g pairs.
Proof.
  intros Hpos Hhas. induction pairs as [|p pairs IH]; cbn [pairs_cost fold_right].
  - apply Qle_refl.
  - fold (pairs_cost g pairs). destruct (Hhas p (or_introl eq_refl)) as [a Ha]. rewrite Ha.
    apply (Qle_trans _ (0 + 0)); [apply Qle_refl|]. apply Qplus_le_compat.
    + exact (edge_weight_nonneg _ _ _ _ Hpos Ha).
    + apply IH. intros q Hq. apply Hhas. now right.
Qed.

(** Where every edge weighs 1, a set of edges costs its number. *)
Lemma pairs_cost_unit (g : Graph) (pairs : list (string * string)) :
  Forall (fun e => weight_of (snd e) == 1) (edges g) ->
  has_edges g pairs -> pairs_cost g pairs == inject_Z (Z.of_nat (length pairs)).
Proof.
  intros Hunit Hhas. induction pairs as [|p pairs IH]; cbn [pairs_cost fold_right length].
  - reflexivity.
  - fold (pairs_cost g pairs). destruct (Hhas p (or_introl eq_refl)) as [a Ha]. rewrite Ha.
    destruct (edge_in _ _ _ _ Ha) as [x [y [Hin _]]].
    rewrite Forall_forall in Hunit. rewrite (Hunit _ Hin). cbn [snd].
    rewrite IH by (intros q Hq; apply Hhas; now right).
    rewrite Nat2Z.inj_succ. unfold Z.succ. rewrite inject_Z_plus. ring.
Qed.

(** No connection of transactions and mcc_codes in the merchant schema is
    cheaper than the path through merchants. *)
Lemma merchant_path_cheapest :
  cheapest (to_undirected (schema_of merchant_db)) merchant_path
    ["transactions"; "mcc_codes"].
Proof.
  assert (Hunit : Forall (fun e => weight_of (snd e) == 1)
                         (edges (to_undirected (schema_of merchant_db))))
    by (vm_compute; repeat constructor).
  split.
  - split; [|split].
    + intros p [<-|[<-|[]]]; vm_compute; eexists; reflexivity.
    + intros t [<-|[<-|[]]]; vm_compute; reflexivity.
    + assert (H1 : joins merchant_path "transactions" "mcc_codes").
      { apply (joins_step _ _ "merchants").
        - apply (joins_step _ _ "transactions"); [apply joins_here | left; cbn; tauto].
        - left. cbn. tauto. }
      assert (H2 : joins merchant_path "mcc_codes" "transactions").
      { apply (joins_step _ _ "merchants").
        - apply (joins_step _ _ "mcc_codes"); [apply joins_here | right; cbn; tauto].
        - right. cbn. tauto. }
      intros s t [<-|[<-|[]]] [<-|[<-|[]]];
        [apply joins_here | exact H1 | exact H2 | apply joins_here].
  - intros others [Hhas [_ Hjoin]].
    rewrite (pairs_cost_unit _ merchant_path Hunit)
      by (intros p [<-|[<-|[]]]; vm_compute; eexists; reflexivity).
    rewrite (pairs_cost_unit _ others Hunit Hhas). rewrite <- Zle_Qle.
    specialize (Hjoin "transactions" "mcc_codes" ltac:(now left) ltac:(right; now left)).
    destruct others as [|[u w] [|q others]]; [| |unfold merchant_path; cbn [length]; lia].
    + apply joins_nil in Hjoin. discriminate Hjoin.
    + exfalso. destruct (Hhas (u, w) (or_introl eq_refl)) as [a Ha]. cbn [fst snd] in Ha.
      apply joins_single in Hjoin.
      destruct Hjoin as [Hj|[[<- <-]|[<- <-]]];
        [discriminate Hj | vm_compute in Ha; discriminate Ha
         | vm_compute in Ha; discriminate Ha].
Qed.

(** With the promoted view the two tables are connected at no cost. *)
Lemma merchant_via_view_cheapest :
  cheapest merchant_unified merchant_via_view ["transactions"; "mcc_codes"].
Proof.
  assert (Hhas : has_edges merchant_unified merchant_via_view)
    by (intros p [<-|[<-|[]]]; vm_compute; eexists; reflexivity).
  split.
  - split; [exact Hhas|]. split.
    + intros t [<-|[<-|[]]]; vm_compute; reflexivity.
    + assert (H1 : joins merchant_via_view "transactions" "mcc_codes").
      { apply (joins_step _ _ "v_merchant_risk_profile").
        - apply (joins_step _ _ "transactions"); [apply joins_here | right; cbn; tauto].
        - left. cbn. tauto. }
      assert (H2 : joins merchant_via_view "mcc_codes" "transactions").
      { apply (joins_step _ _ "v_merchant_risk_profile").
        - apply (joins_step _ _ "mcc_codes"); [apply joins_here | right; cbn; tauto].
        - left. cbn. tauto. }
      intros s t [<-|[<-|[]]] [<-|[<-|[]]];
        [apply joins_here | exact H1 | exact H2 | apply joins_here].
  - intros others [Hothers _].
    apply (Qle_trans _ 0); [vm_compute; discriminate|].
    apply pairs_cost_nonneg; [|exact Hothers].
    vm_compute. repeat constructor; discriminate.
Qed.

(** The hub schema with its promoted view: the three foreign keys into
    customers connect accounts, branches and devices in the unified graph
    too, at 17/16.  The merchant schema: the cheapest connection with the
    view costs no more than the cheapest one without. *)
Lemma views_only_add_shortcuts_witness :
  (connects hub_unified hub_star ["accounts"; "branches"; "devices"]
   /\ pairs_cost hub_unified hub_star <= 17 # 16)
  /\ pairs_cost merchant_unified merchant_via_view
     <= pairs_cost (to_undirected (schema_of merchant_db)) merchant_path.
Proof.
  split.
  - assert (Hjoin : forall s t,
               In s ["accounts"; "branches"; "devices"] ->
               In t ["accounts"; "branches"; "devices"] -> joins hub_star s t).
    { intros s t Hs Ht. apply (joins_step _ _ "customers").
      - apply (joins_step _ _ s); [apply joins_here|]. left.
        destruct Hs as [<-|[<-|[<-|[]]]]; cbn; tauto.
      - right. destruct Ht as [<-|[<-|[<-|[]]]]; cbn; tauto. }
    destruct (views_only_add_shortcuts (schema_of hub_db) hub_catalog hub_unified
                ["accounts"; "branches"; "devices"]) as [_ [H _]].
    + vm_compute. reflexivity.
    + vm_compute. repeat constructor; discriminate.
    + destruct (H hub_star) as [Hc Hcost].
      * split; [|split].
        -- intros p [<-|[<-|[<-|[]]]]; vm_compute; eexists; reflexivity.
        -- intros t [<-|[<-|[<-|[]]]]; vm_compute; reflexivity.
        -- exact Hjoin.
      * split; [exact Hc|].
        apply (Qle_trans _ _ _ Hcost). vm_compute. discriminate.
  - destruct (views_only_add_shortcuts (schema_of merchant_db) merchant_catalog
                merchant_unified ["transactions"; "mcc_codes"]) as [_ [_ H]].
    + vm_compute. reflexivity.
    + vm_compute. repeat constructor; discriminate.
    + exact (H _ _ merchant_path_cheapest merchant_via_view_cheapest).
Defined.

(** C1 as stated does not hold: on the hub schema the approximation pays
    more with the view than without it. *)
Lemma views_can_raise_cost :
  ~ (forall (schema : DiGraph) (catalog : option Table) (terminals : list string)
            (r : Comparison),
        compare_solutions schema catalog terminals = Ok r ->
        with_cost r <= without_cost r).
Proof.
  intros H.
  destruct (compare_solutions (schema_of hub_db) (Some hub_catalog)
              ["accounts"; "branches"; "devices"]) as [r|] eqn:Hr;
    [|vm_compute in Hr; discriminate Hr].
  specialize (H _ _ _ r Hr).
  vm_compute in Hr. inversion Hr; subst r. vm_compute in H. apply H. reflexivity.
Qed.

(** The costs of that comparison: 17/16 without the view, 19/16 with it. *)
Example hub_costs :
  match compare_solutions (schema_of hub_db) (Some hub_catalog)
          ["accounts"; "branches"; "devices"] with
  | Ok r => without_cost r == 17 # 16 /\ with_cost r == 19 # 16
            /\ with_views r = ["v_account_xfers"]
  | Err _ => False
  end.
Proof. vm_compute. repeat split; reflexivity. Qed.

(** The scenario of the specification: two edges of weight 1 without the
    view, the view alone with it. *)
Example merchant_scenario :
  match solve (schema_of merchant_db) (Some [merchant_risk_profile])
          ["transactions"; "mcc_codes"] false,
        solve (schema_of merchant_db) (Some [merchant_risk_profile])
          ["transactions"; "mcc_codes"] true with
  | Ok s, Ok s' =>
      tables_used s = ["mcc_codes"; "merchants"; "transactions"]
      /\ total_cost s == 2
      /\ views_used s' = ["v_merchant_risk_profile"]
      /\ total_cost s' == 0
  | _, _ => False
  end.
Proof. vm_compute. repeat split; reflexivity. Qed.

(** ** Disconnected graphs *)

Lemma max_by_len_spec (cs : list (list string)) :
  forall best : list string,
    (max_by_len best cs = best \/ In (max_by_len best cs) cs)
    /\ (length best <= length (max_by_len best cs))%nat
    /\ (forall c, In c cs -> (length c <= length (max_by_len best cs))%nat).
Proof.
  induction cs as [|c cs IH]; intros best; cbn [max_by_len].
  - repeat split; [now left | lia | intros c []].
  - destruct (length best <? length c)%nat eqn:Hlt.
    + apply Nat.ltb_lt in Hlt. destruct (IH c) as [H1 [H2 H3]]. repeat split.
      * right. destruct H1 as [->|H1]; [now left | now right].
      * lia.
      * intros c' [<-|Hin]; [exact H2 | now apply H3].
    + apply Nat.ltb_ge in Hlt. destruct (IH best) as [H1 [H2 H3]]. repeat split.
      * destruct H1 as [H1|H1]; [now left | right; now right].
      * exact H2.
      * intros c' [<-|Hin]; [lia | now apply H3].
Qed.

Lemma largest_of_spec (cs : list (list string)) :
  cs <> [] ->
  In (largest_of cs) cs
  /\ (forall c, In c cs -> (length c <= length (largest_of cs))%nat).
Proof.
  destruct cs as [|c cs]; [congruence|]. intros _. cbn [largest_of].
  destruct (max_by_len_spec cs c) as [H1 [H2 H3]]. split.
  - destruct H1 as [->|H1]; [now left | now right].
  - intros c' [<-|Hin]; [exact H2 | now apply H3].
Qed.

Lemma is_connected_nodes (g : Graph) (b : bool) :
  is_connected g = Ok b -> connected_components g <> [].
Proof.
  unfold is_connected, connected_components.
  destruct (nodes g) as [|[n a] ns]; [discriminate|].
  intros _. cbn. discriminate.
Qed.

Lemma has_node_subgraph (g : Graph) (ns : list string) (t : string) :
  has_node (subgraph g ns) t = has_node g t && mem t ns.
Proof.
  apply bool_ext. rewrite andb_true_iff, !has_node_In, mem_In.
  unfold subgraph, node_names. cbn [nodes]. rewrite !in_map_iff. split.
  - intros [[x a] [<- Hin]]. apply filter_In in Hin. destruct Hin as [Hin Hm].
    cbn [fst] in *. split; [now exists (x, a) | now apply mem_In].
  - intros [[[x a] [<- Hin]] Hm]. exists (x, a). split; [reflexivity|].
    apply filter_In. split; [exact Hin | now apply mem_In].
Qed.

Lemma working_graph_keeps_tables (schema : DiGraph) (catalog : option Table)
    (use_views : bool) (graph : Graph) (t : string) :
  working_graph schema catalog use_views = Ok graph ->
  d_has_node schema t = true -> has_node graph t = true.
Proof.
  intros Hw Ht. apply to_undirected_keeps_nodes in Ht.
  unfold working_graph in Hw.
  destruct catalog as [c|]; [destruct use_views|]; try (inversion Hw; now subst).
  destruct (build_unified_graph_views _ _ _ Hw) as [views [-> _]].
  now apply unified_keeps_nodes.
Qed.

Lemma filter_ext_in' {A : Type} (f g : A -> bool) (l : list A) :
  (forall x, In x l -> f x = g x) -> filter f l = filter g l.
Proof.
  induction l as [|a l IH]; intros H; cbn [filter]; [reflexivity|].
  rewrite (H a (or_introl eq_refl)), IH; [reflexivity|].
  intros x Hx. apply H. now right.
Qed.

(** C4 (corrected): on a disconnected working graph [solve] searches the
    connected component with the most nodes (the nodes reachable from one of
    them, no component being larger), keeps the terminals that lie in it,
    and returns the empty result when none does, the single-table result
    when one does, and the analysed approximation on that component
    otherwise. *)
Theorem solve_disconnected (schema : DiGraph) (catalog : option Table)
    (terminals : list string) (use_views : bool) (graph : Graph) :
  (forall t, In t terminals -> d_has_node schema t = true) ->
  (2 <= length terminals)%nat ->
  working_graph schema catalog use_views = Ok graph ->
  is_connected graph = Ok false ->
  In (largest_component graph) (connected_components graph)
  /\ (exists n, has_node graph n = true
                /\ forall t, In t (largest_component graph) <-> reachable graph n t)
  /\ (forall c, In c (connected_components graph) ->
                (length c <= length (largest_component graph))%nat)
  /\ solve schema catalog terminals use_views
     = match filter (fun t => mem t (largest_component graph)) terminals with
       | [] => Ok empty_result
       | [t] => Ok (single_table_result t)
       | kept =>
           tree <- Approximation.steiner_tree
                     (subgraph graph (largest_component graph)) kept ;;
           Ok (analyze_solution tree kept use_views)
       end.
Proof.
  intros Hknown Hlen Hgraph Hconn.
  destruct (largest_of_spec (connected_components graph) (is_connected_nodes _ _ Hconn))
    as [Hin Hmax].
  split; [exact Hin|].
  split; [exact (proj1 (connected_components_spec graph) _ Hin)|].
  split; [exact Hmax|].
  unfold solve.
  rewrite (filter_none (fun t => negb (d_has_node schema t)) terminals)
    by (intros t Ht; now rewrite (Hknown t Ht)).
  destruct terminals as [|t1 [|t2 terminals]]; cbn [length] in Hlen; try lia.
  rewrite Hgraph. cbn [bind]. rewrite Hconn. cbn [bind].
  rewrite (filter_ext_in' (has_node (subgraph graph (largest_component graph)))
             (fun t => mem t (largest_component graph))).
  - destruct (filter (fun t => mem t (largest_component graph)) (t1 :: t2 :: terminals))
      as [|a [|b l]]; reflexivity.
  - intros t Ht. rewrite has_node_subgraph.
    now rewrite (working_graph_keeps_tables _ _ _ _ t Hgraph (Hknown t Ht)).
Qed.

(** Three terminals over the two islands: the one in the smaller island
    is dropped. *)
Lemma solve_disconnected_witness :
  solve (schema_of split_db) None ["departments"; "orders"; "products"] false
  = (tree <- Approximation.steiner_tree
               (subgraph (to_undirected (schema_of split_db))
                         ["customers"; "orders"; "products"])
               ["orders"; "products"] ;;
     Ok (analyze_solution tree ["orders"; "products"] false)).
Proof.
  destruct (solve_disconnected (schema_of split_db) None
              ["departments"; "orders"; "products"] false
              (to_undirected (schema_of split_db))) as [_ [_ [_ H]]].
  - intros t [<-|[<-|[<-|[]]]]; reflexivity.
  - cbn. lia.
  - reflexivity.
  - vm_compute. reflexivity.
  - exact H.
Defined.

(** C4 as stated does not hold: the component searched is the one with the
    most nodes, which may hold none of the terminals while another holds
    them all. *)
Lemma solve_ignores_terminal_count :
  is_connected (to_undirected (schema_of split_db)) = Ok false
  /\ In ["departments"; "employees"]
        (connected_components (to_undirected (schema_of split_db)))
  /\ terminals_in ["departments"; "employees"] ["departments"; "employees"] = 2%nat
  /\ terminals_in (largest_component (to_undirected (schema_of split_db)))
                  ["departments"; "employees"] = 0%nat
  /\ solve (schema_of split_db) None ["departments"; "employees"] false = Ok empty_result.
Proof.
  repeat split; vm_compute; auto.
Qed.

(** ** Cosine similarity *)

Lemma dot_from_defined {A : Type} `{Arithmetic A} (a b : list A) :
  length a = length b -> forall acc, exists d, dot_from acc a b = Ok d.
Proof.
  revert b. induction a as [|x a IH]; intros [|y b] Hlen acc; try discriminate Hlen.
  - now exists acc.
  - cbn [dot_from]. apply IH. now inversion Hlen.
Qed.

(** The dot product of the zero vector with itself, in an arithmetic where
    0 + 0 * 0 is 0. *)
Lemma dot_from_zero_vector {A : Type} `{Arithmetic A} (n : nat) :
  a_add a_zero (a_mul a_zero a_zero) = a_zero ->
  dot_from a_zero (repeat a_zero n) (repeat a_zero n) = Ok a_zero.
Proof.
  intros Hzero. induction n as [|n IH]; [reflexivity|].
  cbn [repeat dot_from]. rewrite Hzero. exact IH.
Qed.

(** What the guard gives against the zero vector. *)
Lemma cosine_similarity_zero_vector {A : Type} `{Arithmetic A} (v : list A) :
  a_add a_zero (a_mul a_zero a_zero) = a_zero ->
  a_is_zero (a_sqrt a_zero) = true ->
  cosine_similarity v (repeat a_zero (length v)) = Ok a_zero.
Proof.
  intros Hzero Hroot. unfold cosine_similarity.
  destruct (dot_from_defined v (repeat a_zero (length v))
              ltac:(now rewrite repeat_length) a_zero) as [d Hd].
  destruct (dot_from_defined v v eq_refl a_zero) as [s Hs].
  unfold norm, dot. rewrite Hd, Hs. cbn [bind].
  rewrite (dot_from_zero_vector _ Hzero). cbn [bind].
  rewrite Hroot. now rewrite orb_true_r.
Qed.

(** C9 (corrected): in any arithmetic, [cosine_similarity] returns zero
    when the norm it computed for either vector is zero, without dividing;
    against the zero vector it returns zero in every arithmetic in which
    0 + 0 * 0 is 0 and the root of 0 tests as zero, binary64 among them; and
    for a vector with itself it returns, when the computed norm is not zero,
    the computed dot product divided by the product of the computed norm
    with itself. *)
Theorem cosine_similarity_spec :
  (forall (A : Type) (arith : Arithmetic A) (a b : list A) (norm_a norm_b : A),
      norm a = Ok norm_a -> norm b = Ok norm_b -> length a = length b ->
      a_is_zero norm_a = true \/ a_is_zero norm_b = true ->
      cosine_similarity a b = Ok a_zero)
  /\ (forall (A : Type) (arith : Arithmetic A) (v : list A),
         a_add a_zero (a_mul a_zero a_zero) = a_zero ->
         a_is_zero (a_sqrt a_zero) = true ->
         cosine_similarity v (repeat a_zero (length v)) = Ok a_zero)
  /\ (forall v : list float,
         cosine_similarity v (repeat 0%float (length v)) = Ok 0%float)
  /\ (forall (A : Type) (arith : Arithmetic A) (v : list A) (d : A),
         dot v v = Ok d -> a_is_zero (a_sqrt d) = false ->
         cosine_similarity v v = Ok (a_div d (a_mul (a_sqrt d) (a_sqrt d)))).
Proof.
  split; [|split; [|split]].
  - intros A arith a b na nb Ha Hb Hlen Hzero. unfold cosine_similarity.
    destruct (dot_from_defined a b Hlen a_zero) as [d Hd]. unfold dot at 1.
    rewrite Hd, Ha, Hb. cbn [bind].
    destruct Hzero as [->| ->]; [reflexivity | now rewrite orb_true_r].
  - intros A arith v. apply cosine_similarity_zero_vector.
  - intros v. exact (@cosine_similarity_zero_vector float Binary64 v eq_refl eq_refl).
  - intros A arith v d Hd Hroot. unfold cosine_similarity, norm. rewrite Hd.
    cbn [bind]. rewrite Hroot. reflexivity.
Qed.

(** The vector (3, 4) in binary64: against zero, and against itself. *)
Lemma cosine_similarity_spec_witness :
  cosine_similarity [3%float; 4%float] [0%float; 0%float] = Ok 0%float
  /\ cosine_similarity [3%float; 4%float] [3%float; 4%float]
     = Ok (25 / (5 * 5))%float.
Proof.
  destruct cosine_similarity_spec as [Hguard [_ [_ Hself]]]. split.
  - apply (Hguard float Binary64 [3%float; 4%float] [0%float; 0%float]
             5%float 0%float).
    + reflexivity.
    + reflexivity.
    + reflexivity.
    + right. reflexivity.
  - apply (Hself float Binary64 [3%float; 4%float] 25%float); reflexivity.
Defined.

(** C9 as stated does not hold in binary64: for v = [1.0, 1.0] the dot
    product is 2.0, the norm is the rounded root of 2, the product of the two
    norms is 2.0000000000000004, and the quotient is 0.9999999999999998. *)
Lemma cosine_similarity_rounds :
  ~ (forall v : list float,
        Exists (fun x => PrimFloat.eqb x 0%float = false) v ->
        cosine_similarity v v = Ok 1%float).
Proof.
  intros H.
  assert (Hv : Exists (fun x => PrimFloat.eqb x 0%float = false) [1%float; 1%float])
    by (constructor; reflexivity).
  specialize (H _ Hv).
  apply (f_equal (fun r => match r with
                           | Ok x => PrimFloat.eqb x 1%float
                           | Err _ => false
                           end)) in H.
  vm_compute in H. discriminate H.
Qed.

Example cosine_similarity_of_ones :
  cosine_similarity [1%float; 1%float] [1%float; 1%float]
  = Ok 0x1.ffffffffffffep-1%float.
Proof. reflexivity. Qed.

(** A nonzero vector whose norm is zero: the square of 2^-600 underflows,
    and the guard answers 0.0. *)
Example cosine_similarity_underflow :
  PrimFloat.eqb 0x1p-600%float 0%float = false
  /\ cosine_similarity [0x1p-600%float] [0x1p-600%float] = Ok 0%float.
Proof. split; reflexivity. Qed.

(** * Further properties *)

(** ** Catalog *)



Lemma find_by_name_absent (c : Table) (n : string) :
  (forall r, In r c -> view_name r <> n) -> find_by_name c n = Ok None.
Proof.
  intros H. unfold find_by_name. rewrite filter_none; [reflexivity|].
  intros r Hr. apply name_is_false. now apply H.
Qed.

Lemma next_id_above (c : Table) (r : ViewMetadata) (i : Z) :
  In r c -> view_id r = Some i -> (i < next_id c)%Z.
Proof.
  unfold next_id. induction c as [|x c IH]; [contradiction|].
  intros [->|Hin] Hi; cbn [fold_right].
  - rewrite Hi. lia.
  - specialize (IH Hin Hi). destruct (view_id x); lia.
Qed.

Lemma validate_layer_fits (l : Z) : validate_layer l = true -> fits_int64 l = true.
Proof.
  unfold validate_layer, fits_int64, min_int64, max_int64. intros H.
  apply andb_prop in H. destruct H as [H _]. apply andb_prop in H. destruct H as [H1 H2].
  apply Z.leb_le in H1, H2. apply andb_true_intro. split; apply Z.leb_le; lia.
Qed.

Lemma validate_fits_layer (view : ViewMetadata) :
  validate view = true -> fits_int64 (layer view) = true.
Proof.
  unfold validate. intros H.
  apply andb_prop in H. destruct H as [H _]. apply andb_prop in H. destruct H as [H _].
  apply andb_prop in H. destruct H as [H _]. apply andb_prop in H. destruct H as [_ H].
  now apply validate_layer_fits.
Qed.

Lemma empty_dict_test (o : option string) :
  match o with
  | Some text => String.eqb text "{}"
  | None => false
  end = true <-> o = Some "{}".
Proof.
  destruct o as [text|].
  - rewrite String.eqb_eq. split; [now intros -> | now intros [= ->]].
  - split; discriminate.
Qed.

(** X1: registering a valid view under a new name.  If its
    [steiner_subgraph] is not the empty dict and its usage count fits 64
    bits, then (the ids of the table leaving room for one more) one row is
    appended, which carries the view with its dates stamped and a fresh id;
    the call returns that row, a lookup by name finds it, the rows already
    there are untouched and a well-formed catalog stays well formed.  A view
    with the empty dict as [steiner_subgraph], or with a usage count outside
    64 bits, is refused by the INSERT and the table stays as it was. *)
Theorem register_view_fresh (c : Table) (view : ViewMetadata)
    (t_created t_validated : timestamp) :
  (forall r, In r c -> view_name r <> view_name view) ->
  validate view = true ->
  let row :=
    set_view_id (Some (next_id c))
      (set_last_validated (stamp t_validated (last_validated view))
         (set_created_date (stamp t_created (created_date view)) view)) in
  (steiner_subgraph view <> Some "{}" ->
   fits_int64 (usage_count view) = true ->
   (next_id c <= max_int64)%Z ->
   register_view c view t_created t_validated = (c ++ [row], Ok (Some row))
   /\ find_by_name (c ++ [row]) (view_name view) = Ok (Some row)
   /\ (forall r, In r c -> view_id r <> view_id row)
   /\ (well_formed c -> well_formed (c ++ [row])))
  /\ (steiner_subgraph view = Some "{}" ->
      register_view c view t_created t_validated = (c, Err BindingError))
  /\ (steiner_subgraph view <> Some "{}" ->
      fits_int64 (usage_count view) = false ->
      register_view c view t_created t_validated = (c, Err OverflowError)).
Proof.
  intros Hnew Hvalid row.
  assert (Hrow : validate row = true) by exact Hvalid.
  assert (Hlayer : fits_int64 (layer view) = true) by now apply validate_fits_layer.
  assert (Hfresh : forall r, In r c -> view_id r <> view_id row).
  { intros r Hr Heq. unfold row in Heq. cbn [set_view_id view_id] in Heq.
    pose proof (next_id_above c r (next_id c) Hr Heq). lia. }
  assert (Hbind : forall t1 t2,
             bind_parameters (set_last_validated t2 (set_created_date t1 view))
             = if match steiner_subgraph view with
                  | Some text => String.eqb text "{}"
                  | None => false
                  end then Err BindingError
               else if negb (fits_int64 (usage_count view)) then Err OverflowError
               else Ok tt).
  { intros t1 t2. unfold bind_parameters.
    cbn [set_last_validated set_created_date layer steiner_subgraph usage_count].
    now rewrite Hlayer. }
  split; [|split].
  - intros Hdict Hcount _. split; [|split; [|split]].
    + unfold register_view. rewrite (find_by_name_absent c _ Hnew). cbv zeta.
      rewrite Hbind, Hcount.
      destruct (match steiner_subgraph view with
                | Some text => String.eqb text "{}"
                | None => false
                end) eqn:Hempty; [now apply empty_dict_test in Hempty|].
      cbn [negb].
      change ((c ++ [row], find_by_id (c ++ [row]) (next_id c))
              = (c ++ [row], Ok (Some row))).
      f_equal. unfold find_by_id. rewrite filter_app.
      rewrite (filter_none (id_is (next_id c)) c).
      * cbn [filter app].
        replace (id_is (next_id c) row) with true
          by (unfold id_is, row; cbn [set_view_id view_id]; now rewrite Z.eqb_refl).
        unfold from_db_row. now rewrite Hrow.
      * intros r Hr. unfold id_is. destruct (view_id r) as [j|] eqn:Hj; [|reflexivity].
        apply Z.eqb_neq. pose proof (next_id_above c r j Hr Hj). lia.
    + unfold find_by_name. rewrite filter_app.
      rewrite (filter_none (name_is (view_name view)) c)
        by (intros r Hr; apply name_is_false; now apply Hnew).
      cbn [filter app]. replace (name_is (view_name view) row) with true
        by (symmetry; now apply name_is_true).
      unfold from_db_row. now rewrite Hrow.
    + exact Hfresh.
    + intros [Hnd Hall]. split.
      * rewrite map_app. cbn [map]. apply NoDup_app; [exact Hnd | |].
        -- constructor; [intros [] | constructor].
        -- intros a Ha [<-|[]]. apply in_map_iff in Ha. destruct Ha as [r [Hn Hr]].
           now apply (Hnew r Hr).
      * apply Forall_app. split; [exact Hall|]. constructor; [exact Hrow | constructor].
  - intros Hdict. unfold register_view. rewrite (find_by_name_absent c _ Hnew). cbv zeta.
    rewrite Hbind. now rewrite (proj2 (empty_dict_test _) Hdict).
  - intros Hdict Hcount. unfold register_view.
    rewrite (find_by_name_absent c _ Hnew). cbv zeta. rewrite Hbind, Hcount.
    destruct (match steiner_subgraph view with
              | Some text => String.eqb text "{}"
              | None => false
              end) eqn:Hempty; [now apply empty_dict_test in Hempty | reflexivity].
Qed.

Lemma register_view_fresh_witness :
  find_by_name
    ([sample_view 1 "v_a" "fraud" "DRAFT" 0 10 ["transactions"]]
       ++ [set_view_id (Some 2%Z)
             (sample_view 9 "v_b" "risk" "DRAFT" 0 30 ["merchants"])]) "v_b"
  = Ok (Some (set_view_id (Some 2%Z)
                (sample_view 9 "v_b" "risk" "DRAFT" 0 30 ["merchants"])))
  /\ register_view [sample_view 1 "v_a" "fraud" "DRAFT" 0 10 ["transactions"]]
       (set_steiner_subgraph (Some "{}")
          (sample_view 9 "v_b" "risk" "DRAFT" 0 30 ["merchants"])) 40 41
     = ([sample_view 1 "v_a" "fraud" "DRAFT" 0 10 ["transactions"]], Err BindingError).
Proof.
  split.
  - refine (proj1 (proj2 (proj1 (register_view_fresh
                         [sample_view 1 "v_a" "fraud" "DRAFT" 0 10 ["transactions"]]
                         (sample_view 9 "v_b" "risk" "DRAFT" 0 30 ["merchants"]) 40 41
                         _ eq_refl) _ eq_refl _))).
    + intros r [<-|[]]. discriminate.
    + discriminate.
    + vm_compute. discriminate.
  - refine (proj1 (proj2 (register_view_fresh
                         [sample_view 1 "v_a" "fraud" "DRAFT" 0 10 ["transactions"]]
                         (set_steiner_subgraph (Some "{}")
                            (sample_view 9 "v_b" "risk" "DRAFT" 0 30 ["merchants"])) 40 41
                         _ eq_refl)) eq_refl).
    intros r [<-|[]]. discriminate.
Defined.

Lemma map_id_when {A : Type} (f : A -> A) (p : A -> bool) (l : list A) :
  (forall x, In x l -> p x = false) -> map (fun x => if p x then f x else x) l = l.
Proof.
  induction l as [|a l IH]; intros H; cbn [map]; [reflexivity|].
  rewrite (H a (or_introl eq_refl)), IH; [reflexivity|].
  intros x Hx. apply H. now right.
Qed.

Lemma filter_length_zero {A : Type} (f : A -> bool) (l : list A) :
  (0 <? length (filter f l))%nat = false -> forall x, In x l -> f x = false.
Proof.
  intros H x Hx. destruct (f x) eqn:Hf; [|reflexivity].
  rewrite (exists_filter_pos f l x Hx Hf) in H. discriminate H.
Qed.

(** X2: [promote_view] returns [True] exactly when a DRAFT row of that name
    exists; when it returns [False] the table is unchanged; and a second
    promotion of the same name changes nothing and returns [False]. *)
Theorem promote_view_once (c : Table) (n : string) (t t' : timestamp) :
  (snd (promote_view c n t) = true
   <-> exists r, In r c /\ view_name r = n /\ status r = "DRAFT")
  /\ (snd (promote_view c n t) = false -> fst (promote_view c n t) = c)
  /\ promote_view (fst (promote_view c n t)) n t' = (fst (promote_view c n t), false).
Proof.
  pose (cond := fun r : ViewMetadata => name_is n r && (status r =? "DRAFT")).
  pose (upd := fun (t : timestamp) (r : ViewMetadata) =>
                 set_promoted_date (Some t) (set_status "PROMOTED" r)).
  assert (E : forall c t, promote_view c n t
                          = (map (fun r => if cond r then upd t r else r) c,
                             (0 <? length (filter cond c))%nat)) by reflexivity.
  rewrite !E. cbn [fst snd]. split; [|split].
  - split.
    + intros H. destruct (filter cond c) as [|r rest] eqn:Hf; [discriminate H|].
      destruct (filter_head_in _ _ _ _ Hf) as [Hin Hc]. exists r.
      unfold cond in Hc. apply andb_prop in Hc. destruct Hc as [Hn Hs].
      split; [exact Hin|]. split; [now apply name_is_true | now apply String.eqb_eq].
    + intros [r [Hin [Hn Hs]]]. apply (exists_filter_pos cond c r Hin).
      unfold cond. rewrite (proj2 (name_is_true n r) Hn), Hs. reflexivity.
  - intros H. apply map_id_when. now apply filter_length_zero.
  - assert (Hnone : forall x, In x (map (fun r => if cond r then upd t r else r) c) ->
                              cond x = false).
    { intros x Hx. apply in_map_iff in Hx. destruct Hx as [r [<- _]].
      destruct (cond r) eqn:Hc; [|exact Hc].
      unfold cond, upd. cbn. now rewrite andb_false_r. }
    rewrite (filter_none _ _ Hnone). cbn [length Nat.ltb Nat.leb]. f_equal.
    apply map_id_when. exact Hnone.
Qed.

Lemma increment_usage_absent (c : Table) (n : string) (t1 t2 : timestamp) :
  (forall r, In r c -> view_name r <> n) -> increment_usage c n t1 t2 = (c, false).
Proof.
  intros H. unfold increment_usage, execute_update. cbv zeta iota beta.
  assert (Hno : forall r, In r c -> name_is n r = false)
    by (intros r Hr; apply name_is_false; now apply H).
  rewrite (filter_none _ _ Hno). cbn [length Nat.ltb Nat.leb]. f_equal.
  now apply map_id_when.
Qed.

Lemma increment_usage_returns (c : Table) (n : string) (t1 t2 : timestamp)
    (r : ViewMetadata) :
  NoDup (map view_name c) -> stored c n = Some r ->
  snd (increment_usage c n t1 t2) = validate r.
Proof.
  intros Hnd Hst. destruct (stored_in _ _ _ Hst) as [Hin Hname]. subst n.
  pose proof (filter_unique_name c r Hnd Hin) as Hf.
  unfold increment_usage, execute_update. cbv zeta iota beta. rewrite Hf.
  cbn [length Nat.ltb Nat.leb].
  set (c1 := map _ c).
  assert (Hf1 : filter (name_is (view_name r)) c1
                = [set_last_used (Some t1) (set_usage_count (usage_count r + 1)%Z r)]).
  { unfold c1. rewrite filter_map_keeps.
    - rewrite Hf. cbn [map]. now rewrite (proj2 (name_is_true _ _) eq_refl).
    - intros x. destruct (name_is (view_name r) x) eqn:Hx; [|exact Hx]. exact Hx. }
  unfold find_by_name. rewrite Hf1. unfold from_db_row.
  rewrite validate_after_bump. destruct (validate r); cbn [bind]; [|reflexivity].
  now destruct (_ && _).
Qed.

(** X3: [increment_usage] on a name the catalog does not hold returns
    [False] and leaves the table as it was; on a stored row that fails the
    field validators it returns [False] although the usage count was
    incremented, and the row is not promoted. *)
Theorem increment_usage_failures :
  (forall (c : Table) (n : string) (t_used t_promoted : timestamp),
      (forall r, In r c -> view_name r <> n) ->
      increment_usage c n t_used t_promoted = (c, false))
  /\ (forall (c : Table) (n : string) (r : ViewMetadata) (t_used t_promoted : timestamp),
         NoDup (map view_name c) -> stored c n = Some r -> validate r = false ->
         snd (increment_usage c n t_used t_promoted) = false
         /\ exists r', stored (fst (increment_usage c n t_used t_promoted)) n = Some r'
                       /\ usage_count r' = (usage_count r + 1)%Z
                       /\ status r' = status r).
Proof.
  split.
  - exact increment_usage_absent.
  - intros c n r t1 t2 Hnd Hst Hv. split.
    + now rewrite (increment_usage_returns c n t1 t2 r Hnd Hst).
    + destruct (increment_usage_stored c n t1 t2 r Hnd Hst) as [Hst' _].
      exists (after_increment t1 t2 r). split; [exact Hst'|].
      unfold after_increment. rewrite validate_after_bump, Hv. cbn [andb].
      split; reflexivity.
Qed.

Lemma increment_usage_failures_witness :
  increment_usage [sample_view 1 "v_a" "fraud" "DRAFT" 0 10 ["transactions"]] "v_zzz" 20 21
  = ([sample_view 1 "v_a" "fraud" "DRAFT" 0 10 ["transactions"]], false)
  /\ snd (increment_usage [sample_view 1 "v_a" "gossip" "DRAFT" 7 10 ["transactions"]]
            "v_a" 20 21) = false.
Proof.
  destruct increment_usage_failures as [H1 H2]. split.
  - apply H1. intros r [<-|[]]. discriminate.
  - apply (H2 _ _ (sample_view 1 "v_a" "gossip" "DRAFT" 7 10 ["transactions"])).
    + constructor; [intros [] | constructor].
    + reflexivity.
    + reflexivity.
Defined.

Lemma validate_after_increment (t1 t2 : timestamp) (r : ViewMetadata) :
  validate r = true -> validate (after_increment t1 t2 r) = true.
Proof.
  intros Hv. unfold after_increment.
  destruct (validate _ && _ && _) eqn:Hp; [|now rewrite validate_after_bump].
  unfold validate in *. cbn [set_promoted_date set_status set_last_used set_usage_count
                              view_name layer domain status freshness_type].
  apply andb_prop in Hv. destruct Hv as [Hv Hf].
  apply andb_prop in Hv. destruct Hv as [Hv _].
  apply andb_prop in Hv. destruct Hv as [Hv Hd].
  apply andb_prop in Hv. destruct Hv as [Hn Hl].
  rewrite Hn, Hl, Hd, Hf. reflexivity.
Qed.

Lemma increments_step (c : Table) (n : string) (t : timestamp * timestamp)
    (clock : list (timestamp * timestamp)) :
  increments c n (t :: clock)
  = increments (fst (increment_usage c n (fst t) (snd t))) n clock.
Proof. reflexivity. Qed.

(** X4: in a catalog with unique names, [k] calls of [increment_usage] on
    a valid stored row whose usage count is a 64-bit integer, and still is
    one after the [k] increments, add [k] to the count; a row that is not
    DRAFT keeps its status and its promotion date; a DRAFT row becomes
    PROMOTED as soon as a call leaves its count at 3 or more, and stays DRAFT
    below that. *)
Theorem increments_count (clock : list (timestamp * timestamp)) :
  forall (c : Table) (n : string) (r : ViewMetadata),
    NoDup (map view_name c) -> stored c n = Some r -> validate r = true ->
    (min_int64 <= usage_count r)%Z ->
    (usage_count r + Z.of_nat (length clock) <= max_int64)%Z ->
    exists r',
      stored (increments c n clock) n = Some r'
      /\ usage_count r' = (usage_count r + Z.of_nat (length clock))%Z
      /\ status r'
         = (if (status r =? "DRAFT") && (0 <? length clock)%nat
               && (3 <=? usage_count r + Z.of_nat (length clock))%Z
            then "PROMOTED" else status r)
      /\ (status r <> "DRAFT" -> promoted_date r' = promoted_date r).
Proof.
  induction clock as [|[t1 t2] clock IH]; intros c n r Hnd Hst Hv Hlow Hhigh.
  - exists r. cbn [increments fold_left length Nat.ltb Nat.leb].
    rewrite andb_false_r. cbn [andb]. repeat split; [exact Hst | lia].
  - rewrite increments_step. cbn [fst snd].
    destruct (increment_usage_stored c n t1 t2 r Hnd Hst) as [Hst1 Hnames].
    assert (Hu : usage_count (after_increment t1 t2 r) = (usage_count r + 1)%Z)
      by (unfold after_increment; destruct (validate _ && _ && _); reflexivity).
    cbn [length] in Hhigh. rewrite Nat2Z.inj_succ in Hhigh.
    destruct (IH _ n _ ltac:(now rewrite Hnames) Hst1 (validate_after_increment t1 t2 r Hv)
                ltac:(rewrite Hu; lia) ltac:(rewrite Hu; lia))
      as [r' [H1 [H2 [H3 H4]]]].
    exists r'. split; [exact H1|].
    assert (Hs : status (after_increment t1 t2 r)
                 = if (3 <=? usage_count r + 1)%Z && (status r =? "DRAFT")
                   then "PROMOTED" else status r).
    { unfold after_increment. rewrite validate_after_bump, Hv. cbn [andb].
      change (usage_count (set_last_used (Some t1)
                             (set_usage_count (usage_count r + 1)%Z r)))
        with (usage_count r + 1)%Z.
      change (status (set_last_used (Some t1) (set_usage_count (usage_count r + 1)%Z r)))
        with (status r).
      destruct ((3 <=? usage_count r + 1)%Z && (status r =? "DRAFT")); reflexivity. }
    assert (Hd : status r <> "DRAFT" ->
                 promoted_date (after_increment t1 t2 r) = promoted_date r).
    { intros Hnot. unfold after_increment.
      change (status (set_last_used (Some t1) (set_usage_count (usage_count r + 1)%Z r)))
        with (status r).
      apply String.eqb_neq in Hnot. rewrite Hnot, andb_false_r. reflexivity. }
    cbn [length]. rewrite Nat2Z.inj_succ. split; [rewrite H2, Hu; lia|].
    replace (0 <? S (length clock))%nat with true by reflexivity. rewrite andb_true_r.
    split.
    + rewrite H3, Hs, Hu.
      destruct (status r =? "DRAFT") eqn:Hdraft; cbn [andb].
      * destruct (3 <=? usage_count r + 1)%Z eqn:H31; cbn [andb].
        -- replace ("PROMOTED" =? "DRAFT") with false by reflexivity. cbn [andb].
           replace (3 <=? usage_count r + Z.succ (Z.of_nat (length clock)))%Z with true
             by (symmetry; apply Z.leb_le; apply Z.leb_le in H31; lia).
           reflexivity.
        -- rewrite Hdraft. cbn [andb].
           destruct (length clock) as [|k] eqn:Hk.
           ++ cbn [Nat.ltb Nat.leb andb Z.of_nat].
              replace (3 <=? usage_count r + Z.succ 0)%Z with false
                by (symmetry; apply Z.leb_gt; apply Z.leb_gt in H31; lia).
              reflexivity.
           ++ replace (0 <? S k)%nat with true by reflexivity. cbn [andb].
              replace (usage_count r + 1 + Z.of_nat (S k))%Z
                with (usage_count r + Z.succ (Z.of_nat (S k)))%Z by lia.
              reflexivity.
      * rewrite andb_false_r. rewrite Hdraft. reflexivity.
    + intros Hnot. rewrite H4.
      * now apply Hd.
      * rewrite Hs. pose proof Hnot as Hnot'. apply String.eqb_neq in Hnot'.
        rewrite Hnot', andb_false_r. exact Hnot.
Qed.

Lemma increments_count_witness :
  exists r',
    stored (increments [sample_view 1 "v_a" "fraud" "DRAFT" 1 10 ["transactions"]] "v_a"
              [(20, 21); (22, 23); (24, 25)]%Z) "v_a" = Some r'
    /\ usage_count r' = 4%Z /\ status r' = "PROMOTED".
Proof.
  destruct (increments_count [(20, 21); (22, 23); (24, 25)]%Z
              [sample_view 1 "v_a" "fraud" "DRAFT" 1 10 ["transactions"]] "v_a"
              (sample_view 1 "v_a" "fraud" "DRAFT" 1 10 ["transactions"]))
    as [r' [H1 [H2 [H3 _]]]].
  - constructor; [intros [] | constructor].
  - reflexivity.
  - reflexivity.
  - vm_compute. discriminate.
  - vm_compute. discriminate.
  - exists r'. split; [exact H1|]. split; [exact H2 | exact H3].
Defined.


(** *** Scans *)

Lemma insert_by_sorted {A : Type} (before : A -> A -> bool) (x : A) (l : list A) :
  (forall a b, before a b = true -> before b a = false) ->
  (forall a b d, before a d = true -> before a b = true \/ before b d = true) ->
  StronglySorted (fun a b => before b a = false) l ->
  StronglySorted (fun a b => before b a = false) (insert_by before x l).
Proof.
  intros Hasym Hneg. induction 1 as [|y l Hs IH Hall]; cbn [insert_by].
  - repeat constructor.
  - destruct (before y x) eqn:Hyx.
    + constructor; [exact IH|]. apply Forall_forall. intros z Hz.
      apply insert_by_in in Hz. destruct Hz as [->|Hz].
      * now apply Hasym.
      * rewrite Forall_forall in Hall. now apply Hall.
    + constructor; [now constructor|]. constructor; [exact Hyx|].
      apply Forall_forall. intros z Hz. rewrite Forall_forall in Hall.
      specialize (Hall z Hz). destruct (before z x) eqn:Hzx; [|reflexivity].
      destruct (Hneg z y x Hzx) as [H|H]; congruence.
Qed.

Lemma order_by_sorted {A : Type} (before : A -> A -> bool) (l : list A) :
  (forall a b, before a b = true -> before b a = false) ->
  (forall a b d, before a d = true -> before a b = true \/ before b d = true) ->
  StronglySorted (fun a b => before b a = false) (order_by before l).
Proof.
  intros Hasym Hneg. induction l as [|x l IH]; cbn [order_by fold_right].
  - constructor.
  - now apply insert_by_sorted.
Qed.

Lemma order_by_fixed {A : Type} (before : A -> A -> bool) (l : list A) :
  StronglySorted (fun a b => before b a = false) l -> order_by before l = l.
Proof.
  induction 1 as [|x l Hs IH Hall]; [reflexivity|].
  cbn [order_by fold_right]. fold (order_by before l). rewrite IH.
  destruct l as [|y l]; [reflexivity|]. cbn [insert_by].
  inversion Hall as [|? ? Hy _]. now rewrite Hy.
Qed.

Lemma date_gt_asym (a b : option timestamp) : date_gt a b = true -> date_gt b a = false.
Proof.
  destruct a, b; cbn; intros H; try reflexivity; try discriminate.
  apply Z.ltb_lt in H. apply Z.ltb_ge. lia.
Qed.

Lemma date_gt_neg_trans (a b d : option timestamp) :
  date_gt a d = true -> date_gt a b = true \/ date_gt b d = true.
Proof.
  destruct a as [x|], b as [y|], d as [z|]; cbn; intros H; try discriminate; auto.
  apply Z.ltb_lt in H. destruct (Z_lt_le_dec y x) as [Hyx|Hyx].
  - left. now apply Z.ltb_lt.
  - right. apply Z.ltb_lt. lia.
Qed.

Lemma catalog_before_asym (a b : ViewMetadata) :
  by_usage_then_created_desc a b = true -> by_usage_then_created_desc b a = false.
Proof.
  unfold by_usage_then_created_desc. intros H.
  apply orb_true_iff in H. apply orb_false_iff.
  destruct H as [H|H].
  - apply Z.ltb_lt in H. split; [apply Z.ltb_ge; lia|].
    apply andb_false_iff. left. apply Z.eqb_neq. lia.
  - apply andb_prop in H. destruct H as [He Hd]. apply Z.eqb_eq in He.
    split; [apply Z.ltb_ge; lia|]. apply andb_false_iff. right. now apply date_gt_asym.
Qed.

Lemma catalog_before_neg_trans (a b d : ViewMetadata) :
  by_usage_then_created_desc a d = true ->
  by_usage_then_created_desc a b = true \/ by_usage_then_created_desc b d = true.
Proof.
  unfold by_usage_then_created_desc. intros H. apply orb_true_iff in H.
  destruct (Z.compare_spec (usage_count a) (usage_count b)) as [Hab|Hab|Hab].
  - destruct H as [H|H].
    + right. apply orb_true_iff. left. apply Z.ltb_lt. apply Z.ltb_lt in H. lia.
    + apply andb_prop in H. destruct H as [He Hd]. apply Z.eqb_eq in He.
      destruct (date_gt_neg_trans _ (created_date b) _ Hd) as [H1|H1].
      * left. apply orb_true_iff. right. rewrite H1, andb_true_r. now apply Z.eqb_eq.
      * right. apply orb_true_iff. right. rewrite H1, andb_true_r. apply Z.eqb_eq. lia.
  - right. apply orb_true_iff. left. apply Z.ltb_lt.
    destruct H as [H|H]; [apply Z.ltb_lt in H; lia|].
    apply andb_prop in H. destruct H as [He _]. apply Z.eqb_eq in He. lia.
  - left. apply orb_true_iff. left. apply Z.ltb_lt. lia.
Qed.


Lemma layer_filter_selected (l : option Z) (v : ViewMetadata) :
  layer_filter l v = true <-> (forall z, l = Some z -> z <> 0%Z -> layer v = z).
Proof.
  unfold layer_filter, truthy_int. destruct l as [z|].
  - destruct (Z.eqb_spec z 0) as [->|Hz].
    + split; [intros _ z Hz Hne; inversion Hz; congruence | reflexivity].
    + rewrite Z.eqb_eq. split.
      * intros H z' Hz' _. inversion Hz'. now subst.
      * intros H. now apply H.
  - split; [intros _ z Hz; discriminate Hz | reflexivity].
Qed.


Lemma StronglySorted_weaken {A : Type} (R S : A -> A -> Prop) (l : list A) :
  (forall a b, R a b -> S a b) -> StronglySorted R l -> StronglySorted S l.
Proof.
  intros HRS. induction 1 as [|x l _ IH Hall]; constructor; [exact IH|].
  eapply Forall_impl; [|exact Hall]. intros a. apply HRS.
Qed.








(** *** Statistics *)

Lemma insert_by_length {A : Type} (before : A -> A -> bool) (x : A) (l : list A) :
  length (insert_by before x l) = S (length l).
Proof.
  induction l as [|y l IH]; cbn [insert_by]; [reflexivity|].
  destruct (before y x); cbn [length]; [now rewrite IH | reflexivity].
Qed.

Lemma insert_by_filter_length {A : Type} (before : A -> A -> bool) (p : A -> bool)
    (x : A) (l : list A) :
  length (filter p (insert_by before x l)) = length (filter p (x :: l)).
Proof.
  induction l as [|y l IH]; cbn [insert_by]; [reflexivity|].
  destruct (before y x); [|reflexivity].
  cbn [filter] in *. destruct (p y), (p x); cbn [length] in *; lia.
Qed.

Lemma order_by_filter_length {A : Type} (before : A -> A -> bool) (p : A -> bool)
    (l : list A) :
  length (filter p (order_by before l)) = length (filter p l).
Proof.
  induction l as [|x l IH]; [reflexivity|].
  cbn [order_by fold_right]. fold (order_by before l).
  rewrite insert_by_filter_length. cbn [filter]. destruct (p x); cbn [length]; lia.
Qed.

Lemma order_by_length {A : Type} (before : A -> A -> bool) (l : list A) :
  length (order_by before l) = length l.
Proof.
  induction l as [|x l IH]; [reflexivity|].
  cbn [order_by fold_right]. fold (order_by before l).
  rewrite insert_by_length. cbn [length]. lia.
Qed.

Lemma insert_by_total {A : Type} (before : A -> A -> bool) (w : A -> Z)
    (x : A) (l : list A) :
  fold_right (fun v t => (w v + t)%Z) 0%Z (insert_by before x l)
  = (w x + fold_right (fun v t => (w v + t)%Z) 0%Z l)%Z.
Proof.
  induction l as [|y l IH]; cbn [insert_by fold_right]; [reflexivity|].
  destruct (before y x); cbn [fold_right]; [rewrite IH; lia | reflexivity].
Qed.

Lemma order_by_total {A : Type} (before : A -> A -> bool) (w : A -> Z) (l : list A) :
  fold_right (fun v t => (w v + t)%Z) 0%Z (order_by before l)
  = fold_right (fun v t => (w v + t)%Z) 0%Z l.
Proof.
  induction l as [|x l IH]; [reflexivity|].
  cbn [order_by fold_right]. fold (order_by before l).
  now rewrite insert_by_total, IH.
Qed.

Lemma fold_left_total {A : Type} (w : A -> Z) (l : list A) (a : Z) :
  fold_left (fun t v => (t + w v)%Z) l a
  = (a + fold_right (fun v t => (w v + t)%Z) 0%Z l)%Z.
Proof.
  revert a. induction l as [|x l IH]; intros a; cbn [fold_left fold_right]; [lia|].
  rewrite IH. lia.
Qed.

Lemma count_key_of {K : Type} (eqb : K -> K -> bool) (k k' : K) (d : list (K * nat)) :
  (forall a b, eqb a b = true <-> a = b) ->
  count_of eqb k (count_key eqb k' d)
  = (count_of eqb k d + if eqb k' k then 1 else 0)%nat.
Proof.
  intros Heq. unfold count_of.
  induction d as [|[j n] d IH]; cbn [count_key find fst snd].
  - destruct (eqb k' k); cbn; reflexivity.
  - destruct (eqb j k') eqn:Hj; cbn [find fst snd].
    + apply Heq in Hj. subst j. destruct (eqb k' k); cbn [snd]; lia.
    + destruct (eqb j k) eqn:Hjk; cbn [snd].
      * assert (Hk : eqb k' k = false).
        { destruct (eqb k' k) eqn:Hk'; [|reflexivity].
          apply Heq in Hjk, Hk'. subst. rewrite (proj2 (Heq k k) eq_refl) in Hj.
          discriminate Hj. }
        rewrite Hk. lia.
      * exact IH.
Qed.

Lemma count_keys_of {K A : Type} (eqb : K -> K -> bool) (key : A -> K) (k : K)
    (l : list A) :
  (forall a b, eqb a b = true <-> a = b) ->
  forall d, count_of eqb k (fold_left (fun d v => count_key eqb (key v) d) l d)
            = (count_of eqb k d + length (filter (fun v => eqb (key v) k) l))%nat.
Proof.
  intros Heq. induction l as [|x l IH]; intros d; cbn [fold_left filter].
  - cbn. lia.
  - rewrite IH, (count_key_of eqb k (key x) d Heq).
    destruct (eqb (key x) k); cbn [length]; lia.
Qed.

Lemma max_by_usage_spec (others : list ViewMetadata) :
  forall first : ViewMetadata,
    In (max_by_usage first others) (first :: others)
    /\ (forall v, In v (first :: others) ->
                  (usage_count v <= usage_count (max_by_usage first others))%Z).
Proof.
  unfold max_by_usage.
  induction others as [|x others IH]; intros first; cbn [fold_left].
  - split; [now left | intros v [<-|[]]; lia].
  - destruct (usage_count first <? usage_count x)%Z eqn:Hlt.
    + apply Z.ltb_lt in Hlt. destruct (IH x) as [H1 H2]. split.
      * now right.
      * intros v [<-|Hv]; [|now apply H2].
        specialize (H2 x (or_introl eq_refl)). lia.
    + apply Z.ltb_ge in Hlt. destruct (IH first) as [H1 H2]. split.
      * destruct H1 as [H1|H1]; [now left | right; now right].
      * intros v [<-|[<-|Hv]].
        -- apply H2. now left.
        -- specialize (H2 first (or_introl eq_refl)). lia.
        -- apply H2. now right.
Qed.

Lemma filter_all {A : Type} (f : A -> bool) (l : list A) :
  (forall x, f x = true) -> filter f l = l.
Proof.
  intros H. induction l as [|a l IH]; cbn [filter]; [reflexivity|].
  now rewrite H, IH.
Qed.

Lemma get_all_views_all (c : Table) (vs : list ViewMetadata) :
  get_all_views c None None = Ok vs -> vs = order_by by_usage_then_created_desc c.
Proof.
  unfold get_all_views. intros H. apply mapM_from_db_row in H. subst vs.
  now rewrite filter_all.
Qed.

(** X7: the statistics count every row once: the total is the number of
    rows, each per-status, per-domain and per-layer count is the number of
    rows with that value, the total usage is the sum of the usage counts, and
    the most used view, absent only for an empty catalog, is a row that no
    other row exceeds. *)
Theorem get_statistics_counts (c : Table) (s : ViewStatistics) :
  get_statistics c = Ok s ->
  total_views s = length c
  /\ (forall k, count_of String.eqb k (by_status s)
                = length (filter (fun v => status v =? k) c))
  /\ (forall k, count_of String.eqb k (by_domain s)
                = length (filter (fun v => domain v =? k) c))
  /\ (forall k, count_of Z.eqb k (by_layer s)
                = length (filter (fun v => (layer v =? k)%Z) c))
  /\ total_usage s = fold_right (fun v t => (usage_count v + t)%Z) 0%Z c
  /\ (most_used s = None <-> c = [])
  /\ (forall v, most_used s = Some v ->
                In v c /\ forall r, In r c -> (usage_count r <= usage_count v)%Z).
Proof.
  unfold get_statistics. intros H.
  destruct (get_all_views c None None) as [vs|] eqn:Hall; [|discriminate H].
  cbn [bind] in H. inversion H; subst s; clear H.
  apply get_all_views_all in Hall.
  cbn [total_views by_status by_domain by_layer total_usage most_used].
  split; [subst vs; apply order_by_length|].
  split; [intros k; rewrite (count_keys_of String.eqb status k vs String.eqb_eq);
          subst vs; now rewrite order_by_filter_length|].
  split; [intros k; rewrite (count_keys_of String.eqb domain k vs String.eqb_eq);
          subst vs; now rewrite order_by_filter_length|].
  split; [intros k; rewrite (count_keys_of Z.eqb layer k vs Z.eqb_eq);
          subst vs; now rewrite order_by_filter_length|].
  split; [rewrite fold_left_total; subst vs; now rewrite order_by_total|].
  assert (Hlen : length vs = length c) by (subst vs; apply order_by_length).
  assert (Hin : forall v, In v vs <-> In v c)
    by (intros v; subst vs; apply order_by_in).
  split.
  - destruct vs as [|v vs']; destruct c as [|r c']; try discriminate Hlen;
      split; intros H; try reflexivity; discriminate H.
  - intros v Hv. destruct vs as [|v0 vs']; [discriminate Hv|].
    inversion Hv; subst v. destruct (max_by_usage_spec vs' v0) as [H1 H2]. split.
    + now apply Hin.
    + intros r Hr. apply H2. now apply Hin.
Qed.

Lemma get_statistics_counts_witness :
  exists s, get_statistics fraud_views = Ok s
            /\ total_views s = 3%nat
            /\ count_of String.eqb "DRAFT" (by_status s) = 2%nat.
Proof.
  destruct (get_statistics fraud_views) as [s|] eqn:Hs; [|vm_compute in Hs; discriminate Hs].
  destruct (get_statistics_counts fraud_views s Hs) as [H1 [H2 _]].
  exists s. split; [reflexivity|]. split; [exact H1 | exact (H2 "DRAFT")].
Defined.

(** *** Views over tables *)

Lemma StronglySorted_filter {A : Type} (R : A -> A -> Prop) (f : A -> bool) (l : list A) :
  StronglySorted R l -> StronglySorted R (filter f l).
Proof.
  induction 1 as [|x l _ IH Hall]; cbn [filter]; [constructor|].
  destruct (f x); [|exact IH]. constructor; [exact IH|].
  apply Forall_forall. intros y Hy. apply filter_In in Hy.
  rewrite Forall_forall in Hall. now apply Hall.
Qed.

Lemma uses_any_spec (table_names : list string) (view : ViewMetadata) :
  uses_any table_names view = true
  <-> exists t, In t table_names /\ In t (base_tables view).
Proof.
  unfold uses_any. rewrite existsb_exists.
  split; intros [t [H1 H2]]; exists t; (split; [exact H1|]); now apply mem_In.
Qed.

Lemma catalog_order_usage (a b : ViewMetadata) :
  catalog_order a b -> by_usage_desc b a = false.
Proof.
  unfold catalog_order, by_usage_then_created_desc, by_usage_desc.
  intros H. apply orb_false_iff in H. exact (proj1 H).
Qed.

Lemma get_all_views_sorted (c : Table) (vs : list ViewMetadata) :
  get_all_views c None None = Ok vs -> StronglySorted catalog_order vs.
Proof.
  intros H. apply get_all_views_all in H. subst vs.
  apply order_by_sorted; [exact catalog_before_asym | exact catalog_before_neg_trans].
Qed.

Lemma take_length {A : Type} (k : Z) (l : list A) :
  (0 <= k)%Z -> (Z.of_nat (length (take k l)) <= k)%Z.
Proof.
  intros Hk. unfold take. rewrite (proj2 (Z.leb_le 0 k) Hk).
  pose proof (firstn_le_length (Z.to_nat k) l). lia.
Qed.

Lemma firstn_in {A : Type} (n : nat) (l : list A) (x : A) : In x (firstn n l) -> In x l.
Proof.
  intros H. rewrite <- (firstn_skipn n l). apply in_or_app. now left.
Qed.

Lemma take_in {A : Type} (k : Z) (l : list A) (x : A) : In x (take k l) -> In x l.
Proof.
  unfold take. destruct (0 <=? k)%Z; apply firstn_in.
Qed.

(** X8: [search_by_tables] returns the leading [top_k] of
    [find_by_base_tables]: its second sort by usage count moves nothing,
    since the catalog scan already delivers the views most used first (and,
    among equals, newest first).  The views found are exactly the catalog
    rows that list one of the given tables, and for a non-negative [top_k]
    no more than [top_k] of them are returned. *)
Theorem search_by_tables_prefix (c : Table) (table_names : list string) (top_k : Z)
    (vs : list ViewMetadata) :
  search_by_tables c table_names top_k = Ok vs ->
  exists found,
    find_by_base_tables c table_names = Ok found
    /\ (forall v, In v found
                  <-> In v c /\ exists t, In t table_names /\ In t (base_tables v))
    /\ StronglySorted catalog_order found
    /\ vs = take top_k found
    /\ ((0 <= top_k)%Z -> (Z.of_nat (length vs) <= top_k)%Z).
Proof.
  unfold search_by_tables, find_by_base_tables. intros H.
  destruct (get_all_views c None None) as [all_views|] eqn:Hall; [|discriminate H].
  cbn [bind] in H |- *. inversion H as [Hvs]; clear H.
  pose proof (get_all_views_sorted c all_views Hall) as Hsorted.
  assert (Hfound : StronglySorted catalog_order (filter (uses_any table_names) all_views))
    by now apply StronglySorted_filter.
  exists (filter (uses_any table_names) all_views).
  split; [reflexivity|]. split; [|split; [exact Hfound|]].
  - intros v. rewrite filter_In, uses_any_spec.
    apply get_all_views_all in Hall. subst all_views. now rewrite order_by_in.
  - rewrite order_by_fixed.
    + split; [reflexivity | intros Hk; now apply take_length].
    + eapply StronglySorted_weaken; [|exact Hfound]. exact catalog_order_usage.
Qed.

Lemma search_by_tables_prefix_witness :
  exists found,
    find_by_base_tables fraud_views ["transactions"] = Ok found
    /\ Ok (take 1 found) = search_by_tables fraud_views ["transactions"] 1.
Proof.
  destruct (search_by_tables fraud_views ["transactions"] 1) as [vs|] eqn:Hvs;
    [|vm_compute in Hvs; discriminate Hvs].
  destruct (search_by_tables_prefix fraud_views ["transactions"] 1 vs Hvs)
    as [found [H1 [_ [_ [H2 _]]]]].
  exists found. split; [exact H1 | now rewrite H2].
Defined.

(** *** Lineage *)

Lemma find_by_name_some (c : Table) (n : string) (v : ViewMetadata) :
  find_by_name c n = Ok (Some v) -> In v c /\ view_name v = n.
Proof.
  unfold find_by_name. intros H.
  destruct (filter (name_is n) c) as [|row rest] eqn:Hf; [discriminate H|].
  unfold from_db_row in H. destruct (validate row); [|discriminate H].
  cbn [bind] in H. inversion H; subst v.
  destruct (filter_head_in _ _ _ _ Hf) as [Hin Hn]. split; [exact Hin|].
  now apply name_is_true.
Qed.

Lemma find_by_name_none (c : Table) (n : string) :
  find_by_name c n = Ok None <-> forall r, In r c -> view_name r <> n.
Proof.
  split; [|apply find_by_name_absent].
  unfold find_by_name. intros H r Hr Hn.
  destruct (filter (name_is n) c) as [|row rest] eqn:Hf.
  - assert (Hin : In r (filter (name_is n) c))
      by (apply filter_In; split; [exact Hr | now apply name_is_true]).
    rewrite Hf in Hin. destruct Hin.
  - unfold from_db_row in H. destruct (validate row); discriminate H.
Qed.

Lemma resolve_in (c : Table) (names : list string) (vs : list ViewMetadata) :
  resolve c names = Ok vs ->
  forall v, In v vs -> In v c /\ In (view_name v) names.
Proof.
  revert vs. induction names as [|n names IH]; cbn [resolve]; intros vs H v Hv.
  - inversion H; subst vs. destruct Hv.
  - destruct (find_by_name c n) as [found|] eqn:Hn; [|discriminate H].
    cbn [bind] in H. destruct (resolve c names) as [rest|]; [|discriminate H].
    cbn [bind] in H. inversion H; subst vs; clear H.
    destruct found as [w|].
    + destruct Hv as [<-|Hv].
      * destruct (find_by_name_some c n w Hn) as [Hin Hw]. split; [exact Hin|].
        left. now symmetry.
      * destruct (IH rest eq_refl v Hv) as [H1 H2]. split; [exact H1 | now right].
    + destruct (IH rest eq_refl v Hv) as [H1 H2]. split; [exact H1 | now right].
Qed.

Lemma mem_cons (s x : string) (l : list string) :
  mem s (x :: l) = String.eqb s x || mem s l.
Proof. reflexivity. Qed.

Lemma unvisited_le (c : Table) (visited : list string) (n : string) :
  (length (filter (fun r => negb (mem (view_name r) (n :: visited))) c)
   <= length (filter (fun r => negb (mem (view_name r) visited)) c))%nat.
Proof.
  induction c as [|r c IH]; cbn [filter]; [lia|].
  rewrite mem_cons.
  destruct (String.eqb (view_name r) n), (mem (view_name r) visited);
    cbn [negb orb length]; lia.
Qed.

Lemma unvisited_shrinks (c : Table) (visited : list string) (v : ViewMetadata) :
  In v c -> mem (view_name v) visited = false ->
  (length (filter (fun r => negb (mem (view_name r) (view_name v :: visited))) c)
   < length (filter (fun r => negb (mem (view_name r) visited)) c))%nat.
Proof.
  intros Hin Hv. induction c as [|r c IH]; [destruct Hin|].
  pose proof (unvisited_le c visited (view_name v)) as Hle.
  cbn [filter]. rewrite mem_cons.
  destruct Hin as [->|Hin].
  - rewrite String.eqb_refl, Hv. cbn [negb orb length]. lia.
  - specialize (IH Hin).
    destruct (String.eqb (view_name r) (view_name v)), (mem (view_name r) visited);
      cbn [negb orb length]; lia.
Qed.

Lemma calculate_depth_bound (c : Table) (fuel : nat) :
  forall (view : ViewMetadata) (visited : list string),
    In view c ->
    (length (filter (fun r => negb (mem (view_name r) visited)) c) < fuel)%nat ->
    exists r, calculate_depth fuel c view visited = Some r
              /\ forall d, r = Ok d ->
                           (0 <= d
                            <= Z.of_nat (length (filter (fun r => negb (mem (view_name r) visited)) c)))%Z.
Proof.
  induction fuel as [|fuel IH]; intros view visited Hin Hfuel; [lia|].
  cbn [calculate_depth].
  destruct (mem (view_name view) visited) eqn:Hv.
  - eexists. split; [reflexivity|]. intros d Hd. inversion Hd. lia.
  - pose proof (unvisited_shrinks c visited view Hin Hv) as Hshrink.
    set (m := length (filter (fun r => negb (mem (view_name r) visited)) c)) in *.
    set (m' := length (filter (fun r => negb (mem (view_name r) (view_name view :: visited))) c)) in *.
    assert (Hacc : exists r, Some (Ok 0%Z) = Some r
                             /\ forall d, r = Ok d -> (0 <= d <= Z.of_nat m)%Z).
    { eexists. split; [reflexivity|]. intros d Hd. inversion Hd. lia. }
    revert Hacc. generalize (Some (Ok 0%Z) : option (result Z)).
    induction (depends_on_views view) as [|dep deps IHd]; intros acc Hacc;
      cbn [fold_left]; [exact Hacc|].
    apply IHd. destruct Hacc as [r [-> Hr]].
    destruct r as [max_depth|e]; [|eexists; split; [reflexivity | exact Hr]].
    destruct (find_by_name c dep) as [[dep_view|]|e] eqn:Hdep.
    + destruct (find_by_name_some c dep dep_view Hdep) as [Hdin _].
      destruct (IH dep_view (view_name view :: visited) Hdin) as [r [Hcalc Hbound]];
        [fold m'; lia|].
      rewrite Hcalc. destruct r as [depth|e].
      * eexists. split; [reflexivity|]. intros d Hd. inversion Hd; subst d.
        specialize (Hbound depth eq_refl). specialize (Hr max_depth eq_refl).
        fold m' in Hbound. lia.
      * eexists. split; [reflexivity|]. intros d Hd. discriminate Hd.
    + eexists. split; [reflexivity | exact Hr].
    + eexists. split; [reflexivity|]. intros d Hd. discriminate Hd.
Qed.

(** X9: [get_view_lineage] always returns, whatever cycles the dependency
    lists contain: the guard on visited names bounds the recursion of
    [_calculate_depth] by the number of rows.  An unknown name gives the
    empty answer; otherwise the answer carries the row of that name, a depth
    between 0 and the number of rows, and as upstream and downstream views
    only catalog rows named in the row's dependency lists. *)
Theorem get_view_lineage_returns (c : Table) (n : string) :
  exists r,
    get_view_lineage c n = Some r
    /\ (r = Ok None <-> forall row, In row c -> view_name row <> n)
    /\ forall l, r = Ok (Some l) ->
         In (lineage_view l) c
         /\ view_name (lineage_view l) = n
         /\ lineage_base_tables l = base_tables (lineage_view l)
         /\ (0 <= total_depth l <= Z.of_nat (length c))%Z
         /\ (forall u, In u (upstream_views l) ->
                       In u c /\ In (view_name u) (depends_on_views (lineage_view l)))
         /\ (forall u, In u (downstream_views l) ->
                       In u c /\ In (view_name u) (used_by_views (lineage_view l))).
Proof.
  unfold get_view_lineage.
  destruct (find_by_name c n) as [[view|]|e] eqn:Hn.
  - destruct (find_by_name_some c n view Hn) as [Hin Hname].
    assert (Hsome : ~ forall row, In row c -> view_name row <> n)
      by (intros H; now apply (H view Hin)).
    destruct (resolve c (depends_on_views view)) as [upstream|e] eqn:Hup.
    2:{ eexists. split; [reflexivity|]. split; [|intros l Hl; discriminate Hl].
        split; [intros H; discriminate H | intros H; now contradiction Hsome]. }
    destruct (resolve c (used_by_views view)) as [downstream|e] eqn:Hdown.
    2:{ eexists. split; [reflexivity|]. split; [|intros l Hl; discriminate Hl].
        split; [intros H; discriminate H | intros H; now contradiction Hsome]. }
    destruct (calculate_depth_bound c (S (length c)) view [] Hin) as [r [Hcalc Hbound]].
    { rewrite filter_all by reflexivity. lia. }
    rewrite Hcalc. rewrite filter_all in Hbound by reflexivity.
    destruct r as [depth|e].
    + eexists. split; [reflexivity|]. split.
      * split; [intros H; discriminate H | intros H; now contradiction Hsome].
      * intros l Hl. inversion Hl; subst l; clear Hl.
        cbn [lineage_view lineage_base_tables total_depth upstream_views downstream_views].
        split; [exact Hin|]. split; [exact Hname|]. split; [reflexivity|].
        split; [now apply Hbound|].
        split; [exact (resolve_in c _ upstream Hup) | exact (resolve_in c _ downstream Hdown)].
    + eexists. split; [reflexivity|]. split; [|intros l Hl; discriminate Hl].
      split; [intros H; discriminate H | intros H; now contradiction Hsome].
  - eexists. split; [reflexivity|]. split; [|intros l Hl; discriminate Hl].
    split; [intros _; now apply find_by_name_none | reflexivity].
  - eexists. split; [reflexivity|]. split; [|intros l Hl; discriminate Hl].
    split; [intros H; discriminate H|].
    intros H. apply find_by_name_none in H. rewrite H in Hn. discriminate Hn.
Qed.

(** *** Scans by domain *)



(** ** The schema graph, further *)

Lemma add_node_in_noop (ns : NodeList) (n : string) :
  In n (node_names ns) -> add_node_in ns n no_node_attrs = ns.
Proof.
  induction ns as [|[m b] ns IH]; cbn [node_names map fst add_node_in]; intros Hin.
  - destruct Hin.
  - destruct (String.eqb_spec m n) as [->|Hne].
    + destruct b. reflexivity.
    + f_equal. apply IH. destruct Hin as [Hin|Hin]; [contradiction | exact Hin].
Qed.

Lemma add_node_in_entry (ns : NodeList) (n m : string) (a b : NodeAttrs) :
  In (m, b) (add_node_in ns n a) ->
  In (m, b) ns
  \/ (m = n /\ (b = a \/ exists b0, In (n, b0) ns /\ b = update_node b0 a)).
Proof.
  induction ns as [|[k c] ns IH]; cbn [add_node_in]; intros Hin.
  - destruct Hin as [Hin|[]]. inversion Hin. right. split; [reflexivity | now left].
  - destruct (String.eqb_spec k n) as [->|Hne].
    + destruct Hin as [Hin|Hin].
      * inversion Hin. right. split; [reflexivity|]. right. exists c.
        split; [now left | reflexivity].
      * left. now right.
    + destruct Hin as [Hin|Hin]; [left; now left|].
      destruct (IH Hin) as [H|[Hm [H|[b0 [H1 H2]]]]].
      * left. now right.
      * right. split; [exact Hm | now left].
      * right. split; [exact Hm|]. right. exists b0. split; [now right | exact H2].
Qed.

Lemma node_attrs_in (ns : NodeList) (n : string) (a : NodeAttrs) :
  node_attrs ns n = Some a -> In (n, a) ns.
Proof.
  unfold node_attrs. intros H.
  destruct (find (fun p => String.eqb (fst p) n) ns) as [[m b]|] eqn:Hf; [|discriminate H].
  cbn [option_map snd] in H. inversion H; subst b.
  apply find_some in Hf. destruct Hf as [Hin Hm]. cbn [fst] in Hm.
  apply String.eqb_eq in Hm. now subst m.
Qed.

Lemma node_attrs_some (ns : NodeList) (n : string) :
  In n (node_names ns) -> exists a, node_attrs ns n = Some a.
Proof.
  unfold node_attrs, node_names. intros Hin. apply in_map_iff in Hin.
  destruct Hin as [[m b] [Hm Hin]]. cbn [fst] in Hm. subst m.
  destruct (find (fun p => String.eqb (fst p) n) ns) as [p|] eqn:Hf.
  - exists (snd p). reflexivity.
  - exfalso. pose proof (find_none _ _ Hf (n, b) Hin) as H. cbn [fst] in H.
    now rewrite String.eqb_refl in H.
Qed.

Lemma add_tables_names (f : TableMeta -> NodeAttrs) (l : Database) :
  forall (g : DiGraph) (n : string),
    In n (node_names (d_nodes (fold_left (fun g t => d_add_node g (t_name t) (f t)) l g)))
    <-> In n (node_names (d_nodes g)) \/ exists t, In t l /\ t_name t = n.
Proof.
  induction l as [|t l IH]; intros g n; cbn [fold_left].
  - split; [now left | intros [H|[t [[] _]]]; exact H].
  - rewrite IH. unfold d_add_node at 1. cbn [d_nodes]. rewrite add_node_in_names. split.
    + intros [[H|H]|[t' [H1 H2]]].
      * now left.
      * right. exists t. split; [now left | now symmetry].
      * right. exists t'. split; [now right | exact H2].
    + intros [H|[t' [[<-|H1] H2]]].
      * left. now left.
      * left. right. now symmetry.
      * right. exists t'. split; assumption.
Qed.

Lemma add_tables_edges (f : TableMeta -> NodeAttrs) (l : Database) :
  forall g : DiGraph,
    d_edges (fold_left (fun g t => d_add_node g (t_name t) (f t)) l g) = d_edges g.
Proof.
  induction l as [|t l IH]; intros g; cbn [fold_left]; [reflexivity|].
  now rewrite IH.
Qed.

Lemma add_tables_counted (db : Database) (f : TableMeta -> NodeAttrs) (l : Database) :
  (forall t b0, describes t (update_node b0 (f t)) /\ describes t (f t)) ->
  incl l db ->
  forall g : DiGraph,
    counted db (d_nodes g) ->
    counted db (d_nodes (fold_left (fun g t => d_add_node g (t_name t) (f t)) l g)).
Proof.
  intros Hf. induction l as [|t l IH]; intros Hincl g Hg; cbn [fold_left]; [exact Hg|].
  apply IH; [intros x Hx; apply Hincl; now right|].
  intros n a Hin. unfold d_add_node in Hin. cbn [d_nodes] in Hin.
  apply add_node_in_entry in Hin.
  assert (Ht : In t db) by (apply Hincl; now left).
  destruct Hin as [Hin|[-> [->|[b0 [_ ->]]]]].
  - now apply Hg.
  - exists t. split; [exact Ht|]. split; [reflexivity | apply (Hf t no_node_attrs)].
  - exists t. split; [exact Ht|]. split; [reflexivity | apply Hf].
Qed.

Lemma row_count_of_counted (db : Database) (g : DiGraph) (n : string) :
  counted db (d_nodes g) -> In n (node_names (d_nodes g)) ->
  exists t, In t db /\ t_name t = n /\ row_count_of g n = Ok (t_row_count t).
Proof.
  intros Hc Hin. destruct (node_attrs_some _ _ Hin) as [a Ha].
  destruct (Hc n a (node_attrs_in _ _ _ Ha)) as [t [H1 [H2 [_ [H3 _]]]]].
  exists t. split; [exact H1|]. split; [exact H2|].
  unfold row_count_of. now rewrite Ha, H3.
Qed.

Lemma row_count_of_node (g : DiGraph) (n : string) (r : Z) :
  row_count_of g n = Ok r -> In n (node_names (d_nodes g)).
Proof.
  unfold row_count_of. intros H.
  destruct (node_attrs (d_nodes g) n) as [a|] eqn:Ha; [|discriminate H].
  apply node_attrs_in in Ha. unfold node_names. apply in_map_iff.
  exists (n, a). split; [reflexivity | exact Ha].
Qed.

Lemma fold_left_max_ge (l : list Z) :
  forall r : Z, (r <= fold_left Z.max l r)%Z
                /\ forall x, In x l -> (x <= fold_left Z.max l r)%Z.
Proof.
  induction l as [|y l IH]; intros r; cbn [fold_left].
  - split; [lia | intros x []].
  - destruct (IH (Z.max r y)) as [H1 H2]. split; [lia|].
    intros x [<-|Hx]; [lia | now apply H2].
Qed.

Lemma fold_left_max_in (l : list Z) :
  forall r : Z, fold_left Z.max l r = r \/ In (fold_left Z.max l r) l.
Proof.
  induction l as [|y l IH]; intros r; cbn [fold_left]; [now left|].
  destruct (IH (Z.max r y)) as [H|H].
  - rewrite H. destruct (Z.max_spec r y) as [[_ ->]|[_ ->]]; [right; now left | now left].
  - right. now right.
Qed.

Lemma max_rows_counted (db : Database) (g : DiGraph) :
  counted db (d_nodes g) ->
  exists most,
    max_rows g = Ok most
    /\ (forall n r, row_count_of g n = Ok r -> (r <= most)%Z)
    /\ (most = 0%Z \/ exists t, In t db /\ t_row_count t = most).
Proof.
  intros Hc. unfold max_rows.
  assert (Hall : forall ns, incl ns (node_names (d_nodes g)) ->
            exists rs, mapM (row_count_of g) ns = Ok rs
                       /\ (forall n r, In n ns -> row_count_of g n = Ok r -> In r rs)
                       /\ (forall r, In r rs -> exists t, In t db /\ t_row_count t = r)).
  { induction ns as [|n ns IH]; intros Hincl.
    - exists []. split; [reflexivity|]. split; [intros n r [] | intros r []].
    - destruct (row_count_of_counted db g n Hc (Hincl n (or_introl eq_refl)))
        as [t [Ht [Hn Hr]]].
      destruct IH as [rs [H1 [H2 H3]]]; [intros x Hx; apply Hincl; now right|].
      exists (t_row_count t :: rs). cbn [mapM]. rewrite Hr, H1. cbn [bind].
      split; [reflexivity|]. split.
      + intros m r [<-|Hm] Hmr.
        * rewrite Hr in Hmr. inversion Hmr. now left.
        * right. now apply (H2 m).
      + intros r [<-|Hr']; [exists t; now split | now apply H3]. }
  destruct (Hall (node_names (d_nodes g)) (incl_refl _)) as [rs [H1 [H2 H3]]].
  rewrite H1. cbn [bind]. eexists. split; [reflexivity|]. split.
  - intros n r Hr. pose proof (H2 n r (row_count_of_node g n r Hr) Hr) as Hin.
    destruct rs as [|r0 rs]; [destruct Hin|].
    destruct (fold_left_max_ge rs r0) as [G1 G2].
    destruct Hin as [<-|Hin]; [exact G1 | now apply G2].
  - destruct rs as [|r0 rs]; [now left|]. right.
    destruct (fold_left_max_in rs r0) as [H|H].
    + rewrite H. apply H3. now left.
    + apply H3. now right.
Qed.

Lemma fk_weight_bounds (from_rows to_rows most : Z) :
  (0 <= from_rows <= most)%Z -> (0 <= to_rows <= most)%Z ->
  0 <= fk_weight from_rows to_rows most /\ fk_weight from_rows to_rows most <= 1.
Proof.
  intros Hf Ht. unfold fk_weight. destruct (0 <? most)%Z eqn:Hm.
  - apply Z.ltb_lt in Hm.
    assert (Hpos : 0 < inject_Z (2 * most))
      by (change 0 with (inject_Z 0); rewrite <- Zlt_Qlt; lia).
    split.
    + apply Qle_shift_div_l; [exact Hpos|]. rewrite Qmult_0_l.
      change 0 with (inject_Z 0). rewrite <- Zle_Qle. lia.
    + apply Qle_shift_div_r; [exact Hpos|]. rewrite Qmult_1_l.
      rewrite <- Zle_Qle. lia.
  - split; [discriminate | apply Qle_refl].
Qed.

Lemma add_edge_in_entry (es : EdgeList) (u v x y : string) (a b : EdgeAttrs) :
  In (x, y, b) (add_edge_in same_arc es u v a) ->
  In (x, y, b) es
  \/ (x = u /\ y = v /\ (b = a \/ exists b0, In (u, v, b0) es /\ b = update_edge b0 a)).
Proof.
  induction es as [|[[p q] c] es IH]; cbn [add_edge_in]; intros Hin.
  - destruct Hin as [Hin|[]]. inversion Hin. right. split; [reflexivity|].
    split; [reflexivity | now left].
  - destruct (same_arc p q u v) eqn:Hsame.
    + unfold same_arc in Hsame. apply andb_prop in Hsame. destruct Hsame as [Hp Hq].
      apply String.eqb_eq in Hp, Hq. subst p q.
      destruct Hin as [Hin|Hin].
      * inversion Hin. right. split; [reflexivity|]. split; [reflexivity|].
        right. exists c. split; [now left | reflexivity].
      * left. now right.
    + destruct Hin as [Hin|Hin]; [left; now left|].
      destruct (IH Hin) as [H|[Hx [Hy [H|[b0 [H1 H2]]]]]].
      * left. now right.
      * right. split; [exact Hx|]. split; [exact Hy | now left].
      * right. split; [exact Hx|]. split; [exact Hy|]. right. exists b0.
        split; [now right | exact H2].
Qed.

Lemma d_has_edge_in (g : DiGraph) (u v : string) :
  d_has_edge g u v = true <-> exists b, In (u, v, b) (d_edges g).
Proof.
  unfold d_has_edge, d_edge, edge_attrs_in. split.
  - destruct (find _ (d_edges g)) as [[[x y] b]|] eqn:Hf; [|discriminate].
    intros _. apply find_some in Hf. destruct Hf as [Hin Hs]. cbn [fst snd] in Hs.
    unfold same_arc in Hs. apply andb_prop in Hs. destruct Hs as [Hx Hy].
    apply String.eqb_eq in Hx, Hy. subst x y. now exists b.
  - intros [b Hin].
    destruct (find (fun e => same_arc (fst (fst e)) (snd (fst e)) u v) (d_edges g))
      as [e|] eqn:Hf; [reflexivity|].
    pose proof (find_none _ _ Hf (u, v, b) Hin) as H. cbn [fst snd] in H.
    unfold same_arc in H. now rewrite !String.eqb_refl in H.
Qed.

Lemma d_edge_in (g : DiGraph) (u v : string) (a : EdgeAttrs) :
  d_edge g u v = Some a -> In (u, v, a) (d_edges g).
Proof.
  unfold d_edge, edge_attrs_in. intros H.
  destruct (find _ (d_edges g)) as [[[x y] b]|] eqn:Hf; [|discriminate H].
  cbn [option_map snd] in H. inversion H; subst b.
  apply find_some in Hf. destruct Hf as [Hin Hs]. cbn [fst snd] in Hs.
  unfold same_arc in Hs. apply andb_prop in Hs. destruct Hs as [Hx Hy].
  apply String.eqb_eq in Hx, Hy. now subst x y.
Qed.

Lemma add_edge_in_has (es : EdgeList) (u v : string) (a : EdgeAttrs) :
  exists b, In (u, v, b) (add_edge_in same_arc es u v a).
Proof.
  induction es as [|[[p q] c] es IH]; cbn [add_edge_in].
  - exists a. now left.
  - destruct (same_arc p q u v) eqn:Hsame.
    + unfold same_arc in Hsame. apply andb_prop in Hsame. destruct Hsame as [Hp Hq].
      apply String.eqb_eq in Hp, Hq. subst p q. eexists. now left.
    + destruct IH as [b Hb]. exists b. now right.
Qed.

Lemma add_edge_in_keeps (es : EdgeList) (u v x y : string) (a b : EdgeAttrs) :
  In (x, y, b) es -> exists b', In (x, y, b') (add_edge_in same_arc es u v a).
Proof.
  induction es as [|[[p q] c] es IH]; cbn [add_edge_in]; intros Hin; [destruct Hin|].
  destruct (same_arc p q u v).
  - destruct Hin as [Hin|Hin].
    + inversion Hin; subst. eexists. now left.
    + exists b. now right.
  - destruct Hin as [Hin|Hin].
    + exists b. now left.
    + destruct (IH Hin) as [b' Hb']. exists b'. now right.
Qed.

(** One foreign key added to a graph whose nodes carry row counts. *)
Lemma add_foreign_key_step (db : Database) (g g' : DiGraph) (u : string) (fk : ForeignKey) :
  counted db (d_nodes g) ->
  add_foreign_key g u fk = Ok g' ->
  In u (node_names (d_nodes g))
  /\ In (fk_table fk) (node_names (d_nodes g))
  /\ d_nodes g' = d_nodes g
  /\ exists a,
       d_edges g' = add_edge_in same_arc (d_edges g) u (fk_table fk) a
       /\ e_type a = Some "fk"
       /\ e_from_column a = Some (fk_from fk) /\ e_to_column a = Some (fk_to fk)
       /\ exists w, e_weight a = Some w
                    /\ (counts_rows db -> 0 <= w /\ w <= 1).
Proof.
  intros Hc H. unfold add_foreign_key in H.
  destruct (row_count_of g u) as [from_rows|] eqn:Hfrom; [|discriminate H].
  destruct (row_count_of g (fk_table fk)) as [to_rows|] eqn:Hto; [|discriminate H].
  destruct (max_rows_counted db g Hc) as [most [Hmost [Hle _]]].
  rewrite Hmost in H. cbn [bind] in H. inversion H; subst g'; clear H.
  pose proof (row_count_of_node g _ _ Hfrom) as Hu.
  pose proof (row_count_of_node g _ _ Hto) as Hv.
  split; [exact Hu|]. split; [exact Hv|]. split.
  - unfold d_add_edge. cbn [d_nodes].
    rewrite (add_node_in_noop (d_nodes g) u Hu). now apply add_node_in_noop.
  - eexists. split; [reflexivity|]. cbn [e_type e_from_column e_to_column e_weight].
    split; [reflexivity|]. split; [reflexivity|]. split; [reflexivity|].
    eexists. split; [reflexivity|]. intros Hpos.
    destruct (row_count_of_counted db g u Hc Hu) as [t1 [Ht1 [_ Hr1]]].
    destruct (row_count_of_counted db g (fk_table fk) Hc Hv) as [t2 [Ht2 [_ Hr2]]].
    rewrite Hfrom in Hr1. rewrite Hto in Hr2.
    injection Hr1 as E1. injection Hr2 as E2.
    apply fk_weight_bounds.
    + split; [rewrite E1; now apply Hpos | now apply (Hle u)].
    + split; [rewrite E2; now apply Hpos | now apply (Hle (fk_table fk))].
Qed.

Lemma foldM_invariant_in {A B : Type} (P : B -> Prop) (f : B -> A -> result B)
    (l : list A) :
  (forall b a b', In a l -> P b -> f b a = Ok b' -> P b') ->
  forall b b', P b -> foldM f l b = Ok b' -> P b'.
Proof.
  induction l as [|a l IH]; intros Hstep b b' Hb H; cbn [foldM] in H.
  - inversion H. now subst.
  - destruct (f b a) as [b1|] eqn:Hf; [|discriminate H]. cbn [bind] in H.
    apply (IH (fun b a b' Ha => Hstep b a b' (or_intror Ha)) b1 b'); [|exact H].
    apply (Hstep b a b1); [now left | exact Hb | exact Hf].
Qed.

Lemma foldM_progress {A B : Type} (P : B -> Prop) (f : B -> A -> result B) (l : list A) :
  (forall b a, In a l -> P b -> exists b', f b a = Ok b' /\ P b') ->
  forall b, P b -> exists b', foldM f l b = Ok b' /\ P b'.
Proof.
  induction l as [|a l IH]; intros Hstep b Hb; cbn [foldM].
  - exists b. split; [reflexivity | exact Hb].
  - destruct (Hstep b a (or_introl eq_refl) Hb) as [b1 [Hf Hb1]].
    rewrite Hf. cbn [bind].
    apply IH; [|exact Hb1]. intros b0 a0 Ha0. apply Hstep. now right.
Qed.

Lemma foldM_establishes {A B : Type} (P : B -> Prop) (R : A -> B -> Prop)
    (f : B -> A -> result B) (l : list A) :
  (forall b a b', In a l -> P b -> f b a = Ok b' -> P b' /\ R a b') ->
  (forall a0 b a b', In a l -> P b -> R a0 b -> f b a = Ok b' -> R a0 b') ->
  forall b b', P b -> foldM f l b = Ok b' -> forall a, In a l -> R a b'.
Proof.
  induction l as [|a l IH]; intros Hstep Hkeep b b' Hb H x Hx; [destruct Hx|].
  cbn [foldM] in H. destruct (f b a) as [b1|] eqn:Hf; [|discriminate H].
  cbn [bind] in H.
  destruct (Hstep b a b1 (or_introl eq_refl) Hb Hf) as [Hb1 Ha].
  assert (Hstep' : forall b a b', In a l -> P b -> f b a = Ok b' -> P b' /\ R a b')
    by (intros b0 a0 b0' Ha0; apply Hstep; now right).
  assert (Hkeep' : forall a0 b a b', In a l -> P b -> R a0 b -> f b a = Ok b' -> R a0 b')
    by (intros a1 b0 a0 b0' Ha0; apply Hkeep; now right).
  destruct Hx as [<-|Hx].
  - revert H. apply (foldM_invariant_in (fun b => P b /\ R a b)); [|now split].
    intros b0 a0 b0' Ha0 [HP HR] Hf0. split.
    + now apply (Hstep' b0 a0 b0' Ha0 HP Hf0).
    + now apply (Hkeep' a b0 a0 b0' Ha0 HP HR Hf0).
  - now apply (IH Hstep' Hkeep' b1 b' Hb1 H x Hx).
Qed.

(** What holds of the graph while the foreign keys are added. *)
Lemma add_foreign_key_invariant (db : Database) (ns : NodeList) (g g' : DiGraph)
    (t : TableMeta) (fk : ForeignKey) :
  In t db -> In fk (t_foreign_keys t) ->
  counted db ns ->
  d_nodes g = ns
  /\ (forall x y b, In (x, y, b) (d_edges g) ->
                    references db x y
                    /\ e_type b = Some "fk"
                    /\ exists w, e_weight b = Some w /\ (counts_rows db -> 0 <= w /\ w <= 1)) ->
  add_foreign_key g (t_name t) fk = Ok g' ->
  (d_nodes g' = ns
   /\ (forall x y b, In (x, y, b) (d_edges g') ->
                     references db x y
                     /\ e_type b = Some "fk"
                     /\ exists w, e_weight b = Some w
                                  /\ (counts_rows db -> 0 <= w /\ w <= 1)))
  /\ d_has_edge g' (t_name t) (fk_table fk) = true
  /\ (forall x y, d_has_edge g x y = true -> d_has_edge g' x y = true).
Proof.
  intros Ht Hfk Hc [Hns Hedges] H. subst ns.
  destruct (add_foreign_key_step db g g' (t_name t) fk Hc H)
    as [_ [_ [Hnodes [a [Hes [Htype [_ [_ [w [Hw Hbound]]]]]]]]]].
  split; [split; [exact Hnodes|]|split].
  - intros x y b Hin. rewrite Hes in Hin. apply add_edge_in_entry in Hin.
    destruct Hin as [Hin|[-> [-> [->|[b0 [_ ->]]]]]].
    + now apply Hedges.
    + split; [now exists t, fk|]. split; [exact Htype|]. now exists w.
    + split; [now exists t, fk|]. unfold update_edge. cbn [e_type e_weight].
      rewrite Htype, Hw. cbn [upd]. split; [reflexivity|]. now exists w.
  - apply d_has_edge_in. rewrite Hes. apply add_edge_in_has.
  - intros x y Hxy. apply d_has_edge_in in Hxy. destruct Hxy as [b Hb].
    apply d_has_edge_in. rewrite Hes. now apply (add_edge_in_keeps _ _ _ _ _ _ b).
Qed.

(** The graph [build_from_database] returns, in full. *)
Lemma build_from_database_graph (db : Database) (g : DiGraph) :
  build_from_database db = Ok g ->
  (forall n, In n (node_names (d_nodes g)) <-> is_table db n)
  /\ counted db (d_nodes g)
  /\ (forall x y b, In (x, y, b) (d_edges g) ->
                    references db x y
                    /\ e_type b = Some "fk"
                    /\ exists w, e_weight b = Some w /\ (counts_rows db -> 0 <= w /\ w <= 1))
  /\ (forall u v, references db u v -> d_has_edge g u v = true).
Proof.
  unfold build_from_database. cbv zeta.
  set (f := fun t => mkNode (Some "table") (Some (t_row_count t)) (Some (t_columns t))
                       (Some (Z.of_nat (length (t_columns t)))) None None None None).
  set (with_nodes := fold_left (fun g t => d_add_node g (t_name t) (f t)) db
                       (mkDiGraph [] [])).
  intros H.
  assert (Hnames : forall n, In n (node_names (d_nodes with_nodes)) <-> is_table db n).
  { intros n. unfold with_nodes. rewrite add_tables_names. cbn [d_nodes node_names map].
    unfold is_table. split; [intros [[]|Ht]; exact Ht | intros Ht; now right]. }
  assert (Hc : counted db (d_nodes with_nodes)).
  { unfold with_nodes. apply add_tables_counted.
    - intros t b0. split; repeat split; reflexivity.
    - apply incl_refl.
    - intros n a []. }
  set (I := fun g : DiGraph =>
              d_nodes g = d_nodes with_nodes
              /\ (forall x y b, In (x, y, b) (d_edges g) ->
                                references db x y
                                /\ e_type b = Some "fk"
                                /\ exists w, e_weight b = Some w
                                             /\ (counts_rows db -> 0 <= w /\ w <= 1))).
  assert (H0 : I with_nodes).
  { split; [reflexivity|]. unfold with_nodes. rewrite add_tables_edges.
    intros x y b []. }
  assert (Hinner : forall (t : TableMeta) (l : list ForeignKey) g1 g2,
             In t db -> incl l (t_foreign_keys t) -> I g1 ->
             foldM (fun g fk => add_foreign_key g (t_name t) fk) l g1 = Ok g2 ->
             I g2
             /\ (forall fk, In fk l -> d_has_edge g2 (t_name t) (fk_table fk) = true)
             /\ (forall x y, d_has_edge g1 x y = true -> d_has_edge g2 x y = true)).
  { intros t l g1 g2 Ht Hl Hg1 Hfold. split; [|split].
    - revert Hfold. apply (foldM_invariant_in I); [|exact Hg1].
      intros b fk b' Hfk Hb Hstep.
      now apply (add_foreign_key_invariant db _ b b' t fk Ht (Hl fk Hfk) Hc Hb Hstep).
    - apply (foldM_establishes I (fun fk g => d_has_edge g (t_name t) (fk_table fk) = true)
               (fun g fk => add_foreign_key g (t_name t) fk) l) with (b := g1);
        [| |exact Hg1|exact Hfold].
      + intros b fk b' Hfk Hb Hstep.
        destruct (add_foreign_key_invariant db _ b b' t fk Ht (Hl fk Hfk) Hc Hb Hstep)
          as [G1 [G2 _]]. now split.
      + intros fk0 b fk b' Hfk Hb Hhas Hstep.
        destruct (add_foreign_key_invariant db _ b b' t fk Ht (Hl fk Hfk) Hc Hb Hstep)
          as [_ [_ G3]]. now apply G3.
    - intros x y Hxy. revert Hfold.
      apply (foldM_invariant_in (fun g => I g /\ d_has_edge g x y = true));
        [|now split].
      intros b fk b' Hfk [Hb Hhas] Hstep.
      destruct (add_foreign_key_invariant db _ b b' t fk Ht (Hl fk Hfk) Hc Hb Hstep)
        as [G1 [_ G3]]. split; [exact G1 | now apply G3]. }
  assert (Hg : I g).
  { revert H. apply (foldM_invariant_in I); [|exact H0].
    intros b t b' Ht Hb Hstep.
    now apply (Hinner t (t_foreign_keys t) b b' Ht (incl_refl _) Hb Hstep). }
  destruct Hg as [Hnodes Hedges].
  split; [intros n; rewrite Hnodes; apply Hnames|].
  split; [now rewrite Hnodes|]. split; [exact Hedges|].
  intros u v [t [fk [Ht [Hu [Hfk Hv]]]]]. subst u v.
  apply (foldM_establishes I
           (fun t g => forall fk, In fk (t_foreign_keys t) ->
                                  d_has_edge g (t_name t) (fk_table fk) = true)
           (fun g t => foldM (fun g fk => add_foreign_key g (t_name t) fk)
                             (t_foreign_keys t) g)
           db) with (b := with_nodes) (a := t); [| |exact H0|exact H|exact Ht|exact Hfk].
  - intros b t0 b' Ht0 Hb Hstep.
    destruct (Hinner t0 (t_foreign_keys t0) b b' Ht0 (incl_refl _) Hb Hstep)
      as [G1 [G2 _]]. now split.
  - intros t0 b t1 b' Ht1 Hb Hhas Hstep fk0 Hfk0.
    destruct (Hinner t1 (t_foreign_keys t1) b b' Ht1 (incl_refl _) Hb Hstep)
      as [_ [_ G3]]. apply G3. now apply Hhas.
Qed.

Lemma build_from_database_succeeds (db : Database) :
  (forall u v, references db u v -> is_table db v) ->
  exists g, build_from_database db = Ok g.
Proof.
  intros Hrefs. unfold build_from_database. cbv zeta.
  set (f := fun t => mkNode (Some "table") (Some (t_row_count t)) (Some (t_columns t))
                       (Some (Z.of_nat (length (t_columns t)))) None None None None).
  set (with_nodes := fold_left (fun g t => d_add_node g (t_name t) (f t)) db
                       (mkDiGraph [] [])).
  assert (Hnames : forall n, In n (node_names (d_nodes with_nodes)) <-> is_table db n).
  { intros n. unfold with_nodes. rewrite add_tables_names. cbn [d_nodes node_names map].
    unfold is_table. split; [intros [[]|Ht]; exact Ht | intros Ht; now right]. }
  assert (Hc : counted db (d_nodes with_nodes)).
  { unfold with_nodes. apply add_tables_counted.
    - intros t b0. split; repeat split; reflexivity.
    - apply incl_refl.
    - intros n a []. }
  set (I := fun g : DiGraph => d_nodes g = d_nodes with_nodes).
  destruct (foldM_progress I
              (fun g t => foldM (fun g fk => add_foreign_key g (t_name t) fk)
                                (t_foreign_keys t) g) db) with (b := with_nodes)
    as [g [Hg _]]; [|reflexivity|now exists g].
  intros b t Ht Hb.
  assert (Hl : incl (t_foreign_keys t) (t_foreign_keys t)) by apply incl_refl.
  revert Hl b Hb. generalize (t_foreign_keys t) at 1 3.
  intros l Hl. apply foldM_progress. intros b fk Hfk Hb.
  unfold I in Hb. unfold add_foreign_key.
  assert (Hu : In (t_name t) (node_names (d_nodes b)))
    by (rewrite Hb; apply Hnames; now exists t).
  assert (Hv : In (fk_table fk) (node_names (d_nodes b))).
  { rewrite Hb. apply Hnames. apply (Hrefs (t_name t)). exists t, fk.
    split; [exact Ht|]. split; [reflexivity|]. split; [now apply Hl | reflexivity]. }
  rewrite <- Hb in Hc.
  destruct (row_count_of_counted db b _ Hc Hu) as [t1 [_ [_ ->]]].
  destruct (row_count_of_counted db b _ Hc Hv) as [t2 [_ [_ ->]]].
  destruct (max_rows_counted db b Hc) as [most [-> _]]. cbn [bind].
  eexists. split; [reflexivity|]. unfold I, d_add_edge. cbn [d_nodes].
  rewrite (add_node_in_noop (d_nodes b) _ Hu).
  rewrite (add_node_in_noop (d_nodes b) _ Hv). exact Hb.
Qed.

(** X10: [build_from_database] succeeds exactly when every foreign key
    points to a table of the database (a dangling key ends in the KeyError of
    the node lookup); the graph it then returns has the tables as its nodes
    and an arc [u -> v] exactly for the tables [u] that declare a foreign key
    into [v]. *)
Theorem build_from_database_shape (db : Database) :
  ((exists g, build_from_database db = Ok g)
   <-> forall u v, references db u v -> is_table db v)
  /\ forall g, build_from_database db = Ok g ->
       (forall n, d_has_node g n = true <-> is_table db n)
       /\ (forall u v, d_has_edge g u v = true <-> references db u v).
Proof.
  split.
  - split; [|apply build_from_database_succeeds].
    intros [g Hg] u v Href.
    destruct (build_from_database_graph db g Hg) as [Hnodes [_ [_ Hedges]]].
    apply Hnodes. pose proof (Hedges u v Href) as Huv.
    apply d_has_edge_in in Huv. destruct Huv as [b Hb].
    pose proof (build_from_database_wf db g Hg) as Hwf.
    unfold wf_digraph in Hwf. rewrite forallb_forall in Hwf.
    specialize (Hwf _ Hb). cbn [fst snd] in Hwf. apply andb_prop in Hwf.
    now apply d_has_node_In.
  - intros g Hg. destruct (build_from_database_graph db g Hg) as [Hnodes [_ [Hfrom Hedges]]].
    split.
    + intros n. rewrite d_has_node_In. apply Hnodes.
    + intros u v. split; [|apply Hedges].
      intros Huv. apply d_has_edge_in in Huv. destruct Huv as [b Hb].
      now apply (Hfrom u v b).
Qed.



(** X12: for every table of the database, [get_table_info] on the built
    graph returns the node data recorded for a table of that name: its type,
    row count, columns and column count. *)
Theorem get_table_info_built (db : Database) (g : DiGraph) (n : string) :
  build_from_database db = Ok g ->
  is_table db n ->
  exists a t, get_table_info g n = Ok a /\ In t db /\ t_name t = n /\ describes t a.
Proof.
  intros Hg Hn. destruct (build_from_database_graph db g Hg) as [Hnodes [Hc _]].
  apply Hnodes in Hn. unfold get_table_info.
  rewrite (proj2 (d_has_node_In g n) Hn). cbn [negb].
  destruct (node_attrs_some _ _ Hn) as [a Ha]. rewrite Ha.
  destruct (Hc n a (node_attrs_in _ _ _ Ha)) as [t [H1 [H2 H3]]].
  now exists a, t.
Qed.

Lemma get_table_info_built_witness :
  exists a t, get_table_info (schema_of hub_db) "xfers" = Ok a
              /\ In t hub_db /\ t_name t = "xfers" /\ describes t a.
Proof.
  apply (get_table_info_built hub_db (schema_of hub_db) "xfers").
  - reflexivity.
  - exists (mkTable "xfers" 4 ["id"; "branch_id"] [mkFK "branches" "branch_id" "id"]).
    split; [cbn; tauto | reflexivity].
Defined.

(** ** Shortest paths *)

Lemma StronglySorted_app {A : Type} (R : A -> A -> Prop) (l1 l2 : list A) :
  StronglySorted R l1 -> StronglySorted R l2 ->
  (forall x y, In x l1 -> In y l2 -> R x y) ->
  StronglySorted R (l1 ++ l2).
Proof.
  induction 1 as [|x l1 _ IH Hall]; intros H2 Hcross; cbn [app]; [exact H2|].
  constructor.
  - apply IH; [exact H2|]. intros a b Ha Hb. apply Hcross; [now right | exact Hb].
  - apply Forall_app. split; [exact Hall|].
    apply Forall_forall. intros y Hy. apply Hcross; [now left | exact Hy].
Qed.

Lemma StronglySorted_app_inv {A : Type} (R : A -> A -> Prop) (l1 l2 : list A) :
  StronglySorted R (l1 ++ l2) ->
  forall x y, In x l1 -> In y l2 -> R x y.
Proof.
  induction l1 as [|a l1 IH]; cbn [app]; intros Hs x y Hx Hy; [destruct Hx|].
  inversion Hs as [|? ? Hs' Hall]. subst. destruct Hx as [<-|Hx].
  - rewrite Forall_forall in Hall. apply Hall. apply in_or_app. now right.
  - now apply IH.
Qed.

Lemma sorted_map_same {A B : Type} (R : B -> B -> Prop) (f : A -> B) (l : list A) :
  (forall a b, R (f a) (f b)) -> StronglySorted R (map f l).
Proof.
  intros HR. induction l as [|n l IH]; cbn [map]; constructor; [exact IH|].
  apply Forall_forall. intros y Hy. apply in_map_iff in Hy. destruct Hy as [m [<- _]].
  apply HR.
Qed.

Lemma heads_in (queue : list (list string)) (x : string) :
  In x (heads queue) <-> exists p, In p queue /\ hd_error p = Some x.
Proof.
  unfold heads. rewrite in_flat_map. split.
  - intros [p [Hp Hx]]. exists p. split; [exact Hp|].
    destruct p as [|h p]; [destruct Hx|]. destruct Hx as [<-|[]]. reflexivity.
  - intros [p [Hp Hx]]. exists p. split; [exact Hp|].
    destruct p as [|h p]; [discriminate Hx|]. inversion Hx. now left.
Qed.

Lemma heads_length (g : Graph) (s : string) (queue : list (list string)) :
  Forall (search_path g s) queue -> length (heads queue) = length queue.
Proof.
  induction 1 as [|p queue [h [Hh _]] _ IH]; [reflexivity|].
  destruct p as [|x p]; [discriminate Hh|].
  change (heads ((x :: p) :: queue)) with (x :: heads queue).
  cbn [length]. now rewrite IH.
Qed.

(** The search, with the paths already returned in [done]: what it returns
    is a list of walks from the source, shortest first, that holds for every
    neighbour of a node on it a path at most one step longer. *)
Lemma bfs_levels (g : Graph) (s : string) (M : list string) :
  (forall u w, In w (neighbors g u) -> In w M) ->
  forall (fuel : nat) (queue : list (list string)) (seen : list string)
         (done : list (list string)),
    seen = heads (done ++ queue) ->
    Forall (search_path g s) (done ++ queue) ->
    NoDup seen -> incl seen M ->
    StronglySorted shorter (done ++ queue) ->
    (forall p q, In p queue -> In q queue -> (length q <= length p + 1)%nat) ->
    (forall pu u w, In pu done -> hd_error pu = Some u -> In w (neighbors g u) ->
                    exists pw, In pw (done ++ queue) /\ hd_error pw = Some w
                               /\ (length pw <= length pu + 1)%nat) ->
    (length M - length done < fuel)%nat ->
    Forall (search_path g s) (done ++ bfs fuel g queue seen)
    /\ StronglySorted shorter (done ++ bfs fuel g queue seen)
    /\ incl (done ++ queue) (done ++ bfs fuel g queue seen)
    /\ (forall pu u w, In pu (done ++ bfs fuel g queue seen) ->
                       hd_error pu = Some u -> In w (neighbors g u) ->
                       exists pw, In pw (done ++ bfs fuel g queue seen)
                                  /\ hd_error pw = Some w
                                  /\ (length pw <= length pu + 1)%nat).
Proof.
  intros HM. induction fuel as [|fuel IH];
    intros queue seen done Hseen Hw Hnd Hincl Hs Hband Hcl Hfuel; [lia|].
  destruct queue as [|[|u p] rest]; cbn [bfs].
  - rewrite app_nil_r in *. split; [exact Hw|]. split; [exact Hs|].
    split; [apply incl_refl | exact Hcl].
  - apply Forall_app in Hw. destruct Hw as [_ Hw].
    inversion Hw as [|? ? [h [Hh _]] _]. discriminate Hh.
  - destruct (discover_all (u :: p) (neighbors g u) rest seen)
      as [fresh [Hfold [Hfnd [Hfresh Hall]]]].
    rewrite Hfold. cbn [fst snd].
    set (new := map (fun n => n :: u :: p) fresh).
    assert (Hwd : Forall (search_path g s) done /\ search_path g s (u :: p)
                  /\ Forall (search_path g s) rest).
    { apply Forall_app in Hw. destruct Hw as [H1 H2].
      inversion H2. now repeat split. }
    destruct Hwd as [Hwdone [Hwu Hwrest]].
    assert (Hlen : (length done + 1 <= length M)%nat).
    { pose proof (NoDup_incl_length Hnd Hincl) as Hl. rewrite Hseen in Hl.
      rewrite heads_app, length_app, (heads_length g s done Hwdone) in Hl.
      cbn in Hl. lia. }
    assert (Hdone_le : forall q, In q done -> (length q <= length (u :: p))%nat).
    { intros q Hq. apply (StronglySorted_app_inv shorter done ((u :: p) :: rest) Hs);
        [exact Hq | now left]. }
    assert (Hrest_ge : forall q, In q rest -> (length (u :: p) <= length q)%nat).
    { intros q Hq.
      assert (Hs' : StronglySorted shorter ((done ++ [u :: p]) ++ rest))
        by (rewrite <- app_assoc; exact Hs).
      apply (StronglySorted_app_inv shorter _ rest Hs'); [|exact Hq].
      apply in_or_app. right. now left. }
    assert (Hnew_len : forall q, In q new -> length q = S (length (u :: p))).
    { intros q Hq. apply in_map_iff in Hq. destruct Hq as [n [<- _]]. reflexivity. }
    assert (Hsplit : forall A (a : A) l1 l2 l3, l1 ++ a :: l2 ++ l3 = (l1 ++ [a]) ++ l2 ++ l3)
      by (intros; now rewrite <- app_assoc).
    destruct (IH (rest ++ new) (seen ++ fresh) (done ++ [u :: p])) as [G1 [G2 [G3 G4]]].
    + rewrite Hseen, !heads_app. unfold new. rewrite heads_cons_map.
      cbn [heads flat_map firstn app]. fold (heads rest).
      rewrite <- !app_assoc. reflexivity.
    + rewrite <- Hsplit. apply Forall_app. split; [exact Hwdone|].
      constructor; [exact Hwu|]. apply Forall_app. split; [exact Hwrest|].
      apply Forall_forall. intros q Hq. apply in_map_iff in Hq.
      destruct Hq as [n [<- Hn]]. exists n. split; [reflexivity|].
      destruct Hwu as [h [Hh Hwalk]]. inversion Hh; subst h.
      cbn [rev] in *. apply (walk_step _ _ u); [exact Hwalk|].
      now destruct (Hfresh n Hn).
    + apply NoDup_app; [exact Hnd | exact Hfnd |].
      intros a Ha Hf. now destruct (Hfresh a Hf).
    + intros a Ha. apply in_app_or in Ha. destruct Ha as [Ha|Ha]; [now apply Hincl|].
      destruct (Hfresh a Ha) as [Hn _]. now apply (HM u).
    + rewrite <- Hsplit.
      replace (done ++ (u :: p) :: rest ++ new) with ((done ++ (u :: p) :: rest) ++ new)
        by (now rewrite <- app_assoc).
      apply StronglySorted_app.
      * exact Hs.
      * unfold new. apply sorted_map_same. intros a b. unfold shorter. cbn. lia.
      * intros x y Hx Hy. unfold shorter. rewrite (Hnew_len y Hy).
        apply in_app_or in Hx. destruct Hx as [Hx|[<-|Hx]].
        -- specialize (Hdone_le x Hx). lia.
        -- lia.
        -- specialize (Hband (u :: p) x (or_introl eq_refl) (or_intror Hx)). lia.
    + intros a b Ha Hb. apply in_app_or in Ha, Hb.
      destruct Ha as [Ha|Ha], Hb as [Hb|Hb].
      * apply Hband; now right.
      * rewrite (Hnew_len b Hb). specialize (Hrest_ge a Ha). lia.
      * rewrite (Hnew_len a Ha).
        specialize (Hband (u :: p) b (or_introl eq_refl) (or_intror Hb)). lia.
      * rewrite (Hnew_len a Ha), (Hnew_len b Hb). lia.
    + intros pu x w Hpu Hx Hwn. rewrite <- Hsplit.
      apply in_app_or in Hpu. destruct Hpu as [Hpu|[<-|[]]].
      * destruct (Hcl pu x w Hpu Hx Hwn) as [pw [Hin [Hh Hl]]].
        exists pw. split; [|now split].
        apply in_app_or in Hin. apply in_or_app.
        destruct Hin as [Hin|[<-|Hin]]; [now left | right; now left|].
        right. right. apply in_or_app. now left.
      * inversion Hx; subst x. specialize (Hall w Hwn). apply in_app_or in Hall.
        destruct Hall as [Hseenw|Hfreshw].
        -- rewrite Hseen in Hseenw. apply heads_in in Hseenw.
           destruct Hseenw as [pw [Hin Hh]]. exists pw. split; [|split; [exact Hh|]].
           ++ apply in_app_or in Hin. apply in_or_app.
              destruct Hin as [Hin|[<-|Hin]]; [now left | right; now left|].
              right. right. apply in_or_app. now left.
           ++ apply in_app_or in Hin. destruct Hin as [Hin|[<-|Hin]].
              ** specialize (Hdone_le pw Hin). lia.
              ** lia.
              ** exact (Hband (u :: p) pw (or_introl eq_refl) (or_intror Hin)).
        -- exists (w :: u :: p). split; [|split; [reflexivity | cbn; lia]].
           apply in_or_app. right. right. apply in_or_app. right.
           unfold new. apply in_map_iff. now exists w.
    + rewrite length_app. cbn [length]. lia.
    + rewrite <- app_assoc in G1, G2, G4. cbn [app] in G1, G2, G4.
      split; [exact G1|]. split; [exact G2|]. split; [|exact G4].
      intros a Ha.
      assert (Ha' : In a ((done ++ [u :: p]) ++ rest ++ new)).
      { rewrite <- app_assoc. cbn [app]. apply in_app_or in Ha. apply in_or_app.
        destruct Ha as [Ha|[<-|Ha]]; [now left | right; now left|].
        right. right. apply in_or_app. now left. }
      apply G3 in Ha'. rewrite <- app_assoc in Ha'. exact Ha'.
Qed.

Lemma find_first_sorted {A : Type} (R : A -> A -> Prop) (f : A -> bool) (l : list A)
    (p : A) :
  (forall a, R a a) -> StronglySorted R l -> find f l = Some p ->
  forall q, In q l -> f q = true -> R p q.
Proof.
  intros Hrefl. induction 1 as [|a l _ IH Hall]; cbn [find]; intros Hf q Hq Hfq;
    [destruct Hq|].
  destruct (f a) eqn:Hfa.
  - inversion Hf; subst a. destruct Hq as [<-|Hq]; [apply Hrefl|].
    rewrite Forall_forall in Hall. now apply Hall.
  - destruct Hq as [<-|Hq]; [congruence|]. now apply IH.
Qed.

(** What [bfs_from] returns. *)
Lemma bfs_from_spec (g : Graph) (s : string) :
  Forall (search_path g s) (bfs_from g s)
  /\ StronglySorted shorter (bfs_from g s)
  /\ forall t q, walk (adjacent g) s t q ->
                 exists p, In p (bfs_from g s) /\ hd_error p = Some t
                           /\ (length p <= length q)%nat.
Proof.
  destruct (bfs_levels g s (s :: all_names g)
              (fun u w H => or_intror (neighbors_in_all_names g u w H))
              (2 + length (all_names g)) [[s]] [s] []) as [G1 [G2 [G3 G4]]].
  - reflexivity.
  - constructor; [|constructor]. exists s. split; [reflexivity | constructor].
  - constructor; [intros [] | constructor].
  - intros a [<-|[]]. now left.
  - repeat constructor.
  - intros p q [<-|[]] [<-|[]]. cbn. lia.
  - intros pu u w [].
  - cbn [length]. lia.
  - cbn [app] in G1, G2, G3, G4. fold (bfs_from g s) in G1, G2, G3, G4.
    split; [exact G1|]. split; [exact G2|].
    intros t q Hq. induction Hq as [|u w q Hq [p [Hp [Hh Hl]]] Hw].
    + exists [s]. split; [apply G3; now left|]. split; [reflexivity | cbn; lia].
    + destruct (G4 p u w Hp Hh Hw) as [pw [Hpw [Hhw Hlw]]].
      exists pw. split; [exact Hpw|]. split; [exact Hhw|].
      rewrite length_app. cbn [length]. lia.
Qed.

Lemma walk_adj (adj adj' : string -> string -> Prop) (s t : string) (p : list string) :
  (forall u w, adj u w -> adj' u w) -> walk adj s t p -> walk adj' s t p.
Proof.
  intros H. induction 1 as [|u w p _ IH Hw]; [constructor|].
  apply (walk_step _ _ u); [exact IH | now apply H].
Qed.

(** [nx.shortest_path] between two nodes of the graph: a walk of fewest
    nodes from the source to the target, and no path exactly when there is no
    walk. *)
Lemma shortest_path_spec (g : Graph) (s t : string) :
  has_node g s = true -> has_node g t = true ->
  exists r,
    shortest_path g s t = Ok r
    /\ (r = None <-> forall q, ~ walk (adjacent g) s t q)
    /\ forall path, r = Some path ->
         walk (adjacent g) s t path
         /\ forall q, walk (adjacent g) s t q -> (length path <= length q)%nat.
Proof.
  intros Hs Ht. unfold shortest_path. rewrite Hs, Ht. cbn [negb].
  destruct (bfs_from_spec g s) as [Hw [Hsorted Hmin]].
  set (f := fun p : list string => match p with
                                   | n :: _ => String.eqb n t
                                   | [] => false
                                   end).
  assert (Hf : forall p, f p = true <-> hd_error p = Some t).
  { intros [|n p]; cbn; [split; discriminate|]. rewrite String.eqb_eq.
    split; [now intros -> | intros H; now inversion H]. }
  eexists. split; [reflexivity|].
  destruct (find f (bfs_from g s)) as [p|] eqn:Hfind; cbn [option_map].
  - pose proof (find_some _ _ Hfind) as [Hin Hfp]. apply Hf in Hfp.
    rewrite Forall_forall in Hw. destruct (Hw p Hin) as [h [Hh Hwalk]].
    rewrite Hfp in Hh. inversion Hh; subst h. split.
    + split; [discriminate|]. intros H. now contradiction (H (rev p)).
    + intros path Hpath. inversion Hpath; subst path. split; [exact Hwalk|].
      intros q Hq. destruct (Hmin t q Hq) as [p' [Hp' [Hh' Hl']]].
      rewrite length_rev.
      pose proof (find_first_sorted shorter f _ p (fun a => Nat.le_refl _) Hsorted Hfind
                    p' Hp' (proj2 (Hf p') Hh')) as Hle.
      unfold shorter in Hle. lia.
  - split; [|intros path Hpath; discriminate Hpath].
    split; [|reflexivity]. intros _ q Hq.
    destruct (Hmin t q Hq) as [p [Hp [Hh _]]].
    pose proof (find_none _ _ Hfind p Hp) as Hnone. apply Hf in Hh. congruence.
Qed.

(** ** The undirected projection *)

Lemma neighbors_linked (g : Graph) (u w : string) :
  In w (neighbors g u) <-> linked (edges g) u w.
Proof.
  unfold neighbors, linked. rewrite in_flat_map. split.
  - intros [[[x y] a] [Hin Hw]]. exists x, y, a. split; [exact Hin|].
    destruct (String.eqb_spec x u) as [->|Hx].
    + destruct Hw as [<-|[]]. left. now split.
    + destruct (String.eqb_spec y u) as [->|Hy]; [|destruct Hw].
      destruct Hw as [<-|[]]. right. now split.
  - intros [x [y [a [Hin H]]]]. exists (x, y, a). split; [exact Hin|].
    destruct (String.eqb_spec x u) as [->|Hx].
    + destruct H as [[_ ->]|[-> ->]]; now left.
    + destruct H as [[Hxu _]|[-> ->]]; [contradiction|].
      rewrite String.eqb_refl. now left.
Qed.

Lemma linked_add_edge (es : EdgeList) (x y u w : string) (a : EdgeAttrs) :
  linked (add_edge_in same_edge es x y a) u w
  <-> linked es u w \/ (x = u /\ y = w) \/ (y = u /\ x = w).
Proof.
  induction es as [|[[p q] c] es IH]; cbn [add_edge_in].
  - split.
    + intros [x' [y' [a' [[Hin|[]] H]]]]. inversion Hin; subst. now right.
    + intros [[x' [y' [a' [[] _]]]]|H]. exists x, y, a. split; [now left | exact H].
  - destruct (same_edge p q x y) eqn:Hsame.
    + apply same_edge_iff in Hsame. split.
      * intros [x' [y' [a' [[Hin|Hin] H]]]].
        -- inversion Hin; subst. left. exists x', y', c. split; [now left | exact H].
        -- left. exists x', y', a'. split; [now right | exact H].
      * intros [[x' [y' [a' [[Hin|Hin] H]]]]|H].
        -- inversion Hin; subst. exists x', y', (update_edge a' a).
           split; [now left | exact H].
        -- exists x', y', a'. split; [now right | exact H].
        -- exists p, q, (update_edge c a). split; [now left|].
           destruct Hsame as [[-> ->]|[-> ->]]; tauto.
    + split.
      * intros [x' [y' [a' [[Hin|Hin] H]]]].
        -- left. exists x', y', a'. split; [now left | exact H].
        -- assert (Hl : linked (add_edge_in same_edge es x y a) u w)
             by now exists x', y', a'.
           apply IH in Hl. destruct Hl as [[x2 [y2 [a2 [Hin2 H2]]]]|Hl]; [|now right].
           left. exists x2, y2, a2. split; [now right | exact H2].
      * intros H.
        assert (Hl : linked es u w \/ (x = u /\ y = w) \/ (y = u /\ x = w) ->
                     linked ((p, q, c) :: add_edge_in same_edge es x y a) u w).
        { intros Hl. apply IH in Hl. destruct Hl as [x2 [y2 [a2 [Hin2 H2]]]].
          exists x2, y2, a2. split; [now right | exact H2]. }
        destruct H as [[x' [y' [a' [[Hin|Hin] H]]]]|H].
        -- exists x', y', a'. split; [now left | exact H].
        -- apply Hl. left. now exists x', y', a'.
        -- apply Hl. now right.
Qed.

Lemma linked_fold_add_edge (l : EdgeList) :
  forall (G : Graph) (u w : string),
    linked (edges (fold_left (fun G e => let '(x, y, a) := e in add_edge G x y a) l G)) u w
    <-> linked (edges G) u w \/ linked l u w.
Proof.
  induction l as [|[[x y] a] l IH]; intros G u w; cbn [fold_left].
  - split; [now left | intros [H|[x [y [a [[] _]]]]]; exact H].
  - rewrite IH. unfold add_edge at 1. cbn [edges]. rewrite linked_add_edge. split.
    + intros [[H|H]|[x' [y' [a' [Hin H]]]]].
      * now left.
      * right. exists x, y, a. split; [now left | exact H].
      * right. exists x', y', a'. split; [now right | exact H].
    + intros [H|[x' [y' [a' [[Hin|Hin] H]]]]].
      * left. now left.
      * inversion Hin; subst. left. now right.
      * right. now exists x', y', a'.
Qed.

(** In a proper schema graph two tables are adjacent in the undirected
    projection exactly when a foreign key joins them. *)
Lemma to_undirected_adjacent (g : DiGraph) (u w : string) :
  wf_digraph g = true -> (adjacent (to_undirected g) u w <-> joined g u w).
Proof.
  intros Hwf. unfold adjacent. rewrite neighbors_linked. unfold to_undirected.
  rewrite linked_fold_add_edge. cbn [edges].
  unfold wf_digraph in Hwf. rewrite forallb_forall in Hwf.
  assert (Hl : forall e, In e (flat_map (fun n => filter (fun e => String.eqb (fst (fst e)) n)
                                                         (d_edges g))
                                        (node_names (d_nodes g)))
                         <-> In e (d_edges g)).
  { intros e. rewrite in_flat_map. split.
    - intros [n [_ He]]. now apply filter_In in He.
    - intros He. exists (fst (fst e)). split.
      + specialize (Hwf e He). apply andb_prop in Hwf. now apply d_has_node_In.
      + apply filter_In. split; [exact He | apply String.eqb_refl]. }
  unfold joined. rewrite !d_has_edge_in. split.
  - intros [[x [y [a [[] _]]]]|[x [y [a [Hin H]]]]]. apply Hl in Hin.
    destruct H as [[-> ->]|[-> ->]]; [left | right]; now exists a.
  - intros [[a Ha]|[a Ha]]; right.
    + exists u, w, a. split; [now apply Hl | now left].
    + exists w, u, a. split; [now apply Hl | now right].
Qed.

Lemma walk_to_undirected (g : DiGraph) (s t : string) (p : list string) :
  wf_digraph g = true ->
  (walk (adjacent (to_undirected g)) s t p <-> walk (joined g) s t p).
Proof.
  intros Hwf. split; apply walk_adj; intros u w; now apply to_undirected_adjacent.
Qed.

(** X13: between two tables of a proper schema graph [get_shortest_path]
    never fails; it returns no path exactly when no chain of foreign keys,
    followed in either direction, leads from the source to the target, and
    otherwise a chain from the source to the target that no other chain
    undercuts in length. *)
Theorem get_shortest_path_shortest (g : DiGraph) (source target : string) :
  wf_digraph g = true ->
  d_has_node g source = true -> d_has_node g target = true ->
  exists r,
    get_shortest_path g source target = Ok r
    /\ (r = None <-> forall q, ~ walk (joined g) source target q)
    /\ forall path, r = Some path ->
         walk (joined g) source target path
         /\ forall q, walk (joined g) source target q -> (length path <= length q)%nat.
Proof.
  intros Hwf Hs Ht. unfold get_shortest_path.
  destruct (shortest_path_spec (to_undirected g) source target
              (to_undirected_keeps_nodes g _ Hs) (to_undirected_keeps_nodes g _ Ht))
    as [r [Hr [Hnone Hsome]]].
  exists r. split; [exact Hr|]. split.
  - rewrite Hnone. split; intros H q Hq; apply (H q); now apply walk_to_undirected.
  - intros path Hpath. destruct (Hsome path Hpath) as [Hwalk Hmin]. split.
    + now apply walk_to_undirected.
    + intros q Hq. apply Hmin. now apply walk_to_undirected.
Qed.

Lemma get_shortest_path_shortest_witness :
  exists r,
    get_shortest_path (schema_of merchant_db) "channels" "mcc_codes" = Ok r
    /\ forall path, r = Some path -> walk (joined (schema_of merchant_db))
                                          "channels" "mcc_codes" path.
Proof.
  destruct (get_shortest_path_shortest (schema_of merchant_db) "channels" "mcc_codes")
    as [r [Hr [_ Hsome]]]; [reflexivity | reflexivity | reflexivity |].
  exists r. split; [exact Hr|]. intros path Hpath. now destruct (Hsome path Hpath).
Defined.

(** ** Join costs *)

Lemma walk_length (adj : string -> string -> Prop) (s t : string) (q : list string) :
  walk adj s t q -> (1 <= length q)%nat /\ (s <> t -> (2 <= length q)%nat).
Proof.
  induction 1 as [|u w p _ [IH _] _]; cbn [length].
  - split; [lia | intros H; now contradiction H].
  - rewrite length_app. cbn [length]. split; lia.
Qed.

Lemma path_cost_bounds (g : DiGraph) (p : list string) :
  (forall u v a, d_edge g u v = Some a -> 0 <= weight_of a /\ weight_of a <= 1) ->
  p <> [] ->
  0 <= path_cost g p /\ path_cost g p <= inject_Z (hops p).
Proof.
  intros Hw. induction p as [|x p IH]; intros Hne; [now contradiction Hne|].
  destruct p as [|y rest].
  - cbn [path_cost]. unfold hops. cbn. split; apply Qle_refl.
  - destruct IH as [IH1 IH2]; [discriminate|].
    assert (Hstep : 0 <= match d_edge g x y with
                         | Some e => weight_of e
                         | None => match d_edge g y x with
                                   | Some e => weight_of e
                                   | None => 1
                                   end
                         end
                    /\ match d_edge g x y with
                       | Some e => weight_of e
                       | None => match d_edge g y x with
                                 | Some e => weight_of e
                                 | None => 1
                                 end
                       end <= 1).
    { destruct (d_edge g x y) as [e|] eqn:He; [now apply (Hw x y)|].
      destruct (d_edge g y x) as [e|] eqn:He'; [now apply (Hw y x)|].
      split; [discriminate | apply Qle_refl]. }
    destruct Hstep as [S1 S2].
    change (path_cost g (x :: y :: rest))
      with (match d_edge g x y with
            | Some e => weight_of e
            | None => match d_edge g y x with
                      | Some e => weight_of e
                      | None => 1
                      end
            end + path_cost g (y :: rest)).
    split.
    + rewrite <- (Qplus_0_l 0). now apply Qplus_le_compat.
    + replace (hops (x :: y :: rest)) with (1 + hops (y :: rest))%Z
        by (unfold hops; cbn [length]; lia).
      rewrite inject_Z_plus. now apply Qplus_le_compat.
Qed.

(** X14: on the graph built from a database whose row counts are not
    negative, [calculate_join_cost] of two tables never fails; it is infinite
    exactly when no chain of foreign keys connects the tables, and otherwise
    a cost that is not negative and, for two different tables, at most the
    number of joins of any chain that connects them. *)
Theorem calculate_join_cost_built (db : Database) (g : DiGraph) (table1 table2 : string) :
  build_from_database db = Ok g -> counts_rows db ->
  is_table db table1 -> is_table db table2 ->
  exists c,
    calculate_join_cost g table1 table2 = Ok c
    /\ (c = Infinity <-> forall q, ~ walk (joined g) table1 table2 q)
    /\ forall w, c = Finite w ->
         0 <= w
         /\ (table1 <> table2 ->
             forall q, walk (joined g) table1 table2 q -> w <= inject_Z (hops q)).
Proof.
  intros Hg Hpos H1 H2.
  destruct (build_from_database_graph db g Hg) as [Hnodes [_ [Hfrom _]]].
  pose proof (build_from_database_wf db g Hg) as Hwf.
  apply Hnodes, d_has_node_In in H1. apply Hnodes, d_has_node_In in H2.
  assert (Hw : forall u v a, d_edge g u v = Some a -> 0 <= weight_of a /\ weight_of a <= 1).
  { intros u v a Ha. apply d_edge_in in Ha.
    destruct (Hfrom u v a Ha) as [_ [_ [w [Hw Hb]]]].
    unfold weight_of. rewrite Hw. now apply Hb. }
  assert (Hdirect : forall q, walk (joined g) table1 table2 q -> table1 <> table2 ->
                              1 <= inject_Z (hops q)).
  { intros q Hq Hne. destruct (walk_length _ _ _ _ Hq) as [_ Hl]. specialize (Hl Hne).
    change 1 with (inject_Z 1). rewrite <- Zle_Qle. unfold hops. lia. }
  unfold calculate_join_cost. rewrite H1, H2. cbn [negb orb].
  destruct (d_edge g table1 table2) as [e|] eqn:He.
  { eexists. split; [reflexivity|]. split.
    - split; [discriminate|]. intros H. exfalso.
      apply (H ([table1] ++ [table2])). apply (walk_step _ _ table1); [constructor|].
      left. unfold d_has_edge. now rewrite He.
    - intros w Hc. inversion Hc; subst w. destruct (Hw _ _ _ He) as [W1 W2].
      split; [exact W1|]. intros Hne q Hq.
      apply (Qle_trans _ 1); [exact W2 | now apply Hdirect]. }
  destruct (d_edge g table2 table1) as [e|] eqn:He'.
  { eexists. split; [reflexivity|]. split.
    - split; [discriminate|]. intros H. exfalso.
      apply (H ([table1] ++ [table2])). apply (walk_step _ _ table1); [constructor|].
      right. unfold d_has_edge. now rewrite He'.
    - intros w Hc. inversion Hc; subst w. destruct (Hw _ _ _ He') as [W1 W2].
      split; [exact W1|]. intros Hne q Hq.
      apply (Qle_trans _ 1); [exact W2 | now apply Hdirect]. }
  destruct (shortest_path_spec (to_undirected g) table1 table2
              (to_undirected_keeps_nodes g _ H1) (to_undirected_keeps_nodes g _ H2))
    as [r [Hr [Hnone Hsome]]].
  rewrite Hr. destruct r as [path|].
  - destruct (Hsome path eq_refl) as [Hwalk Hmin].
    eexists. split; [reflexivity|]. split.
    + split; [discriminate|]. intros H. exfalso. apply (H path).
      now apply walk_to_undirected.
    + intros w Hc. inversion Hc; subst w.
      assert (Hne : path <> [])
        by (destruct (walk_length _ _ _ _ Hwalk) as [Hl _];
            destruct path; [cbn in Hl; lia | discriminate]).
      destruct (path_cost_bounds g path Hw Hne) as [B1 B2].
      split; [exact B1|]. intros _ q Hq.
      apply (Qle_trans _ _ _ B2). rewrite <- Zle_Qle. unfold hops.
      apply (walk_to_undirected g _ _ _ Hwf) in Hq. specialize (Hmin q Hq). lia.
  - eexists. split; [reflexivity|]. split; [|intros w Hc; discriminate Hc].
    split; [|reflexivity]. intros _ q Hq.
    apply (proj1 Hnone eq_refl q). now apply walk_to_undirected.
Qed.

Lemma calculate_join_cost_built_witness :
  exists c,
    calculate_join_cost (schema_of hub_db) "accounts" "xfers" = Ok c
    /\ forall w, c = Finite w -> 0 <= w.
Proof.
  destruct (calculate_join_cost_built hub_db (schema_of hub_db) "accounts" "xfers")
    as [c [Hc [_ Hw]]].
  - reflexivity.
  - intros t Ht. cbn in Ht.
    repeat (destruct Ht as [<-|Ht]; [cbn; lia|]). destruct Ht.
  - exists (mkTable "accounts" 1 ["id"; "customer_id"] [mkFK "customers" "customer_id" "id"]).
    split; [cbn; tauto | reflexivity].
  - exists (mkTable "xfers" 4 ["id"; "branch_id"] [mkFK "branches" "branch_id" "id"]).
    split; [cbn; tauto | reflexivity].
  - exists c. split; [exact Hc|]. intros w Hcw. now destruct (Hw w Hcw).
Defined.

(** ** Tables within reach *)

Lemma list_sum_cons (a : nat) (l : list nat) : list_sum (a :: l) = (a + list_sum l)%nat.
Proof. reflexivity. Qed.

Lemma list_sum_map_add {A : Type} (f h : A -> nat) (l : list A) :
  list_sum (map (fun v => (f v + h v)%nat) l)
  = (list_sum (map f l) + list_sum (map h l))%nat.
Proof.
  induction l as [|a l IH]; cbn [map]; [reflexivity|].
  rewrite !list_sum_cons, IH. lia.
Qed.

Lemma list_sum_map_le {A : Type} (f h : A -> nat) (l : list A) :
  (forall v, (f v <= h v)%nat) -> (list_sum (map f l) <= list_sum (map h l))%nat.
Proof.
  intros H. induction l as [|a l IH]; cbn [map]; [cbn; lia|].
  rewrite !list_sum_cons. specialize (H a). lia.
Qed.

Lemma count_name_once (x : string) (names : list string) :
  NoDup names ->
  (list_sum (map (fun v => if String.eqb x v then 1 else 0)%nat names) <= 1)%nat.
Proof.
  induction 1 as [|v names Hv _ IH]; cbn [map]; [cbn; lia|].
  rewrite list_sum_cons.
  destruct (String.eqb_spec x v) as [->|Hne]; [|lia].
  assert (H0 : list_sum (map (fun w => if String.eqb v w then 1 else 0)%nat names) = 0%nat).
  { clear IH. induction names as [|w names IH]; [reflexivity|].
    cbn [map]. rewrite list_sum_cons. destruct (String.eqb_spec v w) as [->|Hw].
    - exfalso. apply Hv. now left.
    - rewrite IH; [reflexivity|]. intros H. apply Hv. now right. }
  lia.
Qed.

Lemma degree_sum (es : EdgeList) (ns : NodeList) (names : list string) :
  NoDup names ->
  (list_sum (map (degree (mkGraph ns es)) names) <= 2 * length es)%nat.
Proof.
  intros Hnd. induction es as [|[[x y] a] es IH].
  - cbn [length]. induction names as [|v names IHn]; [cbn; lia|].
    cbn [map]. rewrite list_sum_cons. inversion Hnd. unfold degree at 1, neighbors at 1.
    cbn [edges flat_map length]. now apply IHn.
  - set (ends := fun v => length (if String.eqb x v then [y]
                                  else if String.eqb y v then [x] else [])).
    assert (Hsplit : forall v,
              degree (mkGraph ns ((x, y, a) :: es)) v
              = (ends v + degree (mkGraph ns es) v)%nat).
    { intros v. unfold degree, neighbors, ends. cbn [edges flat_map].
      now rewrite length_app. }
    rewrite (map_ext _ (fun v => (ends v + degree (mkGraph ns es) v)%nat) Hsplit).
    rewrite (list_sum_map_add ends (degree (mkGraph ns es)) names). cbn [length].
    assert (Hx : (list_sum (map ends names) <= 2)%nat).
    { pose proof (count_name_once x names Hnd) as H1.
      pose proof (count_name_once y names Hnd) as H2.
      pose proof (list_sum_map_le ends
                    (fun v => ((if String.eqb x v then 1 else 0)
                               + (if String.eqb y v then 1 else 0))%nat) names) as H3.
      rewrite (list_sum_map_add (fun v => if String.eqb x v then 1 else 0)%nat
                 (fun v => if String.eqb y v then 1 else 0)%nat names) in H3.
      assert (H4 : forall v, (ends v <= (if String.eqb x v then 1 else 0)
                                        + (if String.eqb y v then 1 else 0))%nat)
        by (intros v; unfold ends; destruct (String.eqb x v), (String.eqb y v); cbn; lia).
      specialize (H3 H4). lia. }
    lia.
Qed.

Lemma mem_app (x : string) (l1 l2 : list string) : mem x (l1 ++ l2) = mem x l1 || mem x l2.
Proof. unfold mem. apply existsb_app. Qed.

Lemma pending_other (g : Graph) (names visited : list string) (c : string) :
  ~ In c names -> pending g names (visited ++ [c]) = pending g names visited.
Proof.
  unfold pending. intros Hc. f_equal. f_equal. apply filter_ext_in'.
  intros v Hv. rewrite mem_app. unfold mem at 2. cbn [existsb].
  destruct (String.eqb_spec v c) as [->|_]; [contradiction|].
  now rewrite !orb_false_r.
Qed.

Lemma pending_visit (g : Graph) (names visited : list string) (c : string) :
  NoDup names -> In c names -> mem c visited = false ->
  (pending g names (visited ++ [c]) + degree g c)%nat = pending g names visited.
Proof.
  induction 1 as [|v names Hv Hnd IH]; intros Hin Hc; [destruct Hin|].
  assert (Hcons : forall vis, pending g (v :: names) vis
                              = ((if mem v vis then 0 else degree g v)
                                 + pending g names vis)%nat).
  { intros vis. unfold pending. cbn [filter].
    destruct (mem v vis); cbn [negb map]; [reflexivity | now rewrite list_sum_cons]. }
  rewrite !Hcons. destruct Hin as [->|Hin].
  - rewrite Hc, mem_app. unfold mem at 2. cbn [existsb]. rewrite String.eqb_refl.
    rewrite orb_true_r. rewrite (pending_other g names visited c Hv). lia.
  - specialize (IH Hin Hc). rewrite mem_app. unfold mem at 2. cbn [existsb].
    destruct (String.eqb_spec v c) as [->|_]; [contradiction|].
    rewrite !orb_false_r. lia.
Qed.

Lemma sorted_app_l {A : Type} (R : A -> A -> Prop) (l1 l2 : list A) :
  StronglySorted R (l1 ++ l2) -> StronglySorted R l1.
Proof.
  induction l1 as [|a l1 IH]; cbn [app]; intros H; [constructor|].
  inversion H as [|? ? Hs Hall]. subst. constructor; [now apply IH|].
  apply Forall_app in Hall. now destruct Hall.
Qed.

Lemma sorted_app_r {A : Type} (R : A -> A -> Prop) (l1 l2 : list A) :
  StronglySorted R (l1 ++ l2) -> StronglySorted R l2.
Proof.
  induction l1 as [|a l1 IH]; cbn [app]; intros H; [exact H|].
  inversion H. now apply IH.
Qed.

Lemma sorted_drop {A : Type} (R : A -> A -> Prop) (l1 l2 : list A) (a : A) :
  StronglySorted R (l1 ++ a :: l2) -> StronglySorted R (l1 ++ l2).
Proof.
  intros H. apply StronglySorted_app.
  - now apply sorted_app_l in H.
  - apply sorted_app_r in H. now inversion H.
  - intros x y Hx Hy. apply (StronglySorted_app_inv R l1 (a :: l2) H); [exact Hx | now right].
Qed.

Section ConnectedLoop.

Variable g : Graph.
Variable s : string.
Variable max_depth : Z.
Variable names : list string.
Hypothesis names_nodup : NoDup names.
Hypothesis names_closed : forall u w, In w (neighbors g u) -> In w names.

(** The loop of [get_connected_tables], with the depth at which each node
    was visited: it ends before the rounds run out, and the nodes visited are
    those within [max_depth] steps of the start. *)
Lemma connected_loop_spec (fuel : nat) :
  forall (queue visits : list (string * Z)),
    StronglySorted by_depth (visits ++ queue) ->
    (forall a b, In a queue -> In b queue -> (snd b <= snd a + 1)%Z) ->
    (forall n d, In (n, d) (visits ++ queue) ->
                 exists q, walk (adjacent g) s n q /\ hops q = d) ->
    (forall n d, In (n, d) visits -> (d <= max_depth)%Z) ->
    (forall u du w, In (u, du) visits -> In w (neighbors g u) ->
                    (du + 1 <= max_depth)%Z ->
                    exists dw, In (w, dw) (visits ++ queue) /\ (dw <= du + 1)%Z) ->
    (forall n d, In (n, d) queue -> In n names) ->
    NoDup (map fst visits) ->
    (length queue + pending g names (map fst visits) < fuel)%nat ->
    ((0 <= max_depth)%Z -> exists d, In (s, d) (visits ++ queue) /\ (d <= 0)%Z) ->
    exists visits',
      connected_loop fuel g max_depth queue (map fst visits) = map fst visits'
      /\ NoDup (map fst visits')
      /\ (forall n d, In (n, d) visits' ->
                      (d <= max_depth)%Z
                      /\ exists q, walk (adjacent g) s n q /\ hops q = d)
      /\ (forall u du w, In (u, du) visits' -> In w (neighbors g u) ->
                         (du + 1 <= max_depth)%Z ->
                         exists dw, In (w, dw) visits' /\ (dw <= du + 1)%Z)
      /\ ((0 <= max_depth)%Z -> exists d, In (s, d) visits' /\ (d <= 0)%Z).
Proof.
  induction fuel as [|fuel IH];
    intros queue visits Hs Hband Hwalk Hdepth Hcl Hnames Hnd Hfuel Hstart; [lia|].
  destruct queue as [|[current depth] rest]; cbn [connected_loop].
  - rewrite app_nil_r in *. exists visits. split; [reflexivity|]. split; [exact Hnd|].
    split; [|split; [exact Hcl | exact Hstart]].
    intros n d Hin. split; [now apply (Hdepth n) | now apply Hwalk].
  - assert (Hbefore : forall a, In a visits -> (snd a <= depth)%Z).
    { intros a Ha.
      apply (StronglySorted_app_inv by_depth visits ((current, depth) :: rest) Hs a
               (current, depth) Ha). now left. }
    assert (Hafter : forall a, In a rest -> (depth <= snd a <= depth + 1)%Z).
    { intros a Ha. split.
      - apply sorted_app_r in Hs. inversion Hs as [|? ? _ Hall]. subst.
        rewrite Forall_forall in Hall. exact (Hall a Ha).
      - exact (Hband (current, depth) a (or_introl eq_refl) (or_intror Ha)). }
    destruct (mem current (map fst visits) || (max_depth <? depth)%Z) eqn:Hskip.
    + apply (IH rest visits).
      * now apply sorted_drop in Hs.
      * intros a b Ha Hb. apply Hband; now right.
      * intros n d Hin. apply Hwalk. apply in_app_or in Hin. apply in_or_app.
        destruct Hin as [Hin|Hin]; [now left | right; now right].
      * exact Hdepth.
      * intros u du w Hu Hw Hle. destruct (Hcl u du w Hu Hw Hle) as [dw [Hin Hdw]].
        apply in_app_or in Hin. destruct Hin as [Hin|[Hin|Hin]].
        -- exists dw. split; [apply in_or_app; now left | exact Hdw].
        -- inversion Hin; subst w dw. apply orb_true_iff in Hskip.
           destruct Hskip as [Hseen|Hdeep]; [|apply Z.ltb_lt in Hdeep; lia].
           apply mem_In, in_map_iff in Hseen. destruct Hseen as [[c d'] [Hc Hin']].
           cbn [fst] in Hc. subst c. exists d'.
           split; [apply in_or_app; now left|].
           specialize (Hbefore _ Hin'). cbn [snd] in Hbefore. lia.
        -- exists dw. split; [apply in_or_app; now right | exact Hdw].
      * intros n d Hin. apply (Hnames n d). now right.
      * exact Hnd.
      * cbn [length] in Hfuel. lia.
      * intros H0. destruct (Hstart H0) as [d [Hin Hd]].
        apply in_app_or in Hin. destruct Hin as [Hin|[Hin|Hin]].
        -- exists d. split; [apply in_or_app; now left | exact Hd].
        -- inversion Hin; subst current depth. apply orb_true_iff in Hskip.
           destruct Hskip as [Hseen|Hdeep]; [|apply Z.ltb_lt in Hdeep; lia].
           apply mem_In, in_map_iff in Hseen. destruct Hseen as [[c d'] [Hc Hin']].
           cbn [fst] in Hc. subst c. exists d'.
           split; [apply in_or_app; now left|].
           specialize (Hbefore _ Hin'). cbn [snd] in Hbefore. lia.
        -- exists d. split; [apply in_or_app; now right | exact Hd].
    + apply orb_false_iff in Hskip. destruct Hskip as [Hnew Hshallow].
      apply Z.ltb_ge in Hshallow.
      set (fresh := filter (fun n => negb (mem n (map fst visits ++ [current])))
                           (neighbors g current)).
      set (new := map (fun n => (n, (depth + 1)%Z)) fresh).
      assert (Hvisits : map fst visits ++ [current] = map fst (visits ++ [(current, depth)]))
        by (now rewrite map_app).
      rewrite Hvisits.
      assert (Hnewd : forall a, In a new -> snd a = (depth + 1)%Z
                                            /\ In (fst a) (neighbors g current)).
      { intros a Ha. apply in_map_iff in Ha. destruct Ha as [n [<- Hn]].
        split; [reflexivity|]. now apply filter_In in Hn. }
      assert (Hmove : forall a, In a (visits ++ (current, depth) :: rest) ->
                                In a ((visits ++ [(current, depth)]) ++ rest ++ new)).
      { intros a Ha. rewrite <- app_assoc. cbn [app]. apply in_app_or in Ha.
        apply in_or_app. destruct Ha as [Ha|[Ha|Ha]]; [now left | right; now left|].
        right. right. apply in_or_app. now left. }
      apply (IH (rest ++ new) (visits ++ [(current, depth)])).
      * rewrite <- app_assoc. cbn [app].
        replace (visits ++ (current, depth) :: rest ++ new)
          with ((visits ++ (current, depth) :: rest) ++ new)
          by (now rewrite <- app_assoc).
        apply StronglySorted_app; [exact Hs | |].
        -- unfold new. apply sorted_map_same. intros a b. unfold by_depth. cbn. lia.
        -- intros x y Hx Hy. unfold by_depth. rewrite (proj1 (Hnewd y Hy)).
           apply in_app_or in Hx. destruct Hx as [Hx|[<-|Hx]].
           ++ specialize (Hbefore x Hx). lia.
           ++ cbn. lia.
           ++ specialize (Hafter x Hx). lia.
      * intros a b Ha Hb. apply in_app_or in Ha, Hb.
        destruct Ha as [Ha|Ha], Hb as [Hb|Hb].
        -- apply Hband; now right.
        -- rewrite (proj1 (Hnewd b Hb)). specialize (Hafter a Ha). lia.
        -- rewrite (proj1 (Hnewd a Ha)). specialize (Hafter b Hb). lia.
        -- rewrite (proj1 (Hnewd a Ha)), (proj1 (Hnewd b Hb)). lia.
      * intros n d Hin. rewrite <- app_assoc in Hin. cbn [app] in Hin.
        apply in_app_or in Hin. destruct Hin as [Hin|[Hin|Hin]].
        -- apply Hwalk. apply in_or_app. now left.
        -- apply Hwalk. apply in_or_app. right. now left.
        -- apply in_app_or in Hin. destruct Hin as [Hin|Hin].
           ++ apply Hwalk. apply in_or_app. right. now right.
           ++ destruct (Hnewd _ Hin) as [Hd Hn]. cbn [fst snd] in Hd, Hn. subst d.
              destruct (Hwalk current depth) as [q [Hq Hh]];
                [apply in_or_app; right; now left|].
              exists (q ++ [n]). split; [now apply (walk_step _ _ current)|].
              unfold hops in *. rewrite length_app. cbn [length]. lia.
      * intros n d Hin. apply in_app_or in Hin. destruct Hin as [Hin|[Hin|[]]].
        -- now apply (Hdepth n).
        -- inversion Hin. now subst.
      * intros u du w Hu Hw Hle. apply in_app_or in Hu. destruct Hu as [Hu|[Hu|[]]].
        -- destruct (Hcl u du w Hu Hw Hle) as [dw [Hin Hdw]].
           exists dw. split; [now apply Hmove | exact Hdw].
        -- inversion Hu; subst u du.
           destruct (mem w (map fst visits ++ [current])) eqn:Hseen.
           ++ apply mem_In in Hseen. rewrite Hvisits in Hseen.
              apply in_map_iff in Hseen. destruct Hseen as [[w' dw] [Hw' Hin]].
              cbn [fst] in Hw'. subst w'. exists dw.
              split; [apply in_or_app; now left|].
              apply in_app_or in Hin. destruct Hin as [Hin|[Hin|[]]].
              ** specialize (Hbefore _ Hin). cbn [snd] in Hbefore. lia.
              ** inversion Hin. lia.
           ++ exists (depth + 1)%Z. split; [|lia].
              apply in_or_app. right. apply in_or_app. right.
              unfold new. apply in_map_iff. exists w. split; [reflexivity|].
              unfold fresh. apply filter_In. split; [exact Hw|]. now rewrite Hseen.
      * intros n d Hin. apply in_app_or in Hin. destruct Hin as [Hin|Hin].
        -- apply (Hnames n d). now right.
        -- destruct (Hnewd _ Hin) as [_ Hn]. now apply (names_closed current).
      * rewrite <- Hvisits. apply NoDup_app; [exact Hnd | repeat constructor; intros [] |].
        intros a Ha [<-|[]]. apply mem_false in Hnew. contradiction.
      * rewrite <- Hvisits.
        pose proof (pending_visit g names (map fst visits) current names_nodup
                      (Hnames current depth (or_introl eq_refl)) Hnew) as Hpot.
        assert (Hfresh : (length new <= degree g current)%nat).
        { unfold new, fresh, degree. rewrite length_map. apply filter_length_le. }
        rewrite length_app. cbn [length] in Hfuel. lia.
      * intros H0. destruct (Hstart H0) as [d [Hin Hd]].
        exists d. split; [now apply Hmove | exact Hd].
Qed.

End ConnectedLoop.

Lemma walk_leaves (adj : string -> string -> Prop) (s t : string) (q : list string) :
  walk adj s t q -> s <> t -> exists w, adj s w.
Proof.
  induction 1 as [|u w p _ IH Hw]; intros Hne; [now contradiction Hne|].
  destruct (string_dec s u) as [->|Hu]; [now exists w | now apply IH].
Qed.

Lemma joined_nodes (g : DiGraph) (u w : string) :
  wf_digraph g = true -> joined g u w -> d_has_node g u = true /\ d_has_node g w = true.
Proof.
  unfold wf_digraph. rewrite forallb_forall. intros Hwf [H|H];
    apply d_has_edge_in in H; destruct H as [b Hb]; specialize (Hwf _ Hb);
    cbn [fst snd] in Hwf; apply andb_prop in Hwf; tauto.
Qed.

(** X15: on a proper schema graph [get_connected_tables] returns, each
    once, exactly the tables other than the starting one that a chain of at
    most [max_depth] foreign keys, followed in either direction, connects to
    it. *)
Theorem get_connected_tables_within (g : DiGraph) (t : string) (max_depth : Z) :
  wf_digraph g = true ->
  NoDup (get_connected_tables g t max_depth)
  /\ forall x, In x (get_connected_tables g t max_depth)
               <-> x <> t /\ exists q, walk (joined g) t x q /\ (hops q <= max_depth)%Z.
Proof.
  intros Hwf. unfold get_connected_tables.
  destruct (d_has_node g t) eqn:Ht; cbn [negb].
  2:{ split; [constructor|]. intros x. split; [intros []|].
      intros [Hne [q [Hq _]]]. destruct (walk_leaves _ _ _ _ Hq (not_eq_sym Hne)) as [w Hw].
      destruct (joined_nodes g t w Hwf Hw) as [Hn _]. congruence. }
  set (G := to_undirected g).
  set (names := nodup string_dec (t :: all_names G)).
  destruct (connected_loop_spec G t max_depth names (NoDup_nodup _ _)) with
    (fuel := (2 + 2 * length (edges G))%nat) (queue := [(t, 0%Z)])
    (visits := @nil (string * Z))
    as [visits [Hloop [Hnd [Hsound [Hclosed Hstart]]]]].
  - intros u w Hw. apply nodup_In. right. now apply (neighbors_in_all_names G u).
  - repeat constructor.
  - intros a b [<-|[]] [<-|[]]. cbn. lia.
  - intros n d [Hin|[]]. inversion Hin; subst n d. exists [t]. split; [constructor | reflexivity].
  - intros n d [].
  - intros u du w [].
  - intros n d [Hin|[]]. inversion Hin; subst n d. apply nodup_In. now left.
  - constructor.
  - cbn [length map]. unfold pending. rewrite filter_all by reflexivity.
    pose proof (degree_sum (edges G) (nodes G) names (NoDup_nodup _ _)) as Hsum.
    destruct G as [ns es]. cbn [edges nodes] in *. lia.
  - intros _. exists 0%Z. split; [now left | lia].
  - cbv zeta. cbn [map] in Hloop. fold G. rewrite Hloop. split.
    + now apply NoDup_filter.
    + intros x. rewrite filter_In, negb_true_iff, String.eqb_neq, in_map_iff. split.
      * intros [[[x' d] [Hx Hin]] Hne]. cbn [fst] in Hx. subst x'. split; [exact Hne|].
        destruct (Hsound x d Hin) as [Hd [q [Hq Hh]]]. exists q.
        split; [now apply walk_to_undirected | lia].
      * intros [Hne [q [Hq Hh]]]. split; [|exact Hne].
        apply (walk_to_undirected g _ _ _ Hwf) in Hq. fold G in Hq.
        assert (Hin : exists d, In (x, d) visits /\ (d <= hops q)%Z).
        { clear Hne. revert Hh. induction Hq as [|u w p Hp IH Hw]; intros Hh.
          - destruct Hstart as [d [Hin Hd]]; [unfold hops in Hh; cbn in Hh; lia|].
            exists d. split; [exact Hin | unfold hops; cbn; lia].
          - assert (Hhops : hops (p ++ [w]) = (hops p + 1)%Z)
              by (unfold hops; rewrite length_app; cbn [length]; lia).
            destruct IH as [du [Hu Hdu]]; [lia|].
            destruct (Hclosed u du w Hu Hw) as [dw [Hin Hdw]]; [lia|].
            exists dw. split; [exact Hin | lia]. }
        destruct Hin as [d [Hin _]]. now exists (x, d).
Qed.

Lemma get_connected_tables_within_witness :
  In "mcc_codes" (get_connected_tables (schema_of merchant_db) "transactions" 2)
  <-> "mcc_codes" <> "transactions"
      /\ exists q, walk (joined (schema_of merchant_db)) "transactions" "mcc_codes" q
                   /\ (hops q <= 2)%Z.
Proof.
  apply (get_connected_tables_within (schema_of merchant_db) "transactions" 2).
  reflexivity.
Defined.

(** ** The solver, further *)

Lemma fold_add_edge_nodes (l : EdgeList) :
  forall G : Graph,
    (forall e, In e l -> In (fst (fst e)) (node_names (nodes G))
                         /\ In (snd (fst e)) (node_names (nodes G))) ->
    nodes (fold_left (fun G e => let '(x, y, a) := e in add_edge G x y a) l G) = nodes G.
Proof.
  induction l as [|[[x y] a] l IH]; intros G Hl; cbn [fold_left]; [reflexivity|].
  assert (Hstep : nodes (add_edge G x y a) = nodes G).
  { destruct (Hl (x, y, a) (or_introl eq_refl)) as [Hx Hy]. cbn [fst snd] in Hx, Hy.
    unfold add_edge. cbn [nodes]. rewrite (add_node_in_noop _ x Hx).
    now apply add_node_in_noop. }
  rewrite IH; [exact Hstep|]. intros e He. rewrite Hstep. apply Hl. now right.
Qed.

Lemma to_undirected_node_list (g : DiGraph) :
  wf_digraph g = true -> nodes (to_undirected g) = d_nodes g.
Proof.
  intros Hwf. unfold to_undirected. rewrite fold_add_edge_nodes; [reflexivity|].
  intros e He. cbn [nodes]. apply in_flat_map in He. destruct He as [n [_ He]].
  apply filter_In in He. destruct He as [He _].
  unfold wf_digraph in Hwf. rewrite forallb_forall in Hwf. specialize (Hwf e He).
  apply andb_prop in Hwf. destruct Hwf as [H1 H2]. split; now apply d_has_node_In.
Qed.

Lemma typed_more (db : Database) (views views' : list ViewMetadata) (ns : NodeList) :
  incl views views' -> typed db views ns -> typed db views' ns.
Proof.
  intros Hincl H n a Hin. destruct (H n a Hin) as [Ht|[Hv [v [Hvin Hn]]]]; [now left|].
  right. split; [exact Hv|]. exists v. split; [now apply Hincl | exact Hn].
Qed.

Lemma add_view_typed (db : Database) (views : list ViewMetadata) (v : ViewMetadata)
    (g : Graph) :
  In v views -> typed db views (nodes g) -> typed db views (nodes (add_view g v)).
Proof.
  intros Hv Hg. unfold add_view.
  apply (view_edges_invariant
           (fun g => typed db views (nodes g) /\ has_node g (view_name v) = true)).
  - split.
    + intros n a Hin. unfold add_node in Hin. cbn [nodes] in Hin.
      apply add_node_in_entry in Hin.
      destruct Hin as [Hin|[-> [->|[b0 [_ ->]]]]].
      * now apply Hg.
      * right. split; [reflexivity | now exists v].
      * right. split; [reflexivity | now exists v].
    + apply has_node_In. unfold add_node. cbn [nodes]. apply add_node_in_names. now right.
  - intros g' t [Htyped Hnode] _ Ht. split; [|now apply has_node_add_edge].
    apply has_node_In in Hnode, Ht. unfold add_edge. cbn [nodes].
    rewrite (add_node_in_noop _ _ Hnode). now rewrite (add_node_in_noop _ _ Ht).
Qed.

Lemma unified_typed (db : Database) (views : list ViewMetadata) :
  forall (l : list ViewMetadata) (g : Graph),
    incl l views -> typed db views (nodes g) ->
    typed db views (nodes (fold_left add_view l g)).
Proof.
  induction l as [|v l IH]; intros g Hincl Hg; cbn [fold_left]; [exact Hg|].
  apply IH; [intros x Hx; apply Hincl; now right|].
  apply add_view_typed; [apply Hincl; now left | exact Hg].
Qed.

Lemma schema_typed (db : Database) (schema : DiGraph) :
  build_from_database db = Ok schema -> typed db [] (nodes (to_undirected schema)).
Proof.
  intros Hg. rewrite (to_undirected_node_list _ (build_from_database_wf db schema Hg)).
  destruct (build_from_database_graph db schema Hg) as [_ [Hc _]].
  intros n a Hin. destruct (Hc n a Hin) as [t [Ht [Hn [Htype _]]]].
  left. split; [exact Htype | now exists t].
Qed.

Lemma working_graph_typed (db : Database) (schema : DiGraph) (catalog : option Table)
    (use_views : bool) (graph : Graph) :
  build_from_database db = Ok schema ->
  working_graph schema catalog use_views = Ok graph ->
  exists views,
    typed db views (nodes graph)
    /\ forall v, In v views ->
                 use_views = true
                 /\ exists c, catalog = Some c /\ In v c /\ shortcut_status (status v).
Proof.
  intros Hg Hw. pose proof (schema_typed db schema Hg) as Hschema.
  unfold working_graph in Hw.
  destruct catalog as [c|]; [destruct use_views|];
    try (inversion Hw; subst graph; exists []; split; [exact Hschema | intros v []]).
  destruct (build_unified_graph_views _ _ _ Hw) as [views [-> Hviews]].
  exists views. split.
  - apply unified_typed; [apply incl_refl|].
    apply (typed_more db [] views); [intros x [] | exact Hschema].
  - intros v Hv. split; [reflexivity|]. exists c. split; [reflexivity|]. now apply Hviews.
Qed.

Lemma steiner_tree_nodes (g tree : Graph) (terminals : list string) :
  Approximation.steiner_tree g terminals = Ok tree -> incl (nodes tree) (nodes g).
Proof.
  unfold Approximation.steiner_tree. intros H.
  destruct (Approximation.metric_closure g terminals); [|discriminate H].
  cbn [bind] in H. inversion H. unfold edge_subgraph. cbn [nodes].
  intros p Hp. now apply filter_In in Hp.
Qed.

Lemma filter_split_length {A : Type} (f : A -> bool) (l : list A) :
  (length (filter (fun x => negb (f x)) l) + length (filter f l))%nat = length l.
Proof.
  induction l as [|a l IH]; cbn [filter]; [reflexivity|].
  destruct (f a); cbn [negb length]; lia.
Qed.

Lemma analyze_solution_typed (db : Database) (views : list ViewMetadata) (tree : Graph)
    (terminals : list string) (with_views : bool) :
  typed db views (nodes tree) ->
  total_nodes (analyze_solution tree terminals with_views)
  = (length (tables_used (analyze_solution tree terminals with_views))
     + length (views_used (analyze_solution tree terminals with_views)))%nat
  /\ (forall t, In t (tables_used (analyze_solution tree terminals with_views)) ->
                is_table db t)
  /\ (forall n, In n (views_used (analyze_solution tree terminals with_views)) ->
                exists v, In v views /\ view_name v = n).
Proof.
  intros Htyped. unfold analyze_solution.
  cbn [total_nodes tables_used views_used]. unfold node_names.
  rewrite !length_map. split; [now rewrite filter_split_length|]. split.
  - intros t Ht. apply in_map_iff in Ht. destruct Ht as [[n a] [Hn Hin]].
    cbn [fst] in Hn. subst n. apply filter_In in Hin. destruct Hin as [Hin Hview].
    destruct (Htyped t a Hin) as [[_ Ht]|[Hty _]]; [exact Ht|].
    unfold is_view_node in Hview. cbn [snd] in Hview. rewrite Hty in Hview.
    discriminate Hview.
  - intros n Hn. apply in_map_iff in Hn. destruct Hn as [[m a] [Hm Hin]].
    cbn [fst] in Hm. subst m. apply filter_In in Hin. destruct Hin as [Hin Hview].
    destruct (Htyped n a Hin) as [[Hty _]|[_ Hv]]; [|exact Hv].
    unfold is_view_node in Hview. cbn [snd] in Hview. rewrite Hty in Hview.
    discriminate Hview.
Qed.

(** X16: on the graph built from a database, every solution [solve]
    returns counts its nodes as tables used plus views used, reports as
    terminals only terminals it was given, uses as tables only tables of the
    database, and uses as views only catalog views that are PROMOTED or
    MATERIALIZED, and those only when asked to use views. *)
Theorem solve_uses (db : Database) (schema : DiGraph) (catalog : option Table)
    (terminals : list string) (use_views : bool) (sol : Solution) :
  build_from_database db = Ok schema ->
  solve schema catalog terminals use_views = Ok sol ->
  total_nodes sol = (length (tables_used sol) + length (views_used sol))%nat
  /\ (forall t, In t (terminal_tables sol) -> In t terminals)
  /\ (forall t, In t (tables_used sol) -> is_table db t)
  /\ (forall n, In n (views_used sol) ->
                use_views = true
                /\ exists c v, catalog = Some c /\ In v c
                               /\ shortcut_status (status v) /\ view_name v = n).
Proof.
  intros Hg Hsolve.
  destruct (build_from_database_graph db schema Hg) as [Hnodes _].
  set (good := fun sol : Solution =>
         total_nodes sol = (length (tables_used sol) + length (views_used sol))%nat
         /\ (forall t, In t (terminal_tables sol) -> In t terminals)
         /\ (forall t, In t (tables_used sol) -> is_table db t)
         /\ (forall n, In n (views_used sol) ->
                       use_views = true
                       /\ exists c v, catalog = Some c /\ In v c
                                      /\ shortcut_status (status v) /\ view_name v = n)).
  change (good sol).
  assert (Hempty : good empty_result).
  { unfold good. cbn. split; [reflexivity|]. split; [intros x []|]. split; intros x []. }
  assert (Hsingle : forall t, In t terminals -> d_has_node schema t = true ->
                              good (single_table_result t)).
  { intros t Ht Hnode. unfold good. cbn. split; [reflexivity|]. split; [|split].
    - intros x [<-|[]]. exact Ht.
    - intros x [<-|[]]. apply Hnodes. now apply d_has_node_In.
    - intros x []. }
  assert (Hanalyze : forall graph tree kept,
            working_graph schema catalog use_views = Ok graph ->
            incl (nodes tree) (nodes graph) -> incl kept terminals ->
            good (analyze_solution tree kept use_views)).
  { intros graph tree kept Hw Hincl Hkept.
    destruct (working_graph_typed db schema catalog use_views graph Hg Hw)
      as [views [Htyped Hviews]].
    assert (Htree : typed db views (nodes tree))
      by (intros n a Hin; apply Htyped; now apply Hincl).
    destruct (analyze_solution_typed db views tree kept use_views Htree) as [A1 [A2 A3]].
    split; [exact A1|]. split; [exact Hkept|]. split; [exact A2|].
    intros n Hn. destruct (A3 n Hn) as [v [Hv Hname]].
    destruct (Hviews v Hv) as [Huse [c [Hc [Hin Hst]]]].
    split; [exact Huse|]. now exists c, v. }
  clearbody good. unfold solve in Hsolve.
  destruct (filter (fun t => negb (d_has_node schema t)) terminals) as [|m ms] eqn:Hmissing;
    [|discriminate Hsolve].
  assert (Hknown : forall t, In t terminals -> d_has_node schema t = true).
  { intros t Ht. destruct (d_has_node schema t) eqn:Hn; [reflexivity|].
    assert (Hin : In t (filter (fun t => negb (d_has_node schema t)) terminals))
      by (apply filter_In; split; [exact Ht | now rewrite Hn]).
    rewrite Hmissing in Hin. destruct Hin. }
  destruct terminals as [|t1 [|t2 rest]].
  - injection Hsolve as <-. exact Hempty.
  - injection Hsolve as <-. apply Hsingle; [now left | apply Hknown; now left].
  - destruct (working_graph schema catalog use_views) as [graph|] eqn:Hw;
      [|discriminate Hsolve].
    cbn [bind] in Hsolve.
    destruct (is_connected graph) as [[|]|] eqn:Hconn; [| |discriminate Hsolve];
      cbn [bind] in Hsolve.
    + destruct (Approximation.steiner_tree graph (t1 :: t2 :: rest)) as [tree|] eqn:Htree;
        [|discriminate Hsolve].
      cbn [bind] in Hsolve. injection Hsolve as <-.
      apply (Hanalyze graph tree (t1 :: t2 :: rest) eq_refl); [|apply incl_refl].
      now apply (steiner_tree_nodes graph tree (t1 :: t2 :: rest)).
    + cbv zeta in Hsolve.
      set (component := subgraph graph (largest_component graph)) in *.
      assert (Hcomp : incl (nodes component) (nodes graph)).
      { unfold component, subgraph. cbn [nodes]. intros p Hp. now apply filter_In in Hp. }
      assert (Hkept : incl (filter (has_node component) (t1 :: t2 :: rest))
                           (t1 :: t2 :: rest))
        by (intros x Hx; now apply filter_In in Hx).
      destruct (filter (has_node component) (t1 :: t2 :: rest)) as [|k1 [|k2 kept]] eqn:Hf.
      * injection Hsolve as <-. exact Hempty.
      * injection Hsolve as <-.
        apply Hsingle; [apply Hkept; now left | apply Hknown, Hkept; now left].
      * destruct (Approximation.steiner_tree component (k1 :: k2 :: kept)) as [tree|]
          eqn:Htree; [|discriminate Hsolve].
        cbn [bind] in Hsolve. injection Hsolve as <-.
        apply (Hanalyze graph tree (k1 :: k2 :: kept) eq_refl); [|exact Hkept].
        intros p Hp. apply Hcomp.
        now apply (steiner_tree_nodes component tree (k1 :: k2 :: kept)).
Qed.

Lemma solve_uses_witness :
  exists sol,
    solve (schema_of merchant_db) (Some merchant_catalog) ["transactions"; "mcc_codes"] true
    = Ok sol
    /\ total_nodes sol = (length (tables_used sol) + length (views_used sol))%nat.
Proof.
  destruct (solve (schema_of merchant_db) (Some merchant_catalog)
              ["transactions"; "mcc_codes"] true) as [sol|] eqn:Hsol;
    [|vm_compute in Hsol; discriminate Hsol].
  exists sol. split; [reflexivity|].
  now destruct (solve_uses merchant_db (schema_of merchant_db) (Some merchant_catalog)
                  ["transactions"; "mcc_codes"] true sol eq_refl Hsol).
Defined.

Lemma round_half_even_comp (q q' : Q) :
  q == q' -> round_half_even q = round_half_even q'.
Proof.
  intros H. unfold round_half_even. cbv zeta.
  rewrite (Qfloor_comp q q' H).
  assert (Hd : q - inject_Z (Qfloor q') == q' - inject_Z (Qfloor q'))
    by (now rewrite H).
  now rewrite (Qcompare_comp _ _ Hd (1 # 2) (1 # 2) (Qeq_refl _)).
Qed.

Lemma round_comp (q q' : Q) (ndigits : nat) : q == q' -> round q ndigits = round q' ndigits.
Proof.
  intros H. unfold round.
  assert (Hm : q * inject_Z (10 ^ Z.of_nat ndigits) == q' * inject_Z (10 ^ Z.of_nat ndigits))
    by (now rewrite H).
  now rewrite (round_half_even_comp _ _ Hm).
Qed.

Lemma round_zero (q : Q) (ndigits : nat) : q == 0 -> round q ndigits = 0.
Proof.
  intros H. rewrite (round_comp q 0 ndigits H). unfold round.
  transitivity (Qred 0); [|reflexivity]. apply Qred_complete.
  rewrite (round_half_even_comp _ 0 (Qmult_0_l _)).
  change (round_half_even 0) with 0%Z. unfold Qdiv. apply Qmult_0_l.
Qed.

Lemma working_graph_no_shortcuts (schema : DiGraph) (c : Table) (graph : Graph) :
  (forall v, In v c -> ~ shortcut_status (status v)) ->
  working_graph schema (Some c) true = Ok graph -> graph = to_undirected schema.
Proof.
  intros Hnone Hw. cbn [working_graph] in Hw.
  destruct (build_unified_graph_views _ _ _ Hw) as [views [-> Hviews]].
  destruct views as [|v views]; [reflexivity|].
  exfalso. destruct (proj1 (Hviews v) (or_introl eq_refl)) as [Hin Hst].
  now apply (Hnone v).
Qed.

(** Without a view that may serve as a shortcut, asking for views changes
    nothing but the flag. *)
Lemma solve_no_shortcuts (schema : DiGraph) (c : Table) (terminals : list string)
    (s' : Solution) :
  (forall v, In v c -> ~ shortcut_status (status v)) ->
  solve schema (Some c) terminals true = Ok s' ->
  exists s,
    solve schema (Some c) terminals false = Ok s
    /\ sol_subgraph s' = sol_subgraph s
    /\ terminal_tables s' = terminal_tables s
    /\ tables_used s' = tables_used s
    /\ views_used s' = views_used s
    /\ total_edges s' = total_edges s
    /\ total_cost s' = total_cost s.
Proof.
  intros Hnone H. unfold solve in *.
  destruct (filter (fun t => negb (d_has_node schema t)) terminals) as [|m ms];
    [|discriminate H].
  destruct terminals as [|t1 [|t2 rest]].
  - exists s'. repeat split; exact H.
  - exists s'. repeat split; exact H.
  - destruct (working_graph schema (Some c) true) as [graph|] eqn:Hw; [|discriminate H].
    apply (working_graph_no_shortcuts schema c graph Hnone) in Hw. subst graph.
    cbn [working_graph bind] in H |- *.
    destruct (is_connected (to_undirected schema)) as [[|]|]; [| |discriminate H];
      cbn [bind] in H |- *.
    + destruct (Approximation.steiner_tree (to_undirected schema) (t1 :: t2 :: rest))
        as [tree|]; [|discriminate H].
      cbn [bind] in H |- *. injection H as <-. eexists. split; [reflexivity|].
      repeat split.
    + cbv zeta in H |- *.
      destruct (filter (has_node (subgraph (to_undirected schema)
                                    (largest_component (to_undirected schema))))
                       (t1 :: t2 :: rest)) as [|k1 [|k2 kept]].
      * exists s'. repeat split; exact H.
      * exists s'. repeat split; exact H.
      * destruct (Approximation.steiner_tree _ (k1 :: k2 :: kept)) as [tree|];
          [|discriminate H].
        cbn [bind] in H |- *. injection H as <-. eexists. split; [reflexivity|].
        repeat split.
Qed.

(** X17: when there is no catalog, or no catalog view is PROMOTED or
    MATERIALIZED, [compare_solutions] reports the same tables, cost and edge
    count with views as without, and savings of exactly zero. *)
Theorem compare_solutions_no_shortcuts (schema : DiGraph) (catalog : option Table)
    (terminals : list string) (r : Comparison) :
  (forall c v, catalog = Some c -> In v c -> ~ shortcut_status (status v)) ->
  compare_solutions schema catalog terminals = Ok r ->
  with_tables r = without_tables r
  /\ with_cost r = without_cost r
  /\ with_edges r = without_edges r
  /\ cost_reduction r = 0
  /\ cost_reduction_pct r = 0
  /\ tables_avoided r = 0%Z.
Proof.
  intros Hnone H. unfold compare_solutions in H.
  destruct (solve schema catalog terminals false) as [s|] eqn:Hs; [|discriminate H].
  cbn [bind] in H.
  assert (Hwith : exists s',
             match catalog with
             | Some _ => solve schema catalog terminals true
             | None => Ok s
             end = Ok s'
             /\ tables_used s' = tables_used s
             /\ total_edges s' = total_edges s
             /\ total_cost s' = total_cost s).
  { destruct catalog as [c|].
    - destruct (solve schema (Some c) terminals true) as [s'|] eqn:Hs'; [|discriminate H].
      destruct (solve_no_shortcuts schema c terminals s' (fun v => Hnone c v eq_refl) Hs')
        as [s0 [Hs0 [_ [_ [H1 [_ [H2 H3]]]]]]].
      rewrite Hs in Hs0. injection Hs0 as <-. now exists s'.
    - now exists s. }
  destruct Hwith as [s' [Hs' [H1 [H2 H3]]]]. rewrite Hs' in H. cbn [bind] in H.
  cbv zeta in H. injection H as <-.
  cbn [with_tables without_tables with_cost without_cost with_edges without_edges
       cost_reduction cost_reduction_pct tables_avoided].
  rewrite H1, H2, H3. repeat split.
  - apply round_zero. apply Qplus_opp_r.
  - destruct (Qle_bool (total_cost s) 0); [reflexivity|].
    apply round_zero. unfold Qdiv, Qminus. rewrite Qplus_opp_r. now rewrite !Qmult_0_l.
  - lia.
Qed.

Lemma compare_solutions_no_shortcuts_witness :
  exists r,
    compare_solutions (schema_of hub_db) None ["accounts"; "branches"; "devices"] = Ok r
    /\ cost_reduction r = 0 /\ with_cost r = without_cost r.
Proof.
  destruct (compare_solutions (schema_of hub_db) None ["accounts"; "branches"; "devices"])
    as [r|] eqn:Hr; [|vm_compute in Hr; discriminate Hr].
  exists r. split; [reflexivity|].
  destruct (compare_solutions_no_shortcuts (schema_of hub_db) None
              ["accounts"; "branches"; "devices"] r) as [_ [H1 [_ [H2 _]]]].
  - intros c v Hc. discriminate Hc.
  - exact Hr.
  - split; [exact H2 | exact H1].
Defined.

(** ** Recommendations *)

Lemma take_prefix {A : Type} (k : Z) (l : list A) : exists rest, l = take k l ++ rest.
Proof.
  unfold take. destruct (0 <=? k)%Z; eexists; symmetry; apply firstn_skipn.
Qed.

Lemma by_score_desc_asym (a b : Z * ViewMetadata) :
  by_score_desc a b = true -> by_score_desc b a = false.
Proof.
  unfold by_score_desc. intros H. apply Z.ltb_lt in H. apply Z.ltb_ge. lia.
Qed.

Lemma by_score_desc_neg_trans (a b d : Z * ViewMetadata) :
  by_score_desc a d = true -> by_score_desc a b = true \/ by_score_desc b d = true.
Proof.
  unfold by_score_desc. intros H. apply Z.ltb_lt in H.
  destruct (Z_lt_le_dec (fst b) (fst a)) as [Hlt|Hle].
  - left. now apply Z.ltb_lt.
  - right. apply Z.ltb_lt. lia.
Qed.

Lemma coverage_pos (terminal_tables : list string) (view : ViewMetadata) :
  uses_any terminal_tables view = true -> (1 <= coverage view terminal_tables)%Z.
Proof.
  intros H. apply uses_any_spec in H. destruct H as [t [Ht Hb]].
  unfold coverage.
  assert (Hin : In t (nodup string_dec
                        (filter (fun t => mem t terminal_tables) (base_tables view)))).
  { apply nodup_In, filter_In. split; [exact Hb | now apply mem_In]. }
  destruct (nodup string_dec _) as [|x l]; [destruct Hin | cbn [length]; lia].
Qed.

(** X18: [recommend_views] returns the best-scored views over the terminal
    tables: what it returns and what it leaves out are together the views of
    [find_by_base_tables], the returned ones in order of falling score
    (ten per covered terminal table plus the usage count), none of them
    scored below a view left out, each covering at least one terminal table,
    and for a non-negative [top_k] at most [top_k] of them. *)
Theorem recommend_views_top (c : Table) (terminal_tables : list string) (top_k : Z)
    (vs : list ViewMetadata) :
  recommend_views (Some c) terminal_tables top_k = Ok vs ->
  exists found rest,
    find_by_base_tables c terminal_tables = Ok found
    /\ (forall v, In v found <-> In v vs \/ In v rest)
    /\ length found = (length vs + length rest)%nat
    /\ StronglySorted (fun a b => (score terminal_tables b <= score terminal_tables a)%Z) vs
    /\ (forall v w, In v vs -> In w rest ->
                    (score terminal_tables w <= score terminal_tables v)%Z)
    /\ (forall v, In v vs -> (1 <= coverage v terminal_tables)%Z)
    /\ ((0 <= top_k)%Z -> (Z.of_nat (length vs) <= top_k)%Z).
Proof.
  unfold recommend_views. intros H.
  destruct (find_by_base_tables c terminal_tables) as [found|] eqn:Hfound;
    [|discriminate H].
  cbn [bind] in H. cbv zeta in H. injection H as <-.
  set (scored := map (fun view => (score terminal_tables view, view)) found).
  set (sorted := order_by by_score_desc scored).
  destruct (take_prefix top_k sorted) as [rest Hrest].
  assert (Hsorted : StronglySorted (fun a b => by_score_desc b a = false) sorted)
    by (apply order_by_sorted; [exact by_score_desc_asym | exact by_score_desc_neg_trans]).
  assert (Hscored : forall p, In p sorted -> fst p = score terminal_tables (snd p)
                                             /\ In (snd p) found).
  { intros p Hp. apply order_by_in in Hp. apply in_map_iff in Hp.
    destruct Hp as [v [<- Hv]]. now split. }
  assert (Hparts : forall p, In p sorted <-> In p (take top_k sorted) \/ In p rest)
    by (intros p; rewrite Hrest at 1; apply in_app_iff).
  exists found, (map snd rest). split; [reflexivity|]. split; [|split; [|split; [|split]]].
  - intros v. split.
    + intros Hv.
      assert (Hp : In (score terminal_tables v, v) sorted).
      { apply order_by_in. apply in_map_iff. now exists v. }
      apply Hparts in Hp.
      destruct Hp as [Hp|Hp]; [left | right]; apply in_map_iff;
        now exists (score terminal_tables v, v).
    + intros [Hv|Hv]; apply in_map_iff in Hv; destruct Hv as [p [<- Hp]];
        apply Hscored, Hparts; [now left | now right].
  - rewrite !length_map. rewrite <- length_app, <- Hrest. unfold sorted.
    rewrite order_by_length. unfold scored. now rewrite length_map.
  - rewrite Hrest in Hsorted. apply sorted_app_l in Hsorted.
    assert (Hsub : forall p, In p (take top_k sorted) -> In p sorted)
      by (intros p Hp; apply Hparts; now left).
    revert Hsorted Hsub. generalize (take top_k sorted) as l.
    induction l as [|p l IH]; intros Hs Hsub; cbn [map]; [constructor|].
    inversion Hs as [|? ? Hs' Hall]. subst. constructor.
    + apply IH; [exact Hs'|]. intros q Hq. apply Hsub. now right.
    + apply Forall_forall. intros w Hw. apply in_map_iff in Hw.
      destruct Hw as [q [<- Hq]]. rewrite Forall_forall in Hall.
      specialize (Hall q Hq). unfold by_score_desc in Hall. apply Z.ltb_ge in Hall.
      destruct (Hscored p (Hsub p (or_introl eq_refl))) as [<- _].
      destruct (Hscored q (Hsub q (or_intror Hq))) as [<- _]. exact Hall.
  - intros v w Hv Hw. apply in_map_iff in Hv, Hw.
    destruct Hv as [p [<- Hp]]. destruct Hw as [q [<- Hq]].
    rewrite Hrest in Hsorted.
    pose proof (StronglySorted_app_inv _ _ _ Hsorted p q Hp Hq) as Hle.
    unfold by_score_desc in Hle. apply Z.ltb_ge in Hle.
    destruct (Hscored p (proj2 (Hparts p) (or_introl Hp))) as [<- _].
    destruct (Hscored q (proj2 (Hparts q) (or_intror Hq))) as [<- _]. exact Hle.
  - split.
    + intros v Hv. apply in_map_iff in Hv. destruct Hv as [p [<- Hp]].
      destruct (Hscored p (proj2 (Hparts p) (or_introl Hp))) as [_ Hin].
      unfold find_by_base_tables in Hfound.
      destruct (get_all_views c None None) as [all_views|]; [|discriminate Hfound].
      cbn [bind] in Hfound. injection Hfound as <-. apply filter_In in Hin.
      now apply coverage_pos.
    + intros Hk. rewrite length_map. now apply take_length.
Qed.

Lemma recommend_views_top_witness :
  exists found rest,
    find_by_base_tables fraud_views ["transactions"; "channels"] = Ok found
    /\ forall v, In v found
                 <-> In v [sample_view 2 "v_fraud_new" "fraud" "DRAFT" 0 20
                             ["transactions"; "channels"]]
                     \/ In v rest.
Proof.
  destruct (recommend_views_top fraud_views ["transactions"; "channels"] 1
              [sample_view 2 "v_fraud_new" "fraud" "DRAFT" 0 20
                 ["transactions"; "channels"]] eq_refl)
    as [found [rest [H1 [H2 _]]]].
  now exists found, rest.
Defined.

(** ** View integration *)













Lemma resolve_length (c : Table) (names : list string) (vs : list ViewMetadata) :
  resolve c names = Ok vs -> (length vs <= length names)%nat.
Proof.
  revert vs. induction names as [|n names IH]; cbn [resolve]; intros vs H.
  - injection H as <-. cbn. lia.
  - destruct (find_by_name c n) as [found|]; [|discriminate H]. cbn [bind] in H.
    destruct (resolve c names) as [rest|]; [|discriminate H]. cbn [bind] in H.
    injection H as <-. specialize (IH rest eq_refl).
    destruct found; cbn [length]; lia.
Qed.

Lemma get_view_lineage_found (c : Table) (n : string) (view : ViewMetadata) :
  find_by_name c n = Ok (Some view) ->
  exists r,
    get_view_lineage c n = Some r
    /\ r <> Ok None
    /\ forall l, r = Ok (Some l) ->
                 (length (downstream_views l) <= length (used_by_views view))%nat.
Proof.
  intros Hfind. unfold get_view_lineage. rewrite Hfind.
  destruct (find_by_name_some c n view Hfind) as [Hin _].
  destruct (resolve c (depends_on_views view)) as [upstream|e];
    [|eexists; split; [reflexivity|]; split; [discriminate | intros l Hl; discriminate Hl]].
  destruct (resolve c (used_by_views view)) as [downstream|e] eqn:Hdown;
    [|eexists; split; [reflexivity|]; split; [discriminate | intros l Hl; discriminate Hl]].
  destruct (calculate_depth_bound c (S (length c)) view [] Hin) as [r [Hcalc _]].
  { rewrite filter_all by reflexivity. lia. }
  rewrite Hcalc. destruct r as [depth|e];
    [|eexists; split; [reflexivity|]; split; [discriminate | intros l Hl; discriminate Hl]].
  eexists. split; [reflexivity|]. split; [discriminate|].
  intros l Hl. injection Hl as <-. cbn [downstream_views].
  now apply (resolve_length c).
Qed.

Lemma filter_length_le_in {A : Type} (f : A -> bool) (l : list A) (x : A) :
  In x l -> f x = false -> (length (filter f l) < length l)%nat.
Proof.
  induction l as [|a l IH]; intros Hin Hx; [destruct Hin|].
  cbn [filter length]. pose proof (filter_length_le f l) as Hle.
  destruct Hin as [->|Hin].
  - rewrite Hx. lia.
  - specialize (IH Hin Hx). destruct (f a); cbn [length]; lia.
Qed.

Lemma flat_map_length_le {A B : Type} (f : A -> list B) (p : A -> bool) (l : list A) :
  (forall a, (length (f a) <= 1)%nat) -> (forall a, p a = false -> f a = []) ->
  (length (flat_map f l) <= length (filter p l))%nat.
Proof.
  intros H1 H0. induction l as [|a l IH]; cbn [flat_map filter]; [cbn; lia|].
  rewrite length_app. destruct (p a) eqn:Hp.
  - cbn [length]. specialize (H1 a). lia.
  - rewrite (H0 a Hp). cbn [length]. lia.
Qed.

(** X20: [get_view_impact_analysis] always returns; for an unknown name
    it gives the error answer, and otherwise the analysis of the row of that
    name: the impact score is the usage count plus two per beneficiary, the
    beneficiaries are fewer than the catalog has rows, at most five of them
    are recommended, and every recommendation is another catalog view that
    shares with the analysed view the tables it lists, at least one; the
    downstream count never exceeds the length of the row's [used_by_views]. *)
Theorem get_view_impact_analysis_score (c : Table) (n : string) :
  exists r,
    get_view_impact_analysis c n = Some r
    /\ (r = Ok None <-> forall row, In row c -> view_name row <> n)
    /\ forall a, r = Ok (Some a) ->
         In (impact_view a) c
         /\ view_name (impact_view a) = n
         /\ impact_usage_count a = usage_count (impact_view a)
         /\ impact_score a
            = (usage_count (impact_view a) + 2 * Z.of_nat (potential_beneficiaries a))%Z
         /\ (potential_beneficiaries a < length c)%nat
         /\ length (recommendations a) = Nat.min 5 (potential_beneficiaries a)
         /\ (impact_downstream_views a <= length (used_by_views (impact_view a)))%nat
         /\ forall b, In b (recommendations a) ->
              beneficiary b <> n
              /\ potential_savings b = length (tables_overlap b)
              /\ (1 <= potential_savings b)%nat
              /\ exists v, In v c /\ view_name v = beneficiary b
                           /\ forall t, In t (tables_overlap b) ->
                                        In t (base_tables v)
                                        /\ In t (base_tables (impact_view a)).
Proof.
  unfold get_view_impact_analysis.
  destruct (find_by_name c n) as [[view|]|e] eqn:Hfind.
  2:{ eexists. split; [reflexivity|]. split; [|intros a Ha; discriminate Ha].
      split; [intros _; now apply find_by_name_none | reflexivity]. }
  2:{ eexists. split; [reflexivity|]. split; [|intros a Ha; discriminate Ha].
      split; [intros H; discriminate H|].
      intros H. apply find_by_name_none in H. rewrite H in Hfind. discriminate Hfind. }
  destruct (find_by_name_some c n view Hfind) as [Hin Hname].
  assert (Hsome : ~ forall row, In row c -> view_name row <> n)
    by (intros H; now apply (H view Hin)).
  destruct (get_view_lineage_found c n view Hfind) as [rl [Hrl [Hnot Hdown]]].
  rewrite Hrl.
  destruct rl as [lineage|e].
  2:{ eexists. split; [reflexivity|]. split; [|intros a Ha; discriminate Ha].
      split; [intros H; discriminate H | intros H; now contradiction Hsome]. }
  destruct (get_all_views c None None) as [all_views|e] eqn:Hall.
  2:{ eexists. split; [reflexivity|]. split; [|intros a Ha; discriminate Ha].
      split; [intros H; discriminate H | intros H; now contradiction Hsome]. }
  destruct lineage as [l|]; [|now contradiction Hnot].
  remember (flat_map _ all_views) as potential eqn:Hpot.
  cbv zeta. eexists. split; [reflexivity|]. split.
  { split; [intros H; discriminate H | intros H; now contradiction Hsome]. }
  intros a Ha. injection Ha as <-.
  cbn [impact_view impact_usage_count impact_score potential_beneficiaries
       recommendations impact_downstream_views].
  apply get_all_views_all in Hall.
  split; [exact Hin|]. split; [exact Hname|]. split; [reflexivity|]. split; [lia|].
  split; [|split; [|split; [now apply Hdown|]]].
  - assert (Hle : (length potential
                   <= length (filter (fun v => negb (String.eqb (view_name v) n)) all_views))%nat).
    { rewrite Hpot. apply flat_map_length_le.
      - intros v. destruct (String.eqb (view_name v) n); [cbn; lia|].
        destruct (nodup string_dec _); cbn; lia.
      - intros v Hv. apply negb_false_iff in Hv. now rewrite Hv. }
    assert (Hlt : (length (filter (fun v => negb (String.eqb (view_name v) n)) all_views)
                   < length all_views)%nat).
    { apply (filter_length_le_in _ _ view).
      - subst all_views. now apply order_by_in.
      - rewrite Hname, String.eqb_refl. reflexivity. }
    assert (Hlen : length all_views = length c)
      by (subst all_views; apply order_by_length).
    lia.
  - unfold take. cbn [Z.leb Z.compare Z.to_nat Pos.to_nat Pos.iter_op Nat.add].
    apply length_firstn.
  - intros b Hb. apply take_in in Hb. rewrite Hpot in Hb. apply in_flat_map in Hb.
    destruct Hb as [v [Hv Hb]].
    destruct (String.eqb_spec (view_name v) n) as [Heq|Hne]; [destruct Hb|].
    destruct (nodup string_dec (filter (fun t => mem t (base_tables view)) (base_tables v)))
      as [|t0 overlap] eqn:Hoverlap; [destruct Hb|].
    cbv zeta in Hb. destruct Hb as [<-|[]].
    cbn [beneficiary potential_savings tables_overlap].
    split; [exact Hne|]. split; [reflexivity|]. split; [cbn; lia|].
    exists v. split; [subst all_views; now apply order_by_in in Hv|].
    split; [reflexivity|]. intros t Ht. rewrite <- Hoverlap in Ht.
    apply nodup_In, filter_In in Ht. destruct Ht as [H1 H2].
    split; [exact H1 | now apply mem_In].
Qed.

(** ** The lifecycle and the solver *)

Lemma has_node_false (g : Graph) (n : string) :
  has_node g n = false <-> ~ In n (node_names (nodes g)).
Proof.
  rewrite <- has_node_In. destruct (has_node g n); split; intros H.
  - discriminate H.
  - now contradiction H.
  - intros H'. discriminate H'.
  - reflexivity.
Qed.

(** Where the nodes of a solution come from. *)
Lemma solve_within (schema : DiGraph) (catalog : option Table) (terminals : list string)
    (use_views : bool) (sol : Solution) (x : string) :
  solve schema catalog terminals use_views = Ok sol ->
  In x (tables_used sol) \/ In x (views_used sol) ->
  d_has_node schema x = true
  \/ exists graph, working_graph schema catalog use_views = Ok graph
                   /\ has_node graph x = true.
Proof.
  intros Hsolve Hx. unfold solve in Hsolve.
  destruct (filter (fun t => negb (d_has_node schema t)) terminals) as [|m ms] eqn:Hmissing;
    [|discriminate Hsolve].
  assert (Hknown : forall t, In t terminals -> d_has_node schema t = true).
  { intros t Ht. destruct (d_has_node schema t) eqn:Hn; [reflexivity|].
    assert (Hin : In t (filter (fun t => negb (d_has_node schema t)) terminals))
      by (apply filter_In; split; [exact Ht | now rewrite Hn]).
    rewrite Hmissing in Hin. destruct Hin. }
  assert (Hanalyze : forall graph tree kept,
            incl (nodes tree) (nodes graph) ->
            In x (tables_used (analyze_solution tree kept use_views))
            \/ In x (views_used (analyze_solution tree kept use_views)) ->
            has_node graph x = true).
  { intros graph tree kept Hincl Hin. apply has_node_In. unfold analyze_solution in Hin.
    cbn [tables_used views_used] in Hin. unfold node_names in *.
    destruct Hin as [Hin|Hin]; apply in_map_iff in Hin; destruct Hin as [p [Hp Hin]];
      apply filter_In in Hin; destruct Hin as [Hin _]; apply in_map_iff;
      exists p; (split; [exact Hp | now apply Hincl]). }
  destruct terminals as [|t1 [|t2 rest]].
  - injection Hsolve as <-. cbn in Hx. tauto.
  - injection Hsolve as <-. cbn in Hx. destruct Hx as [[<-|[]]|[]].
    left. apply Hknown. now left.
  - destruct (working_graph schema catalog use_views) as [graph|] eqn:Hw;
      [|discriminate Hsolve].
    cbn [bind] in Hsolve. right. exists graph. split; [reflexivity|].
    destruct (is_connected graph) as [[|]|] eqn:Hconn; [| |discriminate Hsolve];
      cbn [bind] in Hsolve.
    + destruct (Approximation.steiner_tree graph (t1 :: t2 :: rest)) as [tree|] eqn:Htree;
        [|discriminate Hsolve].
      cbn [bind] in Hsolve. injection Hsolve as <-.
      apply (Hanalyze graph tree (t1 :: t2 :: rest)); [|exact Hx].
      now apply (steiner_tree_nodes graph tree (t1 :: t2 :: rest)).
    + cbv zeta in Hsolve.
      set (component := subgraph graph (largest_component graph)) in *.
      assert (Hcomp : incl (nodes component) (nodes graph)).
      { unfold component, subgraph. cbn [nodes]. intros p Hp. now apply filter_In in Hp. }
      destruct (filter (has_node component) (t1 :: t2 :: rest)) as [|k1 [|k2 kept]] eqn:Hf.
      * injection Hsolve as <-. cbn in Hx. tauto.
      * injection Hsolve as <-. cbn in Hx. destruct Hx as [[<-|[]]|[]].
        assert (Hk : In k1 (filter (has_node component) (t1 :: t2 :: rest)))
          by (rewrite Hf; now left).
        apply filter_In in Hk. destruct Hk as [_ Hk].
        apply has_node_In in Hk. apply has_node_In. unfold node_names in *.
        apply in_map_iff in Hk. destruct Hk as [p [Hp Hin]]. apply in_map_iff.
        exists p. split; [exact Hp | now apply Hcomp].
      * destruct (Approximation.steiner_tree component (k1 :: k2 :: kept)) as [tree|]
          eqn:Htree; [|discriminate Hsolve].
        cbn [bind] in Hsolve. injection Hsolve as <-.
        apply (Hanalyze graph tree (k1 :: k2 :: kept)); [|exact Hx].
        intros p Hp. apply Hcomp.
        now apply (steiner_tree_nodes component tree (k1 :: k2 :: kept)).
Qed.

Lemma delete_view_archives (c : Table) (n : string) (r : ViewMetadata) :
  In r (fst (delete_view c n)) -> view_name r = n -> status r = "ARCHIVED".
Proof.
  unfold delete_view, update_view, execute_update. cbn [fst]. intros Hin Hn.
  apply in_map_iff in Hin. destruct Hin as [x [Hx Hin]].
  destruct (name_is n x) eqn:Hnx.
  - subst r. destruct x. reflexivity.
  - subst r. apply name_is_false in Hnx. contradiction.
Qed.

Lemma unified_without (schema : DiGraph) (c : Table) (n : string) (U : Graph) :
  has_node (to_undirected schema) n = false ->
  (forall r, In r c -> view_name r = n -> ~ shortcut_status (status r)) ->
  build_unified_graph schema c = Ok U ->
  has_node U n = false.
Proof.
  intros Hschema Hrows HU.
  destruct (build_unified_graph_views _ _ _ HU) as [views [-> Hviews]].
  apply has_node_false. rewrite unified_names. intros [H|[v [Hv Hn]]].
  - apply has_node_false in Hschema. contradiction.
  - apply Hviews in Hv. destruct Hv as [Hin Hst]. now apply (Hrows v Hin Hn).
Qed.

(** X21: a view that was archived by [delete_view] is out of the solver's
    reach: unless its name is also a node of the schema graph, it is not a
    node of the unified graph built afterwards, and no solution found with
    views lists it, neither as a view nor as a table. *)
Theorem archived_view_unused (schema : DiGraph) (c : Table) (n : string)
    (terminals : list string) :
  has_node (to_undirected schema) n = false ->
  (forall U, build_unified_graph schema (fst (delete_view c n)) = Ok U ->
             has_node U n = false)
  /\ forall sol, solve schema (Some (fst (delete_view c n))) terminals true = Ok sol ->
                 ~ In n (views_used sol) /\ ~ In n (tables_used sol).
Proof.
  intros Hschema.
  assert (Hgraph : forall U, build_unified_graph schema (fst (delete_view c n)) = Ok U ->
                             has_node U n = false).
  { intros U HU. apply (unified_without schema (fst (delete_view c n)) n U Hschema);
      [|exact HU].
    intros r Hr Hn [Hst|Hst]; rewrite (delete_view_archives c n r Hr Hn) in Hst;
      discriminate Hst. }
  split; [exact Hgraph|].
  intros sol Hsol.
  assert (Hout : ~ (In n (tables_used sol) \/ In n (views_used sol))).
  { intros Hin.
    destruct (solve_within schema _ terminals true sol n Hsol Hin) as [Hn|[graph [Hw Hn]]].
    - apply to_undirected_keeps_nodes in Hn. congruence.
    - cbn [working_graph] in Hw. rewrite (Hgraph graph Hw) in Hn. discriminate Hn. }
  tauto.
Qed.

Lemma archived_view_unused_witness :
  exists U,
    build_unified_graph (schema_of merchant_db)
      (fst (delete_view [merchant_risk_profile] "v_merchant_risk_profile")) = Ok U
    /\ has_node U "v_merchant_risk_profile" = false.
Proof.
  destruct (build_unified_graph (schema_of merchant_db)
              (fst (delete_view [merchant_risk_profile] "v_merchant_risk_profile")))
    as [U|] eqn:HU; [|vm_compute in HU; discriminate HU].
  exists U. split; [reflexivity|].
  exact (proj1 (archived_view_unused (schema_of merchant_db) [merchant_risk_profile]
                  "v_merchant_risk_profile" [] eq_refl) U HU).
Defined.

Lemma promoted_row (now : timestamp) (r : ViewMetadata) :
  view_name (set_promoted_date (Some now) (set_status "PROMOTED" r)) = view_name r
  /\ status (set_promoted_date (Some now) (set_status "PROMOTED" r)) = "PROMOTED"
  /\ base_tables (set_promoted_date (Some now) (set_status "PROMOTED" r)) = base_tables r.
Proof. destruct r. repeat split. Qed.

Lemma unified_with (schema : DiGraph) (c : Table) (U : Graph) (n : string)
    (r r' : ViewMetadata) :
  In r' c -> view_name r' = n -> status r' = "PROMOTED" ->
  base_tables r' = base_tables r ->
  build_unified_graph schema c = Ok U ->
  shortcut schema U n r.
Proof.
  intros Hin Hn Hst Hbase HU.
  destruct (build_unified_graph_views _ _ _ HU) as [views [-> Hviews]].
  assert (Hv : In r' views) by (apply Hviews; split; [exact Hin | now left]).
  split.
  - apply has_node_In, unified_names. right. now exists r'.
  - intros t Ht Hnode. rewrite <- Hn. apply unified_view_edge; [exact Hv| |exact Hnode].
    now rewrite Hbase.
Qed.

(** X22: promotion is what makes a view a shortcut.  For a DRAFT view
    stored under a unique name in a catalog of valid rows: the unified graph
    does not have it as a node (unless the schema has a node of that name);
    after [promote_view], and likewise after the [increment_usage] that
    finds its usage count at 2 or more and below 2^63 - 1 (so that the
    incremented count is a 64-bit integer of 3 or more), the unified graph has
    the view as a node and joins it at weight zero to each of its base tables
    that the schema has. *)
Theorem promotion_adds_shortcut (schema : DiGraph) (c : Table) (n : string)
    (r : ViewMetadata) (now t_used t_promoted : timestamp) :
  well_formed c -> stored c n = Some r -> status r = "DRAFT" ->
  (forall U, build_unified_graph schema c = Ok U ->
             has_node (to_undirected schema) n = false -> has_node U n = false)
  /\ (forall U, build_unified_graph schema (fst (promote_view c n now)) = Ok U ->
                shortcut schema U n r)
  /\ ((2 <= usage_count r)%Z -> (usage_count r < max_int64)%Z ->
      forall U, build_unified_graph schema (fst (increment_usage c n t_used t_promoted)) = Ok U ->
                shortcut schema U n r).
Proof.
  intros [Hnd Hvalid] Hstored Hdraft.
  destruct (stored_in c n r Hstored) as [Hin Hname].
  split; [|split].
  - intros U HU Hschema. apply (unified_without schema c n U Hschema); [|exact HU].
    intros x Hx Hxn [Hst|Hst];
      rewrite (unique_row c x r Hnd Hx Hin (eq_trans Hxn (eq_sym Hname))) in Hst;
      rewrite Hdraft in Hst; discriminate Hst.
  - intros U HU.
    destruct (promoted_row now r) as [P1 [P2 P3]].
    apply (unified_with schema (fst (promote_view c n now)) U n r
             (set_promoted_date (Some now) (set_status "PROMOTED" r)));
      [|now rewrite P1|exact P2|exact P3|exact HU].
    unfold promote_view, execute_update. cbn [fst]. apply in_map_iff. exists r.
    split; [|exact Hin].
    rewrite (proj2 (name_is_true n r) Hname), Hdraft. reflexivity.
  - intros Husage _ U HU.
    destruct (increment_usage_stored c n t_used t_promoted r Hnd Hstored) as [Hafter _].
    destruct (stored_in _ _ _ Hafter) as [Hin' Hname'].
    assert (Hrow : status (after_increment t_used t_promoted r) = "PROMOTED"
                   /\ base_tables (after_increment t_used t_promoted r) = base_tables r).
    { unfold after_increment. cbv zeta. rewrite validate_after_bump.
      rewrite Forall_forall in Hvalid. rewrite (Hvalid r Hin).
      assert (H3 : (3 <=? usage_count (set_last_used (Some t_used)
                                         (set_usage_count (usage_count r + 1)%Z r)))%Z = true).
      { destruct r. cbn in *. apply Z.leb_le. lia. }
      assert (Hd : String.eqb (status (set_last_used (Some t_used)
                                         (set_usage_count (usage_count r + 1)%Z r)))
                              "DRAFT" = true).
      { destruct r. cbn in *. subst. reflexivity. }
      rewrite H3, Hd. cbn [andb]. destruct r. split; reflexivity. }
    destruct Hrow as [R1 R2].
    now apply (unified_with schema (fst (increment_usage c n t_used t_promoted)) U n r
                 (after_increment t_used t_promoted r)).
Qed.

Lemma promotion_adds_shortcut_witness :
  exists U,
    build_unified_graph (schema_of merchant_db)
      (fst (increment_usage
              [sample_view 1 "v_channel_mix" "transaction" "DRAFT" 2 14
                 ["transactions"; "channels"]] "v_channel_mix" 20 21)) = Ok U
    /\ shortcut (schema_of merchant_db) U "v_channel_mix"
         (sample_view 1 "v_channel_mix" "transaction" "DRAFT" 2 14
            ["transactions"; "channels"]).
Proof.
  destruct (build_unified_graph (schema_of merchant_db)
              (fst (increment_usage
                      [sample_view 1 "v_channel_mix" "transaction" "DRAFT" 2 14
                         ["transactions"; "channels"]] "v_channel_mix" 20 21)))
    as [U|] eqn:HU; [|vm_compute in HU; discriminate HU].
  exists U. split; [reflexivity|].
  destruct (promotion_adds_shortcut (schema_of merchant_db)
              [sample_view 1 "v_channel_mix" "transaction" "DRAFT" 2 14
                 ["transactions"; "channels"]] "v_channel_mix"
              (sample_view 1 "v_channel_mix" "transaction" "DRAFT" 2 14
                 ["transactions"; "channels"]) 0 20 21) as [_ [_ H]].
  - split; [repeat constructor; intros [] | repeat constructor].
  - reflexivity.
  - reflexivity.
  - apply H; [cbn; lia | reflexivity | exact HU].
Defined.

(** ** Semantic search *)

Section SearchProperties.
Context {A : Type} `{Arithmetic A} `{Scores A}.
Variable embed_text : string -> list A.

Lemma cached_app (cache : Cache) (n m : string) (e : list A) :
  cached (cache ++ [(n, e)]) m
  = match cached cache m with
    | Some x => Some x
    | None => if String.eqb n m then Some e else None
    end.
Proof.
  unfold cached. induction cache as [|[k x] cache IH]; cbn [app find fst snd].
  - destruct (String.eqb n m); reflexivity.
  - destruct (String.eqb k m); [reflexivity | exact IH].
Qed.

Lemma embed_view_cache (cache : Cache) (view : ViewMetadata) :
  cached (snd (embed_view embed_text cache view)) (view_name view)
  = Some (fst (embed_view embed_text cache view))
  /\ forall n e, cached cache n = Some e ->
                 cached (snd (embed_view embed_text cache view)) n = Some e.
Proof.
  unfold embed_view. destruct (cached cache (view_name view)) as [x|] eqn:Hc; cbn [fst snd].
  - split; [exact Hc | intros n e Hn; exact Hn].
  - split.
    + now rewrite cached_app, Hc, String.eqb_refl.
    + intros n e Hn. now rewrite cached_app, Hn.
Qed.

Lemma search_result_valid (view : ViewMetadata) (similarity : A) (r : ViewSearchResult) :
  search_result view similarity = Ok r ->
  result_view r = view /\ similarity_score r = similarity /\ valid_score similarity.
Proof.
  unfold search_result. intros Hr.
  destruct (s_geb similarity a_zero) eqn:Hlow; [|discriminate Hr].
  destruct (s_geb s_one similarity) eqn:Hhigh; [|discriminate Hr].
  cbn [andb] in Hr. injection Hr as <-. repeat split; assumption.
Qed.

(** What the scoring loop returns. *)
Lemma rank_spec (query_embedding : list A) (min_score : option A)
    (views : list ViewMetadata) :
  forall (cache : Cache) (rs : list ViewSearchResult) (cache' : Cache),
    rank embed_text query_embedding min_score views cache = Ok (rs, cache') ->
    (forall r, In r rs ->
               In (result_view r) views
               /\ valid_score (similarity_score r)
               /\ (forall m, min_score = Some m -> s_geb (similarity_score r) m = true)
               /\ exists embedding,
                    cached cache' (view_name (result_view r)) = Some embedding
                    /\ cosine_similarity query_embedding embedding
                       = Ok (similarity_score r))
    /\ (forall n e, cached cache n = Some e -> cached cache' n = Some e)
    /\ (length rs <= length views)%nat.
Proof.
  induction views as [|view rest IH]; intros cache rs cache' Hrank; cbn [rank] in Hrank.
  - injection Hrank as <- <-. split; [intros r []|]. split; [auto | cbn; lia].
  - destruct (embed_view_cache cache view) as [Hhere Hkeeps].
    destruct (embed_view embed_text cache view) as [view_embedding cache1].
    cbn [fst snd] in Hhere, Hkeeps.
    destruct (cosine_similarity query_embedding view_embedding) as [similarity|] eqn:Hcos;
      [|discriminate Hrank].
    cbn [bind] in Hrank.
    destruct (match min_score with
              | Some m => s_geb similarity m
              | None => true
              end) eqn:Hkeep.
    + destruct (search_result view similarity) as [r0|] eqn:Hr0; [|discriminate Hrank].
      cbn [bind] in Hrank.
      destruct (rank embed_text query_embedding min_score rest cache1)
        as [[rs1 cache2]|] eqn:Hrest; [|discriminate Hrank].
      cbn [bind fst snd] in Hrank. injection Hrank as <- <-.
      destruct (IH cache1 rs1 cache2 Hrest) as [I1 [I2 I3]].
      destruct (search_result_valid view similarity r0 Hr0) as [V1 [V2 V3]].
      split; [|split; [intros n e Hn; now apply I2, Hkeeps | cbn [length]; lia]].
      intros r [<-|Hr].
      * rewrite V1, V2. split; [now left|]. split; [exact V3|]. split.
        -- intros m Hm. subst min_score. exact Hkeep.
        -- exists view_embedding. split; [now apply I2 | exact Hcos].
      * destruct (I1 r Hr) as [J1 J2]. split; [now right | exact J2].
    + destruct (IH cache1 rs cache' Hrank) as [I1 [I2 I3]].
      split; [|split; [intros n e Hn; now apply I2, Hkeeps | cbn [length]; lia]].
      intros r Hr. destruct (I1 r Hr) as [J1 J2]. split; [now right | exact J2].
Qed.

Lemma candidates_in (c : Table) (want_domain : option string) (want_layer : option Z)
    (views : list ViewMetadata) :
  candidates c want_domain want_layer = Ok views ->
  forall v, In v views -> In v c /\ searched want_domain want_layer v.
Proof.
  unfold candidates, searched. intros Hc v Hv.
  destruct (truthy_str want_domain) as [d|] eqn:Hd;
    destruct (truthy_int want_layer) as [l|] eqn:Hl.
  - unfold find_by_domain in Hc. apply mapM_from_db_row in Hc. subst views.
    apply order_by_in, filter_In in Hv. destruct Hv as [Hin Hf].
    apply andb_prop in Hf. destruct Hf as [F1 F2]. apply String.eqb_eq in F1.
    split; [exact Hin|]. split; [intros d' Hd'; congruence|].
    intros l' Hl'. inversion Hl'; subst l'.
    assert (Hnz : l <> 0%Z).
    { destruct want_layer as [z|]; [|discriminate Hl]. cbn in Hl.
      destruct (Z.eqb_spec z 0); [discriminate Hl|]. now inversion Hl; subst. }
    apply (proj1 (layer_filter_selected (Some l) v) F2 l eq_refl Hnz).
  - unfold find_by_domain in Hc. apply mapM_from_db_row in Hc. subst views.
    apply order_by_in, filter_In in Hv. destruct Hv as [Hin Hf].
    apply andb_prop in Hf. destruct Hf as [F1 _]. apply String.eqb_eq in F1.
    split; [exact Hin|]. split; [intros d' Hd'; congruence|].
    intros l' Hl'. discriminate Hl'.
  - unfold get_all_views in Hc. apply mapM_from_db_row in Hc. subst views.
    apply order_by_in, filter_In in Hv. destruct Hv as [Hin Hf].
    apply andb_prop in Hf. destruct Hf as [F1 _].
    split; [exact Hin|]. split; [intros d' Hd'; discriminate Hd'|].
    intros l' Hl'. inversion Hl'; subst l'.
    assert (Hnz : l <> 0%Z).
    { destruct want_layer as [z|]; [|discriminate Hl]. cbn in Hl.
      destruct (Z.eqb_spec z 0); [discriminate Hl|]. now inversion Hl; subst. }
    apply (proj1 (layer_filter_selected (Some l) v) F1 l eq_refl Hnz).
  - unfold get_all_views in Hc. apply mapM_from_db_row in Hc. subst views.
    apply order_by_in, filter_In in Hv. destruct Hv as [Hin _].
    split; [exact Hin|]. split; intros x Hx; discriminate Hx.
Qed.

Lemma top_ranked (top_k : Z) (rs : list ViewSearchResult) :
  (forall r, In r (take top_k (order_by by_similarity_desc rs)) -> In r rs)
  /\ ((0 <= top_k)%Z ->
      (Z.of_nat (length (take top_k (order_by by_similarity_desc rs))) <= top_k)%Z).
Proof.
  split.
  - intros r Hr. apply take_in in Hr. now apply order_by_in in Hr.
  - apply take_length.
Qed.

End SearchProperties.

(** X23: every result of [search] is a catalog view that passes the
    domain and layer filters in force (an empty domain and a layer of 0
    filter nothing), with a similarity that reaches [min_score] and lies
    between 0 and 1 (a score outside makes the search fail), computed against
    the vector the cache holds for the view's name; a non-negative [top_k]
    bounds the number of results, and the cache only grows. *)
Theorem search_results {A : Type} `{Arithmetic A} `{Scores A}
    (embed_text : string -> list A) (c : Table) (cache : Cache) (query : string)
    (top_k : Z) (min_score : A) (want_domain : option string) (want_layer : option Z)
    (rs : list ViewSearchResult) (cache' : Cache) :
  search embed_text c cache query top_k min_score want_domain want_layer = Ok (rs, cache') ->
  (forall r, In r rs ->
             In (result_view r) c
             /\ searched want_domain want_layer (result_view r)
             /\ s_geb (similarity_score r) min_score = true
             /\ valid_score (similarity_score r)
             /\ exists embedding,
                  cached cache' (view_name (result_view r)) = Some embedding
                  /\ cosine_similarity (embed_text query) embedding
                     = Ok (similarity_score r))
  /\ ((0 <= top_k)%Z -> (Z.of_nat (length rs) <= top_k)%Z)
  /\ (forall n e, cached cache n = Some e -> cached cache' n = Some e).
Proof.
  unfold search. cbv zeta. intros Hsearch.
  destruct (candidates c want_domain want_layer) as [views|] eqn:Hviews;
    [|discriminate Hsearch].
  cbn [bind] in Hsearch.
  destruct views as [|v0 views].
  - injection Hsearch as <- <-. split; [intros r []|]. split; [cbn; lia | auto].
  - destruct (rank embed_text (embed_text query) (Some min_score) (v0 :: views) cache)
      as [[ranked cache1]|] eqn:Hrank; [|discriminate Hsearch].
    cbn [bind fst snd] in Hsearch. injection Hsearch as <- <-.
    destruct (rank_spec embed_text _ _ _ _ _ _ Hrank) as [R1 [R2 _]].
    destruct (top_ranked top_k ranked) as [T1 T2].
    split; [|split; [exact T2 | exact R2]].
    intros r Hr. destruct (R1 r (T1 r Hr)) as [J1 [J2 [J3 J4]]].
    destruct (candidates_in c want_domain want_layer _ Hviews _ J1) as [C1 C2].
    split; [exact C1|]. split; [exact C2|]. split; [now apply J3|]. split; assumption.
Qed.

Lemma search_results_witness :
  exists rs cache',
    search constant_model fraud_views [] "monthly fraud" 2 0x1.3333333333333p-2%float
      (Some "fraud") (Some 0%Z) = Ok (rs, cache')
    /\ (Z.of_nat (length rs) <= 2)%Z.
Proof.
  destruct (search constant_model fraud_views [] "monthly fraud" 2
              0x1.3333333333333p-2%float (Some "fraud") (Some 0%Z))
    as [[rs cache']|] eqn:Hs; [|vm_compute in Hs; discriminate Hs].
  exists rs, cache'. split; [reflexivity|].
  destruct (search_results constant_model fraud_views [] "monthly fraud" 2
              0x1.3333333333333p-2%float (Some "fraud") (Some 0%Z) rs cache' Hs)
    as [_ [Hk _]].
  apply Hk. lia.
Defined.

(** X24: [find_similar_views] never returns the reference view: every
    result is a catalog view of another name whose similarity reaches
    [min_score] and lies between 0 and 1; for a name the catalog does not
    have it returns nothing and leaves the cache as it was. *)
Theorem find_similar_views_others {A : Type} `{Arithmetic A} `{Scores A}
    (embed_text : string -> list A) (c : Table) (cache : Cache) (n : string)
    (top_k : Z) (min_score : A) (rs : list ViewSearchResult) (cache' : Cache) :
  find_similar_views embed_text c cache n top_k min_score = Ok (rs, cache') ->
  (forall r, In r rs ->
             view_name (result_view r) <> n
             /\ In (result_view r) c
             /\ s_geb (similarity_score r) min_score = true
             /\ valid_score (similarity_score r))
  /\ ((0 <= top_k)%Z -> (Z.of_nat (length rs) <= top_k)%Z)
  /\ ((forall row, In row c -> view_name row <> n) -> rs = [] /\ cache' = cache).
Proof.
  unfold find_similar_views. intros Hfind.
  destruct (find_by_name c n) as [[ref_view|]|] eqn:Hname; [| |discriminate Hfind];
    cbn [bind] in Hfind.
  - destruct (embed_view embed_text cache ref_view) as [ref_embedding cache1].
    destruct (get_all_views c None None) as [all_views|] eqn:Hall; [|discriminate Hfind].
    cbn [bind] in Hfind.
    destruct (rank embed_text ref_embedding (Some min_score)
                (filter (fun view => negb (String.eqb (view_name view) n)) all_views) cache1)
      as [[ranked cache2]|] eqn:Hrank; [|discriminate Hfind].
    cbn [bind fst snd] in Hfind. injection Hfind as <- <-.
    destruct (rank_spec embed_text _ _ _ _ _ _ Hrank) as [R1 _].
    destruct (top_ranked top_k ranked) as [T1 T2].
    split; [|split; [exact T2|]].
    + intros r Hr. destruct (R1 r (T1 r Hr)) as [J1 [J2 [J3 _]]].
      apply filter_In in J1. destruct J1 as [Hin Hne].
      apply negb_true_iff, String.eqb_neq in Hne.
      apply get_all_views_all in Hall. subst all_views. apply order_by_in in Hin.
      split; [exact Hne|]. split; [exact Hin|]. split; [now apply J3 | exact J2].
    + intros Habsent. exfalso.
      destruct (find_by_name_some c n ref_view Hname) as [Hin Hn].
      now apply (Habsent ref_view Hin).
  - injection Hfind as <- <-. split; [intros r []|]. split; [cbn; lia | auto].
Qed.

Lemma find_similar_views_others_witness :
  exists rs cache',
    find_similar_views constant_model fraud_views [] "v_fraud_hot" 5 0x1p-1%float
    = Ok (rs, cache')
    /\ forall r, In r rs -> view_name (result_view r) <> "v_fraud_hot".
Proof.
  destruct (find_similar_views constant_model fraud_views [] "v_fraud_hot" 5 0x1p-1%float)
    as [[rs cache']|] eqn:Hs; [|vm_compute in Hs; discriminate Hs].
  exists rs, cache'. split; [reflexivity|].
  destruct (find_similar_views_others constant_model fraud_views [] "v_fraud_hot" 5
              0x1p-1%float rs cache' Hs) as [Hr _].
  intros r Hin. now destruct (Hr r Hin).
Defined.

Lemma index_fold {A : Type} `{Arithmetic A} `{Scores A} (embed_text : string -> list A)
    (views : list ViewMetadata) :
  forall (count : nat) (cache : Cache),
    fst (fold_left (fun state view =>
                      (S (fst state), snd (embed_view embed_text (snd state) view)))
                   views (count, cache)) = (count + length views)%nat
    /\ (forall v, In v views ->
                  cached (snd (fold_left (fun state view =>
                                            (S (fst state),
                                             snd (embed_view embed_text (snd state) view)))
                                         views (count, cache))) (view_name v) <> None)
    /\ (forall n e, cached cache n = Some e ->
                    cached (snd (fold_left (fun state view =>
                                              (S (fst state),
                                               snd (embed_view embed_text (snd state) view)))
                                           views (count, cache))) n = Some e).
Proof.
  induction views as [|view views IH]; intros count cache; cbn [fold_left fst snd].
  - split; [cbn; lia|]. split; [intros v [] | auto].
  - destruct (IH (S count) (snd (embed_view embed_text cache view))) as [I1 [I2 I3]].
    destruct (embed_view_cache embed_text cache view) as [E1 E2].
    split; [rewrite I1; cbn [length]; lia|]. split.
    + intros v [<-|Hv]; [|now apply I2]. now rewrite (I3 _ _ E1).
    + intros n e Hn. now apply I3, E2.
Qed.

(** X25: the embedding cache is keyed by view name alone.  Once a view
    was embedded, [embed_view] answers every view of that name with the
    stored vector and leaves the cache as it is, whatever the view's text
    has become; [index_all_views] returns the number of catalog rows, leaves
    every view name with a cached vector and replaces no vector that was
    cached before. *)
Theorem embed_view_cached {A : Type} `{Arithmetic A} `{Scores A}
    (embed_text : string -> list A) (cache : Cache) :
  (forall v v', view_name v' = view_name v ->
                embed_view embed_text (snd (embed_view embed_text cache v)) v'
                = embed_view embed_text cache v)
  /\ forall c count cache',
       index_all_views embed_text c cache = Ok (count, cache') ->
       count = length c
       /\ (forall row, In row c -> cached cache' (view_name row) <> None)
       /\ (forall n e, cached cache n = Some e -> cached cache' n = Some e).
Proof.
  split.
  - intros v v' Hname. destruct (embed_view_cache embed_text cache v) as [E1 _].
    unfold embed_view at 1. rewrite Hname, E1. now destruct (embed_view embed_text cache v).
  - intros c count cache' Hindex. unfold index_all_views in Hindex.
    destruct (get_all_views c None None) as [views|] eqn:Hviews; [|discriminate Hindex].
    cbn [bind] in Hindex. apply get_all_views_all in Hviews.
    destruct (index_fold embed_text views 0 cache) as [I1 [I2 I3]].
    destruct (fold_left _ views (0%nat, cache)) as [count0 cache0].
    injection Hindex as <- <-. cbn [fst snd] in I1, I2, I3.
    split; [rewrite I1; subst views; now rewrite order_by_length|].
    split; [|exact I3].
    intros row Hrow. apply I2. subst views. now apply order_by_in.
Qed.

(** X26: with tables given and views over them in the catalog,
    [suggest_views_for_query] ranks the ten most used of those views and
    nothing else, without a threshold: every result is one of them, with a
    similarity between 0 and 1, at most [top_k] of them for a non-negative
    [top_k]; a similarity outside that range, which [search] would drop below
    its threshold, makes the call fail.  Without tables, or without views
    over them, the call is the search with threshold 0.2. *)
Theorem suggest_views_for_query_tables {A : Type} `{Arithmetic A} `{Scores A}
    (embed_text : string -> list A) (c : Table) (cache : Cache) (query : string)
    (tables : list string) (top_k : Z) (first : ViewMetadata) (others : list ViewMetadata) :
  tables <> [] ->
  search_by_tables c tables 10 = Ok (first :: others) ->
  (forall rs cache',
      suggest_views_for_query embed_text c cache query (Some tables) top_k = Ok (rs, cache') ->
      (forall r, In r rs -> In (result_view r) (first :: others)
                            /\ valid_score (similarity_score r))
      /\ ((0 <= top_k)%Z -> (Z.of_nat (length rs) <= top_k)%Z))
  /\ (forall similarity,
         cosine_similarity (embed_text query) (fst (embed_view embed_text cache first))
         = Ok similarity ->
         ~ valid_score similarity ->
         suggest_views_for_query embed_text c cache query (Some tables) top_k
         = Err ValidationError)
  /\ suggest_views_for_query embed_text c cache query None top_k
     = search embed_text c cache query top_k s_default_min None None
  /\ suggest_views_for_query embed_text c cache query (Some []) top_k
     = search embed_text c cache query top_k s_default_min None None.
Proof.
  intros Htables Hviews. destruct tables as [|t tables]; [now contradiction Htables|].
  unfold suggest_views_for_query. cbv beta iota zeta. rewrite Hviews. cbn [bind].
  split; [|split; [|split; reflexivity]].
  - intros rs cache' Hs.
    destruct (rank embed_text (embed_text query) None (first :: others) cache)
      as [[ranked cache1]|] eqn:Hrank; [|discriminate Hs].
    cbn [bind fst snd] in Hs. injection Hs as <- <-.
    destruct (rank_spec embed_text _ _ _ _ _ _ Hrank) as [R1 _].
    destruct (top_ranked top_k ranked) as [T1 T2]. split; [|exact T2].
    intros r Hr. destruct (R1 r (T1 r Hr)) as [J1 [J2 _]]. now split.
  - intros similarity Hcos Hinvalid. cbn [rank].
    destruct (embed_view embed_text cache first) as [view_embedding cache1].
    cbn [fst] in Hcos. rewrite Hcos. cbn [bind].
    unfold search_result.
    destruct (s_geb similarity a_zero && s_geb s_one similarity) eqn:Hv; [|reflexivity].
    exfalso. apply Hinvalid. apply andb_prop in Hv. exact Hv.
Qed.

Lemma suggest_views_for_query_tables_witness :
  exists rs cache',
    suggest_views_for_query constant_model fraud_views [] "fraud by merchant"
      (Some ["merchants"]) 3 = Ok (rs, cache')
    /\ (Z.of_nat (length rs) <= 3)%Z.
Proof.
  destruct (suggest_views_for_query constant_model fraud_views [] "fraud by merchant"
              (Some ["merchants"]) 3) as [[rs cache']|] eqn:Hs;
    [|vm_compute in Hs; discriminate Hs].
  exists rs, cache'. split; [reflexivity|].
  destruct (suggest_views_for_query_tables constant_model fraud_views [] "fraud by merchant"
              ["merchants"] 3
              (sample_view 3 "v_fraud_hot" "fraud" "PROMOTED" 5 15 ["merchants"]) [])
    as [Hsome _].
  - discriminate.
  - reflexivity.
  - destruct (Hsome rs cache' Hs) as [_ Hk]. apply Hk. lia.
Defined.

(** ** Rounded costs *)

Lemma round_half_even_close (q : Q) :
  inject_Z (round_half_even q) - q <= 1 # 2 /\ q - inject_Z (round_half_even q) <= 1 # 2.
Proof.
  unfold round_half_even. cbv zeta.
  pose proof (Qfloor_le q) as Hlow. pose proof (Qlt_floor q) as Hhigh.
  rewrite inject_Z_plus in Hhigh. change (inject_Z 1) with 1 in Hhigh.
  destruct (Qcompare (q - inject_Z (Qfloor q)) (1 # 2)) eqn:Hc.
  - apply Qeq_alt in Hc.
    destruct (Z.even (Qfloor q));
      [|rewrite inject_Z_plus; change (inject_Z 1) with 1]; split; Lqa.lra.
  - apply Qlt_alt in Hc. split; Lqa.lra.
  - apply Qgt_alt in Hc. rewrite inject_Z_plus. change (inject_Z 1) with 1.
    split; Lqa.lra.
Qed.

Lemma round_half_even_nonneg (q : Q) : 0 <= q -> (0 <= round_half_even q)%Z.
Proof.
  intros Hq. unfold round_half_even. cbv zeta.
  assert (Hf : (0 <= Qfloor q)%Z).
  { change 0%Z with (Qfloor 0). now apply Qfloor_resp_le. }
  destruct (Qcompare (q - inject_Z (Qfloor q)) (1 # 2)); [|exact Hf|lia].
  destruct (Z.even (Qfloor q)); lia.
Qed.

Lemma power_of_ten_pos (n : nat) : 0 < inject_Z (10 ^ Z.of_nat n).
Proof.
  change 0 with (inject_Z 0). rewrite <- Zlt_Qlt. apply Z.pow_pos_nonneg; lia.
Qed.

Lemma round_close (q : Q) (ndigits : nat) :
  Qabs.Qabs (round q ndigits - q) <= (1 # 2) / inject_Z (10 ^ Z.of_nat ndigits).
Proof.
  unfold round. rewrite Qred_correct.
  pose proof (power_of_ten_pos ndigits) as Hpos.
  set (c := inject_Z (10 ^ Z.of_nat ndigits)) in *.
  destruct (round_half_even_close (q * c)) as [H1 H2].
  set (r := inject_Z (round_half_even (q * c))) in *.
  assert (Hc : ~ c == 0) by (intros Hc; rewrite Hc in Hpos; now apply Qlt_irrefl in Hpos).
  assert (E1 : (r / c - q) * c == r - q * c) by (field; exact Hc).
  assert (E2 : (1 # 2) / c * c == 1 # 2) by (field; exact Hc).
  assert (E3 : - ((1 # 2) / c) * c == - (1 # 2)) by (field; exact Hc).
  apply Qabs.Qabs_Qle_condition. split.
  - apply (Qmult_le_r _ _ c Hpos). rewrite E1, E3. Lqa.lra.
  - apply (Qmult_le_r _ _ c Hpos). rewrite E1, E2. Lqa.lra.
Qed.

Lemma round_nonneg (q : Q) (ndigits : nat) : 0 <= q -> 0 <= round q ndigits.
Proof.
  intros Hq. unfold round. rewrite Qred_correct.
  pose proof (power_of_ten_pos ndigits) as Hpos.
  apply Qle_shift_div_l; [exact Hpos|]. rewrite Qmult_0_l.
  change 0 with (inject_Z 0). rewrite <- Zle_Qle. apply round_half_even_nonneg.
  apply Qmult_le_0_compat; [exact Hq | now apply Qlt_le_weak].
Qed.

Lemma tree_cost_nonneg (es : EdgeList) :
  Forall (fun e => 0 <= weight_of (snd e)) es ->
  forall acc, 0 <= acc -> 0 <= fold_left (fun acc e => acc + weight_of (snd e)) es acc.
Proof.
  induction 1 as [|e es He _ IH]; intros acc Hacc; cbn [fold_left]; [exact Hacc|].
  apply IH. rewrite <- (Qplus_0_l 0). now apply Qplus_le_compat.
Qed.

(** X27: the cost a solution reports is the sum of the weights of the
    tree's edges rounded to four decimals: it is a multiple of 0.0001 that
    differs from the sum by at most 0.00005, and it is not negative when no
    weight is; the node and edge counts are those of the tree, and the tables
    and views used are its nodes, each listed once on one side. *)
Theorem analyze_solution_cost (tree : Graph) (terminals : list string) (with_views : bool) :
  Qabs.Qabs (total_cost (analyze_solution tree terminals with_views) - tree_cost tree)
  <= 1 # 20000
  /\ (exists z : Z, total_cost (analyze_solution tree terminals with_views)
                    == inject_Z z / 10000)
  /\ (Forall (fun e => 0 <= weight_of (snd e)) (edges tree) ->
      0 <= total_cost (analyze_solution tree terminals with_views))
  /\ total_nodes (analyze_solution tree terminals with_views) = length (nodes tree)
  /\ total_edges (analyze_solution tree terminals with_views) = length (edges tree)
  /\ (forall n, In n (node_names (nodes tree))
                <-> In n (tables_used (analyze_solution tree terminals with_views))
                    \/ In n (views_used (analyze_solution tree terminals with_views)))
  /\ (length (tables_used (analyze_solution tree terminals with_views))
      + length (views_used (analyze_solution tree terminals with_views)))%nat
     = length (nodes tree).
Proof.
  unfold analyze_solution.
  cbn [total_cost total_nodes total_edges tables_used views_used].
  split; [|split; [|split; [|split; [|split; [|split]]]]].
  - apply (Qle_trans _ _ _ (round_close (tree_cost tree) 4)). discriminate.
  - exists (round_half_even (tree_cost tree * inject_Z (10 ^ Z.of_nat 4))).
    unfold round. rewrite Qred_correct. reflexivity.
  - intros Hw. apply round_nonneg. unfold tree_cost.
    apply tree_cost_nonneg; [exact Hw | apply Qle_refl].
  - reflexivity.
  - reflexivity.
  - intros n. unfold node_names. rewrite !in_map_iff. split.
    + intros [p [Hp Hin]]. destruct (is_view_node p) eqn:Hv; [right | left];
        exists p; (split; [exact Hp|]); apply filter_In; split; try exact Hin;
        now rewrite ?Hv.
    + intros [[p [Hp Hin]]|[p [Hp Hin]]]; apply filter_In in Hin; exists p; tauto.
  - unfold node_names. rewrite !length_map. apply filter_split_length.
Qed.

(** ** Foreign keys of a table *)

Lemma foldM_app {A B : Type} (f : B -> A -> result B) (l1 l2 : list A) (b : B) :
  foldM f (l1 ++ l2) b = (b' <- foldM f l1 b ;; foldM f l2 b').
Proof.
  revert b. induction l1 as [|a l1 IH]; intros b; cbn [app foldM]; [reflexivity|].
  destruct (f b a) as [b1|]; cbn [bind]; [apply IH | reflexivity].
Qed.

Lemma foldM_map {A B C : Type} (f : B -> A -> result B) (h : C -> A) (l : list C) (b : B) :
  foldM f (map h l) b = foldM (fun b c => f b (h c)) l b.
Proof.
  revert b. induction l as [|c l IH]; intros b; cbn [map foldM]; [reflexivity|].
  destruct (f b (h c)) as [b1|]; cbn [bind]; [apply IH | reflexivity].
Qed.

Lemma foldM_declared (db : Database) (g : DiGraph) :
  foldM (fun g t => foldM (fun g fk => add_foreign_key g (t_name t) fk) (t_foreign_keys t) g)
        db g
  = foldM (fun g p => add_foreign_key g (fst p) (snd p)) (declared db) g.
Proof.
  revert g. induction db as [|t db IH]; intros g; cbn [foldM declared flat_map];
    [reflexivity|].
  fold (declared db). rewrite foldM_app, foldM_map. cbn [fst snd].
  destruct (foldM (fun g fk => add_foreign_key g (t_name t) fk) (t_foreign_keys t) g)
    as [g1|]; cbn [bind]; [apply IH | reflexivity].
Qed.

Lemma same_arc_iff (x y u v : string) : same_arc x y u v = true <-> x = u /\ y = v.
Proof.
  unfold same_arc. rewrite andb_true_iff, !String.eqb_eq. reflexivity.
Qed.

Lemma d_edge_add_same (es : EdgeList) (u v : string) (a : EdgeAttrs) :
  exists a', edge_attrs_in same_arc (add_edge_in same_arc es u v a) u v = Some a'
             /\ (a' = a \/ exists b, a' = update_edge b a).
Proof.
  unfold edge_attrs_in. induction es as [|[[x y] b] es IH]; cbn [add_edge_in].
  - cbn [find fst snd]. rewrite (proj2 (same_arc_iff u v u v) (conj eq_refl eq_refl)).
    exists a. split; [reflexivity | now left].
  - destruct (same_arc x y u v) eqn:Hs; cbn [find fst snd]; rewrite Hs.
    + exists (update_edge b a). split; [reflexivity|]. right. now exists b.
    + exact IH.
Qed.

Lemma d_edge_add_other (es : EdgeList) (u v u' v' : string) (a : EdgeAttrs) :
  same_arc u v u' v' = false ->
  edge_attrs_in same_arc (add_edge_in same_arc es u v a) u' v'
  = edge_attrs_in same_arc es u' v'.
Proof.
  intros Hne. unfold edge_attrs_in.
  induction es as [|[[x y] b] es IH]; cbn [add_edge_in].
  - cbn [find fst snd]. now rewrite Hne.
  - destruct (same_arc x y u v) eqn:Hs; cbn [find fst snd].
    + apply same_arc_iff in Hs. destruct Hs as [-> ->]. now rewrite Hne.
    + destruct (same_arc x y u' v'); [reflexivity | exact IH].
Qed.

Lemma add_edge_in_pairs (es : EdgeList) (u v : string) (a : EdgeAttrs) :
  NoDup (map fst es) -> NoDup (map fst (add_edge_in same_arc es u v a)).
Proof.
  intros Hnd.
  assert (Hpairs : forall p, In p (map fst (add_edge_in same_arc es u v a)) ->
                             In p (map fst es) \/ p = (u, v)).
  { intros [x y] Hp. apply in_map_iff in Hp. destruct Hp as [[[x' y'] b] [Hxy Hin]].
    cbn [fst] in Hxy. inversion Hxy; subst x' y'.
    destruct (add_edge_in_entry es u v x y a b Hin) as [H|[-> [-> _]]]; [|now right].
    left. apply in_map_iff. now exists (x, y, b). }
  clear Hpairs. induction es as [|[[x y] b] es IH]; cbn [add_edge_in map fst].
  - repeat constructor. intros [].
  - inversion Hnd as [|? ? Hnotin Hnd']. subst.
    destruct (same_arc x y u v) eqn:Hs; cbn [map fst].
    + constructor; assumption.
    + constructor; [|now apply IH].
      intros Hin. apply in_map_iff in Hin. destruct Hin as [[[x' y'] b'] [Hxy Hin]].
      cbn [fst] in Hxy. inversion Hxy; subst x' y'.
      destruct (add_edge_in_entry es u v x y a b' Hin) as [H|[-> [-> _]]].
      * apply Hnotin. apply in_map_iff. now exists (x, y, b').
      * unfold same_arc in Hs. now rewrite !String.eqb_refl in Hs.
Qed.

Lemma d_edge_unique (g : DiGraph) (u v : string) (a : EdgeAttrs) :
  NoDup (map fst (d_edges g)) -> In (u, v, a) (d_edges g) -> d_edge g u v = Some a.
Proof.
  unfold d_edge, edge_attrs_in. generalize (d_edges g) as es.
  induction es as [|[[x y] b] es IH]; intros Hnd Hin; [destruct Hin|].
  cbn [map fst] in Hnd. inversion Hnd as [|? ? Hnotin Hnd']. subst.
  cbn [find fst snd]. destruct Hin as [Hin|Hin].
  - inversion Hin; subst. unfold same_arc. now rewrite !String.eqb_refl.
  - destruct (same_arc x y u v) eqn:Hs; [|now apply IH].
    apply same_arc_iff in Hs. destruct Hs as [-> ->].
    exfalso. apply Hnotin. apply in_map_iff. now exists (u, v, a).
Qed.

Lemma last_declared_snoc (pairs : list (string * ForeignKey)) (p : string * ForeignKey)
    (u v : string) :
  last_declared (pairs ++ [p]) u v
  = if String.eqb (fst p) u && String.eqb (fk_table (snd p)) v then Some (snd p)
    else last_declared pairs u v.
Proof.
  unfold last_declared. rewrite rev_app_distr. cbn [rev app find].
  now destruct (String.eqb (fst p) u && String.eqb (fk_table (snd p)) v).
Qed.

(** The arcs after the foreign keys [pairs] were added: one arc for each
    pair of tables, with the columns of the last key between them. *)
Lemma foreign_keys_added (db : Database) (pairs : list (string * ForeignKey)) :
  forall g0 g : DiGraph,
    counted db (d_nodes g0) -> d_edges g0 = [] ->
    foldM (fun g p => add_foreign_key g (fst p) (snd p)) pairs g0 = Ok g ->
    d_nodes g = d_nodes g0
    /\ NoDup (map fst (d_edges g))
    /\ forall u v,
         match last_declared pairs u v with
         | Some fk => exists a, d_edge g u v = Some a /\ carries a fk
         | None => d_edge g u v = None
         end.
Proof.
  induction pairs as [|p pairs IH] using rev_ind; intros g0 g Hc Hempty Hfold.
  - cbn [foldM] in Hfold. injection Hfold as <-. split; [reflexivity|].
    rewrite Hempty. split; [constructor|]. intros u v. cbn. unfold d_edge.
    now rewrite Hempty.
  - rewrite foldM_app in Hfold.
    destruct (foldM (fun g p => add_foreign_key g (fst p) (snd p)) pairs g0) as [g1|] eqn:H1;
      [|discriminate Hfold].
    cbn [bind foldM] in Hfold.
    destruct (add_foreign_key g1 (fst p) (snd p)) as [g2|] eqn:H2; [|discriminate Hfold].
    cbn [bind] in Hfold. injection Hfold as <-.
    destruct (IH g0 g1 Hc Hempty H1) as [Hnodes [Hnd Hlast]].
    rewrite <- Hnodes in Hc.
    destruct (add_foreign_key_step db g1 g2 (fst p) (snd p) Hc H2)
      as [_ [_ [Hnodes2 [a [Hes [Htype [C1 [C2 _]]]]]]]].
    split; [now rewrite Hnodes2|]. split; [rewrite Hes; now apply add_edge_in_pairs|].
    intros u v. rewrite last_declared_snoc. unfold d_edge. rewrite Hes.
    destruct (String.eqb (fst p) u && String.eqb (fk_table (snd p)) v) eqn:Hp.
    + apply andb_prop in Hp. destruct Hp as [Hu Hv]. apply String.eqb_eq in Hu, Hv.
      subst u v.
      destruct (d_edge_add_same (d_edges g1) (fst p) (fk_table (snd p)) a)
        as [a' [Ha' Hform]].
      exists a'. split; [exact Ha'|].
      destruct Hform as [->|[b ->]]; [now repeat split|].
      unfold carries, update_edge. cbn [e_type e_from_column e_to_column].
      rewrite Htype, C1, C2. cbn [upd]. now repeat split.
    + rewrite d_edge_add_other; [exact (Hlast u v)|]. exact Hp.
Qed.

Lemma NoDup_map_on {A B : Type} (f : A -> B) (l : list A) :
  NoDup l -> (forall x y, In x l -> In y l -> f x = f y -> x = y) -> NoDup (map f l).
Proof.
  induction 1 as [|a l Ha _ IH]; intros Hinj; cbn [map]; constructor.
  - intros Hin. apply in_map_iff in Hin. destruct Hin as [b [Hb Hbl]].
    apply Ha. rewrite (Hinj a b (or_introl eq_refl) (or_intror Hbl) (eq_sym Hb)).
    exact Hbl.
  - apply IH. intros x y Hx Hy. apply Hinj; now right.
Qed.

Lemma NoDup_of_keys {A B : Type} (l : list (A * B)) : NoDup (map fst l) -> NoDup l.
Proof.
  induction l as [|p l IH]; cbn [map]; intros H; [constructor|].
  inversion H as [|? ? Hp Hl]. subst. constructor; [|now apply IH].
  intros Hin. apply Hp. now apply in_map.
Qed.

Lemma same_key {A B : Type} (l : list (A * B)) (x y : A * B) :
  NoDup (map fst l) -> In x l -> In y l -> fst x = fst y -> x = y.
Proof.
  induction l as [|p l IH]; cbn [map]; intros Hnd Hx Hy Hk; [destruct Hx|].
  inversion Hnd as [|? ? Hp Hl]. subst.
  destruct Hx as [->|Hx], Hy as [->|Hy].
  - reflexivity.
  - exfalso. apply Hp. rewrite Hk. now apply in_map.
  - exfalso. apply Hp. rewrite <- Hk. now apply in_map.
  - now apply IH.
Qed.

(** The arcs of the built graph and the foreign keys declared. *)
Lemma build_from_database_arcs (db : Database) (g : DiGraph) :
  build_from_database db = Ok g ->
  NoDup (map fst (d_edges g))
  /\ forall u v,
       match last_declared (declared db) u v with
       | Some fk => exists a, d_edge g u v = Some a /\ carries a fk
       | None => d_edge g u v = None
       end.
Proof.
  unfold build_from_database. cbv zeta.
  set (f := fun t => mkNode (Some "table") (Some (t_row_count t)) (Some (t_columns t))
                       (Some (Z.of_nat (length (t_columns t)))) None None None None).
  set (with_nodes := fold_left (fun g t => d_add_node g (t_name t) (f t)) db
                       (mkDiGraph [] [])).
  rewrite foldM_declared. intros H.
  destruct (foreign_keys_added db (declared db) with_nodes g) as [_ Hg]; [| |exact H|exact Hg].
  - unfold with_nodes. apply add_tables_counted.
    + intros t b0. split; repeat split; reflexivity.
    + apply incl_refl.
    + intros n a [].
  - unfold with_nodes. now rewrite add_tables_edges.
Qed.

(** X28: on the graph built from a database, [get_foreign_keys] of a
    table lists, each once, one entry for every table it references and then
    one for every table that references it (a table that references itself
    appears on both sides).  An entry carries the columns of the foreign key
    that was declared last between the two tables: where a table declares
    several keys into the same table, the graph keeps one arc and the earlier
    keys' columns are not reported. *)
Theorem get_foreign_keys_built (db : Database) (g : DiGraph) (table_name : string) :
  build_from_database db = Ok g ->
  NoDup (get_foreign_keys g table_name)
  /\ forall info,
       In info (get_foreign_keys g table_name)
       <-> (direction info = "outgoing" /\ from_table info = table_name
            /\ exists fk, last_declared (declared db) table_name (to_table info) = Some fk
                          /\ from_column info = Some (fk_from fk)
                          /\ to_column info = Some (fk_to fk))
           \/ (direction info = "incoming" /\ to_table info = table_name
               /\ exists fk, last_declared (declared db) (from_table info) table_name = Some fk
                             /\ from_column info = Some (fk_from fk)
                             /\ to_column info = Some (fk_to fk)).
Proof.
  intros Hg. destruct (build_from_database_arcs db g Hg) as [Hnd Hlast].
  pose proof (build_from_database_wf db g Hg) as Hwf.
  unfold wf_digraph in Hwf. rewrite forallb_forall in Hwf.
  assert (Harc : forall u v a, In (u, v, a) (d_edges g) ->
                               d_has_node g u = true /\ d_has_node g v = true
                               /\ exists fk, last_declared (declared db) u v = Some fk
                                             /\ carries a fk).
  { intros u v a Hin. specialize (Hwf _ Hin). cbn [fst snd] in Hwf.
    apply andb_prop in Hwf. destruct Hwf as [Hu Hv]. split; [exact Hu|]. split; [exact Hv|].
    pose proof (d_edge_unique g u v a Hnd Hin) as He. specialize (Hlast u v).
    destruct (last_declared (declared db) u v) as [fk|]; [|congruence].
    destruct Hlast as [a' [Ha' Hc]]. exists fk. split; [reflexivity|]. congruence. }
  assert (Hfound : forall u v fk, last_declared (declared db) u v = Some fk ->
                                  exists a, In (u, v, a) (d_edges g) /\ carries a fk).
  { intros u v fk Hfk. specialize (Hlast u v). rewrite Hfk in Hlast.
    destruct Hlast as [a [Ha Hc]]. exists a. split; [now apply d_edge_in | exact Hc]. }
  assert (Hfk : forall a fk, carries a fk -> is_fk a = true).
  { intros a fk [Ht _]. unfold is_fk. now rewrite Ht. }
  unfold get_foreign_keys.
  destruct (d_has_node g table_name) eqn:Hnode; cbn [negb].
  - split.
    + apply NoDup_app.
      * apply NoDup_map_on; [apply NoDup_filter; now apply NoDup_of_keys|].
        intros x y Hx Hy Hxy. apply filter_In in Hx, Hy.
        destruct Hx as [Hx Fx], Hy as [Hy Fy]. apply andb_prop in Fx, Fy.
        destruct Fx as [Fx _], Fy as [Fy _]. apply String.eqb_eq in Fx, Fy.
        apply (same_key (d_edges g) x y Hnd Hx Hy).
        destruct x as [[x1 x2] xa], y as [[y1 y2] ya]. cbn [fst snd] in *.
        inversion Hxy. now subst.
      * apply NoDup_map_on; [apply NoDup_filter; now apply NoDup_of_keys|].
        intros x y Hx Hy Hxy. apply filter_In in Hx, Hy.
        destruct Hx as [Hx Fx], Hy as [Hy Fy]. apply andb_prop in Fx, Fy.
        destruct Fx as [Fx _], Fy as [Fy _]. apply String.eqb_eq in Fx, Fy.
        apply (same_key (d_edges g) x y Hnd Hx Hy).
        destruct x as [[x1 x2] xa], y as [[y1 y2] ya]. cbn [fst snd] in *.
        inversion Hxy. now subst.
      * intros info Hout Hin. apply in_map_iff in Hout, Hin.
        destruct Hout as [x [<- _]]. destruct Hin as [y [Hy _]]. discriminate Hy.
    + intros info. rewrite in_app_iff, !in_map_iff. split.
      * intros [[[[u v] a] [<- Hin]]|[[[u v] a] [<- Hin]]]; apply filter_In in Hin;
          destruct Hin as [Hin Hf]; apply andb_prop in Hf; destruct Hf as [Hf _];
          apply String.eqb_eq in Hf; cbn [fst snd] in Hf; subst;
          destruct (Harc _ _ _ Hin) as [_ [_ [fk [Hl [_ [C1 C2]]]]]];
          cbn [direction from_table to_table from_column to_column fst snd].
        -- left. split; [reflexivity|]. split; [reflexivity|]. now exists fk.
        -- right. split; [reflexivity|]. split; [reflexivity|]. now exists fk.
      * intros [[Hd [Hfrom [fk [Hl [C1 C2]]]]]|[Hd [Hto [fk [Hl [C1 C2]]]]]];
          destruct (Hfound _ _ fk Hl) as [a [Hin Hc]]; pose proof Hc as [_ [A1 A2]].
        -- left. exists (table_name, to_table info, a). split.
           ++ destruct info. cbn in *. subst. now rewrite A1, A2.
           ++ apply filter_In. split; [exact Hin|]. cbn [fst snd].
              now rewrite String.eqb_refl, (Hfk a fk Hc).
        -- right. exists (from_table info, table_name, a). split.
           ++ destruct info. cbn in *. subst. now rewrite A1, A2.
           ++ apply filter_In. split; [exact Hin|]. cbn [fst snd].
              now rewrite String.eqb_refl, (Hfk a fk Hc).
  - split; [constructor|]. intros info. split; [intros []|].
    intros [[_ [_ [fk [Hl _]]]]|[_ [_ [fk [Hl _]]]]];
      destruct (Hfound _ _ fk Hl) as [a [Hin _]];
      destruct (Harc _ _ _ Hin) as [Hu [Hv _]]; congruence.
Qed.

Lemma get_foreign_keys_built_witness :
  In (mkForeignKeyInfo "branches" "customers" (Some "customer_id") (Some "id") "outgoing")
     (get_foreign_keys (schema_of hub_db) "branches")
  /\ In (mkForeignKeyInfo "xfers" "branches" (Some "branch_id") (Some "id") "incoming")
        (get_foreign_keys (schema_of hub_db) "branches").
Proof.
  destruct (get_foreign_keys_built hub_db (schema_of hub_db) "branches" eq_refl) as [_ H].
  split; apply H.
  - left. split; [reflexivity|]. split; [reflexivity|].
    exists (mkFK "customers" "customer_id" "id"). repeat split.
  - right. split; [reflexivity|]. split; [reflexivity|].
    exists (mkFK "branches" "branch_id" "id"). repeat split.
Defined.

(** ** Graph statistics *)

Lemma count_name_exact (x : string) (names : list string) :
  NoDup names -> In x names ->
  list_sum (map (fun v => if String.eqb x v then 1 else 0)%nat names) = 1%nat.
Proof.
  induction 1 as [|v names Hv Hnd IH]; intros Hin; [destruct Hin|].
  cbn [map]. rewrite list_sum_cons.
  pose proof (count_name_once x names Hnd) as Hle.
  destruct Hin as [->|Hin].
  - rewrite String.eqb_refl.
    assert (H0 : list_sum (map (fun w => if String.eqb x w then 1 else 0)%nat names) = 0%nat).
    { clear IH Hle Hnd. induction names as [|w names IH]; [reflexivity|].
      cbn [map]. rewrite list_sum_cons. destruct (String.eqb_spec x w) as [->|Hw].
      - exfalso. apply Hv. now left.
      - rewrite IH; [reflexivity|]. intros H. apply Hv. now right. }
    lia.
  - specialize (IH Hin). destruct (String.eqb_spec x v) as [->|Hne]; [contradiction | lia].
Qed.

Lemma ends_sum (key : string * string * EdgeAttrs -> string) (es : EdgeList)
    (names : list string) :
  NoDup names -> (forall e, In e es -> In (key e) names) ->
  list_sum (map (fun n => length (filter (fun e => String.eqb (key e) n) es)) names)
  = length es.
Proof.
  intros Hnd. induction es as [|e es IH]; intros Hin.
  - cbn [filter length]. induction names as [|n names IHn]; [reflexivity|].
    cbn [map]. rewrite list_sum_cons. inversion Hnd. now rewrite IHn.
  - assert (Hsplit : forall n,
              length (filter (fun e => String.eqb (key e) n) (e :: es))
              = ((if String.eqb (key e) n then 1 else 0)
                 + length (filter (fun e => String.eqb (key e) n) es))%nat).
    { intros n. cbn [filter]. destruct (String.eqb (key e) n); reflexivity. }
    rewrite (map_ext _ (fun n => ((if String.eqb (key e) n then 1 else 0)
                                  + length (filter (fun e => String.eqb (key e) n) es))%nat)
               Hsplit).
    rewrite (list_sum_map_add (fun n => if String.eqb (key e) n then 1 else 0)%nat
               (fun n => length (filter (fun e => String.eqb (key e) n) es)) names).
    rewrite (count_name_exact (key e) names Hnd (Hin e (or_introl eq_refl))).
    rewrite IH; [reflexivity|]. intros x Hx. apply Hin. now right.
Qed.

(** Every arc is counted at its source and at its target. *)
Lemma degree_handshake (g : DiGraph) :
  NoDup (node_names (d_nodes g)) -> wf_digraph g = true ->
  list_sum (map (d_degree g) (node_names (d_nodes g))) = (2 * length (d_edges g))%nat.
Proof.
  intros Hnd Hwf. unfold wf_digraph in Hwf. rewrite forallb_forall in Hwf.
  unfold d_degree.
  rewrite (list_sum_map_add
             (fun n => length (filter (fun e => String.eqb (fst (fst e)) n) (d_edges g)))
             (fun n => length (filter (fun e => String.eqb (snd (fst e)) n) (d_edges g)))).
  rewrite (ends_sum (fun e => fst (fst e)) (d_edges g) _ Hnd),
          (ends_sum (fun e => snd (fst e)) (d_edges g) _ Hnd); [lia| |].
  - intros e He. specialize (Hwf e He). apply andb_prop in Hwf.
    now apply d_has_node_In.
  - intros e He. specialize (Hwf e He). apply andb_prop in Hwf.
    now apply d_has_node_In.
Qed.

Lemma add_node_in_fresh (ns : NodeList) (n : string) (a : NodeAttrs) :
  ~ In n (node_names ns) -> add_node_in ns n a = ns ++ [(n, a)].
Proof.
  induction ns as [|[m b] ns IH]; cbn [node_names map fst add_node_in app]; intros Hn;
    [reflexivity|].
  destruct (String.eqb_spec m n) as [->|Hne]; [exfalso; apply Hn; now left|].
  rewrite IH; [reflexivity|]. intros H. apply Hn. now right.
Qed.

Lemma add_tables_fresh (f : TableMeta -> NodeAttrs) (l : Database) :
  forall g : DiGraph,
    NoDup (node_names (d_nodes g) ++ map t_name l) ->
    d_nodes (fold_left (fun g t => d_add_node g (t_name t) (f t)) l g)
    = d_nodes g ++ map (fun t => (t_name t, f t)) l.
Proof.
  induction l as [|t l IH]; intros g Hnd; cbn [fold_left map].
  - now rewrite app_nil_r.
  - assert (Hfresh : ~ In (t_name t) (node_names (d_nodes g))).
    { intros Hin. cbn [map] in Hnd. apply NoDup_remove_2 in Hnd. apply Hnd.
      apply in_or_app. now left. }
    rewrite IH.
    + unfold d_add_node. cbn [d_nodes]. rewrite (add_node_in_fresh _ _ _ Hfresh).
      now rewrite <- app_assoc.
    + unfold d_add_node. cbn [d_nodes]. rewrite (add_node_in_fresh _ _ _ Hfresh).
      unfold node_names. rewrite map_app. cbn [map fst]. rewrite <- app_assoc.
      cbn [app map] in Hnd |- *. exact Hnd.
Qed.

Lemma build_from_database_nodes (db : Database) (g : DiGraph) :
  build_from_database db = Ok g -> NoDup (map t_name db) ->
  d_nodes g
  = map (fun t => (t_name t,
                   mkNode (Some "table") (Some (t_row_count t)) (Some (t_columns t))
                          (Some (Z.of_nat (length (t_columns t)))) None None None None))
        db.
Proof.
  intros Hg Hnd. unfold build_from_database in Hg. cbv zeta in Hg.
  rewrite foldM_declared in Hg.
  set (f := fun t => mkNode (Some "table") (Some (t_row_count t)) (Some (t_columns t))
                       (Some (Z.of_nat (length (t_columns t)))) None None None None) in *.
  set (with_nodes := fold_left (fun g t => d_add_node g (t_name t) (f t)) db
                       (mkDiGraph [] [])) in *.
  destruct (foreign_keys_added db (declared db) with_nodes g) as [Hnodes _]; [| |exact Hg|].
  - unfold with_nodes. apply add_tables_counted.
    + intros t b0. split; repeat split; reflexivity.
    + apply incl_refl.
    + intros n a [].
  - unfold with_nodes. now rewrite add_tables_edges.
  - rewrite Hnodes. unfold with_nodes. now rewrite add_tables_fresh.
Qed.

Lemma total_rows_sum (l : Database) (f : TableMeta -> NodeAttrs) :
  (forall t, n_row_count (f t) = Some (t_row_count t)) ->
  forall acc : Z,
    fold_left (fun total p => (total + match n_row_count (snd p) with
                                        | Some r => r
                                        | None => 0
                                        end)%Z)
              (map (fun t => (t_name t, f t)) l) acc
    = (acc + fold_right (fun t total => (t_row_count t + total)%Z) 0%Z l)%Z.
Proof.
  intros Hf. induction l as [|t l IH]; intros acc; cbn [map fold_left fold_right]; [lia|].
  rewrite IH. cbn [snd]. rewrite Hf. lia.
Qed.

(** X30: [get_statistics] answers with the error entry as long as the
    graph was not built.  On the graph built from a database without tables
    it raises, because the connectivity test of networkx refuses the null
    graph before the guarded average is reached.  On the graph built from a
    database with tables of distinct names it reports the number of tables,
    no more arcs than foreign keys declared, the sum of the tables' row
    counts, and an average degree of twice the arcs per table. *)
Theorem get_graph_statistics_built (db : Database) (g : DiGraph) :
  build_from_database db = Ok g -> NoDup (map t_name db) ->
  get_graph_statistics false g = Ok None
  /\ (db = [] -> get_graph_statistics true g = Err NetworkXPointlessConcept)
  /\ (db <> [] ->
      exists s,
        get_graph_statistics true g = Ok (Some s)
        /\ num_tables s = length db
        /\ (num_foreign_keys s <= length (declared db))%nat
        /\ total_rows s = fold_right (fun t total => (t_row_count t + total)%Z) 0%Z db
        /\ avg_degree s * inject_Z (Z.of_nat (num_tables s))
           == inject_Z (2 * Z.of_nat (num_foreign_keys s))
        /\ (1 <= num_components s)%nat).
Proof.
  intros Hg Hnd. pose proof (build_from_database_nodes db g Hg Hnd) as Hnodes.
  pose proof (build_from_database_wf db g Hg) as Hwf.
  assert (Hgraph : nodes (to_undirected g) = d_nodes g)
    by now apply to_undirected_node_list.
  split; [reflexivity|]. split.
  - intros ->. unfold get_graph_statistics. cbn [negb]. unfold is_connected.
    rewrite Hgraph, Hnodes. reflexivity.
  - intros Hne. unfold get_graph_statistics. cbn [negb]. cbv zeta.
    destruct (is_connected (to_undirected g)) as [connected|e] eqn:Hconn.
    2:{ unfold is_connected in Hconn. rewrite Hgraph, Hnodes in Hconn.
        destruct db as [|t db]; [now contradiction Hne|]. cbn [map] in Hconn.
        discriminate Hconn. }
    cbn [bind]. eexists. split; [reflexivity|].
    cbn [num_tables num_foreign_keys total_rows avg_degree num_components].
    assert (Hlen : length (d_nodes g) = length db) by (rewrite Hnodes; apply length_map).
    assert (Hnames : NoDup (node_names (d_nodes g))).
    { rewrite Hnodes. unfold node_names. rewrite map_map. cbn [fst]. exact Hnd. }
    split; [exact Hlen|]. split; [|split; [|split]].
    + destruct (build_from_database_arcs db g Hg) as [Hpairs Hlast].
      assert (Hincl : incl (map fst (d_edges g))
                           (map (fun p => (fst p, fk_table (snd p))) (declared db))).
      { intros [u v] Huv. apply in_map_iff in Huv. destruct Huv as [[[u' v'] a] [Hk Hin]].
        cbn [fst] in Hk. inversion Hk; subst u' v'.
        pose proof (d_edge_unique g u v a Hpairs Hin) as He. specialize (Hlast u v).
        destruct (last_declared (declared db) u v) as [fk|] eqn:Hfk; [|congruence].
        unfold last_declared in Hfk.
        destruct (find _ (rev (declared db))) as [p|] eqn:Hfind; [|discriminate Hfk].
        apply find_some in Hfind. destruct Hfind as [Hp Hmatch].
        apply andb_prop in Hmatch. destruct Hmatch as [M1 M2].
        apply String.eqb_eq in M1, M2. apply in_rev in Hp.
        apply in_map_iff. exists p. split; [now rewrite M1, M2 | exact Hp]. }
      pose proof (NoDup_incl_length Hpairs Hincl) as Hle.
      now rewrite !length_map in Hle.
    + rewrite Hnodes. rewrite total_rows_sum; [lia | reflexivity].
    + rewrite (degree_handshake g Hnames Hwf).
      destruct (length (d_nodes g)) as [|k] eqn:Hk.
      * destruct db; [now contradiction Hne | discriminate Hlen].
      * cbn [Nat.ltb Nat.leb].
        assert (Hpos : ~ inject_Z (Z.of_nat (S k)) == 0).
        { intros H0. unfold Qeq in H0. cbn [Qnum Qden inject_Z] in H0. lia. }
        replace (2 * Z.of_nat (length (d_edges g)))%Z
          with (Z.of_nat (2 * length (d_edges g))) by lia.
        field. exact Hpos.
    + pose proof (is_connected_nodes (to_undirected g) connected Hconn) as Hsome.
      destruct (connected_components (to_undirected g)); [now contradiction Hsome | cbn; lia].
Qed.

Lemma get_graph_statistics_built_witness :
  exists s,
    get_graph_statistics true (schema_of hub_db) = Ok (Some s)
    /\ num_tables s = 5%nat
    /\ avg_degree s * inject_Z (Z.of_nat (num_tables s))
       == inject_Z (2 * Z.of_nat (num_foreign_keys s)).
Proof.
  destruct (get_graph_statistics_built hub_db (schema_of hub_db) eq_refl)
    as [_ [_ H]].
  - repeat constructor; cbn; intuition discriminate.
  - destruct H as [s [H1 [H2 [_ [_ [H3 _]]]]]]; [discriminate|].
    exists s. split; [exact H1|]. split; [exact H2 | exact H3].
Defined.
